(* ===== verification/_CoqProject ===== *)
-Q . S2P
Prelude.v
Strconv.v
Json.v
OrdTree.v
KvTypes.v
KeyIndex.v
TreeIndex.v
IndexRevs.v
Storage.v
Inmem.v
Durable.v
DurableInv.v
Backend.v
Mvcc.v
MvccInv.v
Compaction.v
Recovery.v
Api.v
Engine.v
Heap.v
Lease.v
LeaseInv.v
Ot.v
Loops.v
Fsm.v
Replicas.v
Snapshots.v
Peer.v
RaftSvc.v
Node.v
Http.v
HttpInv.v
Config.v
Watch.v
WatchInv.v
WatchSys.v
Stream.v
Services.v
Session.v
KvApi.v
Util.v
LeaseLock.v
Metrics.v
Client.v
WatchLoop.v
Stats.v
Mtls.v
NodeInit.v
