(* ===== verification/Prelude.v ===== *)
(** * Kave: a replicated multi-version key-value store

    This library models the Go program under [src/internal] and [src/cmd] and proves its
    correctness properties. A node of the program replicates a log of commands with
    Raft; each committed entry is applied to a state machine that runs key-value
    commands, leases, compactions and oblivious transfer against one storage backend.

    ** Files and the code they model

    - [Prelude]: bytes, machine integers with explicit wrap-around ([i64], [u64]),
      big-endian encodings, Go errors as lists of causes, the result type [res] (value,
      error, panic) and the state monad [M] of handlers, with the tactics and hints.
    - [OrdTree]: the class [BTree], the contract of google/btree, and its model by sorted
      lists.
    - [KvTypes]: [kv/revision.go, bucket_key.go, entry.go, event.go, prefix.go,
      options.go], [util/codec.go, id.go].
    - [KeyIndex], [TreeIndex], [IndexRevs]: [kv/key_index.go] and [kv/tree_index.go];
      the last file characterises the revision windows the watch loop asks for.
    - [Storage], [Inmem], [Durable], [DurableInv], [Backend]: [storage/types.go],
      [schema], the contract [ByteStore] of [bytestore], the in-memory store and the
      bbolt store that meet it, and the transactions of [storage/backend].
    - [Mvcc], [MvccInv], [Compaction], [Recovery]: [mvcc/kvstore.go, reader.go,
      writer.go]; the second file has the invariant and the theorems, the third the proof
      that compaction keeps every read at or above its target, the fourth the proof that
      Restore rebuilds the index.
    - [Api], [Engine]: [types/api], [command], [mvcc/engine.go].
    - [Heap], [Lease], [LeaseInv]: [lease/heap.go, lease.go, bucket_key.go,
      lease_manager.go].
    - [Ot]: [ot/token_codec.go, ot_manager.go] and the receiver of [testutil.go].
    - [Loops]: [lease/expiry_loop.go, checkpoint_scheduler.go],
      [compaction/scheduler.go].
    - [Fsm], [Replicas], [Snapshots]: [fsm/fsm.go]; several state machines fed with one
      log; snapshots between them, and restarts ([initStorage] of [node/node.go]).
    - [Peer], [RaftSvc]: [peer/peer.go, discovery.go], [service/raft_service.go],
      [util/future.go, is_leader.go].
    - [Node]: [fsm/event_watcher.go], and of [node/node.go] bootstrap or join, the
      goroutines of Run and shutdown.
    - [Http], [HttpInv]: [transport/http/middleware.go, ratelimiter.go] and the routing,
      admin and health handlers of [server.go], in a world of servers that proxy to each
      other.
    - [Config]: [config/config.go], the levels and the hclog adapter of
      [util/logutil/log.go], the options of [mtls].
    - [Watch], [WatchInv], [WatchSys]: [watch/watcher.go, hub.go, unsynced_loop.go]; the
      invariant of the hub; the interleavings of commits, creation, removal and the steps of
      the catch-up loop as a transition system.
    - [Strconv], [Json]: the decimal numbers and the JSON scanner of Go's library, as far as
      the program uses them, and the payloads of the watch protocol ([types/api/watch_api.go],
      [watch/wire.go]).
    - [Stream], [Session], [WatchLoop]: [watch/stream.go], [watch/session.go, wire.go] with
      [handleWatch] of [transport/http/server.go], and the start and stop of
      [watch/unsynced_loop.go], with the goroutines as step relations over bounded channels.
    - [Services]: [service] (propose, key-value, leases, oblivious transfer) and the
      status codes of [transport/http] handlers.
    - [KvApi]: histories of requests through those handlers, the propose function and the
      state machine, against an abstract map.
    - [Util]: [util/atomic.go, time.go, future.go].
    - [LeaseLock]: the lock of [lease/lease_manager.go] and the gauge that reads under it.
    - [Metrics]: [metrics], [mvcc/metrics.go].
    - [Stats]: the statistics of [service/raft_service.go] and their handler.
    - [Client]: [cmd/client/main.go] against the routes of [Http].
    - [Mtls]: the stream layer of [mtls/stream_layer.go].
    - [NodeInit]: building a node ([New] of [node/node.go], [config/raft_deps.go]) and the
      outcomes of [cmd/kave/main.go].

    The state of a component is a record with the fields of its struct; a method that
    mutates its receiver is a function in [M], which returns the new state with a value,
    an error or a panic. Interfaces are type classes: [BTree], [ByteStore],
    [SnapshotStore], [LeaseAttacher], [CommitObserver], [WriteObserver],
    [HeapInterface], [RaftService]; libraries are classes with the laws their documentation
    gives ([Bolt], [RaftLib], [Limiter], [ErrGroup], [Prometheus], [TlsLib],
    [RaftOpen]); a client's theorems hold for every instance. Objects that the Go
    code shares by pointer (the items of the lease heap) live in a table of references.
    The lease manager, the OT manager and the key-value store share one backend, which
    is the [kv_backend] field of the store.

    ** What the theorems show

    - Encodings: revision keys and entries round-trip, encoded keys sort like revisions,
      truncated entries are refused, prefix ranges select the right keys.
    - Indexes: the history of a key behaves like a list of events under put, tombstone,
      read, undo and compaction; the tree of all keys stays well formed.
    - Storage: a batch applies its writes in order and atomically, snapshots round-trip,
      write transactions are isolated.
    - Multi-version store: index and stored entries agree ([kv_inv]); a writer's commit
      is one new revision and changes no earlier read, an abort leaves no trace, reads
      return exactly the visible entries.
    - Engine and state machine: applying a command refines one step of an abstract map of
      live entries; a log entry is applied at most once.
    - End to end: a history of requests to the HTTP handlers of a node whose proposals Raft
      commits is a history of the abstract map; reads return exactly its entries at the
      revision of the last write.
    - Replication: replicas that apply one log of key-value commands stay in the state an
      abstract machine computes and answer alike, whatever their storage and clocks; so do a
      replica that installs a snapshot and a node that restarts on its storage, as long as no
      compaction is recorded there. Compactions are not ordered with the log, and replicas
      diverge on a transaction that reads below the target of one that is still pending.
    - Cluster: the leader the service names is configured and registered, joining ends
      within known bounds, every background loop learns of the latest leader change; Run
      never reports a clean stop and outlives a failed HTTP server.
    - Transport: requests that need the leader are served by it, admin routes need the
      token, each CORS header is sent once, the limiter tables are bounded.
    - Configuration: what is loaded passed its checks, and one node of a set bootstraps.
    - Leases: the expiry queue is a heap that agrees with the lease map after any
      sequence of operations, a drain removes exactly the items whose recorded expiry has
      passed; a revocation deletes exactly the lease's keys. The manager's lock is exclusive
      and live, until the gauge of active leases is read once: then no operation that takes it
      finishes any more.
    - Loops: a pending leadership notice is the latest one, and the expiry loop ticks only after
      a grant or while the notice of a loss is pending; compaction targets lag one tick.
    - Watches: in every interleaving a watcher gets a subsequence of the events it asked
      for, in revision order and without repetition, and no step panics but a send of the catch-up
      loop that races with the closing of its channel; a synced watcher gets a commit's first
      matching event, an unsynced one catches up with its key; closing a stream drops the
      watchers of the ids it has registered. Watch responses round-trip through their JSON; error answers are not JSON
      and end the session.
    - Services: a command refused by the state machine and a read at a bad revision reach
      the client with the status the code gives them.
    - Metrics: a node registers its metric families without a panic, and the Raft collector
      emits what it describes; the statistics of a node can be read back.
    - Node: a loaded configuration gives a node with all its observers registered, unless Raft
      cannot be opened or the peers do not number three or five; connections between nodes are
      verified at both ends; the server process never ends with status 0.
    - Client: every operation of the command line client fails against this server.
    - Oblivious transfer: an honest receiver decrypts exactly the chosen slot.
    - Several theorems state where the code deviates from what it documents.

    ** Fuel

    Loops that are not structural take fuel: the sifting loops of the heap are bounded by
    the position and the length, a drain by the length of the queue, the batched scans of
    compaction and of the lease restore by the distance to the target revision and the
    size of the bucket, proxying by the number of hops, joining by its attempts, the JSON scanner by twice the
    length of its input. For the heap, the drain, compaction ([Compaction]) and the scanner
    ([scan_fuel]) the bound is proved to suffice; the transport theorems hold for every number
    of hops.

    ** Not modelled

    Raft itself, gob, bbolt, net/http, the errgroup, rate and Prometheus libraries, DNS, the
    elliptic-curve group, hashes and ciphers are library code and appear as parameters or
    classes with the laws the code uses; so does the decoding of JSON requests, while the
    JSON of the watch protocol is modelled. The websocket upgrade,
    counters and histograms, log formatting, the real clock and the tickers and test helpers only pass values to libraries, and are not modelled. Locks are not modelled but for
    that of the lease manager ([LeaseLock]): an operation that holds its lock from start to end
    is one step; where the code releases a lock between two parts, the parts are separate
    steps, down to the single sends of the catch-up loop ([WatchSys]), which holds no lock there.
    Compaction of the index is one step, while the code takes the lock for every key. *)

From Stdlib Require Import ZArith Lia.
From Stdlib.Strings Require Byte.
From stdpp Require Import base gmap sets list strings sorting.

#[global] Set Default Proof Using "Type".

(** ** Bytes *)

Abbreviation byte := Byte.byte.
Abbreviation bytes := (list Byte.byte).

#[export] Instance byte_eq_dec : EqDecision byte := Byte.byte_eq_dec.

Definition byteZ (b : byte) : Z := Z.of_N (Byte.to_N b).

(** Conversion of an integer to a byte keeps its low eight bits. *)
Definition Zbyte (z : Z) : byte :=
  default Byte.x00 (Byte.of_N (Z.to_N (z `mod` 256))).

#[export] Program Instance byte_countable : Countable byte :=
  inj_countable' (fun b => Byte.to_N b) (fun n => default Byte.x00 (Byte.of_N n)) _.
Next Obligation. intros b. simpl. by rewrite Byte.of_to_N. Qed.

Lemma byteZ_range b : (0 <= byteZ b < 256)%Z.
Proof.
  unfold byteZ. pose proof (Byte.to_N_bounded b). lia.
Qed.

Lemma Zbyte_byteZ b : Zbyte (byteZ b) = b.
Proof.
  unfold Zbyte. rewrite Z.mod_small by apply byteZ_range.
  unfold byteZ. by rewrite N2Z.id, Byte.of_to_N.
Qed.

Lemma byteZ_Zbyte z : byteZ (Zbyte z) = (z `mod` 256)%Z.
Proof.
  unfold Zbyte, byteZ.
  assert (0 <= z `mod` 256 < 256)%Z as Hr by (apply Z.mod_pos_bound; lia).
  destruct (Byte.of_N (Z.to_N (z `mod` 256))) as [b|] eqn:E; simpl.
  - apply Byte.to_of_N in E. rewrite E. lia.
  - apply Byte.of_N_None_iff in E. lia.
Qed.

#[export] Instance byteZ_inj : Inj (=) (=) byteZ.
Proof. intros a b H. by rewrite <-(Zbyte_byteZ a), H, Zbyte_byteZ. Qed.

(** ** Two's-complement machine integers *)

Definition MaxInt64 : Z := 2 ^ 63 - 1.
Definition MinInt64 : Z := - 2 ^ 63.

(** [u64] and [i64] are Go's conversions [uint64(z)] and [int64(z)]; the
    arithmetic of the model wraps by applying them to the exact result. *)
Definition u64 (z : Z) : Z := z `mod` 2 ^ 64.
Definition u32 (z : Z) : Z := z `mod` 2 ^ 32.
Definition i64 (z : Z) : Z := (z + 2 ^ 63) `mod` 2 ^ 64 - 2 ^ 63.

Definition in_i64 (z : Z) : Prop := (MinInt64 <= z <= MaxInt64)%Z.
#[export] Instance in_i64_dec z : Decision (in_i64 z).
Proof. unfold in_i64. apply _. Defined.

Lemma i64_id z : in_i64 z -> i64 z = z.
Proof.
  unfold in_i64, i64, MinInt64, MaxInt64. intros H.
  rewrite Z.mod_small by lia. lia.
Qed.

Lemma i64_in z : in_i64 (i64 z).
Proof.
  unfold in_i64, i64, MinInt64, MaxInt64.
  pose proof (Z.mod_pos_bound (z + 2 ^ 63) (2 ^ 64)). lia.
Qed.

(** [i64] only looks at a number modulo [2^64], so inner wraps disappear. *)
Lemma i64_le z : (MinInt64 <= z -> i64 z <= z)%Z.
Proof.
  unfold i64, MinInt64. intros H. pose proof (Z.mod_le (z + 2 ^ 63) (2 ^ 64)). lia.
Qed.

Lemma i64_congr a b : (a `mod` 2 ^ 64 = b `mod` 2 ^ 64)%Z -> i64 a = i64 b.
Proof.
  unfold i64. intros H. f_equal.
  by rewrite (Z.add_mod a), (Z.add_mod b), H by lia.
Qed.

Lemma i64_mod a : (i64 a `mod` 2 ^ 64 = a `mod` 2 ^ 64)%Z.
Proof.
  unfold i64. rewrite Zminus_mod_idemp_l. f_equal. lia.
Qed.

Lemma u64_mod a : (u64 a `mod` 2 ^ 64 = a `mod` 2 ^ 64)%Z.
Proof. unfold u64. by rewrite Z.mod_mod by lia. Qed.

Lemma i64_add_l a b : i64 (i64 a + b) = i64 (a + b).
Proof.
  apply i64_congr. by rewrite Z.add_mod, i64_mod, <-Z.add_mod by lia.
Qed.

Lemma i64_sub_l a b : i64 (i64 a - b) = i64 (a - b).
Proof. rewrite <-!Z.add_opp_r. apply i64_add_l. Qed.

Lemma i64_u64 a : i64 (u64 a) = i64 a.
Proof. apply i64_congr, u64_mod. Qed.

Lemma i64_i64 a : i64 (i64 a) = i64 a.
Proof. apply i64_congr, i64_mod. Qed.

Lemma u64_range z : (0 <= u64 z < 2 ^ 64)%Z.
Proof. unfold u64. apply Z.mod_pos_bound. lia. Qed.

Lemma u64_neg z : (- 2 ^ 64 <= z < 0)%Z -> u64 z = (z + 2 ^ 64)%Z.
Proof. intros Hz. unfold u64. rewrite <-(Z_mod_plus_full z 1), Z.mul_1_l. apply Z.mod_small. lia. Qed.

Lemma u64_id z : (0 <= z < 2 ^ 64)%Z -> u64 z = z.
Proof. apply Z.mod_small. Qed.

(** ** Byte strings: [bytes.Compare] *)

Fixpoint bytes_compare (a b : bytes) : comparison :=
  match a, b with
  | [], [] => Eq
  | [], _ :: _ => Lt
  | _ :: _, [] => Gt
  | x :: a', y :: b' =>
      match Z.compare (byteZ x) (byteZ y) with
      | Eq => bytes_compare a' b'
      | c => c
      end
  end.

Definition bytes_ltb (a b : bytes) : bool :=
  match bytes_compare a b with Lt => true | _ => false end.
Definition bytes_leb (a b : bytes) : bool :=
  match bytes_compare a b with Gt => false | _ => true end.

Lemma bytes_compare_refl a : bytes_compare a a = Eq.
Proof. induction a as [|x a IH]; simpl; [done|]. by rewrite Z.compare_refl. Qed.

Lemma bytes_compare_eq a b : bytes_compare a b = Eq <-> a = b.
Proof.
  split; [|intros ->; apply bytes_compare_refl].
  revert b. induction a as [|x a IH]; intros [|y b]; simpl; try done.
  destruct (Z.compare_spec (byteZ x) (byteZ y)) as [E| |]; try done.
  intros H. by rewrite (inj byteZ _ _ E), (IH _ H).
Qed.

Lemma bytes_compare_antisym a b : bytes_compare b a = CompOpp (bytes_compare a b).
Proof.
  revert b. induction a as [|x a IH]; intros [|y b]; simpl; try done.
  rewrite (Z.compare_antisym (byteZ x)).
  destruct (Z.compare_spec (byteZ x) (byteZ y)); simpl; auto.
Qed.

Lemma bytes_compare_lt_trans a b c :
  bytes_compare a b = Lt -> bytes_compare b c = Lt -> bytes_compare a c = Lt.
Proof.
  revert b c. induction a as [|x a IH]; intros [|y b] [|z c]; simpl; try done.
  destruct (Z.compare_spec (byteZ x) (byteZ y)),
    (Z.compare_spec (byteZ y) (byteZ z)); try done;
    destruct (Z.compare_spec (byteZ x) (byteZ z)); try done; try lia.
  intros. by eapply IH.
Qed.

Lemma bytes_ltb_irrefl a : bytes_ltb a a = false.
Proof. unfold bytes_ltb. by rewrite bytes_compare_refl. Qed.

Lemma bytes_ltb_trans a b c :
  bytes_ltb a b = true -> bytes_ltb b c = true -> bytes_ltb a c = true.
Proof.
  unfold bytes_ltb. intros Hab Hbc.
  destruct (bytes_compare a b) eqn:E1; try done.
  destruct (bytes_compare b c) eqn:E2; try done.
  by rewrite (bytes_compare_lt_trans _ _ _ E1 E2).
Qed.

Lemma bytes_ltb_total a b :
  bytes_ltb a b = false -> bytes_ltb b a = false -> a = b.
Proof.
  unfold bytes_ltb. rewrite (bytes_compare_antisym a b).
  destruct (bytes_compare a b) eqn:E; try done.
  intros _ _. by apply bytes_compare_eq.
Qed.

Lemma bytes_leb_ltb a b : bytes_leb a b = negb (bytes_ltb b a).
Proof.
  unfold bytes_leb, bytes_ltb. rewrite (bytes_compare_antisym a b).
  by destruct (bytes_compare a b).
Qed.

Lemma bytes_leb_ltb_trans a b c :
  bytes_leb a b = true -> bytes_ltb b c = true -> bytes_ltb a c = true.
Proof.
  unfold bytes_leb. destruct (bytes_compare a b) eqn:E; try done; intros _.
  - apply bytes_compare_eq in E as ->. done.
  - apply bytes_ltb_trans. unfold bytes_ltb. by rewrite E.
Qed.

Lemma bytes_compare_app_l p a b : bytes_compare (p ++ a) (p ++ b) = bytes_compare a b.
Proof. induction p as [|x p IH]; simpl; [done|]. by rewrite Z.compare_refl. Qed.

(** ** Big-endian integers ([binary.BigEndian]) *)

Fixpoint be_put (n : nat) (z : Z) : bytes :=
  match n with
  | O => []
  | S n' => Zbyte (z `div` 256 ^ Z.of_nat n') :: be_put n' z
  end.

Fixpoint be_get (bs : bytes) : Z :=
  match bs with
  | [] => 0
  | b :: t => byteZ b * 256 ^ Z.of_nat (length t) + be_get t
  end.

Lemma length_be_put n z : length (be_put n z) = n.
Proof. induction n; simpl; by f_equal. Qed.

Lemma be_get_bound bs : (0 <= be_get bs < 256 ^ Z.of_nat (length bs))%Z.
Proof.
  induction bs as [|b bs IH]; cbn [be_get length]; [simpl; lia|].
  rewrite Nat2Z.inj_succ, Z.pow_succ_r by lia.
  pose proof (byteZ_range b). nia.
Qed.

Lemma be_get_put n z : be_get (be_put n z) = (z `mod` 256 ^ Z.of_nat n)%Z.
Proof.
  induction n as [|n IH]; cbn [be_get be_put]; [by rewrite Z.mod_1_r|].
  rewrite length_be_put, IH, byteZ_Zbyte, Nat2Z.inj_succ, Z.pow_succ_r by lia.
  assert (0 < 256 ^ Z.of_nat n)%Z as Hp by (apply Z.pow_pos_nonneg; lia).
  rewrite (Z.mul_comm 256), Z.rem_mul_r by lia. lia.
Qed.

Lemma be_get_inj a b : length a = length b -> be_get a = be_get b -> a = b.
Proof.
  revert b. induction a as [|x a IH]; intros [|y b]; try done; simpl.
  intros [= Hl]. rewrite Hl. intros H.
  pose proof (be_get_bound a). pose proof (be_get_bound b). rewrite Hl in *.
  assert (byteZ x = byteZ y) as E by nia.
  rewrite (inj byteZ _ _ E) in *. f_equal. apply IH; [done|lia].
Qed.

Lemma be_put_get bs : be_put (length bs) (be_get bs) = bs.
Proof.
  apply be_get_inj; [apply length_be_put|].
  rewrite be_get_put. apply Z.mod_small, be_get_bound.
Qed.

Lemma be_get_app a b :
  be_get (a ++ b) = (be_get a * 256 ^ Z.of_nat (length b) + be_get b)%Z.
Proof.
  induction a as [|x a IH]; simpl; [lia|].
  rewrite IH, length_app, Nat2Z.inj_add, Z.pow_add_r by lia. lia.
Qed.

(** Comparing equal-length encodings bytewise compares the encoded numbers. *)
Lemma bytes_compare_be a b :
  length a = length b -> bytes_compare a b = Z.compare (be_get a) (be_get b).
Proof.
  revert b. induction a as [|x a IH]; intros [|y b]; try done; simpl.
  intros [= Hl]. rewrite Hl.
  pose proof (be_get_bound a). pose proof (be_get_bound b). rewrite Hl in *.
  destruct (Z.compare_spec (byteZ x) (byteZ y)) as [E|E|E].
  - rewrite E, IH by done.
    destruct (Z.compare_spec (be_get a) (be_get b)); symmetry;
      [apply Z.compare_eq_iff|apply Z.compare_lt_iff|apply Z.compare_gt_iff]; lia.
  - symmetry. apply Z.compare_lt_iff. nia.
  - symmetry. apply Z.compare_gt_iff. nia.
Qed.

Lemma bytes_compare_app a b a' b' :
  length a = length b ->
  bytes_compare (a ++ a') (b ++ b') =
    match bytes_compare a b with Eq => bytes_compare a' b' | c => c end.
Proof.
  revert b. induction a as [|x a IH]; intros [|y b]; try done; simpl.
  intros [= Hl]. rewrite IH by done. by destruct (Z.compare _ _).
Qed.

Lemma bytes_compare_be_put n a b :
  (0 <= a < 256 ^ Z.of_nat n)%Z -> (0 <= b < 256 ^ Z.of_nat n)%Z ->
  bytes_compare (be_put n a) (be_put n b) = Z.compare a b.
Proof.
  intros. rewrite bytes_compare_be by (by rewrite !length_be_put).
  by rewrite !be_get_put, !Z.mod_small.
Qed.

(** ** Errors, panics and the state monad of the handlers *)

(** A Go error is the list of causes it wraps ([fmt.Errorf] with [%w] keeps the
    cause, [%v] replaces it by a message); [errors.Is] looks for a cause. *)
Inductive cause : Type :=
  | ErrKeyIndexError | ErrRevNotFound | ErrKeyNotFound | ErrCompacted
  | ErrCompactionFailed | ErrBucketNotFound | ErrBatchClosed | ErrEmptyKey
  | ErrInternalStorageError | ErrDecodingFailed
  | ErrLease | ErrLeaseIdZero | ErrLeaseIDConflict | ErrLeaseNotFound | ErrLeaseInvalidTTL
  | ErrPropose | ErrNilApplyResult | ErrInvalidCommandPayload
  | ErrMsg (msg : string).

#[export] Instance cause_eq_dec : EqDecision cause.
Proof. solve_decision. Defined.

Abbreviation error := (list cause).
Definition errors_Is (e : error) (c : cause) : bool := bool_decide (c ∈ e).
Definition errMsg (m : string) : error := [ErrMsg m].

Lemma list_filter_ext_in {A} (P Q : A -> Prop) `{!forall x, Decision (P x)} `{!forall x, Decision (Q x)} (l : list A) :
  (forall x, x ∈ l -> P x <-> Q x) -> filter P l = filter Q l.
Proof.
  induction l as [|x l IH]; intros HPQ; [done|]. rewrite !filter_cons, IH by (intros; apply HPQ; by right).
  assert (P x <-> Q x) by (apply HPQ; left). repeat case_decide; naive_solver.
Qed.

(** The result of a Go call: a value, an error value, or a run-time panic. *)
Inductive res (A : Type) : Type :=
  | Ok (a : A)
  | Err (e : error)
  | Panicked.
Arguments Ok {A} _.
Arguments Err {A} _.
Arguments Panicked {A}.

#[export] Instance res_eq_dec `{EqDecision A} : EqDecision (res A).
Proof. solve_decision. Defined.

#[export] Instance res_ret : MRet res := fun A a => Ok a.
#[export] Instance res_bind : MBind res := fun A B f m =>
  match m with Ok a => f a | Err e => Err e | Panicked => Panicked end.

Definition is_Ok {A} (r : res A) : Prop := exists a, r = Ok a.

(** Handlers that mutate a receiver: state in, state and result out. The state
    reached before an error or a panic is part of the outcome. *)
Definition M (St A : Type) : Type := St -> St * res A.

#[export] Instance M_ret {St} : MRet (M St) := fun A a s => (s, Ok a).
#[export] Instance M_bind {St} : MBind (M St) := fun A B f m s =>
  match m s with
  | (s', Ok a) => f a s'
  | (s', Err e) => (s', Err e)
  | (s', Panicked) => (s', Panicked)
  end.

Definition get_st {St} : M St St := fun s => (s, Ok s).
Definition put_st {St} (s : St) : M St unit := fun _ => (s, Ok tt).
Definition modify {St} (f : St -> St) : M St unit := fun s => (f s, Ok tt).
Definition fail {St A} (e : error) : M St A := fun s => (s, Err e).
Definition lift {St A} (r : res A) : M St A := fun s => (s, r).
(** [try m] runs [m] and hands its error to the caller as a value. *)
Definition try {St A} (m : M St A) : M St (A + error) := fun s =>
  match m s with
  | (s', Ok a) => (s', Ok (inl a))
  | (s', Err e) => (s', Ok (inr e))
  | (s', Panicked) => (s', Panicked)
  end.

Lemma M_bind_Ok {St A B} (m : M St A) (f : A -> M St B) s s' a :
  m s = (s', Ok a) -> (m ≫= f) s = f a s'.
Proof. intros H. unfold mbind, M_bind. by rewrite H. Qed.

Lemma M_bind_Err {St A B} (m : M St A) (f : A -> M St B) s s' e :
  m s = (s', Err e) -> (m ≫= f) s = (s', Err e).
Proof. intros H. unfold mbind, M_bind. by rewrite H. Qed.
Lemma M_bind_Panicked {St A B} (m : M St A) (f : A -> M St B) s :
  (m s).2 = Panicked -> ((m ≫= f) s).2 = Panicked.
Proof. intros H. unfold mbind, M_bind. by destruct (m s) as [s' [a|e|]]. Qed.
Lemma try_Panicked {St A} (m : M St A) s : (m s).2 = Panicked -> (try m s).2 = Panicked.
Proof. intros H. unfold try. by destruct (m s) as [s' [a|e|]]. Qed.

(** A handler preserves an observation of its state, whatever it returns. *)
Definition preserves {S X P} (view : S -> P) (m : M S X) : Prop := forall s, view (m s).1 = view s.

Lemma preserves_bind {S X Y P} (view : S -> P) (m : M S X) (f : X -> M S Y) :
  preserves view m -> (forall x, preserves view (f x)) -> preserves view (m ≫= f).
Proof.
  intros Hm Hf s. specialize (Hm s). unfold mbind, M_bind. destruct (m s) as [s' [x|e|]]; simpl in *; [|done..].
  by rewrite Hf.
Qed.
Lemma preserves_try {S X P} (view : S -> P) (m : M S X) : preserves view m -> preserves view (try m).
Proof. intros Hm s. specialize (Hm s). unfold try. by destruct (m s) as [s' [x|e|]]. Qed.
Lemma preserves_ret {S X P} (view : S -> P) (x : X) : preserves view (mret x).
Proof. done. Qed.
Lemma preserves_fail {S X P} (view : S -> P) e : preserves view (fail (A := X) e).
Proof. done. Qed.
Lemma preserves_lift {S X P} (view : S -> P) (r : res X) : preserves view (lift r).
Proof. done. Qed.
Lemma preserves_get {S P} (view : S -> P) : preserves view get_st.
Proof. done. Qed.
Lemma preserves_modify {S P} (view : S -> P) f : (forall s, view (f s) = view s) -> preserves view (modify f).
Proof. intros H s. apply H. Qed.

Create HintDb preserve.
#[export] Hint Resolve preserves_bind preserves_try preserves_ret preserves_fail preserves_lift
  preserves_get : preserve.
(** Walks through a handler: binds, cases, and the handlers already known. *)
Ltac preserve :=
  repeat first
    [ progress intros
    | apply preserves_bind
    | apply preserves_try
    | apply preserves_modify; intros; reflexivity
    | solve [eauto with preserve]
    | progress case_match ].

(** A run from [s] keeps the invariant and does not panic. *)
Definition runs_ok {S X} (I : S -> Prop) (m : M S X) (s : S) : Prop :=
  I (m s).1 /\ (m s).2 <> Panicked.

Lemma runs_ok_bind {S X Y} (I : S -> Prop) (m : M S X) (f : X -> M S Y) s :
  runs_ok I m s -> (forall x s', m s = (s', Ok x) -> I s' -> runs_ok I (f x) s') -> runs_ok I (m ≫= f) s.
Proof.
  unfold runs_ok at 1 3, mbind, M_bind. intros [HI Hp] Hf. destruct (m s) as [s' [x|e|]] eqn:E; [|done..].
  by apply Hf.
Qed.
Lemma runs_ok_ret {S X} (I : S -> Prop) (x : X) s : I s -> runs_ok I (mret x) s.
Proof. done. Qed.
Lemma runs_ok_modify {S} (I : S -> Prop) f s : I (f s) -> runs_ok I (modify f) s.
Proof. done. Qed.
Lemma runs_ok_try {S X} (I : S -> Prop) (m : M S X) s : runs_ok I m s -> runs_ok I (try m) s.
Proof. unfold runs_ok, try. intros [? ?]. by destruct (m s) as [s' [x|e|]]. Qed.
Lemma runs_ok_impl {S X} (I J : S -> Prop) (m : M S X) s :
  runs_ok I m s -> (forall s, I s -> J s) -> runs_ok J m s.
Proof. intros [? ?] HIJ. split; [by apply HIJ|done]. Qed.

(** ** Lists *)

(** [l[len(l)-1] = f(l[len(l)-1])]; the empty list is left alone. *)
Fixpoint modify_last {A} (f : A -> A) (l : list A) : list A :=
  match l with
  | [] => []
  | [x] => [f x]
  | x :: l' => x :: modify_last f l'
  end.

Lemma modify_last_snoc {A} (f : A -> A) l x : modify_last f (l ++ [x]) = l ++ [f x].
Proof.
  induction l as [|y l IH]; [done|]. cbn [app modify_last]. rewrite IH.
  by destruct l.
Qed.

Lemma last_snoc_inv {A} (l : list A) x : last l = Some x -> exists l', l = l' ++ [x].
Proof.
  destruct l as [|y l] using rev_ind; [done|].
  rewrite last_snoc. intros [= ->]. eauto.
Qed.

Lemma last_filter_app {A} (P : A -> Prop) `{forall x, Decision (P x)} (a b : list A) :
  last (filter P (a ++ b)) =
    match last (filter P b) with Some x => Some x | None => last (filter P a) end.
Proof. by rewrite filter_app, last_app. Qed.

Lemma filter_none {A} (P : A -> Prop) `{forall x, Decision (P x)} (l : list A) :
  Forall (fun x => ~ P x) l -> filter P l = [].
Proof.
  induction 1 as [|x l Hx _ IH]; [done|]. by rewrite filter_cons_False.
Qed.

Lemma filter_all {A} (P : A -> Prop) `{forall x, Decision (P x)} (l : list A) :
  Forall P l -> filter P l = l.
Proof.
  induction 1 as [|x l Hx _ IH]; [done|]. rewrite filter_cons_True by done. by f_equal.
Qed.

(** ** Automation *)

Create HintDb kave.
Create Rewrite HintDb kave.
#[export] Hint Resolve byteZ_range be_get_bound u64_range i64_in : kave.
#[export] Hint Rewrite length_be_put be_get_put i64_add_l i64_sub_l i64_u64 i64_i64 : kave.

(** Case analysis on every [if] and [match] of the goal, closing arithmetic cases. *)
Ltac go_cases := repeat case_match; simplify_eq/=; try done; try lia.
(** Splits the outcome of a monadic run that appears in a hypothesis. *)
Ltac run_inv H :=
  unfold mbind, mret, M_bind, M_ret, res_bind, res_ret, lift, fail, modify, get_st, put_st in H;
  simpl in H; repeat (case_match; simplify_eq/=); simplify_eq/=.

(** Fixed-width encodings compute to long literal lists: the tactics leave them folded. *)
#[global] Opaque be_put be_get i64 u64 u32.

(** ** Handlers that keep an invariant *)

Definition stable {S X} (P : S -> Prop) (m : M S X) : Prop := forall s, P s -> P (m s).1.

Lemma stable_bind {S X Y} (P : S -> Prop) (m : M S X) (f : X -> M S Y) :
  stable P m -> (forall x, stable P (f x)) -> stable P (m ≫= f).
Proof.
  intros Hm Hf s Hs. specialize (Hm s Hs). unfold mbind, M_bind. destruct (m s) as [s' [x|e|]]; simpl in *; [|done..].
  by apply Hf.
Qed.
Lemma stable_try {S X} (P : S -> Prop) (m : M S X) : stable P m -> stable P (try m).
Proof. intros Hm s Hs. specialize (Hm s Hs). unfold try. by destruct (m s) as [s' [x|e|]]. Qed.
Lemma stable_get {S} (P : S -> Prop) : stable P get_st.
Proof. by intros s Hs. Qed.
Lemma stable_ret {S X} (P : S -> Prop) (x : X) : stable P (mret x).
Proof. by intros s Hs. Qed.
Lemma stable_fail {S X} (P : S -> Prop) e : stable P (fail (A := X) e).
Proof. by intros s Hs. Qed.
Lemma stable_lift {S X} (P : S -> Prop) (r : res X) : stable P (lift r).
Proof. by intros s Hs. Qed.

Create HintDb stable.
#[export] Hint Resolve stable_bind stable_try stable_get stable_ret stable_fail stable_lift : stable.
(** Walks through a handler. *)
Ltac stable :=
  repeat first
    [ progress intros
    | solve [auto with stable]
    | apply stable_bind
    | apply stable_try
    | case_match ].
