(* ===== verification/Strconv.v ===== *)
(** Decimal numbers of Go's strconv, as far as the program reads and prints them: ParseUint and ParseInt in base 10,
    against the printer [pretty]. *)

From S2P Require Import Prelude.
From Stdlib Require Import ZArith Lia Ascii.
From stdpp Require Import base list strings pretty.
Open Scope Z_scope.

Abbreviation chars := (list ascii).
Definition str (s : string) : chars := String.list_ascii_of_string s.

Definition digit (c : ascii) : bool := let n := N_of_ascii c in ((48 <=? n) && (n <=? 57))%N.
Definition digit_value (c : ascii) : Z := Z.of_N (N_of_ascii c) - 48.

(** ** Reading *)

(** The number must stay below 2^64. *)
Fixpoint parse_digits (s : chars) (n : Z) : option Z :=
  match s with
  | [] => Some n
  | c :: s =>
      if digit c
      then let n' := n * 10 + digit_value c in if n' <? 2 ^ 64 then parse_digits s n' else None
      else None
  end.

(** strconv.ParseUint(s, 10, 64); its two errors are not told apart. *)
Definition ParseUint (s : chars) : option Z := match s with [] => None | _ => parse_digits s 0 end.

(** strconv.ParseInt(s, 10, 64). *)
Definition ParseInt (s : chars) : option Z :=
  match s with
  | "-"%char :: s => ParseUint s ≫= fun n => if n <=? 2 ^ 63 then Some (- n) else None
  | "+"%char :: s => ParseUint s ≫= fun n => if n <? 2 ^ 63 then Some n else None
  | _ => ParseUint s ≫= fun n => if n <? 2 ^ 63 then Some n else None
  end.

(** ** Printed numbers *)

Lemma pretty_char (d : N) : (d < 10)%N ->
  digit (pretty_N_char d) = true /\ digit_value (pretty_N_char d) = Z.of_N d /\ (d <> 0%N -> pretty_N_char d <> "0"%char).
Proof.
  intros Hd. assert (d = 0 \/ d = 1 \/ d = 2 \/ d = 3 \/ d = 4 \/ d = 5 \/ d = 6 \/ d = 7 \/ d = 8 \/ d = 9)%N as H by lia.
  repeat (destruct H as [->|H]; [by vm_compute|]). by subst d.
Qed.

Lemma parse_pretty_go (n : N) s : Z.of_N n < 2 ^ 64 -> parse_digits (str (pretty_N_go n s)) 0 = parse_digits (str s) (Z.of_N n).
Proof.
  revert s. induction (N.lt_wf_0 n) as [n _ IH]. intros s Hn. destruct (decide (0 < n)%N) as [Hpos|Hz].
  - rewrite pretty_N_go_step by done.
    assert (Z.of_N (n `div` 10) * 10 + Z.of_N (n `mod` 10) = Z.of_N n) as E by (pose proof (N.div_mod n 10 ltac:(done)); lia).
    assert (0 <= Z.of_N (n `mod` 10)) by apply N2Z.is_nonneg. assert (0 <= Z.of_N (n `div` 10)) by apply N2Z.is_nonneg.
    set (q := Z.of_N (n `div` 10)) in *. rewrite IH by first [by apply N.div_lt|fold q; clearbody q; lia]. fold q.
    cbn [str String.list_ascii_of_string parse_digits]. fold (str s).
    destruct (pretty_char (n `mod` 10)) as (-> & -> & _); [by apply N.mod_lt|].
    rewrite E. by rewrite (proj2 (Z.ltb_lt _ _)) by done.
  - replace n with 0%N by lia. by rewrite pretty_N_go_0.
Qed.

(** The digits of a number: no leading zero but for zero itself. *)
Definition numeral (ds : chars) : Prop :=
  ds = ["0"%char] \/ exists d ds', ds = d :: ds' /\ d <> "0"%char /\ Forall (fun c => digit c = true) ds.

Lemma pretty_go_numeral (n : N) s : (0 < n)%N -> exists ds, str (pretty_N_go n s) = ds ++ str s /\ numeral ds /\ ds <> ["0"%char].
Proof.
  revert s. induction (N.lt_wf_0 n) as [n _ IH]. intros s Hpos. rewrite pretty_N_go_step by done.
  destruct (pretty_char (n `mod` 10)) as (Hd & _ & Hnz); [by apply N.mod_lt|].
  destruct (decide (0 < n `div` 10)%N) as [Hq|Hq].
  - destruct (IH (n `div` 10)%N ltac:(by apply N.div_lt) (String (pretty_N_char (n `mod` 10)) s) Hq) as (ds & E & [->|(d & ds' & -> & H1 & H2)] & Hne); [done|].
    exists ((d :: ds') ++ [pretty_N_char (n `mod` 10)]). rewrite E, <-app_assoc. split; [done|]. split.
    + right. exists d, (ds' ++ [pretty_N_char (n `mod` 10)]). split_and!; [done..|]. apply Forall_app. by rewrite Forall_singleton.
    + cbn. intros [= _ ?%app_nil]. naive_solver.
  - apply N.nlt_ge, N.le_0_r in Hq. rewrite Hq, pretty_N_go_0.
    assert (n `mod` 10 <> 0)%N by (intros E; pose proof (N.div_mod n 10 ltac:(done)) as Hdm; rewrite Hq, E in Hdm; subst n; done).
    exists [pretty_N_char (n `mod` 10)]. split; [done|]. split.
    + right. eexists _, []. split_and!; [done|by apply Hnz|by apply Forall_singleton].
    + intros [= E]. by apply Hnz.
Qed.

Lemma pretty_numeral (n : N) : numeral (str (pretty n)).
Proof.
  unfold pretty, pretty_N. case_decide; [by left|].
  destruct (pretty_go_numeral n "" ltac:(lia)) as (ds & -> & Hn & _). cbn. by rewrite app_nil_r.
Qed.

Lemma numeral_nonempty ds : numeral ds -> exists c ds', ds = c :: ds' /\ digit c = true.
Proof.
  intros [->|(d & ds' & -> & _ & H)]; [by eexists _, _|]. exists d, ds'. split; [done|]. by apply Forall_cons in H as [? _].
Qed.

(** A 64-bit number printed in decimal is read back. *)
Lemma ParseUint_pretty (n : N) : Z.of_N n < 2 ^ 64 -> ParseUint (str (pretty n)) = Some (Z.of_N n).
Proof.
  intros Hn. destruct (numeral_nonempty _ (pretty_numeral n)) as (c & ds & E & _).
  assert (parse_digits (str (pretty n)) 0 = Some (Z.of_N n)) as Hp.
  { unfold pretty, pretty_N. case_decide as H0; [by subst n|]. by rewrite parse_pretty_go. }
  rewrite E in *. exact Hp.
Qed.

Lemma digit_not_sign c : digit c = true -> c <> "-"%char /\ c <> "+"%char.
Proof. intros H. split; intros ->; by vm_compute in H. Qed.

Lemma str_app a b : str (a +:+ b) = str a ++ str b.
Proof. induction a as [|c a IH]; [done|]. change (c :: str (a +:+ b) = c :: (str a ++ str b)). by rewrite IH. Qed.

(** How an integer is printed: a numeral, with a minus sign if it is negative. *)
Lemma pretty_Z_chars (z : Z) : exists ds, numeral ds /\ str (pretty z) = if z <? 0 then "-"%char :: ds else ds.
Proof.
  destruct z as [|p|p].
  - exists ["0"%char]. split; [by left|done].
  - exists (str (pretty (N.pos p))). split; [apply pretty_numeral|done].
  - exists (str (pretty (N.pos p))). split; [apply pretty_numeral|done].
Qed.

Lemma ParseInt_pretty (z : Z) : in_i64 z -> ParseInt (str (pretty z)) = Some z.
Proof.
  unfold in_i64, MinInt64, MaxInt64. intros Hz.
  assert (forall n : N, Z.of_N n < 2 ^ 63 -> ParseInt (str (pretty n)) = Some (Z.of_N n)) as Hpos.
  { intros n Hn. destruct (numeral_nonempty _ (pretty_numeral n)) as (c & ds & E & Hc).
    pose proof (ParseUint_pretty n ltac:(lia)) as Hp. rewrite E in *. apply digit_not_sign in Hc as [H1 H2].
    assert (ParseInt (c :: ds) = ParseUint (c :: ds) ≫= fun n => if n <? 2 ^ 63 then Some n else None) as ->.
    { unfold ParseInt. destruct c as [[] [] [] [] [] [] [] []]; done. }
    rewrite Hp. cbn. by rewrite (proj2 (Z.ltb_lt _ _)) by done. }
  destruct z as [|p|p].
  - reflexivity.
  - apply (Hpos (N.pos p)). lia.
  - change (str (pretty (Z.neg p))) with ("-"%char :: str (pretty (N.pos p))). unfold ParseInt.
    rewrite ParseUint_pretty by lia. cbn [mbind option_bind]. rewrite (proj2 (Z.leb_le _ _)) by lia. done.
Qed.
