(* ===== verification/Json.v ===== *)
(** JSON as Go's encoding/json reads it: the scanner (whitespace, literals, numbers, strings with their escapes, arrays
    and objects, at most 10000 deep) and the unquoting of strings, and on top of it the payloads
    of the watch protocol: internal/types/api/watch_api.go and the error payload of internal/watch/wire.go. *)

From S2P Require Import Prelude Strconv.
From Stdlib Require Import ZArith Lia Ascii Wf_nat.
From stdpp Require Import base list strings pretty.
Open Scope Z_scope.

Definition dquote : ascii := "034".
Definition backslash : ascii := "092".
Definition code (c : ascii) : Z := Z.of_N (N_of_ascii c).
Definition of_code (n : Z) : ascii := ascii_of_N (Z.to_N n).
Definition between (lo hi : Z) (c : ascii) : bool := (lo <=? code c) && (code c <=? hi).

(** ** Scanning *)

(** Strings are kept as they are between the quotes, numbers as they are written. *)
Inductive json :=
  | JNull | JBool (b : bool) | JNumber (lit : chars) | JString (raw : chars)
  | JArray (vs : list json) | JObject (ms : list (chars * json)).

Definition blank (c : ascii) : bool := between 32 32 c || between 9 10 c || between 13 13 c.
Fixpoint skip_ws (s : chars) : chars :=
  match s with c :: s' => if blank c then skip_ws s' else s | [] => [] end.

Definition hex (c : ascii) : bool := digit c || between 97 102 c || between 65 70 c.

(** After the opening quote: what the string holds and what follows it. *)
Fixpoint scan_string (s : chars) : option (chars * chars) :=
  match s with
  | [] => None
  | c :: s1 =>
      if Ascii.eqb c dquote then Some ([], s1)
      else if Ascii.eqb c backslash then
        match s1 with
        | e :: s2 =>
            if Ascii.eqb e "u" then
              match s2 with
              | h1 :: h2 :: h3 :: h4 :: s3 =>
                  if hex h1 && hex h2 && hex h3 && hex h4
                  then '(raw, r) ← scan_string s3; Some (c :: e :: h1 :: h2 :: h3 :: h4 :: raw, r)
                  else None
              | _ => None
              end
            else if existsb (Ascii.eqb e) [dquote; backslash; "/"; "b"; "f"; "n"; "r"; "t"]%char
            then '(raw, r) ← scan_string s2; Some (c :: e :: raw, r)
            else None
        | [] => None
        end
      else if code c <? 32 then None
      else '(raw, r) ← scan_string s1; Some (c :: raw, r)
  end.

Fixpoint take_digits (s : chars) : chars * chars :=
  match s with
  | c :: s' => if digit c then let '(ds, r) := take_digits s' in (c :: ds, r) else ([], s)
  | [] => ([], [])
  end.

Definition take_sign (plus : bool) (s : chars) : chars * chars :=
  match s with
  | c :: s' => if Ascii.eqb c "-" || (plus && Ascii.eqb c "+") then ([c], s') else ([], s)
  | [] => ([], [])
  end.

Definition scan_exponent (lit s : chars) : option (chars * chars) :=
  match s with
  | e :: s1 =>
      if Ascii.eqb e "e" || Ascii.eqb e "E" then
        let '(sgn, s2) := take_sign true s1 in
        match take_digits s2 with ([], _) => None | (ds, r) => Some (lit ++ e :: sgn ++ ds, r) end
      else Some (lit, s)
  | [] => Some (lit, s)
  end.
Definition scan_fraction (lit s : chars) : option (chars * chars) :=
  match s with
  | c :: s1 =>
      if Ascii.eqb c "."
      then match take_digits s1 with ([], _) => None | (ds, r) => scan_exponent (lit ++ c :: ds) r end
      else scan_exponent lit s
  | [] => Some (lit, s)
  end.
Definition scan_number (s : chars) : option (chars * chars) :=
  let '(sgn, s1) := take_sign false s in
  match s1 with
  | c :: s2 =>
      if Ascii.eqb c "0" then scan_fraction (sgn ++ [c]) s2
      else if digit c then let '(ds, r) := take_digits s1 in scan_fraction (sgn ++ ds) r
      else None
  | [] => None
  end.

Fixpoint literal (lit s : chars) : option chars :=
  match lit, s with
  | [], s => Some s
  | a :: lit, c :: s => if Ascii.eqb a c then literal lit s else None
  | _, [] => None
  end.

Definition maxNestingDepth : nat := Z.to_nat 10000.

(** A value and what follows it; [depth] counts the arrays and objects around it. *)
Fixpoint scan_value (fuel depth : nat) (s : chars) : option (json * chars) :=
  match fuel, skip_ws s with
  | S fuel, c :: s1 =>
      if Ascii.eqb c "{" then
        if (maxNestingDepth <=? depth)%nat then None
        else match skip_ws s1 with
             | c2 :: s2 =>
                 if Ascii.eqb c2 "}" then Some (JObject [], s2)
                 else '(ms, r) ← scan_members fuel (S depth) (c2 :: s2); Some (JObject ms, r)
             | [] => None
             end
      else if Ascii.eqb c "[" then
        if (maxNestingDepth <=? depth)%nat then None
        else match skip_ws s1 with
             | c2 :: s2 =>
                 if Ascii.eqb c2 "]" then Some (JArray [], s2)
                 else '(vs, r) ← scan_elements fuel (S depth) (c2 :: s2); Some (JArray vs, r)
             | [] => None
             end
      else if Ascii.eqb c dquote then '(raw, r) ← scan_string s1; Some (JString raw, r)
      else if Ascii.eqb c "n" then r ← literal (str "ull") s1; Some (JNull, r)
      else if Ascii.eqb c "t" then r ← literal (str "rue") s1; Some (JBool true, r)
      else if Ascii.eqb c "f" then r ← literal (str "alse") s1; Some (JBool false, r)
      else '(lit, r) ← scan_number (c :: s1); Some (JNumber lit, r)
  | _, _ => None
  end
with scan_members (fuel depth : nat) (s : chars) : option (list (chars * json) * chars) :=
  match fuel, skip_ws s with
  | S fuel, c :: s1 =>
      if Ascii.eqb c dquote then
        '(key, s2) ← scan_string s1;
        match skip_ws s2 with
        | c3 :: s3 =>
            if Ascii.eqb c3 ":" then
              '(v, s4) ← scan_value fuel depth s3;
              match skip_ws s4 with
              | c5 :: s5 =>
                  if Ascii.eqb c5 "}" then Some ([(key, v)], s5)
                  else if Ascii.eqb c5 "," then '(ms, r) ← scan_members fuel depth s5; Some ((key, v) :: ms, r)
                  else None
              | [] => None
              end
            else None
        | [] => None
        end
      else None
  | _, _ => None
  end
with scan_elements (fuel depth : nat) (s : chars) : option (list json * chars) :=
  match fuel with
  | S fuel =>
      '(v, s1) ← scan_value fuel depth s;
      match skip_ws s1 with
      | c :: s2 =>
          if Ascii.eqb c "]" then Some ([v], s2)
          else if Ascii.eqb c "," then '(vs, r) ← scan_elements fuel depth s2; Some (v :: vs, r)
          else None
      | [] => None
      end
  | O => None
  end.

(** The whole input is one value. *)
Definition json_parse (s : chars) : option json :=
  '(v, r) ← scan_value (2 * length s + 2) 0 s;
  match skip_ws r with [] => Some v | _ => None end.
Definition json_valid (s : chars) : bool := match json_parse s with Some _ => true | None => false end.

(** *** The fuel suffices *)

Lemma skip_ws_length s : (length (skip_ws s) <= length s)%nat.
Proof. induction s as [|c s IH]; cbn; [lia|]. case_match; cbn; lia. Qed.

Lemma skip_ws_cons s c s1 : skip_ws s = c :: s1 -> (length s1 < length s)%nat.
Proof. intros E. pose proof (skip_ws_length s) as H. rewrite E in H. cbn in H. lia. Qed.

Lemma scan_string_shrinks s raw r : scan_string s = Some (raw, r) -> (length r < length s)%nat.
Proof.
  revert raw r. induction s as [s IH] using (well_founded_induction (well_founded_ltof _ length)). intros raw r.
  destruct s as [|c s1]; [done|]. cbn [scan_string]. intros H. cbn [length].
  assert (forall t raw' r', (length t < S (length s1))%nat -> scan_string t = Some (raw', r') -> (length r' < length t)%nat) as Hrec.
  { intros t raw' r' Ht Hs. eapply IH; [|exact Hs]. unfold ltof. cbn. lia. }
  destruct (Ascii.eqb c dquote); [injection H as _ <-; lia|]. destruct (Ascii.eqb c backslash).
  - destruct s1 as [|e s2]; [done|]. destruct (Ascii.eqb e "u").
    + destruct s2 as [|h1 [|h2 [|h3 [|h4 s3]]]]; try done. destruct (hex h1 && hex h2 && hex h3 && hex h4); [|done].
      apply bind_Some in H as ([raw' r'] & Hs & [= _ <-]). apply Hrec in Hs; cbn in *; lia.
    + destruct (existsb _ _); [|done]. apply bind_Some in H as ([raw' r'] & Hs & [= _ <-]).
      apply Hrec in Hs; cbn in *; lia.
  - destruct (code c <? 32); [done|]. apply bind_Some in H as ([raw' r'] & Hs & [= _ <-]).
    apply Hrec in Hs; lia.
Qed.

Lemma take_digits_length s : (length (take_digits s).2 <= length s)%nat.
Proof. induction s as [|c s IH]; cbn; [lia|]. destruct (digit c); [|done]. destruct (take_digits s). cbn in *. lia. Qed.

Lemma take_sign_length plus s : (length (take_sign plus s).2 <= length s)%nat.
Proof. destruct s as [|c s]; cbn; [lia|]. case_match; cbn; lia. Qed.

Lemma scan_exponent_length lit s l r : scan_exponent lit s = Some (l, r) -> (length r <= length s)%nat.
Proof.
  unfold scan_exponent. destruct s as [|e s1]; [by intros [= _ <-]|]. destruct (_ || _); [|by intros [= _ <-]].
  pose proof (take_sign_length true s1). destruct (take_sign true s1) as [sgn s2]. pose proof (take_digits_length s2). destruct (take_digits s2) as [[|d ds] r']; [done|].
  intros [= _ <-]. cbn in *. lia.
Qed.

Lemma scan_fraction_length lit s l r : scan_fraction lit s = Some (l, r) -> (length r <= length s)%nat.
Proof.
  unfold scan_fraction. destruct s as [|c s1]; [by intros [= _ <-]|]. destruct (Ascii.eqb c "."); [|apply scan_exponent_length].
  pose proof (take_digits_length s1). destruct (take_digits s1) as [[|d ds] r']; [done|].
  intros ?%scan_exponent_length. cbn in *. lia.
Qed.

Lemma scan_number_shrinks s l r : scan_number s = Some (l, r) -> (length r < length s)%nat.
Proof.
  unfold scan_number. pose proof (take_sign_length false s). destruct (take_sign false s) as [sgn [|c s2]]; [done|]. destruct (Ascii.eqb c "0").
  - intros ?%scan_fraction_length. cbn in *. lia.
  - destruct (digit c) eqn:Hd; [|done]. cbn [take_digits]. rewrite Hd. pose proof (take_digits_length s2).
    destruct (take_digits s2) as [ds r']. intros ?%scan_fraction_length. cbn in *. lia.
Qed.

Lemma literal_length lit s r : literal lit s = Some r -> (length r <= length s)%nat.
Proof.
  revert s. induction lit as [|a lit IH]; intros s; [by intros [= <-]|]. destruct s as [|c s]; [done|]. cbn.
  destruct (Ascii.eqb a c); [|done]. intros ?%IH. lia.
Qed.

Lemma scan_shrinks fuel :
  (forall d s v r, scan_value fuel d s = Some (v, r) -> (length r < length s)%nat) /\
  (forall d s ms r, scan_members fuel d s = Some (ms, r) -> (length r < length s)%nat) /\
  (forall d s vs r, scan_elements fuel d s = Some (vs, r) -> (length r < length s)%nat).
Proof.
  induction fuel as [|fuel (IHv & IHm & IHe)]; [by repeat split|]. split_and!; intros d s v r H.
  - cbn [scan_value] in H. destruct (skip_ws s) as [|c s1] eqn:Es; [done|]. apply skip_ws_cons in Es.
    destruct (Ascii.eqb c "{").
    { destruct (maxNestingDepth <=? d)%nat; [done|]. destruct (skip_ws s1) as [|c2 s2] eqn:Es1; [done|].
      pose proof (skip_ws_length s1) as Hl. rewrite Es1 in Hl. cbn in Hl. destruct (Ascii.eqb c2 "}"); [injection H as _ <-; lia|].
      apply bind_Some in H as ([ms r'] & Hm%IHm & [= _ <-]). cbn in Hm. lia. }
    destruct (Ascii.eqb c "[").
    { destruct (maxNestingDepth <=? d)%nat; [done|]. destruct (skip_ws s1) as [|c2 s2] eqn:Es1; [done|].
      pose proof (skip_ws_length s1) as Hl. rewrite Es1 in Hl. cbn in Hl. destruct (Ascii.eqb c2 "]"); [injection H as _ <-; lia|].
      apply bind_Some in H as ([vs r'] & Hm%IHe & [= _ <-]). cbn in Hm. lia. }
    destruct (Ascii.eqb c dquote); [apply bind_Some in H as ([raw r'] & Hm%scan_string_shrinks & [= _ <-]); lia|].
    destruct (Ascii.eqb c "n"); [apply bind_Some in H as (r' & Hm%literal_length & [= _ <-]); lia|].
    destruct (Ascii.eqb c "t"); [apply bind_Some in H as (r' & Hm%literal_length & [= _ <-]); lia|].
    destruct (Ascii.eqb c "f"); [apply bind_Some in H as (r' & Hm%literal_length & [= _ <-]); lia|].
    apply bind_Some in H as ([lit r'] & Hm%scan_number_shrinks & [= _ <-]). cbn in Hm. lia.
  - cbn [scan_members] in H. destruct (skip_ws s) as [|c s1] eqn:Es; [done|]. apply skip_ws_cons in Es.
    destruct (Ascii.eqb c dquote); [|done]. apply bind_Some in H as ([key s2] & Hk%scan_string_shrinks & H).
    destruct (skip_ws s2) as [|c3 s3] eqn:Es2; [done|]. apply skip_ws_cons in Es2. destruct (Ascii.eqb c3 ":"); [|done].
    apply bind_Some in H as ([v' s4] & Hv%IHv & H). destruct (skip_ws s4) as [|c5 s5] eqn:Es4; [done|]. apply skip_ws_cons in Es4.
    destruct (Ascii.eqb c5 "}"); [injection H as _ <-; lia|]. destruct (Ascii.eqb c5 ","); [|done].
    apply bind_Some in H as ([ms r'] & Hm%IHm & [= _ <-]). lia.
  - cbn [scan_elements] in H. apply bind_Some in H as ([v' s4] & Hv%IHv & H).
    destruct (skip_ws s4) as [|c5 s5] eqn:Es4; [done|]. apply skip_ws_cons in Es4.
    destruct (Ascii.eqb c5 "]"); [injection H as _ <-; lia|]. destruct (Ascii.eqb c5 ","); [|done].
    apply bind_Some in H as ([ms r'] & Hm%IHe & [= _ <-]). lia.
Qed.

(** More fuel than twice the input changes nothing: [json_parse] decides. *)
Lemma scan_fuel fuel :
  (forall fuel' d s, (2 * length s + 1 <= fuel <= fuel')%nat -> scan_value fuel' d s = scan_value fuel d s) /\
  (forall fuel' d s, (2 * length s + 1 <= fuel <= fuel')%nat -> scan_members fuel' d s = scan_members fuel d s) /\
  (forall fuel' d s, (2 * length s + 2 <= fuel <= fuel')%nat -> scan_elements fuel' d s = scan_elements fuel d s).
Proof.
  induction fuel as [|fuel (IHv & IHm & IHe)]; [split_and!; intros; lia|]. split_and!; intros [|fuel'] d s Hf; try lia.
  - cbn [scan_value]. destruct (skip_ws s) as [|c s1] eqn:Es; [done|]. apply skip_ws_cons in Es.
    destruct (Ascii.eqb c "{").
    { destruct (maxNestingDepth <=? d)%nat; [done|]. destruct (skip_ws s1) as [|c2 s2] eqn:Es1; [done|].
      pose proof (skip_ws_length s1) as Hl. rewrite Es1 in Hl. destruct (Ascii.eqb c2 "}"); [done|]. by rewrite IHm by lia. }
    destruct (Ascii.eqb c "["); [|done]. destruct (maxNestingDepth <=? d)%nat; [done|].
    destruct (skip_ws s1) as [|c2 s2] eqn:Es1; [done|].
    pose proof (skip_ws_length s1) as Hl. rewrite Es1 in Hl. destruct (Ascii.eqb c2 "]"); [done|]. by rewrite IHe by lia.
  - cbn [scan_members]. destruct (skip_ws s) as [|c s1] eqn:Es; [done|]. apply skip_ws_cons in Es.
    destruct (Ascii.eqb c dquote); [|done]. destruct (scan_string s1) as [[key s2]|] eqn:Hk; [|done]. apply scan_string_shrinks in Hk.
    cbn [mbind option_bind]. destruct (skip_ws s2) as [|c3 s3] eqn:Es2; [done|]. apply skip_ws_cons in Es2.
    destruct (Ascii.eqb c3 ":"); [|done]. rewrite IHv by lia.
    destruct (scan_value fuel d s3) as [[v s4]|] eqn:Hv; [|done]. apply (proj1 (scan_shrinks fuel)) in Hv. cbn [mbind option_bind].
    destruct (skip_ws s4) as [|c5 s5] eqn:Es4; [done|]. apply skip_ws_cons in Es4. by rewrite IHm by lia.
  - cbn [scan_elements]. rewrite IHv by lia.
    destruct (scan_value fuel d s) as [[v s4]|] eqn:Hv; [|done]. apply (proj1 (scan_shrinks fuel)) in Hv. cbn [mbind option_bind].
    destruct (skip_ws s4) as [|c5 s5] eqn:Es4; [done|]. apply skip_ws_cons in Es4. by rewrite IHe by lia.
Qed.

(** ** Strings *)

(** Unicode scalar values as UTF-8. *)
Definition utf8 (r : Z) : chars :=
  if r <? 128 then [of_code r]
  else if r <? 2048 then [of_code (192 + r / 64); of_code (128 + r mod 64)]
  else if r <? 65536 then [of_code (224 + r / 4096); of_code (128 + r / 64 mod 64); of_code (128 + r mod 64)]
  else [of_code (240 + r / 262144); of_code (128 + r / 4096 mod 64); of_code (128 + r / 64 mod 64); of_code (128 + r mod 64)].
Definition replacement : chars := utf8 65533.

Definition hex_value (c : ascii) : Z :=
  if digit c then code c - 48 else if between 97 102 c then code c - 87 else code c - 55.
Definition hex4 (a b c d : ascii) : Z := ((hex_value a * 16 + hex_value b) * 16 + hex_value c) * 16 + hex_value d.

Definition cont : ascii -> bool := between 128 191.

(** The bytes of the multi-byte rune a string starts with, if it is valid UTF-8. *)
Definition rune (s : chars) : option chars :=
  match s with
  | a :: b :: s1 =>
      if between 194 223 a && cont b then Some [a; b]
      else match s1 with
           | c :: s2 =>
               if ((between 224 224 a && between 160 191 b) || (between 225 236 a && cont b) ||
                   (between 237 237 a && between 128 159 b) || (between 238 239 a && cont b)) && cont c
               then Some [a; b; c]
               else match s2 with
                    | d :: _ =>
                        if ((between 240 240 a && between 144 191 b) || (between 241 243 a && cont b) ||
                            (between 244 244 a && between 128 143 b)) && cont c && cont d
                        then Some [a; b; c; d] else None
                    | [] => None
                    end
           | [] => None
           end
  | _ => None
  end.

Definition escaped (e : ascii) : ascii :=
  if Ascii.eqb e "b" then of_code 8 else if Ascii.eqb e "f" then of_code 12 else if Ascii.eqb e "n" then of_code 10
  else if Ascii.eqb e "r" then of_code 13 else if Ascii.eqb e "t" then of_code 9 else e.

(** What a scanned string stands for: escapes are replaced, surrogates that do not pair up and bytes that are not UTF-8 by
    the replacement character. [skip] bytes have been dealt with. *)
Fixpoint unquote (skip : nat) (s : chars) : chars :=
  match s, skip with
  | [], _ => []
  | _ :: s1, S skip => unquote skip s1
  | c :: s1, O =>
      if Ascii.eqb c backslash then
        match s1 with
        | e :: s2 =>
            if Ascii.eqb e "u" then
              match s2 with
              | a :: b :: c' :: d :: s3 =>
                  let r := hex4 a b c' d in
                  if (55296 <=? r) && (r <? 57344) then
                    match s3 with
                    | b1 :: u1 :: a2 :: b2 :: c2 :: d2 :: _ =>
                        let r2 := hex4 a2 b2 c2 d2 in
                        if Ascii.eqb b1 backslash && Ascii.eqb u1 "u" && hex a2 && hex b2 && hex c2 && hex d2 &&
                           (r <? 56320) && (56320 <=? r2) && (r2 <? 57344)
                        then utf8 ((r - 55296) * 1024 + (r2 - 56320) + 65536) ++ unquote 11 s1
                        else replacement ++ unquote 5 s1
                    | _ => replacement ++ unquote 5 s1
                    end
                  else utf8 r ++ unquote 5 s1
              | _ => []
              end
            else escaped e :: unquote 1 s1
        | [] => []
        end
      else if code c <? 128 then c :: unquote 0 s1
      else match rune (c :: s1) with
           | Some bs => bs ++ unquote (pred (length bs)) s1
           | None => replacement ++ unquote 0 s1
           end
  end.

(** Printable text without quotes and backslashes needs no escapes. *)
Definition plain (c : ascii) : bool := between 32 126 c && negb (Ascii.eqb c dquote) && negb (Ascii.eqb c backslash).

Lemma plain_spec c : plain c = true ->
  Ascii.eqb c dquote = false /\ Ascii.eqb c backslash = false /\ (code c <? 32) = false /\ (code c <? 128) = true.
Proof.
  unfold plain, between. rewrite !andb_true_iff, !negb_true_iff, !Z.leb_le. intros [[[H1 H2] H3] H4].
  split_and!; [done..|apply Z.ltb_ge; lia|apply Z.ltb_lt; lia].
Qed.

Lemma scan_plain t r : forallb plain t = true -> scan_string (t ++ dquote :: r) = Some (t, r).
Proof.
  induction t as [|c t IH]; [done|]. cbn [forallb]. rewrite andb_true_iff. intros [Hc Ht].
  destruct (plain_spec c Hc) as (H1 & H2 & H3 & _). cbn [app scan_string]. rewrite H1, H2, H3, (IH Ht). done.
Qed.

Lemma unquote_plain t : forallb plain t = true -> unquote 0 t = t.
Proof.
  induction t as [|c t IH]; [done|]. cbn [forallb]. rewrite andb_true_iff. intros [Hc Ht].
  destruct (plain_spec c Hc) as (_ & H2 & _ & H4). cbn [unquote]. rewrite H2, H4, (IH Ht). done.
Qed.

(** ** watch_api.go: the JSON of a watch response *)

Definition q (s : chars) : chars := dquote :: s ++ [dquote].
Definition print_bool (b : bool) : chars := if b then str "true" else str "false".

(** [Error] is the text of the error; errors are compared by it. *)
Record wireResponse := mkWire { wr_WatchID : Z; wr_Success : bool; wr_Error : option chars }.

Definition watchResponse_MarshalJSON (r : wireResponse) : chars :=
  match wr_Error r with
  | None =>
      str "{" ++ q (str "watch_id") ++ str ": " ++ str (pretty (wr_WatchID r)) ++ str ", " ++
      q (str "success") ++ str ": " ++ print_bool (wr_Success r) ++ str "}"
  | Some e =>
      str "{" ++ q (str "watch_id") ++ str ": " ++ str (pretty (wr_WatchID r)) ++ str ", " ++
      q (str "success") ++ str ": " ++ print_bool (wr_Success r) ++ str ", " ++
      q (str "error") ++ str ": " ++ q e ++ str " }"
  end.

(** Field names are matched without regard to case; two letters outside ASCII fold to ASCII ones. *)
Fixpoint fold_name (s : chars) : chars :=
  match s with
  | a :: ((b :: s2) as s1) =>
      if between 197 197 a && between 191 191 b then "s"%char :: fold_name s2
      else match s2 with
           | c :: s3 =>
               if between 226 226 a && between 132 132 b && between 170 170 c then "k"%char :: fold_name s3
               else (if between 65 90 a then of_code (code a + 32) else a) :: fold_name s1
           | [] => (if between 65 90 a then of_code (code a + 32) else a) :: fold_name s1
           end
  | [a] => [if between 65 90 a then of_code (code a + 32) else a]
  | [] => []
  end.

Record alias := mkAlias { al_WatchID : Z; al_Success : bool; al_Error : chars }.

(** json.Unmarshal of one member into the alias; [None] is a value of the wrong type. *)
Definition set_member (a : alias) (m : chars * json) : option alias :=
  let name := fold_name (unquote 0 m.1) in
  if bool_decide (name = str "watch_id") then
    match m.2 with
    | JNumber lit => ParseInt lit ≫= fun z => Some (mkAlias z (al_Success a) (al_Error a))
    | JNull => Some a
    | _ => None
    end
  else if bool_decide (name = str "success") then
    match m.2 with
    | JBool b => Some (mkAlias (al_WatchID a) b (al_Error a))
    | JNull => Some a
    | _ => None
    end
  else if bool_decide (name = str "error") then
    match m.2 with
    | JString raw => Some (mkAlias (al_WatchID a) (al_Success a) (unquote 0 raw))
    | JNull => Some a
    | _ => None
    end
  else Some a.
Fixpoint set_members (a : alias) (ms : list (chars * json)) : option alias :=
  match ms with [] => Some a | m :: ms => set_member a m ≫= fun a => set_members a ms end.

Definition watchResponse_UnmarshalJSON (bs : chars) : option wireResponse :=
  match json_parse bs with
  | Some JNull => Some (mkWire 0 false None)
  | Some (JObject ms) =>
      a ← set_members (mkAlias 0 false []) ms;
      Some (mkWire (al_WatchID a) (al_Success a) (match al_Error a with [] => None | e => Some e end))
  | _ => None
  end.

(** *** Reading back what was printed *)

Lemma take_digits_app ds r : Forall (fun c => digit c = true) ds -> (forall c r', r = c :: r' -> digit c = false) ->
  take_digits (ds ++ r) = (ds, r).
Proof.
  intros Hds Hr. induction Hds as [|d ds Hd Hds IH]; cbn.
  - destruct r as [|c r]; [done|]. cbn. by rewrite (Hr c r).
  - by rewrite Hd, IH.
Qed.

Lemma scan_number_comma (z : Z) r : scan_number (str (pretty z) ++ ","%char :: r) = Some (str (pretty z), ","%char :: r).
Proof.
  destruct (pretty_Z_chars z) as (ds & Hds & ->).
  assert (forall lit, scan_fraction lit (","%char :: r) = Some (lit, ","%char :: r)) as Hfr by done.
  assert (forall sgn, match ds ++ ","%char :: r with
    | c :: s2 => if Ascii.eqb c "0" then scan_fraction (sgn ++ [c]) s2
                 else if digit c then let '(ds, r) := take_digits (ds ++ ","%char :: r) in scan_fraction (sgn ++ ds) r else None
    | [] => None end = Some (sgn ++ ds, ","%char :: r)) as Hds'.
  { intros sgn. destruct Hds as [->|(d & ds' & -> & Hd & Hall)]; [done|]. rewrite take_digits_app by (done || by intros ? ? [= <- _]).
    cbn [app]. rewrite (proj2 (Ascii.eqb_neq _ _) Hd). apply Forall_cons in Hall as [-> _]. by rewrite Hfr. }
  destruct (z <? 0).
  - exact (Hds' ["-"%char]).
  - specialize (Hds' []). unfold scan_number, take_sign.
    assert (exists c ds', ds = c :: ds' /\ Ascii.eqb c "-" = false) as (c & ds' & -> & Hc).
    { destruct (numeral_nonempty ds Hds) as (c & ds' & -> & Hc). exists c, ds'. split; [done|].
      apply Ascii.eqb_neq. by apply digit_not_sign in Hc as [? _]. }
    cbn [app] in *. rewrite Hc. exact Hds'.
Qed.

(** A member whose name is plain. *)
Lemma scan_member fuel d key vs v r c5 r5 :
  forallb plain key = true -> scan_value fuel d vs = Some (v, r) -> skip_ws r = c5 :: r5 ->
  scan_members (S fuel) d (q key ++ str ":" ++ vs) =
    if Ascii.eqb c5 "}" then Some ([(key, v)], r5)
    else if Ascii.eqb c5 "," then '(ms, r') ← scan_members fuel d r5; Some ((key, v) :: ms, r') else None.
Proof.
  intros Hk Hv Hr. unfold q. rewrite <-app_comm_cons, <-app_assoc. cbn [app str String.list_ascii_of_string scan_members].
  change (skip_ws (dquote :: ?s)) with (dquote :: s). cbv iota. rewrite Ascii.eqb_refl, scan_plain by done.
  cbn [mbind option_bind]. change (skip_ws (":"%char :: vs)) with (":"%char :: vs). cbv iota.
  rewrite Ascii.eqb_refl, Hv. cbn [mbind option_bind]. by rewrite Hr.
Qed.

Lemma number_start c : digit c = true \/ c = "-"%char ->
  blank c = false /\ Forall (fun a => Ascii.eqb c a = false) ["{"; "["; dquote; "n"; "t"; "f"]%char.
Proof.
  intros H. assert (forall a, digit a = false -> a <> "-"%char -> Ascii.eqb c a = false) as Hne.
  { intros a Ha Ha'. apply Ascii.eqb_neq. intros ->. destruct H as [H|H]; congruence. }
  split; [|repeat (apply Forall_cons; split; [by apply Hne|]); apply Forall_nil_2].
  destruct (blank c) eqn:E; [|done]. destruct H as [H| ->]; [|by vm_compute in E].
  unfold blank, between in E. unfold digit in H. unfold code in E.
  rewrite andb_true_iff, !N.leb_le in H. rewrite !orb_true_iff, !andb_true_iff, !Z.leb_le in E. lia.
Qed.

Lemma scan_value_number fuel d (z : Z) r :
  scan_value (S fuel) d (" "%char :: str (pretty z) ++ ","%char :: r) = Some (JNumber (str (pretty z)), ","%char :: r).
Proof.
  pose proof (scan_number_comma z r) as Hn. destruct (pretty_Z_chars z) as (ds & Hds & E).
  assert (exists c cs, str (pretty z) = c :: cs /\ (digit c = true \/ c = "-"%char)) as (c & cs & Ec & Hc).
  { rewrite E. destruct (z <? 0); [by eexists _, _; eauto|]. destruct (numeral_nonempty ds Hds) as (c & ds' & -> & ?). by eexists _, _; eauto. }
  rewrite Ec in *. destruct (number_start c Hc) as [Hb Hall]. repeat (apply Forall_cons in Hall as [? Hall]).
  cbn [scan_value skip_ws app]. change (blank " ") with true. cbv iota. rewrite Hb.
  repeat match goal with H : Ascii.eqb c _ = false |- _ => rewrite H; clear H end. cbn [app] in Hn. by rewrite Hn.
Qed.

Lemma scan_value_bool fuel d b r : scan_value (S fuel) d (" "%char :: print_bool b ++ r) = Some (JBool b, r).
Proof. by destruct b. Qed.

Lemma scan_value_text fuel d t r : forallb plain t = true -> scan_value (S fuel) d (" "%char :: q t ++ r) = Some (JString t, r).
Proof.
  intros Ht. unfold q. rewrite <-app_comm_cons, <-app_assoc. cbn [app].
  change (scan_value (S fuel) d (" "%char :: dquote :: ?s)) with ('(raw, r) ← scan_string s; Some (JString raw, r)).
  by rewrite scan_plain.
Qed.

Lemma scan_object fuel d s ms r :
  (maxNestingDepth <=? d)%nat = false -> scan_members fuel (S d) (dquote :: s) = Some (ms, r) ->
  scan_value (S fuel) d ("{"%char :: dquote :: s) = Some (JObject ms, r).
Proof.
  intros Hd Hm. cbn [scan_value]. change (skip_ws ("{"%char :: ?t)) with ("{"%char :: t). cbv iota.
  rewrite Ascii.eqb_refl, Hd. change (skip_ws (dquote :: s)) with (dquote :: s). cbv iota.
  change (Ascii.eqb dquote "}") with false. cbv iota. by rewrite Hm.
Qed.

Lemma scan_member_next fuel d k vs v rest ms r :
  forallb plain k = true -> scan_value fuel d (" "%char :: vs) = Some (v, str ", " ++ rest) ->
  scan_members fuel d rest = Some (ms, r) -> scan_members (S fuel) d (q k ++ str ": " ++ vs) = Some ((k, v) :: ms, r).
Proof.
  intros Hk Hv Hm. change (str ": " ++ vs) with (str ":" ++ " "%char :: vs).
  rewrite (scan_member fuel d k _ _ _ ","%char (" "%char :: rest) Hk Hv eq_refl).
  change (Ascii.eqb "," "}") with false. rewrite Ascii.eqb_refl. cbv iota.
  assert (scan_members fuel d (" "%char :: rest) = scan_members fuel d rest) as -> by (by destruct fuel). by rewrite Hm.
Qed.

Lemma scan_member_last fuel d k vs v r r' :
  forallb plain k = true -> scan_value fuel d (" "%char :: vs) = Some (v, r) -> skip_ws r = "}"%char :: r' ->
  scan_members (S fuel) d (q k ++ str ": " ++ vs) = Some ([(k, v)], r').
Proof.
  intros Hk Hv Hr. change (str ": " ++ vs) with (str ":" ++ " "%char :: vs).
  rewrite (scan_member fuel d k _ _ _ _ _ Hk Hv Hr). by rewrite Ascii.eqb_refl.
Qed.

(** The members of a printed response. *)
Definition printed_members (r : wireResponse) : list (chars * json) :=
  (str "watch_id", JNumber (str (pretty (wr_WatchID r)))) :: (str "success", JBool (wr_Success r)) ::
  match wr_Error r with None => [] | Some e => [(str "error", JString e)] end.

Lemma printed_parse r : (forall e, wr_Error r = Some e -> forallb plain e = true) ->
  json_parse (watchResponse_MarshalJSON r) = Some (JObject (printed_members r)).
Proof.
  intros He. unfold json_parse.
  assert (exists f, (2 * length (watchResponse_MarshalJSON r) + 2 = S (S (S (S (S f)))))%nat) as [f ->].
  { assert (5 <= length (watchResponse_MarshalJSON r))%nat as Hl
      by (unfold watchResponse_MarshalJSON, q; destruct (wr_Error r); rewrite !length_app; cbn; lia).
    exists (2 * length (watchResponse_MarshalJSON r) - 3)%nat. lia. }
  enough (scan_value (S (S (S (S (S f))))) 0 (watchResponse_MarshalJSON r) = Some (JObject (printed_members r), [])) as -> by done.
  unfold watchResponse_MarshalJSON, printed_members. destruct (wr_Error r) as [e|].
  - apply scan_object; [done|]. apply scan_member_next with
      (rest := q (str "success") ++ str ": " ++ print_bool (wr_Success r) ++ str ", " ++ q (str "error") ++ str ": " ++ q e ++ str " }");
      [done|apply scan_value_number|].
    apply scan_member_next with (rest := q (str "error") ++ str ": " ++ q e ++ str " }"); [done|apply scan_value_bool|].
    eapply scan_member_last; [done|by apply scan_value_text, He|done].
  - apply scan_object; [done|]. apply scan_member_next with (rest := q (str "success") ++ str ": " ++ print_bool (wr_Success r) ++ str "}");
      [done|apply scan_value_number|].
    eapply scan_member_last; [done|apply scan_value_bool|done].
Qed.

Lemma response_read_back (r : wireResponse) :
  in_i64 (wr_WatchID r) -> (forall e, wr_Error r = Some e -> e <> [] /\ forallb plain e = true) ->
  watchResponse_UnmarshalJSON (watchResponse_MarshalJSON r) = Some r.
Proof.
  intros Hid He. unfold watchResponse_UnmarshalJSON. rewrite printed_parse by (intros e Ee; by apply He).
  destruct r as [id ok err]. cbn [wr_WatchID wr_Success wr_Error printed_members] in *. unfold printed_members. cbn [wr_WatchID wr_Success wr_Error].
  cbn [set_members].
  change (set_member ?a (str "watch_id", JNumber ?lit)) with (ParseInt lit ≫= fun z => Some (mkAlias z (al_Success a) (al_Error a))).
  rewrite ParseInt_pretty by done. cbn [mbind option_bind].
  change (set_member ?a (str "success", JBool ok)) with (Some (mkAlias (al_WatchID a) ok (al_Error a))). cbn [mbind option_bind].
  destruct err as [e|]; [|done]. destruct (He e eq_refl) as [Hne Hp]. cbn [set_members].
  change (set_member ?a (str "error", JString e)) with (Some (mkAlias (al_WatchID a) (al_Success a) (unquote 0 e))). cbn [mbind option_bind].
  rewrite unquote_plain by done. by destruct e.
Qed.

(** C28: A watch response is read back as it was sent: for an id of 64 bits and an error text of printable characters
    without quotes and backslashes, UnmarshalJSON of what MarshalJSON printed is the
    response, the error being compared by its text. *)
Theorem watch_response_roundtrip (r : wireResponse) :
  in_i64 (wr_WatchID r) -> (forall e, wr_Error r = Some e -> e <> [] /\ forallb plain e = true) ->
  watchResponse_UnmarshalJSON (watchResponse_MarshalJSON r) = Some r.
Proof. apply response_read_back. Qed.

Lemma watch_response_roundtrip_witness :
  watchResponse_UnmarshalJSON (watchResponse_MarshalJSON (mkWire (-7) false (Some (str "watch stream is closed")))) =
    Some (mkWire (-7) false (Some (str "watch stream is closed"))).
Proof.
  apply (watch_response_roundtrip (mkWire (-7) false (Some (str "watch stream is closed")))); [by vm_compute|].
  intros e [= <-]. split; [discriminate|reflexivity].
Defined.

(** An error text with a quote in it does not survive: the printed response is not JSON. *)
Example quoted_error_rejected :
  watchResponse_UnmarshalJSON (watchResponse_MarshalJSON (mkWire 0 false (Some (str "bad " ++ q (str "key"))))) = None.
Proof. vm_compute. reflexivity. Qed.

(** ** wire.go: the error payload *)

(** fmt.Append prints the byte [','] as a number; [None] is a nil cause, whose Error method cannot be called. *)
Definition serverErrorPayload_MarshalJSON (c : option chars) (message : chars) : res chars :=
  match c with
  | None => Panicked
  | Some c => Ok (str "{" ++ match message with [] => [] | _ => str "44" ++ q (str "message") ++ str ": " ++ q c end ++ str "}")
  end.

(** The cause, unless it is empty, and the message. *)
Definition set_error_member (a : chars * chars) (m : chars * json) : option (chars * chars) :=
  let name := fold_name (unquote 0 m.1) in
  if bool_decide (name = str "cause") then
    match m.2 with JString raw => Some (unquote 0 raw, a.2) | JNull => Some a | _ => None end
  else if bool_decide (name = str "message") then
    match m.2 with JString raw => Some (a.1, unquote 0 raw) | JNull => Some a | _ => None end
  else Some a.
Fixpoint set_error_members (a : chars * chars) (ms : list (chars * json)) : option (chars * chars) :=
  match ms with [] => Some a | m :: ms => set_error_member a m ≫= fun a => set_error_members a ms end.
Definition serverErrorPayload_UnmarshalJSON (bs : chars) : option (option chars * chars) :=
  match json_parse bs with
  | Some JNull => Some (None, [])
  | Some (JObject ms) =>
      '(c, m) ← set_error_members ([], []) ms;
      Some (match c with [] => None | c => Some c end, m)
  | _ => None
  end.

(** An error payload never tells what went wrong: with a message it is not JSON, since a number stands where a
    name must, and without one it is the empty object. *)
Lemma error_payload_lost (c message : chars) :
  exists p, serverErrorPayload_MarshalJSON (Some c) message = Ok p /\
    (message <> [] -> json_valid p = false) /\ (message = [] -> serverErrorPayload_UnmarshalJSON p = Some (None, [])).
Proof.
  eexists. split; [reflexivity|]. split; [|by intros ->]. destruct message as [|m ms]; [done|]. intros _.
  unfold json_valid, json_parse. set (p := _ ++ _). assert (exists n, (2 * length p + 2 = S (S n))%nat) as [n ->] by (eexists; cbn; reflexivity).
  done.
Qed.
