(* ===== verification/OrdTree.v ===== *)
(** The ordered trees of [github.com/google/btree], used by the key index and by the
    in-memory store. The package is third-party code, so its type and operations
    are parameters: a class with the documented behaviour of each operation, given
    on the ascending list of items. The sorted-list instance shows that the laws
    can be met, and runs the examples. *)

From S2P Require Import Prelude.
From Stdlib Require Import ZArith Lia.
From stdpp Require Import base gmap sets list strings sorting.

(** Reference behaviour of the operations on ascending lists. Two items are the
    same for the tree when neither is less than the other. *)
Section Reference.
Context {A : Type} (less : A -> A -> bool).

Definition same (x y : A) : bool := negb (less x y) && negb (less y x).

Fixpoint ref_get (x : A) (l : list A) : option A :=
  match l with
  | [] => None
  | y :: l' => if same x y then Some y else ref_get x l'
  end.

Fixpoint ref_insert (x : A) (l : list A) : list A :=
  match l with
  | [] => [x]
  | y :: l' => if less x y then x :: y :: l'
               else if less y x then y :: ref_insert x l'
               else x :: l'
  end.

Fixpoint ref_delete (x : A) (l : list A) : list A :=
  match l with
  | [] => []
  | y :: l' => if same x y then l' else y :: ref_delete x l'
  end.
End Reference.

(** [BTreeG[T]] with the order it was created with. [NewG] and [Clear] give the
    empty tree; [ReplaceOrInsert] and [Delete] return the item they removed; [Ascend]
    visits [Items] in order until its callback returns false and [Len] counts them.
    [Clone] is the identity on the model's values. *)
Class BTree {A : Type} (less : A -> A -> bool) (T : Type) := {
  bt_NewG : T;
  bt_Items : T -> list A;
  bt_Get : A -> T -> option A;
  bt_ReplaceOrInsert : A -> T -> T * option A;
  bt_Delete : A -> T -> T * option A;
  bt_NewG_items : bt_Items bt_NewG = [];
  bt_Get_items : forall x t, bt_Get x t = ref_get less x (bt_Items t);
  bt_RoI_items : forall x t, bt_Items (fst (bt_ReplaceOrInsert x t)) = ref_insert less x (bt_Items t);
  bt_RoI_old : forall x t, snd (bt_ReplaceOrInsert x t) = ref_get less x (bt_Items t);
  bt_Delete_items : forall x t, bt_Items (fst (bt_Delete x t)) = ref_delete less x (bt_Items t);
  bt_Delete_old : forall x t, snd (bt_Delete x t) = ref_get less x (bt_Items t) }.

#[export] Hint Rewrite @bt_NewG_items @bt_Get_items @bt_RoI_items @bt_RoI_old @bt_Delete_items @bt_Delete_old : kave.

Definition bt_Len `{BTree A less T} (t : T) : Z := Z.of_nat (length (bt_Items t)).

(** [AscendGreaterOrEqual(pivot, f)] starts at the first item not below the pivot. *)
Definition bt_ItemsFrom `{BTree A less T} (pivot : A) (t : T) : list A :=
  filter (fun y => less y pivot = false) (bt_Items t).

(** Iteration with a callback that threads a state, may stop and may panic. *)
Fixpoint iterate {A S} (f : S -> A -> res (S * bool)) (s : S) (l : list A) : res S :=
  match l with
  | [] => Ok s
  | x :: l' =>
      match f s x with
      | Ok (s', true) => iterate f s' l'
      | Ok (s', false) => Ok s'
      | Err e => Err e
      | Panicked => Panicked
      end
  end.

#[export] Program Instance list_btree {A} (less : A -> A -> bool) : BTree less (list A) := {|
  bt_NewG := [];
  bt_Items := fun l => l;
  bt_Get := ref_get less;
  bt_ReplaceOrInsert := fun x l => (ref_insert less x l, ref_get less x l);
  bt_Delete := fun x l => (ref_delete less x l, ref_get less x l) |}.
Solve Obligations with done.

(** ** bt_Items ordered by a byte-string key *)

Section Keyed.
Context {A : Type} (key : A -> bytes).

Definition key_less (x y : A) : bool := bytes_ltb (key x) (key y).
Abbreviation same' := (same key_less).

Lemma key_same x y : same' x y = true <-> key x = key y.
Proof.
  unfold same, key_less. split.
  - intros [H1 H2]%andb_true_iff. apply negb_true_iff in H1, H2. by apply bytes_ltb_total.
  - intros ->. by rewrite bytes_ltb_irrefl.
Qed.

Definition key_sorted (l : list A) : Prop :=
  StronglySorted (fun x y => bytes_ltb (key x) (key y) = true) l.

(** Lookup by key. *)
Definition find_key (k : bytes) (l : list A) : option A :=
  head (filter (fun y => key y = k) l).

Lemma ref_get_find x l : ref_get key_less x l = find_key (key x) l.
Proof.
  unfold find_key. induction l as [|y l IH]; [done|]. simpl.
  destruct (same' x y) eqn:E.
  - apply key_same in E. by rewrite filter_cons_True.
  - rewrite filter_cons_False; [done|]. intros E'. symmetry in E'. apply key_same in E'. congruence.
Qed.

Lemma find_key_Some k l y : find_key k l = Some y -> y ∈ l /\ key y = k.
Proof.
  unfold find_key. intros H%head_Some_elem_of. apply list_elem_of_filter in H as [? ?]. done.
Qed.

Lemma find_key_None k l : find_key k l = None <-> Forall (fun y => key y <> k) l.
Proof.
  unfold find_key. rewrite head_None. split.
  - intros H. apply Forall_forall. intros y Hy E.
    assert (y ∈ filter (fun y => key y = k) l) as Hf by (by apply list_elem_of_filter).
    rewrite H in Hf. by apply not_elem_of_nil in Hf.
  - apply filter_none.
Qed.

Lemma find_key_elem l y : key_sorted l -> y ∈ l -> find_key (key y) l = Some y.
Proof.
  unfold find_key. induction 1 as [|x l Hs IH Hx]; [by intros ?%not_elem_of_nil|].
  intros [->|Hy]%elem_of_cons.
  - by rewrite filter_cons_True.
  - rewrite filter_cons_False; [by apply IH|]. intros E.
    rewrite Forall_forall in Hx. specialize (Hx _ Hy). simpl in Hx.
    rewrite E, bytes_ltb_irrefl in Hx. done.
Qed.

Lemma insert_elem x l y : y ∈ ref_insert key_less x l -> y = x \/ y ∈ l.
Proof.
  induction l as [|z l IH]; simpl; [by intros ?%list_elem_of_singleton; left|].
  destruct (key_less x z), (key_less z x); rewrite ?elem_of_cons; intros; destruct_or?; tauto.
Qed.

Lemma insert_sorted x l : key_sorted l -> key_sorted (ref_insert key_less x l).
Proof.
  unfold key_sorted. induction 1 as [|y l Hs IH Hy]; simpl; [by repeat constructor|].
  destruct (key_less x y) eqn:Exy; [|destruct (key_less y x) eqn:Eyx].
  - repeat constructor; try done. eapply Forall_impl; [exact Hy|]. simpl.
    intros z Hz. by eapply bytes_ltb_trans.
  - constructor; [done|]. apply Forall_forall. intros z [->|Hz]%insert_elem; [done|].
    by eapply (proj1 (Forall_forall _ _)) in Hz; [|exact Hy].
  - constructor; [done|]. assert (key x = key y) as -> by (by apply bytes_ltb_total). done.
Qed.

Lemma find_insert x l k :
  key_sorted l ->
  find_key k (ref_insert key_less x l) = if bool_decide (k = key x) then Some x else find_key k l.
Proof.
  unfold find_key. induction 1 as [|y l Hs IH Hy]; simpl.
  { rewrite filter_cons, filter_nil. repeat case_decide; case_bool_decide; naive_solver. }
  destruct (key_less x y) eqn:Exy; [|destruct (key_less y x) eqn:Eyx].
  - rewrite (filter_cons _ x). repeat case_decide; case_bool_decide; naive_solver.
  - rewrite !(filter_cons _ y). destruct (decide (key y = k)) as [Ey|Ey]; [|exact IH]. simpl.
    case_bool_decide as E; [|done]. unfold key_less in Eyx.
    by rewrite Ey, E, bytes_ltb_irrefl in Eyx.
  - assert (key x = key y) as E by (by apply bytes_ltb_total).
    rewrite !(filter_cons), E. repeat case_decide; case_bool_decide; naive_solver.
Qed.

Lemma delete_sublist x l : ref_delete key_less x l `sublist_of` l.
Proof.
  induction l as [|y l IH]; simpl; [done|]. destruct (same' x y); by constructor.
Qed.

Lemma delete_sorted x l : key_sorted l -> key_sorted (ref_delete key_less x l).
Proof.
  unfold key_sorted. induction 1 as [|y l Hs IH Hy]; simpl; [constructor|].
  destruct (same' x y); [done|]. constructor; [done|].
  apply Forall_forall. intros z Hz. eapply (proj1 (Forall_forall _ _)) in Hy; [exact Hy|].
  by eapply elem_of_sublist; [|apply delete_sublist].
Qed.

Lemma find_delete x l k :
  key_sorted l ->
  find_key k (ref_delete key_less x l) = if bool_decide (k = key x) then None else find_key k l.
Proof.
  intros Hl. unfold find_key. induction Hl as [|y l Hs IH Hy]; simpl; [by case_bool_decide|].
  destruct (same' x y) eqn:E.
  - clear IH. apply key_same in E. rewrite E. case_bool_decide as Hk.
    + subst k. rewrite filter_none; [done|]. eapply Forall_impl; [exact Hy|]. simpl.
      intros z Hz Ez. by rewrite Ez, bytes_ltb_irrefl in Hz.
    + by rewrite filter_cons_False by congruence.
  - rewrite !filter_cons. destruct (decide (key y = k)) as [Ey|Ey]; [|exact IH]. simpl.
    rewrite bool_decide_eq_false_2; [done|]. intros ->. symmetry in Ey.
    apply key_same in Ey. congruence.
Qed.

(** Two ascending lists with the same lookups are equal. *)
Lemma key_sorted_ext l1 l2 :
  key_sorted l1 -> key_sorted l2 -> (forall k, find_key k l1 = find_key k l2) -> l1 = l2.
Proof.
  intros H1 H2 Hf. apply (StronglySorted_unique_strong
    (fun x y => bytes_ltb (key x) (key y) = true)); [|done..|].
  - intros x y _ _ Hxy Hyx. pose proof (bytes_ltb_trans _ _ _ Hxy Hyx) as E.
    by rewrite bytes_ltb_irrefl in E.
  - assert (forall l, key_sorted l -> NoDup l) as Hnd.
    { unfold key_sorted. induction 1 as [|x l ? IH Hx]; constructor; [|done].
      intros Hin. eapply (proj1 (Forall_forall _ _)) in Hx; [|exact Hin].
      by rewrite bytes_ltb_irrefl in Hx. }
    apply NoDup_Permutation; [by apply Hnd..|]. intros x. split; intros Hx.
    + apply find_key_elem in Hx; [|done]. rewrite Hf in Hx. by apply find_key_Some in Hx as [? _].
    + apply find_key_elem in Hx; [|done]. rewrite <-Hf in Hx. by apply find_key_Some in Hx as [? _].
Qed.
End Keyed.
