(* ===== verification/KvTypes.v ===== *)
(** Value types of the store and their wire formats: [internal/util/codec.go],
    [internal/util/id.go] and the small files of [internal/kv] (revision.go,
    bucket_key.go, entry.go, event.go, prefix.go, options.go). *)

From S2P Require Import Prelude.
From Stdlib Require Import ZArith Lia.
From stdpp Require Import base gmap sets list strings sorting.
Open Scope Z_scope.

(** ** internal/util/codec.go *)

Definition EncodeUint64 (v : Z) : bytes := be_put 8 (u64 v).

Definition DecodeUint64 (src : bytes) : res Z :=
  if (length src <? 8)%nat then Err (errMsg "codec error: entry decoding failed: buffer too small")
  else Ok (be_get (take 8 src)).

Definition DecodeInt64 (src : bytes) : res Z :=
  match DecodeUint64 src with
  | Ok u => Ok (i64 u)
  | Err e => Err e
  | Panicked => Panicked
  end.

(** ** internal/util/id.go: [rand.Read] is the stream [draws] of 64-bit values. *)
Fixpoint NextNonNullID (draws : list Z) : option Z :=
  match draws with
  | [] => None
  | d :: rest =>
      let id := i64 d in
      if id =? 0 then NextNonNullID rest
      else Some (if id <? 0 then i64 (- id) else id)
  end.

(** ** internal/kv/revision.go *)

Definition revBytesLen : nat := 16.
Definition markedRevBytesLen : nat := 17.
Definition markBytePosition : nat := 16.
Definition markTombstone : byte := Byte.x54.

Record Revision := mkRev { Main : Z; Sub : Z }.

#[export] Instance Revision_eq_dec : EqDecision Revision.
Proof. solve_decision. Defined.
#[export] Program Instance Revision_countable : Countable Revision :=
  inj_countable' (fun r => (Main r, Sub r)) (fun p => mkRev p.1 p.2) _.
Next Obligation. by intros []. Qed.

(** The zero value [Revision{}]. *)
Definition rev0 : Revision := mkRev 0 0.

Definition GreaterThan (r b : Revision) : bool :=
  if Main b <? Main r then true
  else if Main r <? Main b then false
  else Sub b <? Sub r.

Definition NewRevBytes : bytes := replicate revBytesLen Byte.x00.

(** ** internal/kv/bucket_key.go *)

Record KvBucketKey := mkBK { bk_Revision : Revision; bk_Tombstone : bool }.

#[export] Instance KvBucketKey_eq_dec : EqDecision KvBucketKey.
Proof. solve_decision. Defined.

Definition NewKvBucketKey (main sub : Z) (isTombstone : bool) : KvBucketKey :=
  mkBK (mkRev main sub) isTombstone.

Definition EncodeKvBucketKey (bk : KvBucketKey) (buf : bytes) : res bytes :=
  if (length buf <? 16)%nat then Panicked
  else
    let buf := be_put 8 (u64 (Main (bk_Revision bk)))
                 ++ be_put 8 (u64 (Sub (bk_Revision bk))) ++ drop 16 buf in
    if bk_Tombstone bk then
      if (length buf =? revBytesLen)%nat then Ok (buf ++ [markTombstone])
      else if (markedRevBytesLen <=? length buf)%nat
           then Ok (<[markBytePosition := markTombstone]> buf)
           else Ok buf
    else Ok buf.

Definition DecodeKvBucketKey (src : bytes) : res KvBucketKey :=
  if negb (length src =? revBytesLen)%nat && negb (length src =? markedRevBytesLen)%nat
  then Panicked
  else Ok (mkBK (mkRev (i64 (be_get (take 8 src))) (i64 (be_get (take 8 (drop 8 src)))))
             ((length src =? markedRevBytesLen)%nat
                && bool_decide (src !! markBytePosition = Some markTombstone))).

Definition IsTombstone (b : bytes) : bool :=
  (length b =? markedRevBytesLen)%nat
    && bool_decide (b !! markBytePosition = Some markTombstone).

(** revision.go:35-41 *)
Definition EncodeRevisionAsBucketKey (rev : Revision) (buf : bytes) : res bytes :=
  EncodeKvBucketKey (mkBK rev false) buf.

Definition DecodeRevision (b : bytes) : res Revision :=
  match DecodeKvBucketKey b with
  | Ok bk => Ok (bk_Revision bk)
  | Err e => Err e
  | Panicked => Panicked
  end.

(** ** internal/kv/entry.go: a [nil] value is [None]. *)

Record Entry := mkEntry {
  Key : bytes;
  Value : option bytes;
  CreateRev : Z;
  ModRev : Z;
  Version : Z;
  LeaseID : Z }.

#[export] Instance Entry_eq_dec : EqDecision Entry.
Proof. solve_decision. Defined.

Definition emptyEntry : Entry := mkEntry [] None 0 0 0 0.

Definition Tombstone (e : Entry) : bool :=
  negb (length (Key e) =? 0)%nat && (length (default [] (Value e)) =? 0)%nat.

Definition EncodeKvEntry (e : option Entry) : res bytes :=
  match e with
  | None => Err (errMsg "codec error: failed to encode nil entry")
  | Some e =>
      let v := default [] (Value e) in
      Ok (be_put 4 (u32 (Z.of_nat (length (Key e)))) ++ Key e
            ++ be_put 4 (u32 (Z.of_nat (length v))) ++ v
            ++ be_put 8 (u64 (CreateRev e)) ++ be_put 8 (u64 (ModRev e))
            ++ be_put 8 (u64 (Version e)) ++ be_put 8 (u64 (LeaseID e)))
  end.

(** The Go function returns the entry filled so far together with the error;
    the entry is nil only when the buffer is. *)
Definition DecodeEntry (data : option bytes) : option Entry * option error :=
  match data with
  | None => (None, Some (errMsg "codec error: nil buffer recieved"))
  | Some data =>
      let e := emptyEntry in
      if (length data <? 4)%nat
      then (Some e, Some (errMsg "codec error: decoding failed: data too short for key length"))
      else
        let keyLen := Z.to_nat (be_get (take 4 data)) in
        let offset := 4%nat in
        if (length data <? offset + keyLen)%nat
        then (Some e, Some (errMsg "codec error: decoding failed: data too short for key"))
        else
          let e := mkEntry (take keyLen (drop offset data)) None 0 0 0 0 in
          let offset := (offset + keyLen)%nat in
          if (length data <? offset + 4)%nat
          then (Some e, Some (errMsg "codec error: decoding failed: data too short for value length"))
          else
            let valLen := Z.to_nat (be_get (take 4 (drop offset data))) in
            let offset := (offset + 4)%nat in
            if (length data <? offset + valLen)%nat
            then (Some e, Some (errMsg "codec error: decoding failed: data too short for value"))
            else
              let value := take valLen (drop offset data) in
              let offset := (offset + valLen)%nat in
              let e := mkEntry (Key e) (Some value) 0 0 0 0 in
              if (length data <? offset + 32)%nat
              then (Some e, Some (errMsg "codec error: decoding failed: data too short for fixed fields"))
              else
                let u64_at o := i64 (be_get (take 8 (drop o data))) in
                (Some (mkEntry (Key e) (Value e)
                         (u64_at offset) (u64_at (offset + 8)%nat)
                         (u64_at (offset + 16)%nat) (u64_at (offset + 24)%nat)), None)
  end.

(** ** internal/kv/event.go *)

Inductive EventKind := EventPut | EventDelete.
Inductive EventFilter := FilterNoPut | FilterNoDelete.
Record Event := mkEvent { ev_Kind : EventKind; ev_Entry : Entry }.

Definition ToKvEvent (e : option Entry) : res Event :=
  match e with
  | None => Panicked
  | Some e => if Tombstone e then Ok (mkEvent EventDelete e) else Ok (mkEvent EventPut e)
  end.

Fixpoint ToKvEvents (es : list (option Entry)) : res (list Event) :=
  match es with
  | [] => Ok []
  | e :: es' =>
      match ToKvEvent e with
      | Ok ev => match ToKvEvents es' with
                 | Ok evs => Ok (ev :: evs) | Err x => Err x | Panicked => Panicked end
      | Err x => Err x
      | Panicked => Panicked
      end
  end.

(** ** internal/kv/prefix.go: [None] is Go's nil. *)

Fixpoint PrefixEnd_loop (endb : bytes) (n : nat) : option bytes :=
  match n with
  | O => None
  | S i =>
      match endb !! i with
      | Some b =>
          if byteZ b <? 255
          then Some (take (i + 1) (<[i := Zbyte (byteZ b + 1)]> endb))
          else PrefixEnd_loop endb i
      | None => None
      end
  end.

Definition PrefixEnd (prefix : bytes) : option bytes :=
  if (length prefix =? 0)%nat then None else PrefixEnd_loop prefix (length prefix).

(** ** internal/kv/options.go *)

Record Options := mkOptions { MaxKeySize : Z; MaxValueSize : Z }.

Definition Options_Check (o : Options) : option error :=
  if MaxKeySize o <? 1 then Some (errMsg "max key size cannot be negative or zero")
  else if MaxValueSize o <? 1 then Some (errMsg "max value size cannot be negative or zero")
  else None.

Definition CheckKey (o : Options) (key : bytes) : option error :=
  if MaxKeySize o <? Z.of_nat (length key) then Some (errMsg "key size exceeds max key size")
  else None.

Definition CheckValue (o : Options) (val : bytes) : option error :=
  if MaxValueSize o <? Z.of_nat (length val)
  then Some (errMsg "value size exceeds max value size")
  else None.

(** ** The order on revisions *)

Definition rev_lt (r s : Revision) : Prop := Main r < Main s \/ (Main r = Main s /\ Sub r < Sub s).
Definition rev_le (r s : Revision) : Prop := rev_lt r s \/ r = s.

#[export] Instance rev_lt_dec : RelDecision rev_lt.
Proof. intros r s. unfold rev_lt. apply _. Defined.
#[export] Instance rev_lt_strict : StrictOrder rev_lt.
Proof.
  split.
  - intros r. unfold complement, rev_lt. lia.
  - intros r s t. unfold rev_lt. lia.
Qed.

Lemma GreaterThan_spec r b : GreaterThan r b = true <-> rev_lt b r.
Proof. unfold GreaterThan, rev_lt. go_cases; split; intros; try done; lia. Qed.

Lemma rev_lt_trich r s : rev_lt r s \/ r = s \/ rev_lt s r.
Proof.
  destruct r as [a b], s as [c d]. unfold rev_lt; simpl.
  destruct (Z.lt_trichotomy a c) as [|[->|]]; [lia| |lia].
  destruct (Z.lt_trichotomy b d) as [|[->|]]; auto.
Qed.

Lemma rev_lt_Main r s : rev_lt r s -> Main r <= Main s.
Proof. unfold rev_lt. lia. Qed.

Lemma rev_le_lt_trans r s t : rev_le r s -> rev_lt s t -> rev_lt r t.
Proof. intros [H| ->]; [by transitivity s|done]. Qed.

#[export] Hint Resolve rev_lt_Main : kave.

(** ** Bucket keys *)

(** Both components fit a non-negative int64, as every allocated revision does. *)
Definition rev_ok (r : Revision) : Prop := 0 <= Main r <= MaxInt64 /\ 0 <= Sub r <= MaxInt64.
#[export] Instance rev_ok_dec r : Decision (rev_ok r).
Proof. unfold rev_ok. apply _. Defined.

(** Both components are int64 values, as every Revision of the program is. *)
Definition rev_typed (r : Revision) : Prop := in_i64 (Main r) /\ in_i64 (Sub r).

Lemma rev_ok_typed r : rev_ok r -> rev_typed r.
Proof. unfold rev_ok, rev_typed, in_i64, MinInt64. lia. Qed.
#[export] Hint Resolve rev_ok_typed : kave.

Definition rev_bytes (r : Revision) : bytes := be_put 8 (u64 (Main r)) ++ be_put 8 (u64 (Sub r)).
Definition bk_bytes (bk : KvBucketKey) : bytes :=
  rev_bytes (bk_Revision bk) ++ if bk_Tombstone bk then [markTombstone] else [].

Lemma length_rev_bytes r : length (rev_bytes r) = 16%nat.
Proof. unfold rev_bytes. by rewrite length_app, !length_be_put. Qed.

Lemma EncodeKvBucketKey_new bk : EncodeKvBucketKey bk NewRevBytes = Ok (bk_bytes bk).
Proof.
  unfold EncodeKvBucketKey, bk_bytes, rev_bytes. cbn [NewRevBytes revBytesLen replicate length drop].
  rewrite app_nil_r, length_app, !length_be_put. simpl (_ <? _)%nat. cbv iota.
  destruct (bk_Tombstone bk); simpl; [done|by rewrite app_nil_r].
Qed.

Lemma EncodeRevision_new r : EncodeRevisionAsBucketKey r NewRevBytes = Ok (rev_bytes r).
Proof.
  unfold EncodeRevisionAsBucketKey. rewrite EncodeKvBucketKey_new.
  unfold bk_bytes. simpl. by rewrite app_nil_r.
Qed.

(** A reused 16-byte buffer is overwritten completely. *)
Lemma EncodeRevision_buf r buf :
  length buf = 16%nat -> EncodeRevisionAsBucketKey r buf = Ok (rev_bytes r).
Proof.
  intros Hl. unfold EncodeRevisionAsBucketKey, EncodeKvBucketKey, rev_bytes. rewrite Hl. simpl.
  by rewrite drop_ge, app_nil_r by lia.
Qed.
#[export] Hint Rewrite length_rev_bytes EncodeKvBucketKey_new EncodeRevision_new : kave.

Lemma be_get_u64 z : be_get (be_put 8 (u64 z)) = u64 z.
Proof. rewrite be_get_put. apply Z.mod_small, u64_range. Qed.

Lemma i64_be_get z : in_i64 z -> i64 (be_get (be_put 8 (u64 z))) = z.
Proof. intros. by rewrite be_get_u64, i64_u64, i64_id. Qed.

Lemma u64_nonneg z : 0 <= z <= MaxInt64 -> u64 z = z.
Proof. unfold MaxInt64. intros. apply u64_id. lia. Qed.

Lemma DecodeKvBucketKey_bytes bk :
  rev_typed (bk_Revision bk) -> DecodeKvBucketKey (bk_bytes bk) = Ok bk.
Proof.
  destruct bk as [[m s] t]. intros [Hm Hs]. simpl in *.
  unfold DecodeKvBucketKey, bk_bytes, rev_bytes. cbn [bk_Revision bk_Tombstone Main Sub].
  assert (length ((be_put 8 (u64 m) ++ be_put 8 (u64 s)) ++ (if t then [markTombstone] else []))
          = if t then 17%nat else 16%nat) as Hl
    by (rewrite !length_app, !length_be_put; by destruct t).
  rewrite Hl. rewrite <-!app_assoc.
  rewrite take_app_length' by (by rewrite length_be_put).
  rewrite drop_app_length' by (by rewrite length_be_put).
  rewrite take_app_length' by (by rewrite length_be_put).
  rewrite !i64_be_get by done. by destruct t.
Qed.

Lemma rev_bytes_compare r s :
  rev_ok r -> rev_ok s ->
  bytes_compare (rev_bytes r) (rev_bytes s) =
    match Z.compare (Main r) (Main s) with Eq => Z.compare (Sub r) (Sub s) | c => c end.
Proof.
  intros [Hr1 Hr2] [Hs1 Hs2]. unfold rev_bytes.
  rewrite bytes_compare_app by (by rewrite !length_be_put).
  rewrite !u64_nonneg by done. unfold MaxInt64 in *.
  by rewrite !bytes_compare_be_put by (simpl; lia).
Qed.

(** The abstract order of bucket keys: by revision, the tombstone-marked key last. *)
Definition bk_compare (a b : KvBucketKey) : comparison :=
  match Z.compare (Main (bk_Revision a)) (Main (bk_Revision b)) with
  | Eq => match Z.compare (Sub (bk_Revision a)) (Sub (bk_Revision b)) with
          | Eq => match bk_Tombstone a, bk_Tombstone b with
                  | false, true => Lt | true, false => Gt | _, _ => Eq end
          | c => c end
  | c => c
  end.

Lemma bk_bytes_compare a b :
  rev_ok (bk_Revision a) -> rev_ok (bk_Revision b) ->
  bytes_compare (bk_bytes a) (bk_bytes b) = bk_compare a b.
Proof.
  intros Ha Hb. unfold bk_bytes, bk_compare.
  rewrite bytes_compare_app by (by rewrite !length_rev_bytes).
  rewrite rev_bytes_compare by done.
  destruct (Main (bk_Revision a) ?= Main (bk_Revision b)); [|done..].
  destruct (Sub (bk_Revision a) ?= Sub (bk_Revision b)); [|done..].
  by destruct (bk_Tombstone a), (bk_Tombstone b).
Qed.

(** ** Entries *)

(** Every field fits the width the codec writes it with. *)
Definition entry_ok (e : Entry) : Prop :=
  Z.of_nat (length (Key e)) < 2 ^ 32 /\ Z.of_nat (length (default [] (Value e))) < 2 ^ 32 /\
  in_i64 (CreateRev e) /\ in_i64 (ModRev e) /\ in_i64 (Version e) /\ in_i64 (LeaseID e).
#[export] Instance entry_ok_dec e : Decision (entry_ok e).
Proof. unfold entry_ok. apply _. Defined.

(** What a decoded entry looks like: a nil value comes back as an empty one. *)
Definition stored (e : Entry) : Entry :=
  mkEntry (Key e) (Some (default [] (Value e))) (CreateRev e) (ModRev e) (Version e) (LeaseID e).

Definition entry_bytes (e : Entry) : bytes :=
  let v := default [] (Value e) in
  be_put 4 (u32 (Z.of_nat (length (Key e)))) ++ Key e
    ++ be_put 4 (u32 (Z.of_nat (length v))) ++ v
    ++ be_put 8 (u64 (CreateRev e)) ++ be_put 8 (u64 (ModRev e))
    ++ be_put 8 (u64 (Version e)) ++ be_put 8 (u64 (LeaseID e)).

Lemma EncodeKvEntry_Some e : EncodeKvEntry (Some e) = Ok (entry_bytes e).
Proof. done. Qed.

Lemma length_entry_bytes e :
  length (entry_bytes e) = (40 + length (Key e) + length (default [] (Value e)))%nat.
Proof. unfold entry_bytes. rewrite !length_app, !length_be_put. lia. Qed.

Lemma take_app_exact {A} (a b : list A) n : length a = n -> take n (a ++ b) = a.
Proof. intros <-. apply take_app_length. Qed.
Lemma drop_app_exact {A} (a b : list A) n : length a = n -> drop n (a ++ b) = b.
Proof. intros <-. apply drop_app_length. Qed.
Lemma drop_app_add {A} (a b : list A) n m : length a = n -> drop (n + m) (a ++ b) = drop m b.
Proof. intros <-. rewrite drop_app_ge by lia. f_equal. lia. Qed.

Lemma be_get_len n : Z.of_nat n < 2 ^ 32 -> Z.to_nat (be_get (be_put 4 (u32 (Z.of_nat n)))) = n.
Proof.
  intros H. rewrite be_get_put. Transparent u32. unfold u32. Opaque u32.
  change (256 ^ Z.of_nat 4) with (2 ^ 32). rewrite !(Z.mod_small (Z.of_nat n)) by lia. lia.
Qed.

(** Decoding an encoding, whatever follows it in the buffer. *)
Lemma DecodeEntry_bytes e tail :
  entry_ok e -> DecodeEntry (Some (entry_bytes e ++ tail)) = (Some (stored e), None).
Proof.
  intros (Hk & Hv & Hc & Hm & Hver & Hl). destruct e as [k v c m ver l]; simpl in Hk, Hv, Hc, Hm, Hver, Hl.
  set (vb := default [] v) in *.
  unfold DecodeEntry, stored, emptyEntry. cbv zeta.
  rewrite length_app, length_entry_bytes. unfold entry_bytes.
  cbv beta iota zeta delta [Key Value CreateRev ModRev Version LeaseID].
  fold vb. rewrite <-!app_assoc.
  rewrite (take_app_exact (be_put 4 _)) by apply length_be_put.
  rewrite be_get_len by done.
  rewrite !(drop_app_exact (be_put 4 _)) by apply length_be_put.
  rewrite (take_app_exact k) by done.
  rewrite <-!Nat.add_assoc.
  rewrite !(drop_app_add (be_put 4 _)) by apply length_be_put.
  rewrite !(drop_app_add k), (drop_app_exact k) by done.
  rewrite (take_app_exact (be_put 4 _)) by apply length_be_put.
  rewrite be_get_len by done.
  rewrite (drop_app_exact (be_put 4 _)) by apply length_be_put.
  rewrite (take_app_exact vb) by done.
  rewrite !(drop_app_add (be_put 4 _)) by apply length_be_put.
  rewrite !(drop_app_add vb), (drop_app_exact vb) by done.
  rewrite (take_app_exact (be_put 8 (u64 c))) by apply length_be_put.
  rewrite (drop_app_exact (be_put 8 (u64 c)) _ 8) by apply length_be_put.
  change 24%nat with (8 + (8 + 8))%nat. change 16%nat with (8 + 8)%nat.
  rewrite !(drop_app_add (be_put 8 (u64 c))) by apply length_be_put.
  rewrite !(drop_app_add (be_put 8 (u64 m))) by apply length_be_put.
  rewrite !(drop_app_exact (be_put 8 _)) by apply length_be_put.
  rewrite !(take_app_exact (be_put 8 _)) by apply length_be_put.
  rewrite !i64_be_get by done.
  repeat (rewrite (proj2 (Nat.ltb_ge _ _)) by lia). done.
Qed.

Lemma DecodeEntry_Some_length data e :
  DecodeEntry (Some data) = (e, None) ->
  let kl := Z.to_nat (be_get (take 4 data)) in
  let vl := Z.to_nat (be_get (take 4 (drop (4 + kl) data))) in
  (40 + kl + vl <= length data)%nat.
Proof.
  unfold DecodeEntry. cbv zeta.
  repeat match goal with |- context [if ?b then _ else _] => destruct b eqn:?; [by intros|] end.
  intros _. rewrite !Nat.ltb_ge in *. lia.
Qed.

(** ** Prefix ranges *)

Lemma PrefixEnd_loop_split p n e :
  (n <= length p)%nat -> PrefixEnd_loop p n = Some e ->
  exists q b r, take n p = q ++ b :: r /\ byteZ b < 255 /\ Forall (eq Byte.xff) r /\
    e = q ++ [Zbyte (byteZ b + 1)].
Proof.
  induction n as [|i IH]; intros Hn; [done|]. simpl.
  destruct (p !! i) as [b|] eqn:Hb; [|done].
  rewrite (take_S_r _ _ _ Hb).
  destruct (byteZ b <? 255) eqn:E.
  - intros [= <-]. exists (take i p), b, []. split_and!; [done|lia|done|].
    rewrite Nat.add_1_r. rewrite (take_S_r _ i (Zbyte (byteZ b + 1)))
      by (apply list_lookup_insert_eq; lia).
    by rewrite take_insert_ge by lia.
  - intros H. destruct (IH ltac:(lia) H) as (q & b' & r & -> & ? & ? & ->).
    exists q, b', (r ++ [b]). split_and!; [by rewrite <-app_assoc|done| |done].
    apply Forall_app. split; [done|]. constructor; [|done].
    apply (inj byteZ). pose proof (byteZ_range b). change (byteZ Byte.xff) with 255. lia.
Qed.

Lemma bytes_leb_nil k : bytes_leb [] k = true.
Proof. by destruct k. Qed.

Lemma bytes_leb_ff r k :
  Forall (eq Byte.xff) r -> bytes_leb r k = true <-> r `prefix_of` k.
Proof.
  intros Hr. revert k. induction Hr as [|x r <- _ IH]; intros k.
  { split; intros _; [by apply prefix_nil|apply bytes_leb_nil]. }
  destruct k as [|y k].
  { split; [done|]. intros H. by apply prefix_nil_not in H. }
  unfold bytes_leb in *. cbn [bytes_compare]. change (byteZ Byte.xff) with 255.
  pose proof (byteZ_range y).
  destruct (Z.compare_spec 255 (byteZ y)) as [E|E|E]; [|lia|].
  - assert (y = Byte.xff) as -> by (apply (inj byteZ); by rewrite <-E).
    rewrite IH. split; [by apply prefix_cons|apply prefix_cons_inv_2].
  - split; [done|]. intros H'. apply prefix_cons_inv_1 in H' as <-.
    change (byteZ Byte.xff) with 255 in E. lia.
Qed.

(** Between [q ++ x] and [q ++ y] every string starts with [q]. *)
Lemma bytes_between_prefix q x y k :
  bytes_leb (q ++ x) k = true -> bytes_ltb k (q ++ y) = true -> q `prefix_of` k.
Proof.
  revert k. induction q as [|b q IH]; intros k; simpl; [intros; apply prefix_nil|].
  unfold bytes_leb, bytes_ltb in *. destruct k as [|c k]; [done|]. simpl.
  destruct (Z.compare_spec (byteZ b) (byteZ c)) as [E|E|E]; [|by rewrite (proj2 (Z.compare_gt_iff _ _)) by lia|done].
  rewrite E, Z.compare_refl. rewrite (inj byteZ _ _ E).
  intros H1 H2. apply prefix_cons. by apply IH.
Qed.

Lemma bytes_leb_app q a b : bytes_leb (q ++ a) (q ++ b) = bytes_leb a b.
Proof. unfold bytes_leb. by rewrite bytes_compare_app_l. Qed.
Lemma bytes_ltb_app q a b : bytes_ltb (q ++ a) (q ++ b) = bytes_ltb a b.
Proof. unfold bytes_ltb. by rewrite bytes_compare_app_l. Qed.

(** One byte of the range: [b :: r <= k' < [b+1]] with [r] all 0xFF. *)
Lemma prefix_step b r k :
  byteZ b < 255 -> Forall (eq Byte.xff) r ->
  (bytes_leb (b :: r) k && bytes_ltb k [Zbyte (byteZ b + 1)]) = true <-> (b :: r) `prefix_of` k.
Proof.
  intros Hb Hr. pose proof (byteZ_range b).
  assert (byteZ (Zbyte (byteZ b + 1)) = byteZ b + 1) as Hs
    by (rewrite byteZ_Zbyte; apply Z.mod_small; lia).
  destruct k as [|c k].
  { split; [done|]. intros H'. by apply prefix_nil_not in H'. }
  unfold bytes_leb, bytes_ltb. cbn [bytes_compare]. rewrite Hs.
  destruct (Z.compare_spec (byteZ b) (byteZ c)) as [E|E|E].
  - rewrite (inj byteZ _ _ E) in *. rewrite (proj2 (Z.compare_lt_iff _ _)) by lia.
    rewrite andb_true_r. fold (bytes_leb r k). rewrite bytes_leb_ff by done.
    split; [apply prefix_cons|apply prefix_cons_inv_2].
  - destruct (Z.compare_spec (byteZ c) (byteZ b + 1)); [|lia|].
    + destruct k; (split; [done|]); intros H'; apply prefix_cons_inv_1 in H' as <-; lia.
    + split; [done|]. intros H'. apply prefix_cons_inv_1 in H' as <-; lia.
  - split; [done|]. intros H'. apply prefix_cons_inv_1 in H' as <-; lia.
Qed.

Lemma PrefixEnd_loop_None p n :
  (n <= length p)%nat -> PrefixEnd_loop p n = None -> Forall (eq Byte.xff) (take n p).
Proof.
  induction n as [|i IH]; intros Hn; [constructor|]. simpl.
  destruct (lookup_lt_is_Some_2 p i) as [b Hb]; [lia|]. rewrite Hb.
  destruct (byteZ b <? 255) eqn:E; [done|]. intros H.
  rewrite (take_S_r _ _ _ Hb). apply Forall_app. split; [apply IH; [lia|done]|].
  constructor; [|done]. apply (inj byteZ).
  pose proof (byteZ_range b). change (byteZ Byte.xff) with 255. lia.
Qed.

(** ** Properties *)

(** A bucket key written into a fresh 16-byte buffer is the 16 big-endian bytes
    of its revision, with the mark byte appended exactly for a tombstone, and
    decoding it gives back the same revision and tombstone flag. *)
Theorem bucket_key_roundtrip bk :
  rev_typed (bk_Revision bk) ->
  exists b, EncodeKvBucketKey bk NewRevBytes = Ok b /\
    length b = (if bk_Tombstone bk then markedRevBytesLen else revBytesLen) /\
    DecodeKvBucketKey b = Ok bk /\ IsTombstone b = bk_Tombstone bk.
Proof.
  intros H. exists (bk_bytes bk). split_and!.
  - apply EncodeKvBucketKey_new.
  - unfold bk_bytes. rewrite length_app, length_rev_bytes. by destruct (bk_Tombstone bk).
  - by apply DecodeKvBucketKey_bytes.
  - unfold IsTombstone, bk_bytes. rewrite length_app, length_rev_bytes.
    destruct (bk_Tombstone bk); [|done]. simpl.
    rewrite lookup_app_r by (rewrite length_rev_bytes; unfold markBytePosition; lia).
    by rewrite length_rev_bytes.
Qed.

Lemma bucket_key_roundtrip_witness :
  DecodeKvBucketKey (bk_bytes (mkBK (mkRev 258 3) true)) = Ok (mkBK (mkRev 258 3) true).
Proof.
  destruct (bucket_key_roundtrip (mkBK (mkRev 258 3) true)) as (b & He & _ & Hd & _);
    [split; by apply (bool_decide_unpack _) | ].
  rewrite EncodeKvBucketKey_new in He. injection He as <-. exact Hd.
Defined.

(** The byte order of encoded bucket keys is the order of their revisions
    (main first, then sub), a tombstone-marked key sorting right after the plain
    key of the same revision: what makes a scan of the kv bucket chronological. *)
Theorem bucket_key_order a b ea eb :
  rev_ok (bk_Revision a) -> rev_ok (bk_Revision b) ->
  EncodeKvBucketKey a NewRevBytes = Ok ea -> EncodeKvBucketKey b NewRevBytes = Ok eb ->
  (bytes_ltb ea eb = true <->
     GreaterThan (bk_Revision b) (bk_Revision a) = true \/
     (bk_Revision a = bk_Revision b /\ bk_Tombstone a = false /\ bk_Tombstone b = true)).
Proof.
  intros Ha Hb. rewrite !EncodeKvBucketKey_new. intros [= <-] [= <-].
  unfold bytes_ltb. rewrite bk_bytes_compare by done.
  rewrite GreaterThan_spec. unfold bk_compare, rev_lt.
  destruct a as [[m s] t], b as [[m' s'] t']; simpl.
  destruct (Z.compare_spec m m') as [->|?|?];
    [destruct (Z.compare_spec s s') as [->|?|?]| |];
    destruct t, t'; split; intros; try done; simplify_eq; try lia;
    try (right; done); try (left; lia); destruct_or?; destruct_and?; simplify_eq; lia.
Qed.

Lemma bucket_key_order_witness :
  bytes_ltb (bk_bytes (mkBK (mkRev 255 9) true)) (bk_bytes (mkBK (mkRev 256 0) false)) = true.
Proof.
  apply (bucket_key_order (mkBK (mkRev 255 9) true) (mkBK (mkRev 256 0) false));
    [by apply (bool_decide_unpack _) | by apply (bool_decide_unpack _)
    | apply EncodeKvBucketKey_new | apply EncodeKvBucketKey_new | left; reflexivity].
Defined.

(** C29: Decoding the encoding of an entry, whatever bytes follow it, returns every
    field of it (a nil value as an empty one) and no error. *)
Theorem entry_roundtrip e tail :
  entry_ok e ->
  exists b, EncodeKvEntry (Some e) = Ok b /\
    DecodeEntry (Some (b ++ tail)) = (Some (stored e), None).
Proof.
  intros H. exists (entry_bytes e). split; [done|]. by apply DecodeEntry_bytes.
Qed.

Lemma entry_roundtrip_witness :
  DecodeEntry (Some (entry_bytes (mkEntry [Byte.x61] None 1 2 3 (-4)) ++ [Byte.xff]))
    = (Some (mkEntry [Byte.x61] (Some []) 1 2 3 (-4)), None).
Proof.
  destruct (entry_roundtrip (mkEntry [Byte.x61] None 1 2 3 (-4)) [Byte.xff]) as (b & He & Hd);
    [by apply (bool_decide_unpack _)|].
  rewrite EncodeKvEntry_Some in He. injection He as <-. exact Hd.
Defined.

(** Truncating an encoded entry anywhere makes decoding fail: DecodeEntry never
    reads past the buffer and never accepts a partial entry. *)
Theorem entry_truncated e b n :
  entry_ok e -> EncodeKvEntry (Some e) = Ok b -> (n < length b)%nat ->
  exists partial err, DecodeEntry (Some (take n b)) = (partial, Some err).
Proof.
  intros He. rewrite EncodeKvEntry_Some. intros [= <-] Hn.
  destruct (DecodeEntry (Some (take n (entry_bytes e)))) as [p [err|]] eqn:E; [eauto|].
  exfalso. apply DecodeEntry_Some_length in E. cbv zeta in E.
  destruct He as (Hk & Hv & _). rewrite length_entry_bytes in Hn.
  rewrite length_take, length_entry_bytes in E.
  assert (4 <= n)%nat as Hn4 by lia.
  rewrite take_take, Nat.min_l in E by lia.
  assert (take 4 (entry_bytes e) = be_put 4 (u32 (Z.of_nat (length (Key e))))) as E4
    by (unfold entry_bytes; apply take_app_exact, length_be_put).
  rewrite E4, be_get_len in E by done.
  assert (take 4 (drop (4 + length (Key e)) (take n (entry_bytes e))) =
          be_put 4 (u32 (Z.of_nat (length (default [] (Value e)))))) as E5.
  { rewrite take_drop_commute, take_take, Nat.min_l, <-take_drop_commute by lia.
    unfold entry_bytes. rewrite drop_app_add, drop_app_exact by (done || apply length_be_put).
    apply take_app_exact, length_be_put. }
  rewrite E5, be_get_len in E by done. lia.
Qed.

Lemma entry_truncated_witness :
  exists partial err, DecodeEntry (Some (take 40 (entry_bytes (mkEntry [Byte.x61] None 1 2 3 0))))
    = (partial, Some err).
Proof.
  apply (entry_truncated (mkEntry [Byte.x61] None 1 2 3 0));
    [by apply (bool_decide_unpack _) | apply EncodeKvEntry_Some
    | rewrite length_entry_bytes; simpl; lia].
Defined.

(** The range [prefix, PrefixEnd(prefix)) in byte order is exactly the set of keys
    that start with the prefix; there is no such end (the result is nil) only for
    the empty prefix and for prefixes made of 0xFF bytes alone. *)
Theorem PrefixEnd_range p :
  match PrefixEnd p with
  | Some e => forall k, (bytes_leb p k && bytes_ltb k e) = true <-> p `prefix_of` k
  | None => Forall (eq Byte.xff) p
  end.
Proof.
  unfold PrefixEnd. destruct (length p =? 0)%nat eqn:E0.
  { apply Nat.eqb_eq in E0. by apply nil_length_inv in E0 as ->. }
  destruct (PrefixEnd_loop p (length p)) as [e|] eqn:E.
  - apply PrefixEnd_loop_split in E as (q & b & r & Hp & Hb & Hr & ->); [|done].
    rewrite take_ge in Hp by done. subst p. intros k. split.
    + intros H. apply andb_true_iff in H as [H1 H2].
      destruct (bytes_between_prefix _ _ _ _ H1 H2) as [k' ->].
      rewrite bytes_leb_app in H1. rewrite bytes_ltb_app in H2.
      apply prefix_app, prefix_step; [done..|]. by rewrite H1, H2.
    + intros [k' ->]. rewrite <-!app_assoc, bytes_leb_app, bytes_ltb_app.
      apply prefix_step; [done..|]. by exists k'.
  - apply PrefixEnd_loop_None in E; [|done]. by rewrite take_ge in E.
Qed.
