(* ===== verification/KeyIndex.v ===== *)
(** The revision history of one key: [internal/kv/key_index.go].

    Definitions follow the Go methods; [abs] maps a key index to the list of
    events (puts and deletions) it stands for, and the theorems say what each
    method does to that list. *)

From S2P Require Import Prelude KvTypes.
From Stdlib Require Import ZArith Lia.
From stdpp Require Import base gmap sets list strings sorting.
Open Scope Z_scope.

(** ** The code *)

(** key_index.go:366-370 *)
Record generation := mkGen { version : Z; created : Revision; revs : list Revision }.

(** key_index.go:56-60 *)
Record keyIndex := mkKI { key : bytes; modRev : Revision; generations : list generation }.

#[export] Instance generation_eq_dec : EqDecision generation.
Proof. solve_decision. Defined.
#[export] Instance keyIndex_eq_dec : EqDecision keyIndex.
Proof. solve_decision. Defined.

(** The zero value [generation{}] and the fresh [&keyIndex{key: key}]. *)
Definition gen0 : generation := mkGen 0 rev0 [].
Definition newKI (k : bytes) : keyIndex := mkKI k rev0 [].

Definition Less (ki b : keyIndex) : bool := bytes_ltb (key ki) (key b).

Definition gen_isEmpty (g : generation) : bool := (length (revs g) =? 0)%nat.

(** The error leaves the receiver as it was: the check precedes every write. *)
Definition put (main sub : Z) (ki : keyIndex) : res keyIndex :=
  let rev := mkRev main sub in
  if negb (GreaterThan rev (modRev ki)) then Err [ErrKeyIndexError]
  else
    let gens := if (length (generations ki) =? 0)%nat then generations ki ++ [gen0]
                else generations ki in
    let upd g := mkGen (i64 (version g + 1))
                   (if (length (revs g) =? 0)%nat then rev else created g)
                   (revs g ++ [rev]) in
    Ok (mkKI (key ki) rev (modify_last upd gens)).

Definition isEmpty (ki : keyIndex) : bool :=
  match generations ki with
  | [g] => (length (revs g) =? 0)%nat
  | _ => false
  end.

(** The loop runs over the positions of [g.revs] from the last one down; the
    callback may change the state [s] of its closure, and stops the walk by
    returning false. [None] is the result -1. *)
Fixpoint walkBackwards_loop {S} (f : S -> Revision -> S * bool) (s : S) (down : list Revision)
  : S * option nat :=
  match down with
  | [] => (s, None)
  | r :: rest =>
      let '(s', ok) := f s r in
      if ok then walkBackwards_loop f s' rest else (s', Some (length rest))
  end.

Definition walkBackwards {S} (f : S -> Revision -> S * bool) (s : S) (g : generation)
  : S * option nat := walkBackwards_loop f s (reverse (revs g)).

(** The callback of [walk] threads the state of its closure. *)
Fixpoint walk_loop {S} (f : S -> Revision -> S * option error) (s : S) (rs : list Revision)
  : S * option error :=
  match rs with
  | [] => (s, None)
  | r :: rest =>
      match f s r with
      | (s', Some e) => (s', Some e)
      | (s', None) => walk_loop f s' rest
      end
  end.

Definition walk {S} (f : S -> Revision -> S * option error) (s : S) (g : generation)
  : S * option error := walk_loop f s (revs g).

(** [gs] are the generations still to visit, latest first; [isLast] tells whether
    the head is the last generation of the key. *)
Fixpoint findGen_loop (isLast : bool) (gs : list generation) (rev : Z) : res generation :=
  match gs with
  | [] => Err (errMsg "revision is at the gap of two generations")
  | g :: gs' =>
      match head (revs g), last (revs g) with
      | Some first, Some tomb =>
          if negb isLast && (Main tomb <=? rev) then Err (errMsg "tombstone at rev")
          else if Main first <=? rev then Ok g
          else findGen_loop false gs' rev
      | _, _ => findGen_loop false gs' rev
      end
  end.

Definition findGen (rev : Z) (ki : keyIndex) : res generation :=
  findGen_loop true (reverse (generations ki)) rev.

(** The part of [get] after the generation is found. *)
Definition gen_get (targetRev : Z) (g : generation) : res (Revision * Revision * Z) :=
  match walkBackwards (fun (_ : unit) rev => (tt, targetRev <? Main rev)) tt g with
  | (_, Some n) =>
      match revs g !! n with
      | Some r => Ok (created g, r,
                      i64 (version g - (Z.of_nat (length (revs g)) - Z.of_nat n - 1)))
      | None => Panicked
      end
  | (_, None) => Err [ErrRevNotFound]
  end.

(** The result is (createRev, modRev, version). *)
Definition get (targetRev : Z) (ki : keyIndex) : res (Revision * Revision * Z) :=
  if isEmpty ki then Panicked
  else
    match findGen targetRev ki with
    | Err e => Err (ErrKeyNotFound :: e)
    | Panicked => Panicked
    | Ok g => gen_get targetRev g
    end.

Definition tombstone (main sub : Z) (ki : keyIndex) : res keyIndex :=
  if isEmpty ki then Err [ErrKeyIndexError]
  else
    match last (generations ki) with
    | None => Panicked
    | Some g =>
        if gen_isEmpty g then Err [ErrKeyIndexError]
        else
          match put main sub ki with
          | Ok ki' => Ok (mkKI (key ki') (modRev ki') (generations ki' ++ [gen0]))
          | Err e => Err e
          | Panicked => Panicked
          end
    end.

Definition doRestore (createRev mod_rev : Revision) (ver : Z) (ki : keyIndex) : res keyIndex :=
  if negb (length (generations ki) =? 0)%nat
  then Err (errMsg "revive: placing tombstone on non-empty key index")
  else Ok (mkKI (key ki) mod_rev (generations ki ++ [mkGen ver createRev [mod_rev]])).

Definition restoreTombstone (main sub : Z) (ki : keyIndex) : res keyIndex :=
  match doRestore rev0 (mkRev main sub) 1 ki with
  | Ok ki' => Ok (mkKI (key ki') (modRev ki') (generations ki' ++ [gen0]))
  | Err e => Err e
  | Panicked => Panicked
  end.

(** First loop of [since]: the index of the generation to start from, going down
    from [i]; it stops at 0. *)
Fixpoint since_start (since_ : Revision) (gens : list generation) (i : nat) : nat :=
  match i with
  | O => O
  | S i' =>
      match gens !! i with
      | Some g =>
          if gen_isEmpty g then since_start since_ gens i'
          else if GreaterThan since_ (created g) then i
          else since_start since_ gens i'
      | None => i
      end
  end.

(** Second loop: [out] is the slice [revs], [lastm] the variable [last]. *)
Fixpoint since_collect (since_ : Revision) (rs : list Revision) (out : list Revision) (lastm : Z)
  : res (list Revision) :=
  match rs with
  | [] => Ok out
  | r :: rest =>
      if GreaterThan since_ r then since_collect since_ rest out lastm
      else if Main r =? lastm then
        match out with
        | [] => Panicked
        | _ => since_collect since_ rest (modify_last (fun _ => r) out) lastm
        end
      else since_collect since_ rest (out ++ [r]) (Main r)
  end.

Definition since (rev : Z) (ki : keyIndex) : res (list Revision) :=
  if isEmpty ki then Err (errMsg "'since' got an unexpected empty keyIndex")
  else
    match generations ki with
    | [] => Panicked
    | _ =>
        let s := mkRev rev 0 in
        let idxGen := since_start s (generations ki) (length (generations ki) - 1) in
        since_collect s (mjoin (revs <$> drop idxGen (generations ki))) [] 0
    end.

(** The generation search of [doCompact]; indexing an empty [revs] panics. *)
Fixpoint doCompact_loop (atRev : Z) (genIdx : nat) (gs : list generation)
  : res (nat * generation) :=
  match gs with
  | [] => Panicked
  | [g] => Ok (genIdx, g)
  | g :: gs' =>
      match last (revs g) with
      | None => Panicked
      | Some tomb => if atRev <=? Main tomb then Ok (genIdx, g)
                     else doCompact_loop atRev (S genIdx) gs'
      end
  end.

Definition doCompact (atRev : Z) (available : gset Revision) (ki : keyIndex)
  : res (gset Revision * nat * option nat) :=
  let f avail rev :=
    if Main rev <=? atRev then ({[ rev ]} ∪ avail, false) else (avail, true) in
  match doCompact_loop atRev 0 (generations ki) with
  | Ok (genIdx, g) =>
      let '(avail', revIndex) := walkBackwards f available g in Ok (avail', genIdx, revIndex)
  | Err e => Err e
  | Panicked => Panicked
  end.

Definition compact (atRev : Z) (available : gset Revision) (ki : keyIndex)
  : res (keyIndex * gset Revision) :=
  if isEmpty ki then Err (errMsg "'compact' got an unexpected empty keyIndex")
  else
    match doCompact atRev available ki with
    | Ok (avail', genIdx, revIdx) =>
        let cut g :=
          if gen_isEmpty g then g
          else match revIdx with
               | Some n => mkGen (version g) (created g) (drop n (revs g))
               | None => g
               end in
        Ok (mkKI (key ki) (modRev ki) (drop genIdx (alter cut genIdx (generations ki))), avail')
    | Err e => Err e
    | Panicked => Panicked
    end.

Definition keep (targetRev : Z) (available : gset Revision) (ki : keyIndex)
  : res (gset Revision) :=
  if isEmpty ki then Ok available
  else
    match doCompact targetRev available ki with
    | Ok (avail', genIdx, revIndex) =>
        match generations ki !! genIdx with
        | None => Panicked
        | Some g =>
            if gen_isEmpty g then Ok avail'
            else
              match revIndex with
              | Some n =>
                  if (n =? length (revs g) - 1)%nat
                       && negb (genIdx =? length (generations ki) - 1)%nat
                  then match revs g !! n with
                       | Some r => Ok (avail' ∖ {[ r ]})
                       | None => Panicked
                       end
                  else Ok avail'
              | None => Ok avail'
              end
        end
    | Err e => Err e
    | Panicked => Panicked
    end.

Definition gen_equal (g b : generation) : bool :=
  if negb (version g =? version b) then false
  else if negb (length (revs g) =? length (revs b))%nat then false
  else forallb (fun p => bool_decide (p.1 = p.2)) (zip (revs g) (revs b)).

Definition equal (ki b : keyIndex) : bool :=
  if negb (bool_decide (key ki = key b)) then false
  else if negb (bool_decide (modRev ki = modRev b)) then false
  else if negb (length (generations ki) =? length (generations b))%nat then false
  else forallb (fun p => gen_equal p.1 p.2) (zip (generations ki) (generations b)).

(** The last revision of the latest non-empty generation; [rev0] when there is none. *)
Fixpoint newModRev (down : list generation) : Revision :=
  match down with
  | [] => rev0
  | g :: rest => match last (revs g) with Some r => r | None => newModRev rest end
  end.

Definition dropRev (rev : Revision) (ki : keyIndex) : keyIndex :=
  match last (generations ki) with
  | None => ki
  | Some g =>
      let gens := if (length (revs g) =? 0)%nat then removelast (generations ki)
                  else generations ki in
      if (length gens =? 0)%nat then mkKI (key ki) rev0 gens
      else
        let pop g :=
          if bool_decide (last (revs g) = Some rev)
          then mkGen (i64 (version g - 1)) (created g) (removelast (revs g))
          else g in
        let gens := modify_last pop gens in
        mkKI (key ki) (newModRev (reverse gens)) gens
  end.

(** ** The history a key index stands for *)

(** One modification of a key: its revision, the creation revision and version of
    the key after it, and whether it is a deletion. *)
Record kevent := mkKE { ke_rev : Revision; ke_created : Revision; ke_version : Z; ke_tomb : bool }.

#[export] Instance kevent_eq_dec : EqDecision kevent.
Proof. solve_decision. Defined.

Definition gen_event (complete : bool) (g : generation) (i : nat) (r : Revision) : kevent :=
  mkKE r (created g) (i64 (version g - (Z.of_nat (length (revs g)) - Z.of_nat i - 1)))
    (complete && (S i =? length (revs g))%nat).

Definition gen_events (complete : bool) (g : generation) : list kevent :=
  imap (gen_event complete g) (revs g).

Fixpoint abs_gens (gs : list generation) : list kevent :=
  match gs with
  | [] => []
  | [g] => gen_events false g
  | g :: gs' => gen_events true g ++ abs_gens gs'
  end.

Definition abs (ki : keyIndex) : list kevent := abs_gens (generations ki).

(** What a reader sees at main revision [r]: the last event at or before it. *)
Definition upto (r : Z) (e : kevent) : Prop := Main (ke_rev e) <= r.
#[export] Instance upto_dec r e : Decision (upto r e).
Proof. unfold upto. apply _. Defined.

Definition lookup_at (h : list kevent) (r : Z) : option kevent :=
  match last (filter (upto r) h) with
  | Some e => if ke_tomb e then None else Some e
  | None => None
  end.

(** The event a put at [rev] adds to history [h]. *)
Definition put_event (h : list kevent) (rev : Revision) : kevent :=
  match last h with
  | Some e => if ke_tomb e then mkKE rev rev 1 false
              else mkKE rev (ke_created e) (i64 (ke_version e + 1)) false
  | None => mkKE rev rev 1 false
  end.

(** Representation invariant. Generations after the first have all their
    revisions, so their version is their length; the first may be compacted. *)
Definition all_revs (gs : list generation) : list Revision := mjoin (revs <$> gs).

Definition tail_gen_ok (g : generation) : Prop := version g = i64 (Z.of_nat (length (revs g))).

Definition nonempty_init (gs : list generation) : Prop :=
  Forall (fun g => revs g <> []) (removelast gs).

Record wf (ki : keyIndex) : Prop := {
  wf_sorted : StronglySorted rev_lt (all_revs (generations ki));
  wf_mod : modRev ki = default rev0 (last (all_revs (generations ki)));
  wf_first : match generations ki with [] => True | g :: _ => revs g <> [] end;
  wf_init : nonempty_init (generations ki);
  wf_tail : Forall tail_gen_ok (tail (generations ki)) }.

(** ** Basic facts *)

Lemma ke_rev_gen_events c g : ke_rev <$> gen_events c g = revs g.
Proof.
  unfold gen_events. rewrite fmap_imap. unfold compose, gen_event. simpl.
  generalize (revs g). intros l. induction l as [|r l IH]; [done|]. simpl. f_equal. exact IH.
Qed.

Lemma abs_gens_snoc gs g :
  abs_gens (gs ++ [g]) = mjoin (gen_events true <$> gs) ++ gen_events false g.
Proof.
  induction gs as [|h gs IH]; [done|].
  change ((h :: gs) ++ [g]) with (h :: (gs ++ [g])). cbn [abs_gens].
  destruct (gs ++ [g]) as [|x l] eqn:E; [by destruct gs|].
  rewrite IH. cbn [fmap list_fmap mjoin list_join]. by rewrite app_assoc.
Qed.

Lemma ke_rev_mjoin c gs : ke_rev <$> mjoin (gen_events c <$> gs) = all_revs gs.
Proof.
  unfold all_revs. induction gs as [|g gs IH]; [done|].
  cbn [fmap list_fmap mjoin list_join]. rewrite fmap_app, ke_rev_gen_events.
  f_equal. exact IH.
Qed.

Lemma all_revs_app a b : all_revs (a ++ b) = all_revs a ++ all_revs b.
Proof. unfold all_revs. by rewrite fmap_app, join_app. Qed.

Lemma all_revs_single g : all_revs [g] = revs g.
Proof. unfold all_revs. simpl. by rewrite app_nil_r. Qed.

Lemma ke_rev_abs ki : ke_rev <$> abs ki = all_revs (generations ki).
Proof.
  unfold abs. destruct (generations ki) as [|g gs] using rev_ind; [done|].
  by rewrite abs_gens_snoc, fmap_app, ke_rev_mjoin, ke_rev_gen_events, all_revs_app,
    all_revs_single.
Qed.

Lemma gen_events_app c g rs rs' :
  revs g = rs ++ rs' ->
  gen_events c g = imap (gen_event c g) rs
                     ++ imap (fun i => gen_event c g (length rs + i)%nat) rs'.
Proof. intros E. unfold gen_events. rewrite E. by rewrite imap_app. Qed.

Lemma filter_upto_none r (h : list kevent) :
  Forall (fun x => r < Main x) (ke_rev <$> h) -> filter (upto r) h = [].
Proof.
  intros H. apply filter_none. apply Forall_forall. intros e He.
  assert (r < Main (ke_rev e)) by (apply (proj1 (Forall_forall _ _) H), list_elem_of_fmap_2; done).
  unfold upto. lia.
Qed.

Lemma ke_rev_imap c g f l : ke_rev <$> imap (fun i => gen_event c g (f i)) l = l.
Proof.
  revert f. induction l as [|r l IH]; intros f; [done|]. simpl. f_equal. apply (IH (f ∘ S)).
Qed.

(** Walking back over revisions, the walk stops at the last one satisfying the test. *)
Lemma walkBackwards_spec {S} (f : S -> Revision -> S * bool) (p : Revision -> bool)
    (upd : S -> Revision -> S) s g :
  (forall s r, f s r = if p r then (upd s r, false) else (s, true)) ->
  match walkBackwards f s g with
  | (s', Some n) => exists a r b, revs g = a ++ r :: b /\ length a = n /\ p r = true /\
                      Forall (fun x => p x = false) b /\ s' = upd s r
  | (s', None) => Forall (fun x => p x = false) (revs g) /\ s' = s
  end.
Proof.
  intros Hf. unfold walkBackwards.
  assert (forall l, match walkBackwards_loop f s l with
    | (s', Some n) => exists a r b, l = b ++ r :: a /\ length a = n /\ p r = true /\
                        Forall (fun x => p x = false) b /\ s' = upd s r
    | (s', None) => Forall (fun x => p x = false) l /\ s' = s end) as H.
  { induction l as [|r l IH]; simpl; [done|]. rewrite Hf. destruct (p r) eqn:E.
    - exists l, r, []. split_and!; done.
    - destruct (walkBackwards_loop f s l) as [s' [n|]].
      + destruct IH as (a & r' & b & -> & ? & ? & ? & ?).
        exists a, r', (r :: b). split_and!; try done. by constructor.
      + destruct IH as [? ?]. split; [by constructor|done]. }
  specialize (H (reverse (revs g))).
  destruct (walkBackwards_loop f s (reverse (revs g))) as [s' [n|]].
  - destruct H as (a & r & b & E & ? & ? & ? & ?).
    exists (reverse a), r, (reverse b). split_and!; try done.
    + rewrite <-(reverse_involutive (revs g)), E, reverse_app, reverse_cons, <-app_assoc. done.
    + by rewrite length_reverse.
    + by apply Forall_reverse.
  - destruct H as [H ?]. split; [|done]. apply Forall_reverse in H.
    by rewrite reverse_involutive in H.
Qed.

(** ** [get] reads the history *)

Lemma gen_walk c g r :
  match walkBackwards (fun (_ : unit) rev => (tt, r <? Main rev)) tt g with
  | (_, Some n) => exists rv, revs g !! n = Some rv /\ Main rv <= r /\
      last (filter (upto r) (gen_events c g)) = Some (gen_event c g n rv)
  | (_, None) => Forall (fun x => r < Main x) (revs g)
  end.
Proof.
  pose proof (walkBackwards_spec (fun (_ : unit) rev => (tt, r <? Main rev))
    (fun x => Main x <=? r) (fun _ _ => tt) tt g) as H.
  destruct (walkBackwards _ tt g) as [[] [n|]].
  - destruct H as (a & rv & b & E & Hn & Hp & Hb & _).
    { intros [] x. destruct (Z.leb_spec (Main x) r), (Z.ltb_spec r (Main x)); (done || lia). }
    exists rv. subst n. split_and!; [|lia|].
    + rewrite E. by apply list_lookup_middle.
    + rewrite (gen_events_app c g (a ++ [rv]) b) by (by rewrite E, <-app_assoc).
      rewrite last_filter_app, (filter_upto_none r (imap _ b)).
      2:{ rewrite ke_rev_imap. eapply Forall_impl; [exact Hb|]. simpl. lia. }
      rewrite imap_app. simpl. rewrite last_filter_app, Nat.add_0_r.
      rewrite filter_cons_True by (unfold upto; simpl; lia). done.
  - destruct H as [H _].
    { intros [] x. destruct (Z.leb_spec (Main x) r), (Z.ltb_spec r (Main x)); (done || lia). }
    eapply Forall_impl; [exact H|]. simpl. lia.
Qed.

Lemma sorted_head (l : list Revision) a :
  StronglySorted rev_lt l -> head l = Some a -> Forall (fun x => Main a <= Main x) l.
Proof.
  intros Hs Ha. destruct l as [|x l]; [done|]. injection Ha as ->.
  apply StronglySorted_inv in Hs as [_ Hs]. constructor; [lia|].
  eapply Forall_impl; [exact Hs|]. simpl. eauto with kave.
Qed.

Lemma sorted_last (l : list Revision) b :
  StronglySorted rev_lt l -> last l = Some b -> Forall (fun x => Main x <= Main b) l.
Proof.
  intros Hs Hb. apply last_snoc_inv in Hb as [l' ->].
  apply StronglySorted_app in Hs as (Hs & _ & _). apply Forall_app. split; [|by repeat constructor].
  apply Forall_forall. intros x Hx. apply rev_lt_Main, Hs; set_solver.
Qed.

Lemma head_last_Some {A} (l : list A) :
  l <> [] -> exists a b, head l = Some a /\ last l = Some b.
Proof.
  destruct l as [|a l]; [done|]. intros _. exists a.
  destruct (last (a :: l)) as [b|] eqn:E; [eauto|]. by apply last_None in E.
Qed.

Lemma imap_ext_lt {A B} (f g : nat -> A -> B) l :
  (forall i x, (i < length l)%nat -> f i x = g i x) -> imap f l = imap g l.
Proof.
  intros H. apply imap_ext. intros i x Hi. apply H. by eapply lookup_lt_Some.
Qed.

(** The last event of a generation carries its version; it is the tombstone of a
    complete one. *)
Lemma gen_events_snoc c g rs r :
  revs g = rs ++ [r] ->
  gen_events c g = imap (gen_event false g) rs ++ [mkKE r (created g) (i64 (version g)) c].
Proof.
  intros E. rewrite (gen_events_app c g rs [r] E). simpl. f_equal.
  - apply imap_ext_lt. intros i x Hi. unfold gen_event. f_equal. cbn [andb].
    apply andb_false_iff. right. apply Nat.eqb_neq. rewrite E, length_app. simpl. lia.
  - unfold gen_event. rewrite E, length_app, Nat.add_0_r, Nat.add_1_r, Nat.eqb_refl.
    simpl. rewrite andb_true_r. do 3 f_equal. lia.
Qed.

Lemma findGen_complete gs r :
  Forall (fun g => revs g <> []) gs -> StronglySorted rev_lt (all_revs gs) ->
  let h := mjoin (gen_events true <$> gs) in
  match findGen_loop false (reverse gs) r with
  | Ok g => exists first tomb, head (revs g) = Some first /\ last (revs g) = Some tomb /\
      Main first <= r < Main tomb /\
      last (filter (upto r) h) = last (filter (upto r) (gen_events true g))
  | Err _ => lookup_at h r = None
  | Panicked => False
  end.
Proof.
  induction gs as [|g gs IH] using rev_ind; intros Hne Hs; [done|]. cbv zeta.
  apply Forall_app in Hne as [Hne Hg%Forall_inv].
  rewrite all_revs_app, all_revs_single in Hs. apply StronglySorted_app in Hs as (_ & Hs & Hsg).
  specialize (IH Hne Hs). cbv zeta in IH.
  rewrite reverse_snoc, fmap_app, join_app. cbn [findGen_loop].
  destruct (head_last_Some _ Hg) as (first & tomb & Hf & Ht). rewrite Hf, Ht.
  change (mjoin (gen_events true <$> [g])) with (gen_events true g ++ []).
  rewrite app_nil_r.
  destruct (Z.leb_spec (Main tomb) r) as [Hle|Hlt]; cbn [negb andb].
  - destruct (last_snoc_inv _ _ Ht) as [rs E]. rewrite (gen_events_snoc true g rs tomb E).
    unfold lookup_at. rewrite app_assoc, last_filter_app, filter_cons_True by done. done.
  - destruct (Z.leb_spec (Main first) r) as [Hfr|Hfr].
    + exists first, tomb. split_and!; [done..|]. rewrite last_filter_app.
      destruct (last (filter _ (gen_events true g))) as [e|] eqn:E; [done|].
      apply last_None in E.
      destruct (revs g) as [|x l] eqn:Eg; [done|]. injection Hf as ->.
      rewrite (gen_events_app true g [first] l Eg) in E. simpl in E.
      by rewrite filter_cons_True in E by (unfold upto; simpl; lia).
    + assert (filter (upto r) (gen_events true g) = []) as Hnone.
      { apply filter_upto_none. rewrite ke_rev_gen_events.
        eapply Forall_impl; [by apply sorted_head|]. simpl. lia. }
      destruct (findGen_loop false (reverse gs) r) as [g'|e|]; [|unfold lookup_at|done].
      * destruct IH as (f' & t' & ? & ? & ? & ?). exists f', t'. split_and!; [done..|lia|lia|].
        by rewrite last_filter_app, Hnone.
      * rewrite last_filter_app, Hnone. exact IH.
Qed.

Lemma wf_not_isEmpty ki : wf ki -> isEmpty ki = false.
Proof.
  intros [_ _ H _ _]. unfold isEmpty. destruct (generations ki) as [|g [|? ?]]; [done| |done].
  by destruct (revs g).
Qed.

Definition ke_result (e : kevent) : Revision * Revision * Z :=
  (ke_created e, ke_rev e, ke_version e).

Lemma gen_get_spec c g r f :
  head (revs g) = Some f -> Main f <= r ->
  exists e, last (filter (upto r) (gen_events c g)) = Some e /\ gen_get r g = Ok (ke_result e) /\
    (c = false \/ (exists t, last (revs g) = Some t /\ r < Main t) -> ke_tomb e = false).
Proof.
  intros Hf Hr. unfold gen_get. pose proof (gen_walk c g r) as HW.
  destruct (walkBackwards _ tt g) as [[] [n|]].
  - destruct HW as (rv & Hn & Hle & ->). rewrite Hn. eexists. split; [done|]. split; [done|].
    cbn [ke_tomb gen_event]. intros [->|(t & Ht & Hlt)]; [done|]. apply andb_false_iff. right.
    apply Nat.eqb_neq. intros E. rewrite last_lookup, <-E in Ht. simpl in Ht. simplify_eq. lia.
  - exfalso. destruct (revs g) as [|x l]; [done|]. injection Hf as ->.
    apply Forall_inv in HW. lia.
Qed.

Lemma get_complete gs r :
  Forall (fun g => revs g <> []) gs -> StronglySorted rev_lt (all_revs gs) ->
  let out := match findGen_loop false (reverse gs) r with
             | Ok g => gen_get r g | Err e => Err (ErrKeyNotFound :: e) | Panicked => Panicked end in
  match lookup_at (mjoin (gen_events true <$> gs)) r with
  | Some e => out = Ok (ke_result e)
  | None => exists err, out = Err (ErrKeyNotFound :: err)
  end.
Proof.
  intros Hi Hs. cbv zeta. pose proof (findGen_complete gs r Hi Hs) as HF. cbv zeta in HF.
  destruct (findGen_loop false (reverse gs) r) as [g|e|]; [|rewrite HF; eauto|done].
  destruct HF as (f & t & Hf & Ht & [Hle Hlt] & E). unfold lookup_at. rewrite E.
  destruct (gen_get_spec true g r f Hf Hle) as (e & -> & -> & Htomb).
  by rewrite Htomb by eauto.
Qed.

Lemma get_lookup ki r :
  wf ki ->
  match lookup_at (abs ki) r with
  | Some e => get r ki = Ok (ke_result e)
  | None => exists err, get r ki = Err (ErrKeyNotFound :: err)
  end.
Proof.
  intros Hwf. unfold get. rewrite wf_not_isEmpty by done. destruct Hwf as [Hs _ _ Hi _].
  unfold findGen, abs. destruct (generations ki) as [|g gs _] using rev_ind.
  { simpl. eauto. }
  unfold nonempty_init in Hi. rewrite removelast_last in Hi.
  rewrite all_revs_app, all_revs_single in Hs. apply StronglySorted_app in Hs as (_ & Hs & Hsg).
  pose proof (get_complete gs r Hi Hs) as HF. cbv zeta in HF.
  rewrite abs_gens_snoc, reverse_snoc. cbn [findGen_loop]. unfold lookup_at in *.
  rewrite last_filter_app. destruct (revs g) as [|f l] eqn:Eg.
  2:{ rewrite <-Eg in *. destruct (head_last_Some (revs g)) as (f' & t & Hf & Ht); [by rewrite Eg|].
      rewrite Hf, Ht. cbn [negb andb]. destruct (Z.leb_spec (Main f') r) as [Hle|Hlt].
      { destruct (gen_get_spec false g r f' Hf Hle) as (e & -> & -> & Htomb).
        by rewrite Htomb by auto. }
      rewrite (filter_upto_none r (gen_events false g)).
      2:{ rewrite ke_rev_gen_events. eapply Forall_impl; [by apply sorted_head|]. simpl. lia. }
      exact HF. }
  rewrite (filter_upto_none r (gen_events false g)) by (by rewrite ke_rev_gen_events, Eg).
  exact HF.
Qed.

(** ** [put], [tombstone], [dropRev] extend and shorten the history *)

Lemma sorted_snoc_last (l : list Revision) r :
  StronglySorted rev_lt l -> (l <> [] -> rev_lt (default rev0 (last l)) r) ->
  StronglySorted rev_lt (l ++ [r]).
Proof.
  intros Hs Hr. apply StronglySorted_app. split_and!; [|done|by repeat constructor].
  intros x y Hx Hy%list_elem_of_singleton. subst y.
  destruct l as [|z l _] using rev_ind; [set_solver|].
  rewrite last_snoc in Hr. simpl in Hr.
  apply elem_of_app in Hx as [Hx|Hx%list_elem_of_singleton]; subst; [|apply Hr; by destruct l].
  transitivity z; [|apply Hr; by destruct l].
  apply StronglySorted_app in Hs as (Hs & _ & _). apply Hs; set_solver.
Qed.

Lemma tail_snoc {A} (l : list A) x : l <> [] -> tail (l ++ [x]) = tail l ++ [x].
Proof. by destruct l. Qed.

(** The invariant for an index whose last generation is named. *)
Lemma wf_snoc k m gs g :
  wf (mkKI k m (gs ++ [g])) <->
  StronglySorted rev_lt (all_revs gs ++ revs g) /\
  m = default rev0 (last (all_revs gs ++ revs g)) /\
  Forall (fun g => revs g <> []) gs /\ (gs = [] -> revs g <> []) /\
  Forall tail_gen_ok (tail gs) /\ (gs <> [] -> tail_gen_ok g).
Proof.
  split.
  - intros [Hs Hm Hf Hi Ht]. cbn [modRev generations] in *. unfold nonempty_init in Hi.
    rewrite removelast_last in Hi. rewrite all_revs_app, all_revs_single in *.
    split_and!; try done.
    + by intros ->.
    + destruct gs; [constructor|]. by apply Forall_app in Ht as [Ht _].
    + intros Hne. rewrite tail_snoc in Ht by done. apply Forall_app in Ht as [_ Ht%Forall_inv]. done.
  - intros (Hs & Hm & Hi & Hf & Ht & Hg). split; cbn [modRev generations]; unfold nonempty_init;
      rewrite ?removelast_last, ?all_revs_app, ?all_revs_single; try done.
    + destruct gs; [by apply Hf|]. by apply Forall_inv in Hi.
    + destruct gs as [|g0 gs]; [constructor|]. simpl. apply Forall_app. split; [done|].
      constructor; [by apply Hg|done].
Qed.

(** The last generation after a put. *)
Definition gen_put (rev : Revision) (g : generation) : generation :=
  mkGen (i64 (version g + 1)) (if (length (revs g) =? 0)%nat then rev else created g)
    (revs g ++ [rev]).

Lemma gen_events_put rev g :
  gen_events false (gen_put rev g) =
    gen_events false g ++ [mkKE rev (created (gen_put rev g)) (i64 (version g + 1)) false].
Proof.
  rewrite (gen_events_snoc false (gen_put rev g) (revs g) rev) by done.
  f_equal; [|by cbn [gen_put version]; rewrite i64_i64].
  unfold gen_events. apply imap_ext_lt. intros i x Hi. unfold gen_event, gen_put.
  cbn [version created revs]. rewrite (proj2 (Nat.eqb_neq _ _)) by lia.
  f_equal. rewrite i64_sub_l, length_app. f_equal. simpl. lia.
Qed.

Lemma last_gen_events c g rs r :
  revs g = rs ++ [r] -> last (gen_events c g) = Some (mkKE r (created g) (i64 (version g)) c).
Proof. intros E. by rewrite (gen_events_snoc c g rs r E), last_snoc. Qed.

Lemma list_snoc_cases {A} (l : list A) : l = [] \/ exists l' x, l = l' ++ [x].
Proof. destruct l using rev_ind; eauto. Qed.

(** The last event of the complete generations is a tombstone. *)
Lemma last_complete gs g :
  Forall (fun g => revs g <> []) (gs ++ [g]) ->
  exists r, last (revs g) = Some r /\
    last (mjoin (gen_events true <$> gs ++ [g])) = Some (mkKE r (created g) (i64 (version g)) true).
Proof.
  intros H. apply Forall_app in H as [_ Hg%Forall_inv].
  destruct (list_snoc_cases (revs g)) as [?|(rs & r & E)]; [done|].
  exists r. rewrite E, last_snoc. split; [done|].
  rewrite fmap_app, join_app. change (mjoin (gen_events true <$> [g])) with (gen_events true g ++ []).
  by rewrite app_nil_r, last_app, (last_gen_events true g rs r E).
Qed.

Lemma put_event_gens gs g rev :
  Forall (fun g => revs g <> []) gs -> (revs g = [] -> version g = 0) ->
  put_event (abs_gens (gs ++ [g])) rev =
    mkKE rev (created (gen_put rev g)) (i64 (version g + 1)) false.
Proof.
  intros Hi Hv. unfold put_event. rewrite abs_gens_snoc, last_app. cbn [gen_put created].
  destruct (list_snoc_cases (revs g)) as [E|(rs & r & E)].
  - unfold gen_events at 1. rewrite E. simpl. rewrite (Hv E). change (i64 (0 + 1)) with 1.
    destruct (list_snoc_cases gs) as [->|(gs' & g' & ->)]; [done|].
    destruct (last_complete gs' g' Hi) as (r & _ & ->). done.
  - rewrite (last_gen_events false g rs r E), E, length_app, Nat.add_1_r. simpl.
    by rewrite i64_add_l.
Qed.

Lemma put_unfold rev ki gs g :
  rev_lt (modRev ki) rev ->
  (generations ki = gs ++ [g] \/ (generations ki = [] /\ gs = [] /\ g = gen0)) ->
  put (Main rev) (Sub rev) ki = Ok (mkKI (key ki) rev (gs ++ [gen_put rev g])).
Proof.
  intros Hlt Hg. unfold put. destruct rev as [m s]. cbn [Main Sub].
  rewrite (proj2 (GreaterThan_spec _ _)) by done. cbn [negb].
  destruct Hg as [E|(E & -> & ->)]; rewrite E; [|done].
  destruct (length (gs ++ [g]) =? 0)%nat eqn:El.
  - apply Nat.eqb_eq in El. rewrite length_app in El. simpl in El. lia.
  - by rewrite modify_last_snoc.
Qed.

Lemma put_wf rev ki :
  wf ki -> rev_lt (modRev ki) rev ->
  exists ki', put (Main rev) (Sub rev) ki = Ok ki' /\ wf ki' /\ key ki' = key ki /\
    modRev ki' = rev /\ abs ki' = abs ki ++ [put_event (abs ki) rev] /\
    (exists gs g, generations ki' = gs ++ [g] /\ revs g <> []).
Proof.
  intros Hwf Hlt. destruct ki as [k m gens]. cbn [modRev key] in *.
  destruct (list_snoc_cases gens) as [->|(gs & g & ->)].
  - rewrite (put_unfold rev (mkKI k m []) [] gen0) by auto. eexists. split; [done|].
    split_and!; try done; [|exists [], (gen_put rev gen0)]; [|done].
    apply (wf_snoc k rev []). split_and!; try done; simpl; by repeat constructor.
  - rewrite (put_unfold rev (mkKI k m (gs ++ [g])) gs g) by auto. eexists. split; [done|].
    apply wf_snoc in Hwf as (Hs & Hm & Hi & Hf & Ht & Hg).
    split_and!; try done.
    + apply wf_snoc. cbn [gen_put revs]. rewrite !app_assoc, last_snoc. split_and!; try done.
      * apply sorted_snoc_last; [done|]. intros _. by rewrite <-Hm.
      * intros _. by destruct (revs g).
      * intros Hne. unfold tail_gen_ok. cbn [gen_put version revs].
        rewrite (Hg Hne), i64_add_l, length_app. f_equal. simpl. lia.
    + unfold abs. cbn [generations]. rewrite !abs_gens_snoc, gen_events_put, app_assoc.
      f_equal. f_equal. rewrite <-abs_gens_snoc. symmetry. apply put_event_gens; [done|].
      intros E. destruct gs as [|g0 gs]; [by destruct (Hf eq_refl)|]. rewrite (Hg ltac:(done)), E. done.
    + exists gs, (gen_put rev g). split; [done|]. simpl. by destruct (revs g).
Qed.

Definition set_tomb (e : kevent) : kevent := mkKE (ke_rev e) (ke_created e) (ke_version e) true.

Lemma abs_gens_close gs g :
  revs g <> [] ->
  exists h e, abs_gens (gs ++ [g]) = h ++ [e] /\ abs_gens ((gs ++ [g]) ++ [gen0]) = h ++ [set_tomb e].
Proof.
  intros Hg. destruct (list_snoc_cases (revs g)) as [?|(rs & r & E)]; [done|].
  exists (mjoin (gen_events true <$> gs) ++ imap (gen_event false g) rs),
    (mkKE r (created g) (i64 (version g)) false).
  rewrite (abs_gens_snoc (gs ++ [g])), abs_gens_snoc, fmap_app, join_app.
  change (mjoin (gen_events true <$> [g])) with (gen_events true g ++ []).
  rewrite !(gen_events_snoc _ g rs r E), app_nil_r, <-!app_assoc. done.
Qed.

(** The last event of the history tells whether the key is live. *)
Lemma last_abs_live ki gs g :
  wf ki -> generations ki = gs ++ [g] ->
  (revs g <> [] <-> exists e, last (abs ki) = Some e /\ ke_tomb e = false).
Proof.
  intros Hwf E. unfold abs. rewrite E, abs_gens_snoc, last_app. destruct ki as [k m gens].
  simpl in E. subst gens. apply wf_snoc in Hwf as (_ & _ & Hi & Hf & _).
  destruct (list_snoc_cases (revs g)) as [Eg|(rs & r & Eg)].
  - split; [done|]. unfold gen_events at 1. rewrite Eg. simpl.
    destruct (list_snoc_cases gs) as [->|(gs' & g' & ->)]; [by destruct (Hf eq_refl)|].
    destruct (last_complete gs' g' Hi) as (r & _ & ->). intros (e & [= <-] & ?). done.
  - rewrite (last_gen_events false g rs r Eg), Eg. split; [eauto|]. intros _. by destruct rs.
Qed.

Lemma tombstone_wf rev ki :
  wf ki -> rev_lt (modRev ki) rev -> (exists e, last (abs ki) = Some e /\ ke_tomb e = false) ->
  exists ki', tombstone (Main rev) (Sub rev) ki = Ok ki' /\ wf ki' /\ key ki' = key ki /\
    modRev ki' = rev /\ abs ki' = abs ki ++ [set_tomb (put_event (abs ki) rev)].
Proof.
  intros Hwf Hlt Hlive. unfold tombstone. rewrite wf_not_isEmpty by done.
  destruct (put_wf rev ki Hwf Hlt) as (ki' & Hput & Hwf' & Hk & Hm & Habs & gs' & g' & Eg' & Hne).
  destruct (list_snoc_cases (generations ki)) as [E|(gs & g & E)].
  { destruct Hlive as (e & He & _). unfold abs in He. by rewrite E in He. }
  apply (last_abs_live ki gs g Hwf E) in Hlive.
  rewrite E, last_snoc. unfold gen_isEmpty. rewrite (proj2 (Nat.eqb_neq _ _)) by (by destruct (revs g)).
  rewrite Hput. eexists. split; [done|]. destruct ki' as [k' m' gens']. cbn [key modRev generations] in *.
  subst gens'. split_and!; try done.
  - apply wf_snoc in Hwf' as (Hs & Hm' & Hi & Hf & Ht & Hg). apply wf_snoc.
    rewrite all_revs_app, all_revs_single. cbn [gen0 revs]. rewrite app_nil_r. split_and!; try done.
    + apply Forall_app. split; [done|]. by constructor.
    + by destruct gs'.
    + destruct gs'; [constructor|]. simpl. apply Forall_app. split; [done|].
      constructor; [by apply Hg|done].
  - unfold abs at 1. cbn [generations]. destruct (abs_gens_close gs' g' Hne) as (h & e & E1 & E2).
    rewrite E2. unfold abs at 1 in Habs. cbn [generations] in Habs. rewrite Habs in E1.
    apply app_inj_tail in E1 as [<- <-]. done.
Qed.

(** On a key that is not live (never written, or deleted last) a tombstone is refused. *)
Lemma tombstone_dead rev ki :
  wf ki -> generations ki <> [] -> (exists e, last (abs ki) = Some e /\ ke_tomb e = true) ->
  tombstone (Main rev) (Sub rev) ki = Err [ErrKeyIndexError].
Proof.
  intros Hwf Hne (e & He & Ht). unfold tombstone. rewrite wf_not_isEmpty by done.
  destruct (list_snoc_cases (generations ki)) as [E|(gs & g & E)]; [done|].
  rewrite E, last_snoc. unfold gen_isEmpty. destruct (revs g) as [|r l] eqn:Eg; [done|].
  destruct (proj1 (last_abs_live ki gs g Hwf E)) as (e' & He' & Ht'); [by rewrite Eg|].
  rewrite He in He'. congruence.
Qed.

(** *** dropRev *)

Lemma newModRev_spec gs : newModRev (reverse gs) = default rev0 (last (all_revs gs)).
Proof.
  induction gs as [|g gs IH] using rev_ind; [done|].
  rewrite reverse_snoc, all_revs_app, all_revs_single, last_app. simpl.
  by destruct (last (revs g)).
Qed.

Definition gen_pop (g : generation) : generation :=
  mkGen (i64 (version g - 1)) (created g) (removelast (revs g)).

Lemma gen_events_pop c g rs r :
  revs g = rs ++ [r] -> gen_events c g = gen_events false (gen_pop g)
                          ++ [mkKE r (created g) (i64 (version g)) c].
Proof.
  intros E. rewrite (gen_events_snoc c g rs r E). f_equal.
  unfold gen_events, gen_pop. cbn [revs]. rewrite E, removelast_last. apply imap_ext_lt.
  intros i x Hi. unfold gen_event. cbn [version created revs andb]. rewrite E, ?removelast_last.
  f_equal. rewrite i64_sub_l, length_app. f_equal. simpl. lia.
Qed.

(** Dropping from the last non-empty generation [g] of [gs ++ [g]]. *)
Lemma dropRev_gens rev ki gs g rs :
  wf ki -> revs g = rs ++ [rev] ->
  (generations ki = gs ++ [g] \/ exists g', revs g' = [] /\ generations ki = (gs ++ [g]) ++ [g']) ->
  dropRev rev ki = mkKI (key ki) (newModRev (reverse (gs ++ [gen_pop g]))) (gs ++ [gen_pop g]).
Proof.
  intros _ Eg Hgens. unfold dropRev.
  assert (bool_decide (last (revs g) = Some rev) = true) as Hlast
    by (apply bool_decide_eq_true; by rewrite Eg, last_snoc).
  assert ((length (gs ++ [g]) =? 0)%nat = false) as Hl
    by (apply Nat.eqb_neq; rewrite length_app; simpl; lia).
  destruct Hgens as [E|(g' & Eg' & E)]; rewrite E, last_snoc.
  - assert ((length (revs g) =? 0)%nat = false) as ->
      by (apply Nat.eqb_neq; rewrite Eg, length_app; simpl; lia).
    rewrite Hl, modify_last_snoc, Hlast. done.
  - rewrite Eg'. simpl. rewrite removelast_last, Hl, modify_last_snoc, Hlast. done.
Qed.

(** Where the last event of a history sits: at the end of the last non-empty
    generation, which at most one empty generation follows. *)
Lemma last_event_gen k m gens e h :
  wf (mkKI k m gens) -> abs (mkKI k m gens) = h ++ [e] ->
  exists gs g rs, revs g = rs ++ [ke_rev e] /\ Forall (fun g => revs g <> []) gs /\
    Forall tail_gen_ok (tail gs) /\ (gs <> [] -> tail_gen_ok g) /\
    StronglySorted rev_lt (all_revs gs ++ rs) /\
    h = mjoin (gen_events true <$> gs) ++ gen_events false (gen_pop g) /\
    (gens = gs ++ [g] \/ exists g', revs g' = [] /\ gens = (gs ++ [g]) ++ [g']).
Proof.
  intros Hwf Habs.
  destruct (list_snoc_cases gens) as [->|(gs & g & ->)]; [by destruct h|].
  apply wf_snoc in Hwf as (Hs & Hm & Hi & Hf & Ht & Hg).
  unfold abs in Habs. cbn [generations] in Habs. rewrite abs_gens_snoc in Habs.
  destruct (list_snoc_cases (revs g)) as [Eg|(rs & r & Eg)].
  - destruct (list_snoc_cases gs) as [->|(gs' & g' & ->)]; [by destruct (Hf eq_refl)|].
    apply Forall_app in Hi as [Hi Hg'%Forall_inv].
    destruct (list_snoc_cases (revs g')) as [?|(rs & r & Eg')]; [done|].
    unfold gen_events at 2 in Habs. rewrite Eg in Habs. simpl in Habs.
    rewrite fmap_app, join_app, app_nil_r in Habs.
    change (mjoin (gen_events true <$> [g'])) with (gen_events true g' ++ []) in Habs.
    rewrite app_nil_r, (gen_events_pop true g' rs r Eg'), app_assoc in Habs.
    apply app_inj_tail in Habs as [<- <-].
    exists gs', g', rs. split_and!; try done; eauto.
    + destruct gs'; [constructor|]. by apply Forall_app in Ht as [? _].
    + intros Hne. rewrite tail_snoc in Ht by done. by apply Forall_app in Ht as [_ ?%Forall_inv].
    + rewrite Eg, app_nil_r, all_revs_app, all_revs_single, Eg', app_assoc in Hs.
      by apply StronglySorted_app in Hs as (_ & ? & _).
  - rewrite (gen_events_pop false g rs r Eg), app_assoc in Habs.
    apply app_inj_tail in Habs as [<- <-].
    exists gs, g, rs. split_and!; try done; eauto.
    rewrite Eg, app_assoc in Hs. by apply StronglySorted_app in Hs as (_ & ? & _).
Qed.

Lemma dropRev_wf rev ki e h :
  wf ki -> abs ki = h ++ [e] -> ke_rev e = rev ->
  key (dropRev rev ki) = key ki /\ abs (dropRev rev ki) = h /\
  modRev (dropRev rev ki) = default rev0 (last (ke_rev <$> h)) /\
  (if bool_decide (h = []) then isEmpty (dropRev rev ki) = true else wf (dropRev rev ki)).
Proof.
  intros Hwf Habs Hrev. destruct ki as [k m gens].
  subst rev. destruct (last_event_gen k m gens e h Hwf Habs)
    as (gs & g & rs & Eg & Hi & Ht & Hg & Hs & Eh & Hgens).
  rewrite (dropRev_gens (ke_rev e) (mkKI k m gens) gs g rs) by done.
  assert (ke_rev <$> h = all_revs gs ++ rs) as Ehr.
  { rewrite Eh, fmap_app, ke_rev_mjoin, ke_rev_gen_events. simpl. by rewrite Eg, removelast_last. }
  assert (all_revs (gs ++ [gen_pop g]) = all_revs gs ++ rs) as Er
    by (rewrite all_revs_app, all_revs_single; simpl; by rewrite Eg, removelast_last).
  cbn [key modRev]. split; [done|]. split; [by unfold abs; cbn [generations]; rewrite abs_gens_snoc|].
  rewrite newModRev_spec, Er, Ehr. split; [done|].
  case_bool_decide as Hh.
  - subst h. rewrite Hh in Ehr. symmetry in Ehr. apply app_eq_nil in Ehr as [Ha ->].
    destruct gs as [|g0 gs]; [by unfold isEmpty; simpl; rewrite Eg|].
    apply Forall_inv in Hi. unfold all_revs in Ha. simpl in Ha. by destruct (revs g0).
  - apply wf_snoc. cbn [gen_pop revs]. rewrite Eg, removelast_last. split_and!; try done.
    + intros -> ->. apply Hh. rewrite Eh. unfold gen_events. simpl. by rewrite Eg.
    + intros Hne. unfold tail_gen_ok. cbn [gen_pop version revs].
      rewrite (Hg Hne), i64_sub_l, Eg, removelast_last, length_app. f_equal. simpl. lia.
Qed.

(** Whatever revision is dropped, the index stays well formed or becomes empty. *)
Lemma dropRev_any rev ki :
  wf ki -> generations ki <> [] ->
  isEmpty (dropRev rev ki) = true \/ (wf (dropRev rev ki) /\ generations (dropRev rev ki) <> []).
Proof.
  intros Hwf Hne. destruct ki as [k m gens]. cbn [generations] in Hne.
  destruct (list_snoc_cases (abs (mkKI k m gens))) as [Hnil|(h & e & Habs)].
  { exfalso. pose proof (ke_rev_abs (mkKI k m gens)) as Hr. rewrite Hnil in Hr. simpl in Hr.
    destruct gens as [|g gens]; [done|]. destruct Hwf as [_ _ Hf _ _]. simpl in Hf.
    unfold all_revs in Hr. simpl in Hr. by destruct (revs g). }
  destruct (decide (ke_rev e = rev)) as [Hrev|Hrev].
  { destruct (dropRev_wf rev _ e h Hwf Habs Hrev) as (_ & Ha & _ & Hd).
    case_bool_decide as Hh; [by left|right]. split; [done|]. intros En. unfold abs in Ha.
    by rewrite En in Ha. }
  right. destruct (last_event_gen k m gens e h Hwf Habs) as (gs & g & rs & Eg & Hi & Ht & Hg & _ & _ & Hgens).
  assert (dropRev rev (mkKI k m gens) = mkKI k (newModRev (reverse (gs ++ [g]))) (gs ++ [g])) as ->.
  { assert (bool_decide (last (revs g) = Some rev) = false) as Hlast
      by (apply bool_decide_eq_false; rewrite Eg, last_snoc; congruence).
    assert ((length (gs ++ [g]) =? 0)%nat = false) as Hl
      by (apply Nat.eqb_neq; rewrite length_app; simpl; lia).
    unfold dropRev. cbn [generations key].
    destruct Hgens as [->|(g' & Eg' & ->)]; rewrite last_snoc.
    - assert ((length (revs g) =? 0)%nat = false) as ->
        by (apply Nat.eqb_neq; rewrite Eg, length_app; simpl; lia).
      by rewrite Hl, modify_last_snoc, Hlast.
    - rewrite Eg'. simpl. by rewrite removelast_last, Hl, modify_last_snoc, Hlast. }
  split; [|simpl; by destruct gs]. apply wf_snoc. split_and!; try done.
  - destruct Hwf as [Hs _ _ _ _]. cbn [generations] in Hs.
    destruct Hgens as [->|(g' & Eg' & ->)]; rewrite !all_revs_app, !all_revs_single in Hs; [done|].
    by rewrite Eg', app_nil_r in Hs.
  - by rewrite newModRev_spec, all_revs_app, all_revs_single.
  - intros _. rewrite Eg. by destruct rs.
Qed.

(** ** [compact] *)

Lemma abs_gens_app pre g post :
  abs_gens (pre ++ g :: post) = mjoin (gen_events true <$> pre) ++ abs_gens (g :: post).
Proof.
  induction pre as [|p pre IH]; [done|].
  change ((p :: pre) ++ g :: post) with (p :: (pre ++ g :: post)). cbn [abs_gens].
  destruct (pre ++ g :: post) as [|x l] eqn:E; [by destruct pre|].
  rewrite IH. cbn [fmap list_fmap mjoin list_join]. by rewrite app_assoc.
Qed.

Definition has_next {A} (post : list A) : bool := match post with [] => false | _ => true end.

Lemma abs_gens_cons g post :
  abs_gens (g :: post) = gen_events (has_next post) g ++ abs_gens post.
Proof. destruct post; simpl; [by rewrite app_nil_r|done]. Qed.

(** Cutting the first [n] revisions of a generation cuts its first [n] events. *)
Lemma gen_events_drop c g n :
  (n < length (revs g))%nat ->
  gen_events c (mkGen (version g) (created g) (drop n (revs g))) = drop n (gen_events c g).
Proof.
  intros Hn. rewrite (gen_events_app c g (take n (revs g)) (drop n (revs g)))
    by (by rewrite take_drop).
  rewrite drop_app_length' by (rewrite length_imap, length_take; lia).
  apply imap_ext_lt. cbn [revs]. intros i x Hi. unfold gen_event. cbn [version created revs].
  rewrite length_drop in *. rewrite length_take, Nat.min_l by lia.
  f_equal; [f_equal; lia|]. f_equal.
  destruct (Nat.eqb_spec (S i) (length (revs g) - n)), (Nat.eqb_spec (S (n + i)) (length (revs g)));
    (done || lia).
Qed.

Lemma doCompact_loop_spec atRev k gs :
  nonempty_init gs -> gs <> [] ->
  exists pre g post, gs = pre ++ g :: post /\
    doCompact_loop atRev k gs = Ok ((k + length pre)%nat, g) /\
    Forall (fun p => exists t, last (revs p) = Some t /\ Main t < atRev) pre /\
    (post <> [] -> exists t, last (revs g) = Some t /\ atRev <= Main t).
Proof.
  revert k. induction gs as [|g gs IH]; intros k Hi Hne; [done|].
  destruct gs as [|g' gs'].
  { exists [], g, []. split_and!; try done. simpl. by rewrite Nat.add_0_r. }
  unfold nonempty_init in Hi. cbn [removelast] in Hi.
  inversion Hi as [|? ? Hg Hi']; subst.
  change (doCompact_loop atRev k (g :: g' :: gs')) with
    (match last (revs g) with
     | None => Panicked
     | Some t => if atRev <=? Main t then Ok (k, g) else doCompact_loop atRev (S k) (g' :: gs')
     end).
  destruct (head_last_Some _ Hg) as (? & t & _ & Ht). rewrite Ht.
  destruct (Z.leb_spec atRev (Main t)).
  - exists [], g, (g' :: gs'). split_and!; try done; [by rewrite Nat.add_0_r|eauto].
  - destruct (IH (S k) Hi' ltac:(done)) as (pre & g0 & post & E & Hl & Hpre & Hpost).
    exists (g :: pre), g0, post. split_and!; try done.
    + by rewrite E.
    + rewrite Hl. do 2 f_equal. simpl. lia.
    + constructor; eauto.
Qed.

(** What compaction at [atRev] does to a history [h]: it cuts a prefix [P]. Either
    the rest starts with the event [e] that is visible at [atRev] (or was the
    tombstone placed exactly then), and [e] is reported as retained; or nothing at
    or before [atRev] is left, and [P], when non-empty, ends in an older tombstone. *)
Definition cut_at (atRev : Z) (P Q : list kevent) (avail avail' : gset Revision) : Prop :=
  (exists e Q1 Q2, Q = e :: Q1 ++ Q2 /\ Main (ke_rev e) <= atRev /\
     avail' = {[ ke_rev e ]} ∪ avail /\
     Forall (fun x => atRev < Main (ke_rev x)) Q1 /\
     (Q2 = [] \/ exists t, last (e :: Q1) = Some t /\ ke_tomb t = true /\
                           atRev <= Main (ke_rev t)))
  \/ (Forall (fun x => atRev < Main (ke_rev x)) Q /\ avail' = avail /\
      (P = [] \/ exists t, last P = Some t /\ ke_tomb t = true /\ Main (ke_rev t) < atRev)).

Definition compact_f (atRev : Z) (avail : gset Revision) (rev : Revision) : gset Revision * bool :=
  if Main rev <=? atRev then ({[ rev ]} ∪ avail, false) else (avail, true).

Definition compact_cut (revIdx : option nat) (g : generation) : generation :=
  if gen_isEmpty g then g
  else match revIdx with
       | Some n => mkGen (version g) (created g) (drop n (revs g))
       | None => g
       end.

Lemma compact_unfold atRev avail ki pre g post :
  isEmpty ki = false -> generations ki = pre ++ g :: post ->
  doCompact_loop atRev 0 (generations ki) = Ok (length pre, g) ->
  compact atRev avail ki =
    let '(avail', revIdx) := walkBackwards (compact_f atRev) avail g in
    Ok (mkKI (key ki) (modRev ki) (compact_cut revIdx g :: post), avail').
Proof.
  intros He E Hl. unfold compact, doCompact. rewrite He, Hl. fold (compact_f atRev).
  destruct (walkBackwards _ avail g) as [avail' revIdx] eqn:Ew.
  fold (compact_f atRev) in Ew. do 3 f_equal. fold (compact_cut revIdx).
  rewrite E, alter_app_r_alt, Nat.sub_diag by done. by rewrite drop_app_length' by done.
Qed.

Lemma last_app_ne {A} (a b : list A) : b <> [] -> last (a ++ b) = last b.
Proof.
  intros Hb. rewrite last_app. destruct (last b) eqn:E; [done|]. by apply last_None in E.
Qed.

Lemma all_revs_cons g gs : all_revs (g :: gs) = revs g ++ all_revs gs.
Proof. done. Qed.

Lemma wf_suffix k m pre g post a rs v c :
  wf (mkKI k m (pre ++ g :: post)) -> revs g = a ++ rs -> rs <> [] ->
  wf (mkKI k m (mkGen v c rs :: post)).
Proof.
  intros [Hs Hm Hf Hi Ht] E Hne. cbn [modRev generations] in *.
  rewrite all_revs_app, all_revs_cons, E, <-!app_assoc in *.
  split; cbn [modRev generations].
  - rewrite all_revs_cons. cbn [revs]. by do 2 apply StronglySorted_app in Hs as (_ & _ & Hs).
  - rewrite all_revs_cons. cbn [revs]. rewrite Hm. f_equal.
    rewrite app_assoc. apply last_app_ne. by destruct rs.
  - done.
  - unfold nonempty_init in *. destruct post as [|p post]; [constructor|].
    rewrite removelast_app in Hi by done. apply Forall_app in Hi as [_ Hi].
    cbn [removelast] in *. inversion Hi; subst. by constructor.
  - simpl. destruct pre; simpl in Ht; [done|]. apply Forall_app in Ht as [_ Ht].
    by inversion Ht.
Qed.

Lemma revs_after_gen pre g post t :
  StronglySorted rev_lt (all_revs (pre ++ g :: post)) -> last (revs g) = Some t ->
  Forall (fun x => rev_lt t x) (all_revs post).
Proof.
  rewrite all_revs_app, all_revs_cons. intros Hs Ht.
  apply StronglySorted_app in Hs as (_ & _ & Hs). apply StronglySorted_app in Hs as (Hs & _ & _).
  apply last_snoc_inv in Ht as [l El]. rewrite El in Hs. apply Forall_forall. intros x Hx. apply Hs; set_solver.
Qed.

Lemma ke_rev_abs_gens gs : ke_rev <$> abs_gens gs = all_revs gs.
Proof. exact (ke_rev_abs (mkKI [] rev0 gs)). Qed.

Lemma Forall_ke_rev (P : Revision -> Prop) (h : list kevent) :
  Forall P (ke_rev <$> h) -> Forall (fun e => P (ke_rev e)) h.
Proof. intros H. rewrite Forall_fmap in H. exact H. Qed.

(** The walk stopped at a revision: the history is cut before it. *)
Lemma compact_stop k m pre g post a r b atRev avail :
  wf (mkKI k m (pre ++ g :: post)) -> revs g = a ++ r :: b -> Main r <= atRev ->
  Forall (fun x => atRev < Main x) b ->
  (post <> [] -> exists t, last (revs g) = Some t /\ atRev <= Main t) ->
  let ki' := mkKI k m (compact_cut (Some (length a)) g :: post) in
  exists P, abs (mkKI k m (pre ++ g :: post)) = P ++ abs ki' /\ wf ki' /\
    cut_at atRev P (abs ki') avail ({[ r ]} ∪ avail).
Proof.
  intros Hwf E Hr Hb Hpost. cbv zeta. unfold compact_cut, gen_isEmpty.
  assert ((length (revs g) =? 0)%nat = false) as ->
    by (apply Nat.eqb_neq; rewrite E, length_app; simpl; lia).
  exists (mjoin (gen_events true <$> pre) ++ take (length a) (gen_events (has_next post) g)).
  assert (drop (length a) (revs g) = r :: b) as Ed by (rewrite E; by apply drop_app_length').
  unfold abs. cbn [generations]. rewrite abs_gens_app, !abs_gens_cons.
  rewrite gen_events_drop by (rewrite E, length_app; simpl; lia).
  split; [by rewrite <-!app_assoc, (app_assoc (take _ _)), take_drop|].
  split; [rewrite Ed; by eapply wf_suffix; [exact Hwf|exact E|]|].
  left. rewrite <-gen_events_drop by (rewrite E, length_app; simpl; lia). rewrite Ed.
  set (g' := mkGen (version g) (created g) (r :: b)).
  exists (gen_event (has_next post) g' 0 r),
    (imap (fun i => gen_event (has_next post) g' (S i)) b), (abs_gens post).
  split_and!; try done.
  - apply (Forall_ke_rev (fun x => atRev < Main x)). by rewrite (ke_rev_imap _ _ S).
  - destruct post as [|p post]; [by left|]. right.
    destruct (Hpost ltac:(done)) as (t & Ht & Hle).
    assert (last (r :: b) = Some t) as Hlast by (rewrite <-Ht, E; symmetry; by apply last_app_ne).
    apply last_snoc_inv in Hlast as [l El].
    exists (mkKE t (created g) (i64 (version g)) true). split_and!; try done.
    exact (last_gen_events true g' l t El).
Qed.

(** The walk went through the whole generation: it is kept as it is. *)
Lemma compact_pass k m pre g post atRev avail :
  wf (mkKI k m (pre ++ g :: post)) -> Forall (fun x => atRev < Main x) (revs g) ->
  Forall (fun p => exists t, last (revs p) = Some t /\ Main t < atRev) pre ->
  (post <> [] -> exists t, last (revs g) = Some t /\ atRev <= Main t) ->
  let ki' := mkKI k m (compact_cut None g :: post) in
  exists P, abs (mkKI k m (pre ++ g :: post)) = P ++ abs ki' /\
    (wf ki' \/ isEmpty ki' = true /\ abs ki' = []) /\ cut_at atRev P (abs ki') avail avail.
Proof.
  intros Hwf Hg Hpre Hpost. cbv zeta.
  assert (compact_cut None g = g) as -> by (unfold compact_cut; by destruct (gen_isEmpty g)).
  exists (mjoin (gen_events true <$> pre)). unfold abs. cbn [generations].
  rewrite abs_gens_app. split; [done|]. split; [|right; split_and!; [|done|]].
  - destruct (revs g) as [|r l] eqn:E.
    + right. destruct post as [|p post]; [|by destruct (Hpost ltac:(done)) as (? & ? & _)].
      unfold isEmpty. simpl. unfold gen_events. by rewrite E.
    + left. replace g with (mkGen (version g) (created g) (r :: l)) by (rewrite <-E; by destruct g).
      by eapply (wf_suffix _ _ _ _ _ []); [exact Hwf|exact E|].
  - apply (Forall_ke_rev (fun x => atRev < Main x)). rewrite ke_rev_abs_gens, all_revs_cons.
    apply Forall_app. split; [done|]. destruct post as [|p post]; [constructor|].
    destruct (Hpost ltac:(done)) as (t & Ht & _).
    eapply Forall_impl; [eapply revs_after_gen; [apply Hwf|exact Ht]|].
    simpl. intros x Hx%rev_lt_Main. apply last_Some_elem_of in Ht.
    apply (proj1 (Forall_forall _ _) Hg) in Ht. lia.
  - destruct (list_snoc_cases pre) as [->|(pre' & p & ->)]; [by left|]. right.
    destruct (last_complete pre' p) as (r & Hr & ->).
    { eapply Forall_impl; [exact Hpre|]. simpl. intros q (t & Ht & _) Eq. by rewrite Eq in Ht. }
    apply Forall_app in Hpre as [_ (t & Ht & Hlt)%Forall_inv]. rewrite Hr in Ht. injection Ht as ->.
    eauto.
Qed.

Lemma compact_spec atRev avail ki :
  wf ki -> generations ki <> [] ->
  exists ki' avail' P,
    compact atRev avail ki = Ok (ki', avail') /\ key ki' = key ki /\ modRev ki' = modRev ki /\
    abs ki = P ++ abs ki' /\
    (wf ki' /\ generations ki' <> [] \/ isEmpty ki' = true /\ abs ki' = []) /\
    cut_at atRev P (abs ki') avail avail'.
Proof.
  intros Hwf Hne. destruct ki as [k m gens]. cbn [generations] in Hne.
  destruct (doCompact_loop_spec atRev 0 gens) as (pre & g & post & -> & Hl & Hpre & Hpost);
    [apply Hwf|done|].
  rewrite (compact_unfold atRev avail _ pre g post) by (done || by apply wf_not_isEmpty).
  pose proof (walkBackwards_spec (compact_f atRev) (fun x => Main x <=? atRev)
    (fun s r => {[ r ]} ∪ s) avail g) as HW.
  destruct (walkBackwards (compact_f atRev) avail g) as [avail' [n|]].
  - destruct HW as (a & r & b & E & <- & Hr & Hb & ->); [done|].
    destruct (compact_stop k m pre g post a r b atRev avail Hwf E) as (P & HP & Hwf' & Hcut);
      [lia| |done|].
    { eapply Forall_impl; [exact Hb|]. simpl. lia. }
    do 3 eexists. split_and!; [done..|exact HP|by left|exact Hcut].
  - destruct HW as [Hb ->]; [done|].
    destruct (compact_pass k m pre g post atRev avail Hwf) as (P & HP & Hwf' & Hcut); try done.
    { eapply Forall_impl; [exact Hb|]. simpl. lia. }
    do 3 eexists. split_and!; [done..|exact HP| |exact Hcut].
    destruct Hwf' as [?|?]; [by left|by right].
Qed.

(** No event of [h] shares the main revision of the tombstone right before it: a
    key is not deleted and re-created within one transaction. *)
Definition clean (h : list kevent) : Prop :=
  forall h1 t x h2, h = h1 ++ t :: x :: h2 -> ke_tomb t = true ->
    Main (ke_rev t) < Main (ke_rev x).

Lemma cut_lookup atRev P Q avail avail' r :
  cut_at atRev P Q avail avail' -> atRev <= r -> lookup_at (P ++ Q) r = lookup_at Q r.
Proof.
  intros Hcut Hr. unfold lookup_at. rewrite last_filter_app.
  destruct (last (filter (upto r) Q)) as [x|] eqn:E; [done|]. apply last_None in E.
  destruct Hcut as [(e & Q1 & Q2 & -> & He & _)|(_ & _ & [->|(t & Ht & Htomb & Hlt)])]; [|done|].
  - by rewrite filter_cons_True in E by (unfold upto; lia).
  - apply last_snoc_inv in Ht as [P' ->]. rewrite last_filter_app, filter_cons_True
      by (unfold upto; lia). simpl. by rewrite Htomb.
Qed.

Lemma lookup_at_elem h r e : lookup_at h r = Some e -> e ∈ h /\ ke_tomb e = false /\ Main (ke_rev e) <= r.
Proof.
  unfold lookup_at. destruct (last (filter (upto r) h)) as [x|] eqn:E; [|done].
  apply last_Some_elem_of, list_elem_of_filter in E as [Hu Hx].
  destruct (ke_tomb x) eqn:Et; [done|]. by intros [= <-].
Qed.

Lemma clean_after h1 t h2 :
  clean (h1 ++ t :: h2) -> StronglySorted rev_lt (ke_rev <$> h1 ++ t :: h2) -> ke_tomb t = true ->
  Forall (fun x => Main (ke_rev t) < Main (ke_rev x)) h2.
Proof.
  intros Hc Hs Ht. destruct h2 as [|x h2]; [constructor|].
  specialize (Hc h1 t x h2 eq_refl Ht).
  rewrite fmap_app, !fmap_cons in Hs. apply StronglySorted_app in Hs as (_ & _ & Hs).
  apply StronglySorted_inv in Hs as [Hs _]. apply StronglySorted_inv in Hs as [_ Hs].
  constructor; [done|]. apply Forall_ke_rev in Hs. eapply Forall_impl; [exact Hs|].
  simpl. intros y Hy%rev_lt_Main. lia.
Qed.

Lemma cut_retains atRev P Q avail avail' e :
  cut_at atRev P Q avail avail' -> clean (P ++ Q) -> StronglySorted rev_lt (ke_rev <$> P ++ Q) ->
  e ∈ Q -> Main (ke_rev e) <= atRev -> ke_rev e ∈ avail'.
Proof.
  intros Hcut Hc Hs He Hle.
  destruct Hcut as [(e0 & Q1 & Q2 & -> & He0 & -> & HQ1 & HQ2)|(Hall & _)].
  - rewrite app_comm_cons in He. apply elem_of_app in He as [He|He].
    + apply elem_of_cons in He as [->|He]; [by apply elem_of_union_l, elem_of_singleton|].
      rewrite Forall_forall in HQ1. specialize (HQ1 _ He). simpl in HQ1. lia.
    + exfalso. destruct HQ2 as [->|(t & Ht & Htomb & Hge)]; [by apply not_elem_of_nil in He|].
      apply last_snoc_inv in Ht as [l El].
      rewrite app_comm_cons, El, <-app_assoc, app_assoc in Hc, Hs. simpl in Hc, Hs.
      pose proof (clean_after _ _ _ Hc Hs Htomb) as Hgt. rewrite Forall_forall in Hgt.
      specialize (Hgt _ He). simpl in Hgt. lia.
  - rewrite Forall_forall in Hall. specialize (Hall _ He). simpl in Hall. lia.
Qed.

(** ** Properties *)

(** Reading a key index at main revision r returns the create revision, the
    revision and the version of the last modification at or before r, and fails
    with ErrKeyNotFound when there is none or when it is a deletion. It never panics
    on a well-formed index. *)
Theorem key_index_get ki r :
  wf ki ->
  match lookup_at (abs ki) r with
  | Some e => get r ki = Ok (ke_created e, ke_rev e, ke_version e)
  | None => exists err, get r ki = Err (ErrKeyNotFound :: err)
  end.
Proof. apply get_lookup. Qed.

(** A history with a deletion: put at 2, put at 4, delete at 5, put at 7. *)
Definition ki_example : keyIndex :=
  mkKI [Byte.x61] (mkRev 7 0)
    [mkGen 3 (mkRev 2 0) [mkRev 2 0; mkRev 4 0; mkRev 5 0]; mkGen 1 (mkRev 7 0) [mkRev 7 0]].

Lemma ki_example_wf : wf ki_example.
Proof.
  split; try done; simpl.
  - unfold all_revs. simpl. repeat constructor; unfold rev_lt; simpl; lia.
  - by repeat constructor.
  - by repeat constructor.
Qed.

Lemma key_index_get_witness :
  get 4 ki_example = Ok (mkRev 2 0, mkRev 4 0, 2) /\
  exists err, get 6 ki_example = Err (ErrKeyNotFound :: err).
Proof.
  split; [exact (key_index_get ki_example 4 ki_example_wf)
         | exact (key_index_get ki_example 6 ki_example_wf)].
Defined.

(** A put with a revision above the last one appends exactly one live event to
    the history: version 1 and its own create revision after a deletion (or on a
    new key), otherwise the next version and the old create revision. A revision
    that is not above the last one is refused. *)
Theorem key_index_put rev ki :
  wf ki ->
  if GreaterThan rev (modRev ki)
  then exists ki', put (Main rev) (Sub rev) ki = Ok ki' /\ wf ki' /\ key ki' = key ki /\
         modRev ki' = rev /\ abs ki' = abs ki ++ [put_event (abs ki) rev]
  else put (Main rev) (Sub rev) ki = Err [ErrKeyIndexError].
Proof.
  intros Hwf. destruct (GreaterThan rev (modRev ki)) eqn:E.
  - apply GreaterThan_spec in E.
    destruct (put_wf rev ki Hwf E) as (ki' & ? & ? & ? & ? & ? & _). eauto 10.
  - unfold put. destruct rev. simpl in *. by rewrite E.
Qed.

Lemma key_index_put_witness :
  exists ki', put 9 1 ki_example = Ok ki' /\
    abs ki' = abs ki_example ++ [mkKE (mkRev 9 1) (mkRev 7 0) 2 false].
Proof.
  destruct (key_index_put (mkRev 9 1) ki_example ki_example_wf) as (ki' & Hp & _ & _ & _ & Ha).
  exists ki'. split; [exact Hp|exact Ha].
Defined.

(** Deleting a live key appends one tombstone event (and the key is absent from
    then on); deleting a key whose last event is a deletion is refused, so no two
    tombstones follow each other. *)
Theorem key_index_tombstone rev ki e :
  wf ki -> last (abs ki) = Some e -> GreaterThan rev (modRev ki) = true ->
  if ke_tomb e then tombstone (Main rev) (Sub rev) ki = Err [ErrKeyIndexError]
  else exists ki', tombstone (Main rev) (Sub rev) ki = Ok ki' /\ wf ki' /\
    modRev ki' = rev /\ abs ki' = abs ki ++ [set_tomb (put_event (abs ki) rev)] /\
    (forall r, Main rev <= r -> exists err, get r ki' = Err (ErrKeyNotFound :: err)).
Proof.
  intros Hwf He Hgt%GreaterThan_spec. destruct (ke_tomb e) eqn:Et.
  - apply tombstone_dead; [done| |eauto]. intros E. unfold abs in He. by rewrite E in He.
  - destruct (tombstone_wf rev ki Hwf Hgt) as (ki' & ? & Hwf' & ? & ? & Habs); [eauto|].
    exists ki'. split_and!; try done. intros r Hr.
    pose proof (get_lookup ki' r Hwf') as Hg. revert Hg. unfold lookup_at.
    rewrite Habs, last_filter_app, filter_cons_True by (unfold upto, put_event; by repeat case_match).
    done.
Qed.

Lemma key_index_tombstone_witness :
  exists ki', tombstone 8 0 ki_example = Ok ki' /\
    exists err, get 8 ki' = Err (ErrKeyNotFound :: err).
Proof.
  destruct (key_index_tombstone (mkRev 8 0) ki_example (mkKE (mkRev 7 0) (mkRev 7 0) 1 false)
    ki_example_wf eq_refl eq_refl) as (ki' & Ht & _ & _ & _ & Hg).
  exists ki'. split; [exact Ht|apply Hg; simpl; lia].
Defined.

(** Dropping the revision just added by a put or a tombstone undoes it: the
    history and the last revision are back, and an index that held nothing else
    becomes empty. *)
Theorem key_index_dropRev rev ki ki' :
  wf ki -> put (Main rev) (Sub rev) ki = Ok ki' \/ tombstone (Main rev) (Sub rev) ki = Ok ki' ->
  GreaterThan rev (modRev ki) = true ->
  let back := dropRev rev ki' in
  abs back = abs ki /\ modRev back = modRev ki /\ key back = key ki /\
  (if bool_decide (abs ki = []) then isEmpty back = true else wf back).
Proof.
  intros Hwf Hop Hgt%GreaterThan_spec. cbv zeta.
  assert (wf ki' /\ key ki' = key ki /\ exists e, ke_rev e = rev /\ abs ki' = abs ki ++ [e])
    as (Hwf' & Hk & e & Hrev & Habs).
  { assert (forall h, ke_rev (put_event h rev) = rev) as Hr
      by (intros h; unfold put_event; by repeat case_match).
    destruct Hop as [Hop|Hop].
    - destruct (put_wf rev ki Hwf Hgt) as (k2 & E & ? & ? & _ & ? & _).
      rewrite Hop in E. injection E as <-. eauto 10.
    - assert (exists e, last (abs ki) = Some e /\ ke_tomb e = false) as Hlive.
      { destruct (list_snoc_cases (generations ki)) as [E|(gs & g & E)].
        - unfold tombstone in Hop. rewrite wf_not_isEmpty, E in Hop by done. done.
        - apply (last_abs_live ki gs g Hwf E). intros Eg. unfold tombstone, gen_isEmpty in Hop.
          rewrite wf_not_isEmpty, E, last_snoc, Eg in Hop by done. done. }
      destruct (tombstone_wf rev ki Hwf Hgt Hlive) as (k2 & E & ? & ? & _ & ?).
      rewrite Hop in E. injection E as <-.
      split_and!; try done. eexists. split; [|done]. apply Hr. }
  destruct (dropRev_wf rev ki' e (abs ki) Hwf' Habs Hrev) as (? & ? & Hm & ?).
  split_and!; try done; [|congruence].
  rewrite Hm, ke_rev_abs. by destruct Hwf as [_ -> _ _ _].
Qed.

Lemma key_index_dropRev_witness :
  exists ki', tombstone 8 0 ki_example = Ok ki' /\ abs (dropRev (mkRev 8 0) ki') = abs ki_example.
Proof.
  eexists. split; [reflexivity|].
  exact (proj1 (key_index_dropRev (mkRev 8 0) ki_example _ ki_example_wf (or_intror eq_refl) eq_refl)).
Defined.

(** Compacting a key index at atRev cuts a prefix of its history and no read at
    or after atRev notices: whatever get returned there before it returns still.
    Only an index whose key is gone by then becomes empty. *)
Theorem key_index_compact_reads atRev avail ki :
  wf ki -> generations ki <> [] ->
  exists ki' avail', compact atRev avail ki = Ok (ki', avail') /\ modRev ki' = modRev ki /\
    (exists P, abs ki = P ++ abs ki') /\
    (if isEmpty ki' then forall r, atRev <= r -> exists err, get r ki = Err (ErrKeyNotFound :: err)
     else wf ki' /\ forall r, atRev <= r -> is_Ok (get r ki) \/ is_Ok (get r ki') ->
                              get r ki' = get r ki).
Proof.
  intros Hwf Hne. destruct (compact_spec atRev avail ki Hwf Hne)
    as (ki' & avail' & P & Hc & _ & Hm & Habs & Hwf' & Hcut).
  exists ki', avail'. split_and!; try done; [by exists P|].
  destruct Hwf' as [[Hwf' _]|[-> Hnil]].
  - rewrite wf_not_isEmpty by done. split; [done|]. intros r Hr Hok.
    pose proof (get_lookup ki r Hwf) as H1. pose proof (get_lookup ki' r Hwf') as H2.
    rewrite Habs, (cut_lookup _ _ _ _ _ _ Hcut Hr) in H1.
    destruct (lookup_at (abs ki') r); [by rewrite H1, H2|].
    destruct H1 as [? H1], H2 as [? H2]. rewrite H1, H2 in Hok.
    destruct Hok as [[? ?]|[? ?]]; done.
  - intros r Hr. pose proof (get_lookup ki r Hwf) as H1.
    by rewrite Habs, (cut_lookup _ _ _ _ _ _ Hcut Hr), Hnil in H1.
Qed.

Lemma key_index_compact_reads_witness :
  exists ki' avail', compact 4 ∅ ki_example = Ok (ki', avail') /\
    modRev ki' = mkRev 7 0 /\ get 4 ki' = get 4 ki_example.
Proof.
  destruct (key_index_compact_reads 4 ∅ ki_example ki_example_wf ltac:(done))
    as (ki' & avail' & Hc & Hm & _ & Hr).
  exists ki', avail'. split; [exact Hc|]. split; [exact Hm|].
  vm_compute in Hc. injection Hc as <- <-.
  apply (proj2 Hr); [lia|]. left. eexists. vm_compute. reflexivity.
Defined.

(** When no key is deleted and re-created within one transaction, the revision
    a read at or after atRev returns is reported as retained by the compaction at
    atRev whenever it lies in the compacted range: no visible value may be removed. *)
Theorem key_index_compact_retains atRev avail ki ki' avail' r c m v :
  wf ki -> clean (abs ki) -> generations ki <> [] ->
  compact atRev avail ki = Ok (ki', avail') -> atRev <= r ->
  get r ki = Ok (c, m, v) -> Main m <= atRev -> m ∈ avail'.
Proof.
  intros Hwf Hclean Hne Hc Hr Hget Hle. destruct (compact_spec atRev avail ki Hwf Hne)
    as (ki2 & av2 & P & Hc2 & _ & _ & Habs & _ & Hcut).
  rewrite Hc in Hc2. injection Hc2 as <- <-.
  pose proof (get_lookup ki r Hwf) as H1. rewrite Habs, (cut_lookup _ _ _ _ _ _ Hcut Hr) in H1.
  destruct (lookup_at (abs ki') r) as [e|] eqn:El.
  - rewrite Hget in H1. injection H1 as -> -> ->.
    apply lookup_at_elem in El as [El _].
    eapply cut_retains; [exact Hcut|by rewrite <-Habs| |exact El|done].
    rewrite <-Habs, ke_rev_abs. apply Hwf.
  - destruct H1 as [? H1]. congruence.
Qed.

Lemma ki_example_clean : clean (abs ki_example).
Proof.
  intros h1 t x h2 E. vm_compute in E.
  do 5 (destruct h1 as [|? h1]; [by simplify_eq/=|]; simplify_eq/=).
Qed.

Lemma key_index_compact_retains_witness :
  exists ki' avail', compact 4 ∅ ki_example = Ok (ki', avail') /\ mkRev 4 0 ∈ avail'.
Proof.
  do 2 eexists. split; [vm_compute; reflexivity|].
  eapply (key_index_compact_retains 4 ∅ ki_example _ _ 4);
    [exact ki_example_wf|exact ki_example_clean|done|vm_compute; reflexivity|lia
    |vm_compute; reflexivity|simpl; lia].
Defined.

(** Without that proviso the claim fails. A key written at main revision 1, then
    deleted and re-created in one transaction at main revision 2, and compacted at
    2: the value read at revision 2 is still in the index, but only the tombstone
    before it is reported as retained. *)
Theorem key_index_compact_same_main :
  exists ki ki',
    ((put 1 0 (newKI [Byte.x61]) ≫= tombstone 2 0) ≫= put 2 1) = Ok ki /\
    compact 2 ∅ ki = Ok (ki', {[ mkRev 2 0 ]}) /\
    get 2 ki' = Ok (mkRev 2 1, mkRev 2 1, 1).
Proof.
  exists (mkKI [Byte.x61] (mkRev 2 1)
           [mkGen 2 (mkRev 1 0) [mkRev 1 0; mkRev 2 0]; mkGen 1 (mkRev 2 1) [mkRev 2 1]]),
    (mkKI [Byte.x61] (mkRev 2 1)
       [mkGen 2 (mkRev 1 0) [mkRev 2 0]; mkGen 1 (mkRev 2 1) [mkRev 2 1]]).
  split; [vm_compute; reflexivity|]. split; vm_compute; reflexivity.
Qed.
