(* ===== verification/TreeIndex.v ===== *)
(** The index over all keys: [internal/kv/tree_index.go], a tree of key indexes
    ordered by key. The tree holds pointers: a method that mutates a key index in
    place is modelled by storing the changed value back under its (unchanged) key. *)

From S2P Require Import Prelude OrdTree KvTypes KeyIndex.
From Stdlib Require Import ZArith Lia.
From stdpp Require Import base gmap sets list strings sorting.
Open Scope Z_scope.

Section TreeIndex.
Context {T : Type} {BT : BTree Less T}.

(** ** The code *)

Abbreviation treeIndex := T.

Definition NewTreeIndex : treeIndex := bt_NewG.

(** A mutation through the pointer stored in the tree. *)
Definition store (ki : keyIndex) (ti : treeIndex) : treeIndex := (bt_ReplaceOrInsert ki ti).1.

(** [keyIndex] and [KeyIndex]: nil is [None]. *)
Definition keyIndex_of (k : bytes) (ti : treeIndex) : option keyIndex := bt_Get (newKI k) ti.

Definition unsafeGet (k : bytes) (targetRev : Z) (ti : treeIndex) : res (Revision * Revision * Z) :=
  match keyIndex_of k ti with
  | None => Err [ErrRevNotFound]
  | Some ki => get targetRev ki
  end.

Definition Get (k : bytes) (targetRev : Z) (ti : treeIndex) : res (Revision * Revision * Z) :=
  unsafeGet k targetRev ti.

Definition Put (k : bytes) (rev : Revision) : M treeIndex unit := fun ti =>
  match bt_Get (newKI k) ti with
  | None =>
      match put (Main rev) (Sub rev) (newKI k) with
      | Ok ki => (store ki ti, Ok tt)
      | Err e => (ti, Err e)
      | Panicked => (ti, Panicked)
      end
  | Some oldKi =>
      match put (Main rev) (Sub rev) oldKi with
      | Ok ki => (store ki ti, Ok tt)
      | Err e => (ti, Err e)
      | Panicked => (ti, Panicked)
      end
  end.

(** [end_] is the byte slice end: nil and empty mean "no upper bound" here. *)
Definition unsafeVisit {S} (k : bytes) (end_ : option bytes)
    (f : S -> keyIndex -> res (S * bool)) (s : S) (ti : treeIndex) : res S :=
  let endKi := newKI (default [] end_) in
  iterate (fun s item =>
    if (0 <? length (key endKi))%nat && negb (Less item endKi) then Ok (s, false)
    else f s item) s (bt_ItemsFrom (newKI k) ti).

(** The closure [getRevs]: all revisions of one key index in (startRev, endRev). *)
Definition getRevs (startRev endRev : Z) (out : list KvBucketKey) (ki : keyIndex)
  : list KvBucketKey :=
  foldl (fun out p =>
    let '(i, g) := (p : nat * generation) in
    let genComplete := (i <? length (generations ki) - 1)%nat in
    (walk (fun out rev =>
       ((if (startRev <? Main rev) && (Main rev <? endRev)
         then out ++ [mkBK rev (genComplete && bool_decide (last (revs g) = Some rev))]
         else out), None)) out g).1)
    out (imap pair (generations ki)).

Definition RevisionsRange (k : bytes) (end_ : option bytes) (startRev endRev : Z) (ti : treeIndex)
  : res (list KvBucketKey) :=
  if endRev <? startRev then Ok []
  else
    match end_ with
    | None =>
        if negb (length k =? 0)%nat then
          match keyIndex_of k ti with
          | None => Ok []
          | Some ki => Ok (getRevs startRev endRev [] ki)
          end
        else unsafeVisit k end_ (fun out ki => Ok (getRevs startRev endRev out ki, true)) [] ti
    | Some _ =>
        unsafeVisit k end_ (fun out ki => Ok (getRevs startRev endRev out ki, true)) [] ti
    end.

(** The callback of [Revisions]; the state is (revs, total). *)
Definition revisions_step (targetRev limit : Z) (s : list Revision * Z) (ki : keyIndex)
  : res (list Revision * Z * bool) :=
  match get targetRev ki with
  | Ok (_, mod_, _) =>
      Ok ((if (limit <=? 0) || (Z.of_nat (length s.1) <? limit) then s.1 ++ [mod_] else s.1),
          s.2 + 1, true)
  | Err _ => Ok (s.1, s.2, true)
  | Panicked => Panicked
  end.

Definition Revisions (k : bytes) (end_ : option bytes) (targetRev limit : Z) (ti : treeIndex)
  : res (list Revision * Z) :=
  match end_, (length k =? 0)%nat with
  | None, false =>
      match unsafeGet k targetRev ti with
      | Ok (_, mod_, _) => Ok ([mod_], 1)
      | Err _ => Ok ([], 0)
      | Panicked => Panicked
      end
  | _, _ => unsafeVisit k end_ (revisions_step targetRev limit) ([], 0) ti
  end.

Definition CountRevisions (k : bytes) (end_ : option bytes) (targetRev : Z) (ti : treeIndex)
  : res Z :=
  match end_ with
  | None =>
      match unsafeGet k targetRev ti with
      | Ok _ => Ok 1
      | Err _ => Ok 0
      | Panicked => Panicked
      end
  | Some _ =>
      unsafeVisit k end_ (fun total ki =>
        match get targetRev ki with
        | Ok _ => Ok (total + 1, true)
        | Err _ => Ok (total, true)
        | Panicked => Panicked
        end) 0 ti
  end.

(** Returns (key, create revision) pairs: the two slices of the Go function. *)
Definition Range (k : bytes) (end_ : option bytes) (targetRev : Z) (ti : treeIndex)
  : res (list (bytes * Revision)) :=
  match end_ with
  | None =>
      match unsafeGet k targetRev ti with
      | Ok (createRev, _, _) => Ok [(k, createRev)]
      | Err _ => Ok []
      | Panicked => Panicked
      end
  | Some _ =>
      unsafeVisit k end_ (fun out ki =>
        match get targetRev ki with
        | Ok (createRev, _, _) => Ok (out ++ [(key ki, createRev)], true)
        | Err _ => Ok (out, true)
        | Panicked => Panicked
        end) [] ti
  end.

Definition Tombstone (k : bytes) (rev : Revision) : M treeIndex unit := fun ti =>
  match bt_Get (newKI k) ti with
  | None => (ti, Err [ErrRevNotFound])
  | Some got =>
      match tombstone (Main rev) (Sub rev) got with
      | Ok ki => (store ki ti, Ok tt)
      | Err e => (ti, Err e)
      | Panicked => (ti, Panicked)
      end
  end.

Definition Keep (rev : Z) (ti : treeIndex) : res (gset Revision) :=
  iterate (fun avail ki =>
    match keep rev avail ki with
    | Ok avail' => Ok (avail', true)
    | Err e => Err e
    | Panicked => Panicked
    end) ∅ (bt_Items ti).

(** The callback of [Compact], run under the lock for each item of the clone. *)
Definition compact_step (rev : Z) (ki : keyIndex) (avail : gset Revision)
  : M treeIndex (gset Revision) := fun ti =>
  match compact rev avail ki with
  | Ok (ki', avail') =>
      let ti := store ki' ti in
      if isEmpty ki' then
        match bt_Delete ki' ti with
        | (ti', Some _) => (ti', Ok avail')
        | (ti', None) => (ti', Err [ErrCompactionFailed])
        end
      else (ti, Ok avail')
  | Err e => (ti, Err e)
  | Panicked => (ti, Panicked)
  end.

Fixpoint compact_items (rev : Z) (clone : list keyIndex) (avail : gset Revision)
  : M treeIndex (gset Revision) :=
  match clone with
  | [] => mret avail
  | ki :: rest => compact_step rev ki avail ≫= compact_items rev rest
  end.

(** One run of the loop over the clone of the tree that nothing interferes with. The source
    takes the lock for each key, so writes of other keys may fall between two turns. *)
Definition Compact (rev : Z) : M treeIndex (gset Revision) := fun ti =>
  compact_items rev (bt_Items ti) ∅ ti.

(** [b.tree.Get] returns nil for a missing key, which [equal] dereferences. *)
Definition Equal (a b : treeIndex) : res bool :=
  if negb (bt_Len a =? bt_Len b) then Ok false
  else
    iterate (fun _ thisKi =>
      match bt_Get thisKi b with
      | Some thatKi => if equal thisKi thatKi then Ok (true, true) else Ok (false, false)
      | None => Panicked
      end) true (bt_Items a).

Definition Insert (ki : keyIndex) (ti : treeIndex) : treeIndex := (bt_ReplaceOrInsert ki ti).1.

Definition Clear (ti : treeIndex) : treeIndex := bt_NewG.

Definition DropRevision (k : bytes) (rev : Revision) (ti : treeIndex) : treeIndex :=
  match bt_Get (newKI k) ti with
  | Some got =>
      let got := dropRev rev got in
      let ti := store got ti in
      if isEmpty got then (bt_Delete got ti).1 else ti
  | None => ti
  end.

(** ** The histories an index stands for *)

Definition hist (ti : treeIndex) (k : bytes) : list kevent :=
  match find_key key k (bt_Items ti) with Some ki => abs ki | None => [] end.

Definition item_ok (ki : keyIndex) : Prop := wf ki /\ generations ki <> [].

Record ti_wf (ti : treeIndex) : Prop := {
  ti_sorted : key_sorted key (bt_Items ti);
  ti_items : Forall item_ok (bt_Items ti) }.

(** The last revision of a history, [rev0] for an absent key. *)
Definition last_rev (h : list kevent) : Revision := default rev0 (last (ke_rev <$> h)).

Lemma bt_Get_find x ti : bt_Get x ti = find_key key (key x) (bt_Items ti).
Proof. rewrite bt_Get_items. apply (ref_get_find key). Qed.

Lemma find_store ki ti k :
  ti_wf ti ->
  find_key key k (bt_Items (store ki ti)) =
    if bool_decide (k = key ki) then Some ki else find_key key k (bt_Items ti).
Proof. intros H. unfold store. rewrite bt_RoI_items. apply (find_insert key), H. Qed.

Lemma hist_store ki ti k :
  ti_wf ti -> hist (store ki ti) k = if bool_decide (k = key ki) then abs ki else hist ti k.
Proof. intros H. unfold hist. rewrite find_store by done. by case_bool_decide. Qed.

Lemma store_wf ki ti : ti_wf ti -> item_ok ki -> ti_wf (store ki ti).
Proof.
  intros [Hs Hi] Hk. unfold store. split; rewrite bt_RoI_items.
  - by apply (insert_sorted key).
  - apply Forall_forall. intros x [->|Hx]%(insert_elem key); [done|].
    by eapply (proj1 (Forall_forall _ _)) in Hx; [|exact Hi].
Qed.

Lemma remove_wf ki ti : key_sorted key (bt_Items ti) ->
  Forall (fun x => key x <> key ki -> item_ok x) (bt_Items ti) -> ti_wf (bt_Delete ki ti).1.
Proof.
  intros Hs Hi. split; rewrite bt_Delete_items.
  - by apply (delete_sorted key).
  - apply Forall_forall. intros x Hx.
    pose proof (elem_of_sublist _ _ _ Hx (delete_sublist key ki _)) as Hx'.
    eapply (proj1 (Forall_forall _ _)) in Hi; [|exact Hx']. apply Hi. intros E.
    apply (find_key_elem key) in Hx; [|by apply (delete_sorted key)].
    change Less with (key_less key) in Hx.
    rewrite (find_delete key), E, bool_decide_eq_true_2 in Hx by done. done.
Qed.

Lemma hist_remove ki ti k :
  key_sorted key (bt_Items ti) ->
  hist (bt_Delete ki ti).1 k = if bool_decide (k = key ki) then [] else hist ti k.
Proof.
  intros Hs. unfold hist. rewrite bt_Delete_items. change Less with (key_less key).
  rewrite (find_delete key) by done. by case_bool_decide.
Qed.

(** Putting an index whose key is gone into the tree and removing it again. *)
Lemma store_remove_wf ki ti : ti_wf ti -> ti_wf (bt_Delete ki (store ki ti)).1.
Proof.
  intros [Hs Hi]. apply remove_wf; unfold store; rewrite bt_RoI_items.
  - by apply (insert_sorted key).
  - apply Forall_forall. intros x [->|Hx]%(insert_elem key); [done|]. intros _.
    by eapply (proj1 (Forall_forall _ _)) in Hx; [|exact Hi].
Qed.

Lemma hist_store_remove ki ti k :
  ti_wf ti ->
  hist (bt_Delete ki (store ki ti)).1 k = if bool_decide (k = key ki) then [] else hist ti k.
Proof.
  intros H. rewrite hist_remove.
  - case_bool_decide; [done|]. rewrite hist_store by done. by rewrite bool_decide_eq_false_2.
  - unfold store. rewrite bt_RoI_items. apply (insert_sorted key), H.
Qed.

Lemma find_item_ok ti k ki :
  ti_wf ti -> find_key key k (bt_Items ti) = Some ki -> item_ok ki /\ key ki = k /\ hist ti k = abs ki.
Proof.
  intros [_ Hi] E. split_and!.
  - apply find_key_Some in E as [E _]. by eapply (proj1 (Forall_forall _ _)) in E; [|exact Hi].
  - by apply find_key_Some in E as [_ ?].
  - unfold hist. by rewrite E.
Qed.

Lemma wf_last_rev ki : wf ki -> modRev ki = last_rev (abs ki).
Proof. intros H. unfold last_rev. rewrite ke_rev_abs. apply H. Qed.

Lemma wf_newKI k : wf (newKI k).
Proof. split; (done || constructor). Qed.

Lemma hist_sorted ti k : ti_wf ti -> StronglySorted rev_lt (ke_rev <$> hist ti k).
Proof.
  intros H. unfold hist. destruct (find_key key k (bt_Items ti)) as [ki|] eqn:E; [|constructor].
  apply (find_item_ok ti k ki H) in E as ([Hwf _] & _). rewrite ke_rev_abs. apply Hwf.
Qed.

(** ** The operations on histories *)

Lemma NewTreeIndex_wf : ti_wf NewTreeIndex /\ forall k, hist NewTreeIndex k = [].
Proof.
  unfold NewTreeIndex, hist. split; [split|intros k]; rewrite bt_NewG_items; (done || constructor).
Qed.

Lemma unsafeGet_hist ti k r :
  ti_wf ti ->
  match lookup_at (hist ti k) r with
  | Some e => unsafeGet k r ti = Ok (ke_result e)
  | None => exists err, unsafeGet k r ti = Err err
  end.
Proof.
  intros H. unfold unsafeGet, keyIndex_of. rewrite bt_Get_find. simpl.
  destruct (find_key key k (bt_Items ti)) as [ki|] eqn:E.
  - destruct (find_item_ok ti k ki H E) as ([Hwf _] & _ & ->).
    pose proof (get_lookup ki r Hwf) as Hg. destruct (lookup_at (abs ki) r); [done|].
    destruct Hg as [e ->]. eauto.
  - unfold hist. rewrite E. simpl. eauto.
Qed.

Definition hist_upd (ti : treeIndex) (k : bytes) (h : list kevent) (ti' : treeIndex) : Prop :=
  ti_wf ti' /\ hist ti' k = h /\ forall k', k' <> k -> hist ti' k' = hist ti k'.

Lemma hist_upd_store ki ti :
  ti_wf ti -> item_ok ki -> hist_upd ti (key ki) (abs ki) (store ki ti).
Proof.
  intros H Hk. split_and!; [by apply store_wf|by rewrite hist_store, bool_decide_eq_true_2|].
  intros k' Hne. rewrite hist_store by done. by rewrite bool_decide_eq_false_2.
Qed.

Lemma Put_hist ti k rev :
  ti_wf ti -> rev_lt (last_rev (hist ti k)) rev ->
  exists ti', Put k rev ti = (ti', Ok tt) /\
    hist_upd ti k (hist ti k ++ [put_event (hist ti k) rev]) ti'.
Proof.
  intros H Hlt. unfold Put. rewrite bt_Get_find. cbn [key newKI].
  destruct (find_key key k (bt_Items ti)) as [ki|] eqn:E.
  - destruct (find_item_ok ti k ki H E) as ([Hwf Hne] & Hk & Hh). rewrite Hh in *.
    rewrite <-wf_last_rev in Hlt by done.
    destruct (put_wf rev ki Hwf Hlt) as (ki' & -> & Hwf' & Hk' & _ & Habs & gs & g & Eg & _).
    eexists. split; [done|]. rewrite <-Habs, <-Hk, <-Hk'. apply hist_upd_store; [done|].
    split; [done|]. rewrite Eg. by destruct gs.
  - unfold hist in *. rewrite E in *.
    destruct (put_wf rev (newKI k) (wf_newKI k) Hlt) as (ki' & -> & Hwf' & Hk' & _ & Habs & gs & g & Eg & _).
    change (abs (newKI k)) with (@nil kevent) in Habs.
    eexists. split; [done|]. rewrite <-Habs. change k with (key (newKI k)). rewrite <-Hk'.
    apply hist_upd_store; [done|]. split; [done|]. rewrite Eg. by destruct gs.
Qed.

Lemma Tombstone_hist ti k rev :
  ti_wf ti -> rev_lt (last_rev (hist ti k)) rev ->
  (exists e, last (hist ti k) = Some e /\ ke_tomb e = false) ->
  exists ti', Tombstone k rev ti = (ti', Ok tt) /\
    hist_upd ti k (hist ti k ++ [set_tomb (put_event (hist ti k) rev)]) ti'.
Proof.
  intros H Hlt Hlive. unfold Tombstone. rewrite bt_Get_find. cbn [key newKI].
  destruct (find_key key k (bt_Items ti)) as [ki|] eqn:E.
  2:{ destruct Hlive as (e & He & _). unfold hist in He. by rewrite E in He. }
  destruct (find_item_ok ti k ki H E) as ([Hwf Hne] & Hk & Hh). rewrite Hh in *.
  rewrite <-wf_last_rev in Hlt by done.
  destruct (tombstone_wf rev ki Hwf Hlt Hlive) as (ki' & -> & Hwf' & Hk' & _ & Habs).
  eexists. split; [done|]. rewrite <-Habs, <-Hk, <-Hk'. apply hist_upd_store; [done|].
  split; [done|]. intros En. unfold abs at 1 in Habs. rewrite En in Habs. by destruct (abs ki).
Qed.

Lemma DropRevision_hist ti k rev h e :
  ti_wf ti -> hist ti k = h ++ [e] -> ke_rev e = rev ->
  hist_upd ti k h (DropRevision k rev ti).
Proof.
  intros H Hh Hrev. unfold DropRevision. rewrite bt_Get_find. cbn [key newKI].
  destruct (find_key key k (bt_Items ti)) as [ki|] eqn:E.
  2:{ unfold hist in Hh. rewrite E in Hh. by destruct h. }
  destruct (find_item_ok ti k ki H E) as ([Hwf Hne] & Hk & Hh'). rewrite Hh' in Hh.
  destruct (dropRev_wf rev ki e h Hwf Hh Hrev) as (Hk' & Habs & _ & Hd).
  case_bool_decide as Hnil.
  - rewrite Hd. split_and!; [by apply store_remove_wf| |].
    + rewrite hist_store_remove by done. by rewrite bool_decide_eq_true_2 by congruence.
    + intros k' Hk1. rewrite hist_store_remove by done.
      by rewrite bool_decide_eq_false_2 by congruence.
  - rewrite wf_not_isEmpty by done. rewrite <-Habs, <-Hk, <-Hk'.
    apply hist_upd_store; [done|]. split; [done|]. intros En. unfold abs in Habs.
    by rewrite En in Habs.
Qed.

(** *** Compaction *)

(** History [h] was compacted at [r] into [h'], and what had to be retained is in
    [avail]. *)
Definition compacted (r : Z) (h h' : list kevent) (avail : gset Revision) : Prop :=
  exists P av av', h = P ++ h' /\ cut_at r P h' av av' /\ av' ⊆ avail.

Lemma compacted_mono r h h' av1 av2 : compacted r h h' av1 -> av1 ⊆ av2 -> compacted r h h' av2.
Proof. intros (P & a & a' & ? & ? & ?) ?. exists P, a, a'. split_and!; [done..|set_solver]. Qed.

Lemma compacted_nil r avail : compacted r [] [] avail.
Proof.
  exists [], ∅, ∅. split_and!; [done| |set_solver]. right. split_and!; [constructor|done|by left].
Qed.

(** Every retained revision belongs to an event the index still has. *)
Definition avail_sound (r : Z) (ti : treeIndex) (avail : gset Revision) : Prop :=
  forall x, x ∈ avail -> exists k e, e ∈ hist ti k /\ ke_rev e = x /\ Main x <= r.

Lemma cut_at_new r P Q av av' :
  cut_at r P Q av av' ->
  av ⊆ av' /\ forall x, x ∈ av' -> x ∈ av \/ exists e, e ∈ Q /\ ke_rev e = x /\ Main x <= r.
Proof.
  intros [(e & Q1 & Q2 & -> & He & -> & _)|(_ & -> & _)].
  - split; [set_solver|]. intros x [Hx%elem_of_singleton|Hx]%elem_of_union; [|by left].
    right. exists e. split_and!; [left|done|by subst].
  - split; [done|]. auto.
Qed.

Lemma compact_step_hist r ki avail ti :
  ti_wf ti -> find_key key (key ki) (bt_Items ti) = Some ki ->
  exists ti' avail', compact_step r ki avail ti = (ti', Ok avail') /\ ti_wf ti' /\
    (forall k, k <> key ki -> hist ti' k = hist ti k) /\
    (forall k, k <> key ki -> find_key key k (bt_Items ti') = find_key key k (bt_Items ti)) /\
    (exists P, hist ti (key ki) = P ++ hist ti' (key ki) /\
               cut_at r P (hist ti' (key ki)) avail avail').
Proof.
  intros H E. destruct (find_item_ok ti _ ki H E) as ([Hwf Hne] & _ & ->).
  destruct (compact_spec r avail ki Hwf Hne)
    as (ki' & avail' & P & Hc & Hk & _ & Habs & Hwf' & Hcut).
  unfold compact_step. rewrite Hc. destruct Hwf' as [[Hwf' Hne']|[He Hnil]].
  - rewrite wf_not_isEmpty by done. exists (store ki' ti), avail'. split; [done|].
    destruct (hist_upd_store ki' ti H (conj Hwf' Hne')) as (Hti & Hh & Ho). rewrite Hk in *.
    split_and!; try done.
    + intros k Hkk. rewrite find_store by done. by rewrite bool_decide_eq_false_2 by congruence.
    + exists P. by rewrite Hh.
  - rewrite He. pose proof (bt_Delete_old ki' (store ki' ti)) as Hold.
    assert (ref_get Less ki' (bt_Items (store ki' ti)) = Some ki') as Hf.
    { change (ref_get Less) with (ref_get (key_less key)). rewrite (ref_get_find key), find_store by done.
      by rewrite bool_decide_eq_true_2. }
    pose proof (store_remove_wf ki' ti H) as Hwf'. pose proof (hist_store_remove ki' ti) as Hh.
    assert (forall k, k <> key ki -> find_key key k (bt_Items (bt_Delete ki' (store ki' ti)).1) =
      find_key key k (bt_Items ti)) as Hfind.
    { intros k Hkk. rewrite bt_Delete_items. change Less with (key_less key).
      rewrite (find_delete key), bool_decide_eq_false_2 by (congruence || by
        unfold store; rewrite bt_RoI_items; apply (insert_sorted key), H).
      rewrite find_store by done. by rewrite bool_decide_eq_false_2 by congruence. }
    destruct (bt_Delete ki' (store ki' ti)) as [ti' old]. simpl in *. rewrite Hold, Hf.
    exists ti', avail'. split_and!; try done.
    + intros k Hkk. rewrite Hh by done. by rewrite bool_decide_eq_false_2 by congruence.
    + exists P. rewrite Hh by done. rewrite bool_decide_eq_true_2 by congruence. by rewrite Hnil in *.
Qed.

Lemma compact_items_hist r clone avail ti :
  ti_wf ti -> key_sorted key clone ->
  Forall (fun ki => find_key key (key ki) (bt_Items ti) = Some ki) clone ->
  exists ti' avail', compact_items r clone avail ti = (ti', Ok avail') /\ ti_wf ti' /\
    avail ⊆ avail' /\
    (forall k, k ∉ key <$> clone -> hist ti' k = hist ti k) /\
    (forall k, k ∈ key <$> clone -> compacted r (hist ti k) (hist ti' k) avail') /\
    (forall x, x ∈ avail' ->
       x ∈ avail \/ exists k e, e ∈ hist ti' k /\ ke_rev e = x /\ Main x <= r).
Proof.
  intros Hti Hs Hf. revert avail ti Hti Hf.
  induction Hs as [|ki clone Hs IH Hki]; intros avail ti Hti Hf.
  { exists ti, avail. split_and!; try done; auto. intros k Hk. by apply not_elem_of_nil in Hk. }
  inversion Hf as [|? ? Hfki Hf']; subst.
  destruct (compact_step_hist r ki avail ti Hti Hfki)
    as (ti1 & av1 & Hstep & Hti1 & Ho & Hfo & P & HP & Hcut).
  destruct (cut_at_new _ _ _ _ _ Hcut) as [Hsub Hnew].
  assert (key ki ∉ key <$> clone) as Hdiff.
  { intros (x & E & Hx)%list_elem_of_fmap. rewrite Forall_forall in Hki. specialize (Hki _ Hx).
    simpl in Hki. by rewrite E, bytes_ltb_irrefl in Hki. }
  destruct (IH av1 ti1 Hti1) as (ti' & av' & Hrun & Hti' & Hsub' & Hout & Hin & Hav').
  { rewrite Forall_forall in *. intros x Hx. rewrite Hfo; [by apply Hf'|].
    intros E. apply Hdiff. rewrite <-E. by apply list_elem_of_fmap_2. }
  exists ti', av'. cbn [compact_items]. unfold mbind, M_bind. rewrite Hstep. split_and!; try done.
  - set_solver.
  - intros k Hk. rewrite fmap_cons in Hk. apply not_elem_of_cons in Hk as [Hk1 Hk2].
    by rewrite Hout, Ho.
  - intros k Hk. rewrite fmap_cons in Hk. apply elem_of_cons in Hk as [->|Hk].
    + rewrite Hout by done. by exists P, avail, av1.
    + rewrite <-(Ho k); [by apply Hin|]. intros ->. by apply Hdiff.
  - intros x Hx. destruct (Hav' x Hx) as [Hx1|?]; [|by right].
    destruct (Hnew x Hx1) as [?|(e & He & ?)]; [by left|]. right. exists (key ki), e.
    by rewrite Hout.
Qed.

Lemma Compact_hist r ti :
  ti_wf ti ->
  exists ti' avail, Compact r ti = (ti', Ok avail) /\ ti_wf ti' /\
    (forall k, compacted r (hist ti k) (hist ti' k) avail) /\ avail_sound r ti' avail.
Proof.
  intros H. destruct (compact_items_hist r (bt_Items ti) ∅ ti H)
    as (ti' & avail & Hrun & Hti' & _ & Hout & Hin & Hav).
  - apply H.
  - apply Forall_forall. intros x Hx. apply find_key_elem; [apply H|done].
  - exists ti', avail. split_and!; try done.
    + intros k. destruct (decide (k ∈ key <$> bt_Items ti)) as [Hk|Hk]; [by apply Hin|].
      rewrite Hout by done. unfold hist.
      destruct (find_key key k (bt_Items ti)) as [ki|] eqn:E; [|apply compacted_nil].
      apply find_key_Some in E as [E <-]. destruct Hk. by apply list_elem_of_fmap_2.
    + intros x Hx. destruct (Hav x Hx) as [?%not_elem_of_empty|?]; [done|done].
Qed.

Lemma compacted_lookup r h h' avail r' :
  compacted r h h' avail -> r <= r' -> lookup_at h' r' = lookup_at h r'.
Proof. intros (P & av & av' & -> & Hcut & _) Hr. symmetry. by eapply cut_lookup. Qed.

(** The events a compacted history keeps are newer than the compaction or retained. *)
Lemma compacted_retained r h h' avail e :
  compacted r h h' avail -> clean h -> StronglySorted rev_lt (ke_rev <$> h) ->
  e ∈ h' -> r < Main (ke_rev e) \/ ke_rev e ∈ avail.
Proof.
  intros (P & av & av' & -> & Hcut & Hsub) Hc Hs He.
  destruct (decide (r < Main (ke_rev e))) as [?|Hle]; [by left|right].
  apply Hsub. eapply cut_retains; [exact Hcut|done..|lia].
Qed.

(** *** Range queries *)

(** The keys a range query visits: [k, end), unbounded when end is empty. *)
Definition in_range (k : bytes) (end_ : option bytes) (x : bytes) : bool :=
  bytes_leb k x && match default [] end_ with [] => true | e => bytes_ltb x e end.

Definition items_in (k : bytes) (end_ : option bytes) (ti : treeIndex) : list keyIndex :=
  filter (fun ki => in_range k end_ (key ki) = true) (bt_Items ti).

Lemma iterate_stop {A S} (p : A -> bool) (f : S -> A -> res (S * bool)) s l :
  (forall l1 x l2, l = l1 ++ x :: l2 -> p x = true -> Forall (fun y => p y = true) l2) ->
  (forall s x s' b, f s x = Ok (s', b) -> b = true) ->
  iterate (fun s x => if p x then Ok (s, false) else f s x) s l =
    iterate f s (filter (fun x => p x = false) l).
Proof.
  intros Hp Hf. revert s. induction l as [|x l IH]; intros s; [done|]. simpl.
  destruct (p x) eqn:E.
  - pose proof (Hp [] x l eq_refl E) as Hl. rewrite filter_cons_False by congruence.
    rewrite filter_none; [done|]. eapply Forall_impl; [exact Hl|]. simpl. congruence.
  - rewrite filter_cons_True by done. simpl.
    destruct (f s x) as [[s' b]|e|] eqn:Ef; [|done..].
    apply Hf in Ef as ->. apply IH. intros l1 y l2 -> Hy. by apply (Hp (x :: l1) y l2).
Qed.

Lemma filter_filter_and {A} (P Q R : A -> Prop) `{forall x, Decision (P x)}
    `{forall x, Decision (Q x)} `{forall x, Decision (R x)} (l : list A) :
  (forall x, R x <-> P x /\ Q x) -> filter P (filter Q l) = filter R l.
Proof.
  intros HR. rewrite list_filter_filter. apply list_filter_iff. intros x. by rewrite HR.
Qed.

Lemma unsafeVisit_spec {S} k end_ (f : S -> keyIndex -> res (S * bool)) s ti :
  ti_wf ti -> (forall s x s' b, f s x = Ok (s', b) -> b = true) ->
  unsafeVisit k end_ f s ti = iterate f s (items_in k end_ ti).
Proof.
  intros [Hs _] Hf. unfold unsafeVisit. cbn [key newKI].
  rewrite (iterate_stop (fun item => (0 <? length (default [] end_))%nat
                           && negb (Less item (newKI (default [] end_))))); [|..|done].
  - f_equal. unfold bt_ItemsFrom, items_in. apply filter_filter_and. intros x.
    unfold in_range, Less. cbn [key newKI]. rewrite bytes_leb_ltb.
    destruct (bytes_ltb (key x) k); simpl; [by split; [|intros [_ ?]]|].
    destruct (default [] end_); simpl; [done|].
    rewrite negb_false_iff. tauto.
  - intros l1 x l2 E Hx. apply andb_true_iff in Hx as [Hlen Hx]. apply negb_true_iff in Hx.
    assert (key_sorted key (l1 ++ x :: l2)) as Hs'.
    { rewrite <-E. unfold bt_ItemsFrom. clear -Hs. induction Hs as [|y l ? IH Hy]; [constructor|].
      rewrite filter_cons. case_decide; [|done]. constructor; [done|].
      apply Forall_forall. intros z [_ Hz]%list_elem_of_filter.
      by eapply (proj1 (Forall_forall _ _)) in Hz; [|exact Hy]. }
    apply StronglySorted_app in Hs' as (_ & _ & Hs'). apply StronglySorted_inv in Hs' as [_ Hl2].
    eapply Forall_impl; [exact Hl2|]. simpl. intros y Hy. rewrite Hlen. simpl.
    apply negb_true_iff. unfold Less in *. cbn [key newKI] in *.
    destruct (bytes_ltb (key y) (default [] end_)) eqn:Ey; [|done].
    by rewrite (bytes_ltb_trans _ _ _ Hy Ey) in Hx.
Qed.

(** The live keys among some items at a revision, with their last event. *)
Definition live (r : Z) (l : list keyIndex) : list (bytes * kevent) :=
  omap (fun ki => (fun e => (key ki, e)) <$> lookup_at (abs ki) r) l.

Lemma live_cons r ki l :
  live r (ki :: l) =
    match lookup_at (abs ki) r with Some e => (key ki, e) :: live r l | None => live r l end.
Proof. unfold live. cbn [omap list_omap]. by destruct (lookup_at (abs ki) r). Qed.

(** Collecting over live keys: a callback that adds [g key event] for a live key. *)
Lemma iterate_live {S} (f : S -> keyIndex -> res (S * bool)) (g : S -> bytes * kevent -> S) r s l :
  Forall item_ok l ->
  (forall s ki, f s ki = match get r ki with
                         | Ok (c, m, v) => Ok (g s (key ki, mkKE m c v false), true)
                         | Err _ => Ok (s, true)
                         | Panicked => Panicked end) ->
  iterate f s l = Ok (foldl g s (live r l)).
Proof.
  intros Hl Hf. revert s. induction Hl as [|ki l [Hwf _] _ IH]; intros s; [done|].
  cbn [iterate]. rewrite Hf, live_cons. pose proof (get_lookup ki r Hwf) as Hg.
  destruct (lookup_at (abs ki) r) as [e|] eqn:El.
  - rewrite Hg. unfold ke_result. rewrite IH. cbn [foldl]. do 4 f_equal.
    apply lookup_at_elem in El as (_ & Ht & _). destruct e; simpl in *. by rewrite Ht.
  - destruct Hg as [e ->]. apply IH.
Qed.

Lemma items_in_ok k end_ ti : ti_wf ti -> Forall item_ok (items_in k end_ ti).
Proof.
  intros [_ H]. apply Forall_forall. intros x [_ Hx]%list_elem_of_filter.
  by eapply (proj1 (Forall_forall _ _)) in Hx; [|exact H].
Qed.

Lemma live_elem k end_ r ti x e :
  ti_wf ti ->
  (x, e) ∈ live r (items_in k end_ ti) <-> in_range k end_ x = true /\ lookup_at (hist ti x) r = Some e.
Proof.
  intros H. unfold live. rewrite list_elem_of_omap. split.
  - intros (ki & [Hr Hki]%list_elem_of_filter & E).
    destruct (lookup_at (abs ki) r) as [e'|] eqn:El; [|done]. simpl in E. injection E as <- <-.
    split; [done|]. unfold hist. by rewrite (find_key_elem key) by (apply H || done).
  - intros [Hr Hl]. unfold hist in Hl. destruct (find_key key x (bt_Items ti)) as [ki|] eqn:E; [|done].
    apply find_key_Some in E as [Hki <-]. exists ki. rewrite Hl. split; [|done].
    by apply list_elem_of_filter.
Qed.

Lemma live_sorted k end_ r ti :
  ti_wf ti ->
  StronglySorted (fun a b => bytes_ltb a.1 b.1 = true) (live r (items_in k end_ ti)).
Proof.
  intros [Hs _]. unfold items_in. induction Hs as [|x l _ IH Hx]; [constructor|].
  rewrite filter_cons. case_decide; [|done]. rewrite live_cons.
  destruct (lookup_at (abs x) r); [|done]. constructor; [done|].
  apply Forall_forall. intros [y e] Hy. unfold live in Hy.
  apply list_elem_of_omap in Hy as (ki & [_ Hki]%list_elem_of_filter & E).
  destruct (lookup_at (abs ki) r); [|done]. simpl in E. injection E as <- <-. simpl.
  by eapply (proj1 (Forall_forall _ _)) in Hki; [|exact Hx].
Qed.

(** What a query over [k, end) selects, and its answer: the selected live keys in
    order. A query without end selects exactly [k] (everything when [k] is empty). *)
Definition selects (k : bytes) (end_ : option bytes) (x : bytes) : bool :=
  match end_, (length k =? 0)%nat with
  | None, false => bool_decide (x = k)
  | _, _ => in_range k end_ x
  end.

Definition answers (sel : bytes -> bool) (r : Z) (ti : treeIndex) (out : list (bytes * kevent)) : Prop :=
  StronglySorted (fun a b => bytes_ltb a.1 b.1 = true) out /\
  forall x e, (x, e) ∈ out <-> sel x = true /\ lookup_at (hist ti x) r = Some e.

Lemma answers_live k end_ r ti :
  ti_wf ti -> answers (in_range k end_) r ti (live r (items_in k end_ ti)).
Proof. intros H. split; [by apply live_sorted|]. intros x e. by apply live_elem. Qed.

Definition single (k : bytes) (r : Z) (ti : treeIndex) : list (bytes * kevent) :=
  match lookup_at (hist ti k) r with Some e => [(k, e)] | None => [] end.

Lemma answers_single k r ti : answers (fun x => bool_decide (x = k)) r ti (single k r ti).
Proof.
  unfold single. split; [destruct (lookup_at _ _); by repeat constructor|].
  intros x e. rewrite bool_decide_eq_true. destruct (lookup_at (hist ti k) r) as [e'|] eqn:E.
  - rewrite list_elem_of_singleton. split; [by intros [= -> ->]|]. intros [-> Hx]. congruence.
  - split; [by intros ?%not_elem_of_nil|]. intros [-> Hx]. congruence.
Qed.

(** The limit of [Revisions] caps the list, not the count. *)
Definition capped {A} (limit : Z) (l : list A) : list A :=
  if limit <=? 0 then l else take (Z.to_nat limit) l.

Lemma revisions_fold limit (l : list (bytes * kevent)) acc n :
  (0 < limit -> Z.of_nat (length acc) <= limit) ->
  foldl (fun s p => ((if (limit <=? 0) || (Z.of_nat (length s.1) <? limit)
                      then s.1 ++ [ke_rev p.2] else s.1), s.2 + 1)) (acc, n) l
  = ((if limit <=? 0 then acc ++ (ke_rev ∘ snd <$> l)
      else take (Z.to_nat limit) (acc ++ (ke_rev ∘ snd <$> l))), n + Z.of_nat (length l)).
Proof.
  revert acc n. induction l as [|p l IH]; intros acc n Hacc; cbn [foldl fmap list_fmap length].
  - rewrite app_nil_r, Z.add_0_r. destruct (Z.leb_spec limit 0); [done|].
    by rewrite take_ge by lia.
  - rewrite IH; simpl.
    + destruct (Z.leb_spec limit 0); simpl.
      * rewrite <-app_assoc. f_equal. lia.
      * destruct (Z.ltb_spec (Z.of_nat (length acc)) limit) as [Hlt|Hge].
        -- rewrite <-app_assoc. f_equal. lia.
        -- rewrite !take_app_le by lia. f_equal. lia.
    + intros Hl. destruct (Z.leb_spec limit 0); simpl; [lia|].
      destruct (Z.ltb_spec (Z.of_nat (length acc)) limit); rewrite ?length_app; simpl; lia.
Qed.

Lemma Revisions_hist k end_ r limit ti :
  ti_wf ti ->
  exists out, answers (selects k end_) r ti out /\
    Revisions k end_ r limit ti = Ok (capped limit (ke_rev ∘ snd <$> out), Z.of_nat (length out)).
Proof.
  intros H. unfold Revisions, selects.
  assert (unsafeVisit k end_ (revisions_step r limit) ([], 0) ti =
    Ok (capped limit (ke_rev ∘ snd <$> live r (items_in k end_ ti)),
        Z.of_nat (length (live r (items_in k end_ ti))))) as Hvisit.
  { rewrite unsafeVisit_spec; [|done|].
    2:{ intros s x s' b. unfold revisions_step. by destruct (get r x) as [[[? ?] ?]|?|]; intros [= <-]. }
    rewrite (iterate_live _ (fun s p => ((if (limit <=? 0) || (Z.of_nat (length s.1) <? limit)
      then s.1 ++ [ke_rev p.2] else s.1), s.2 + 1)) r).
    - rewrite revisions_fold by (simpl; lia). unfold capped. done.
    - by apply items_in_ok.
    - intros s ki. unfold revisions_step. by destruct (get r ki) as [[[? ?] ?]|?|], s. }
  destruct end_ as [e|]; [exists (live r (items_in k (Some e) ti)); split; [by apply answers_live|done]|].
  destruct (length k =? 0)%nat;
    [exists (live r (items_in k None ti)); split; [by apply answers_live|done]|].
  exists (single k r ti). split; [apply answers_single|].
  pose proof (unsafeGet_hist ti k r H) as Hg. unfold single.
  destruct (lookup_at (hist ti k) r) as [e|].
  - rewrite Hg. unfold capped. simpl. destruct (Z.leb_spec limit 0); [done|].
    by rewrite take_ge by (simpl; lia).
  - destruct Hg as [e ->]. unfold capped. simpl. by destruct (limit <=? 0), (Z.to_nat limit).
Qed.

Lemma range_fold (l : list (bytes * kevent)) acc :
  foldl (fun s p => s ++ [(p.1, ke_created p.2)]) acc l = acc ++ ((fun p => (p.1, ke_created p.2)) <$> l).
Proof.
  revert acc. induction l as [|p l IH]; intros acc; simpl; [by rewrite app_nil_r|].
  by rewrite IH, <-app_assoc.
Qed.

Definition range_selects (k : bytes) (end_ : option bytes) (x : bytes) : bool :=
  match end_ with None => bool_decide (x = k) | Some _ => in_range k end_ x end.

Lemma Range_hist k end_ r ti :
  ti_wf ti ->
  exists out, answers (range_selects k end_) r ti out /\
    Range k end_ r ti = Ok ((fun p => (p.1, ke_created p.2)) <$> out).
Proof.
  intros H. unfold Range, range_selects. destruct end_ as [e|].
  - exists (live r (items_in k (Some e) ti)). split; [by apply answers_live|].
    rewrite unsafeVisit_spec; [|done|].
    2:{ intros s x s' b. by destruct (get r x) as [[[? ?] ?]|?|]; intros [= <-]. }
    rewrite (iterate_live _ (fun s p => s ++ [(p.1, ke_created p.2)]) r).
    + by rewrite range_fold.
    + by apply items_in_ok.
    + intros s ki. by destruct (get r ki) as [[[? ?] ?]|?|].
  - exists (single k r ti). split; [apply answers_single|].
    pose proof (unsafeGet_hist ti k r H) as Hg. unfold single.
    destruct (lookup_at (hist ti k) r) as [e|]; [by rewrite Hg|]. by destruct Hg as [e ->].
Qed.

Lemma CountRevisions_hist k end_ r ti :
  ti_wf ti ->
  exists out, answers (range_selects k end_) r ti out /\
    CountRevisions k end_ r ti = Ok (Z.of_nat (length out)).
Proof.
  intros H. unfold CountRevisions, range_selects. destruct end_ as [e|].
  - exists (live r (items_in k (Some e) ti)). split; [by apply answers_live|].
    rewrite unsafeVisit_spec; [|done|].
    2:{ intros s x s' b. by destruct (get r x) as [[[? ?] ?]|?|]; intros [= _ <-]. }
    rewrite (iterate_live _ (fun n _ => n + 1) r); [|by apply items_in_ok|].
    + f_equal. generalize (live r (items_in k (Some e) ti)). intros l.
      assert (forall n, foldl (fun n (_ : bytes * kevent) => n + 1) n l = n + Z.of_nat (length l)) as ->.
      { induction l as [|p l IH]; intros n; simpl; [lia|]. rewrite IH. lia. }
      done.
    + intros s ki. by destruct (get r ki) as [[[? ?] ?]|?|].
  - exists (single k r ti). split; [apply answers_single|].
    pose proof (unsafeGet_hist ti k r H) as Hg. unfold single.
    destruct (lookup_at (hist ti k) r) as [e|]; [by rewrite Hg|]. by destruct Hg as [e ->].
Qed.

(** ** Reachable indexes *)

(** One call of the [Index] interface that changes the index, with any arguments. *)
Inductive idx_step : treeIndex -> treeIndex -> Prop :=
  | step_Put k rev ti : idx_step ti (Put k rev ti).1
  | step_Tombstone k rev ti : idx_step ti (Tombstone k rev ti).1
  | step_Compact r ti : idx_step ti (Compact r ti).1
  | step_DropRevision k rev ti : idx_step ti (DropRevision k rev ti)
  | step_Clear ti : idx_step ti (Clear ti).

Definition idx_reachable (ti : treeIndex) : Prop := rtc idx_step NewTreeIndex ti.

Lemma Put_wf k rev ti : ti_wf ti -> ti_wf (Put k rev ti).1.
Proof.
  intros H. destruct (decide (rev_lt (last_rev (hist ti k)) rev)) as [Hlt|Hge].
  - by destruct (Put_hist ti k rev H Hlt) as (ti' & -> & ? & _).
  - unfold Put. rewrite bt_Get_find. cbn [key newKI].
    assert (forall ki, modRev ki = last_rev (hist ti k) ->
      put (Main rev) (Sub rev) ki = Err [ErrKeyIndexError]) as Hput.
    { intros ki Hm. unfold put. destruct (GreaterThan _ _) eqn:Eg; [|done].
      apply GreaterThan_spec in Eg. rewrite Hm in Eg. by destruct rev, Hge. }
    destruct (find_key key k (bt_Items ti)) as [ki|] eqn:E.
    + destruct (find_item_ok ti k ki H E) as ([Hwf _] & _ & Hh).
      rewrite Hput; [done|]. by rewrite Hh, wf_last_rev.
    + rewrite Hput; [done|]. unfold hist. by rewrite E.
Qed.

Lemma Tombstone_wf k rev ti : ti_wf ti -> ti_wf (Tombstone k rev ti).1.
Proof.
  intros H. unfold Tombstone. rewrite bt_Get_find. cbn [key newKI].
  destruct (find_key key k (bt_Items ti)) as [ki|] eqn:E; [|done].
  destruct (find_item_ok ti k ki H E) as ([Hwf Hne] & Hk & Hh).
  destruct (tombstone (Main rev) (Sub rev) ki) as [ki'|e|] eqn:Et; [|done..]. simpl.
  apply store_wf; [done|]. pose proof Et as Et'. unfold tombstone in Et.
  rewrite wf_not_isEmpty in Et by done.
  destruct (list_snoc_cases (generations ki)) as [?|(gs & g & Eg)]; [done|].
  rewrite Eg, last_snoc in Et. unfold gen_isEmpty in Et.
  destruct (revs g) as [|r0 rs] eqn:Er; [done|]. simpl in Et.
  destruct (put (Main rev) (Sub rev) ki) as [ki1|e|] eqn:Ep; [|done..]. simplify_eq/=.
  assert (rev_lt (modRev ki) rev) as Hlt.
  { unfold put in Ep. destruct (GreaterThan _ _) eqn:Egt; [|done].
    apply GreaterThan_spec in Egt. by destruct rev. }
  destruct (tombstone_wf rev ki Hwf Hlt) as (ki2 & E2 & Hwf2 & _).
  { apply (last_abs_live ki gs g Hwf Eg). by rewrite Er. }
  rewrite Et' in E2. injection E2 as <-. split; [done|]. simpl. by destruct (generations ki1).
Qed.

Lemma DropRevision_wf k rev ti : ti_wf ti -> ti_wf (DropRevision k rev ti).
Proof.
  intros H. unfold DropRevision. rewrite bt_Get_find. cbn [key newKI].
  destruct (find_key key k (bt_Items ti)) as [ki|] eqn:E; [|done].
  destruct (find_item_ok ti k ki H E) as ([Hwf Hne] & Hk & Hh).
  destruct (dropRev_any rev ki Hwf Hne) as [He|[Hwf' Hne']].
  - rewrite He. by apply store_remove_wf.
  - rewrite wf_not_isEmpty by done. by apply store_wf.
Qed.

Lemma idx_step_wf ti ti' : idx_step ti ti' -> ti_wf ti -> ti_wf ti'.
Proof.
  intros [k rev ti0|k rev ti0|r ti0|k rev ti0|ti0] H.
  - by apply Put_wf.
  - by apply Tombstone_wf.
  - by destruct (Compact_hist r ti0 H) as (ti1 & av & -> & ? & _).
  - by apply DropRevision_wf.
  - apply NewTreeIndex_wf.
Qed.

(** C22: Every index reachable from the empty one by any calls of Put, Tombstone,
    Compact, DropRevision and Clear, whatever their arguments, holds its keys in
    strictly ascending order, each with a well-formed, non-empty history; in
    particular no read of it panics. *)
Theorem index_reachable_wf ti :
  idx_reachable ti -> ti_wf ti /\ forall k r, Get k r ti <> Panicked.
Proof.
  intros Hr. assert (ti_wf ti) as Hwf.
  { assert (ti_wf NewTreeIndex) as H0 by apply NewTreeIndex_wf. revert H0.
    induction Hr as [t|t t' t'' Hs _ IH]; [done|]. intros Ht. by eapply IH, idx_step_wf. }
  split; [done|]. intros k r. pose proof (unsafeGet_hist ti k r Hwf) as Hg. unfold Get.
  destruct (lookup_at (hist ti k) r); [by rewrite Hg|]. by destruct Hg as [e ->].
Qed.

(** C21: Recording a write in the index adds one event to the history of that key and
    leaves every other key alone: Put adds a live version, Tombstone a deletion,
    which is accepted exactly on a live key. The revision must lie above the key's
    last one. *)
Theorem index_write_refines ti k rev :
  ti_wf ti -> GreaterThan rev (last_rev (hist ti k)) = true ->
  (exists ti', Put k rev ti = (ti', Ok tt) /\
     hist_upd ti k (hist ti k ++ [put_event (hist ti k) rev]) ti') /\
  match last (hist ti k) with
  | Some (mkKE _ _ _ false) =>
      exists ti', Tombstone k rev ti = (ti', Ok tt) /\
        hist_upd ti k (hist ti k ++ [set_tomb (put_event (hist ti k) rev)]) ti'
  | _ => exists e, Tombstone k rev ti = (ti, Err e)
  end.
Proof.
  intros H Hlt%GreaterThan_spec. split; [by apply Put_hist|].
  destruct (last (hist ti k)) as [[r c v [|]]|] eqn:El.
  - unfold Tombstone. rewrite bt_Get_find. cbn [key newKI].
    destruct (find_key key k (bt_Items ti)) as [ki|] eqn:E; [|eauto].
    destruct (find_item_ok ti k ki H E) as ([Hwf Hne] & _ & Hh). rewrite Hh in El.
    rewrite tombstone_dead by eauto. eauto.
  - apply Tombstone_hist; [done..|]. eauto.
  - unfold Tombstone. rewrite bt_Get_find. cbn [key newKI].
    destruct (find_key key k (bt_Items ti)) as [ki|] eqn:E; [|eauto].
    destruct (find_item_ok ti k ki H E) as ([Hwf Hne] & _ & Hh). exfalso.
    rewrite Hh in El. apply last_None in El.
    pose proof (ke_rev_abs ki) as Hr. rewrite El in Hr.
    destruct Hwf as [_ _ Hf _ _]. destruct (generations ki) as [|g gs]; [done|].
    unfold all_revs in Hr. simpl in Hr. by destruct (revs g).
Qed.

(** A range query answers with exactly the keys of the range that are live at
    the target revision, in ascending key order, each with the revision of its last
    modification; the list is cut at the limit (if positive), the count is not. *)
Theorem index_revisions_query k end_ r limit ti :
  ti_wf ti ->
  exists out, answers (selects k end_) r ti out /\
    Revisions k end_ r limit ti = Ok (capped limit (ke_rev ∘ snd <$> out), Z.of_nat (length out)).
Proof. apply Revisions_hist. Qed.

(** C23: Compacting the whole index at r succeeds, keeps it well formed and changes
    no read at or after r; every revision it reports as retained belongs to an
    event still in the index at or before r, and when no key was deleted and
    re-created within one transaction, every event left in the index is newer than r
    or retained. *)
Theorem index_compact r ti :
  ti_wf ti ->
  exists ti' avail, Compact r ti = (ti', Ok avail) /\ ti_wf ti' /\ avail_sound r ti' avail /\
    (forall k r', r <= r' -> lookup_at (hist ti' k) r' = lookup_at (hist ti k) r') /\
    ((forall k, clean (hist ti k)) ->
     forall k e, e ∈ hist ti' k -> r < Main (ke_rev e) \/ ke_rev e ∈ avail).
Proof.
  intros H. destruct (Compact_hist r ti H) as (ti' & avail & Hrun & Hwf & Hc & Hav).
  exists ti', avail. split_and!; try done.
  - intros k r' Hr. by eapply compacted_lookup.
  - intros Hcl k e He. eapply compacted_retained; [apply Hc|apply Hcl|by apply hist_sorted|done].
Qed.

End TreeIndex.

(** ** Witnesses, on the sorted-list tree *)

Definition k_a : bytes := [Byte.x61].
Definition k_b : bytes := [Byte.x62].

(** Puts of a and b, then a deletion of a. *)
Definition ti_example : list keyIndex :=
  (Tombstone k_a (mkRev 3 0) (Put k_b (mkRev 2 0) (Put k_a (mkRev 1 0) NewTreeIndex).1).1).1.

Lemma ti_example_reachable : idx_reachable ti_example.
Proof.
  unfold idx_reachable, ti_example. eapply rtc_l; [apply (step_Put k_a (mkRev 1 0))|].
  eapply rtc_l; [apply (step_Put k_b (mkRev 2 0))|].
  eapply rtc_l; [apply (step_Tombstone k_a (mkRev 3 0))|]. apply rtc_refl.
Qed.

Lemma index_reachable_wf_witness : ti_wf ti_example /\ Get k_a 2 ti_example <> Panicked.
Proof.
  destruct (index_reachable_wf ti_example ti_example_reachable) as [H1 H2].
  split; [exact H1|exact (H2 k_a 2)].
Defined.

Lemma ti_example_wf : ti_wf ti_example.
Proof.
  repeat apply Tombstone_wf || apply Put_wf. apply NewTreeIndex_wf.
Qed.

Lemma index_write_refines_witness :
  exists ti', Tombstone k_b (mkRev 4 0) ti_example = (ti', Ok tt) /\
    hist_upd ti_example k_b [mkKE (mkRev 2 0) (mkRev 2 0) 1 false; mkKE (mkRev 4 0) (mkRev 2 0) 2 true] ti'.
Proof.
  exact (proj2 (index_write_refines ti_example k_b (mkRev 4 0) ti_example_wf eq_refl)).
Defined.

Lemma index_revisions_query_witness :
  exists out, answers (selects k_a (Some [])) 2 ti_example out /\
    Revisions k_a (Some []) 2 1 ti_example
      = Ok (capped 1 (ke_rev ∘ snd <$> out), Z.of_nat (length out)).
Proof. exact (index_revisions_query k_a (Some []) 2 1 ti_example ti_example_wf). Defined.

Lemma index_compact_witness :
  exists ti' avail, Compact 3 ti_example = (ti', Ok avail) /\
    lookup_at (hist ti' k_b) 3 = lookup_at (hist ti_example k_b) 3.
Proof.
  destruct (index_compact 3 ti_example ti_example_wf) as (ti' & avail & Hc & _ & _ & Hl & _).
  exists ti', avail. split; [exact Hc|]. apply Hl. lia.
Defined.

