(* ===== verification/IndexRevs.v ===== *)
(** The revisions of a range of keys: [RevisionsRange] of internal/kv/tree_index.go lists,
    key by key, the bucket keys of the events of each key in a window of revisions. *)

From S2P Require Import Prelude OrdTree KvTypes KeyIndex TreeIndex.
From Stdlib Require Import ZArith Lia.
From stdpp Require Import base gmap sets list strings sorting.
Open Scope Z_scope.

(** The bucket key of an event. *)
Definition event_key (e : kevent) : KvBucketKey := mkBK (ke_rev e) (ke_tomb e).

Definition in_window (s e : Z) (bk : KvBucketKey) : Prop := s < Main (bk_Revision bk) /\ Main (bk_Revision bk) < e.
#[export] Instance in_window_dec s e bk : Decision (in_window s e bk).
Proof. unfold in_window. apply _. Defined.

Definition window (s e : Z) (h : list kevent) : list KvBucketKey := filter (in_window s e) (event_key <$> h).

Lemma window_app s e a b : window s e (a ++ b) = window s e a ++ window s e b.
Proof. unfold window. by rewrite fmap_app, filter_app. Qed.

(** In a generation without repeated revisions only the last position is a tombstone. *)
Lemma gen_event_keys c g :
  NoDup (revs g) ->
  event_key <$> gen_events c g = (fun r => mkBK r (c && bool_decide (last (revs g) = Some r))) <$> revs g.
Proof.
  intros Hnd. unfold gen_events. apply list_eq. intros i. rewrite !list_lookup_fmap, list_lookup_imap.
  destruct (revs g !! i) as [r|] eqn:E; [|done]. cbn [fmap option_fmap option_map].
  unfold event_key, gen_event. cbn [ke_rev ke_tomb]. do 3 f_equal.
  pose proof (lookup_lt_Some _ _ _ E). rewrite last_lookup. apply eq_true_iff_eq.
  rewrite Nat.eqb_eq, bool_decide_eq_true. split.
  - intros Hl. by rewrite <-Hl.
  - intros E'. pose proof (NoDup_lookup _ _ _ _ Hnd E E'). lia.
Qed.

Lemma walk_window c g s e out :
  NoDup (revs g) ->
  (walk (fun out rev =>
     ((if (s <? Main rev) && (Main rev <? e)
       then out ++ [mkBK rev (c && bool_decide (last (revs g) = Some rev))]
       else out), None)) out g).1 = out ++ window s e (gen_events c g).
Proof.
  intros Hnd. unfold window. rewrite gen_event_keys by done. unfold walk. generalize (last (revs g)). intros o.
  generalize (revs g). intros rs. clear Hnd. revert out. induction rs as [|r rs IH]; intros out.
  { simpl. by rewrite app_nil_r. }
  cbn [walk_loop fmap list_fmap]. rewrite IH, filter_cons. unfold in_window. cbn [bk_Revision].
  destruct (Z.ltb_spec s (Main r)), (Z.ltb_spec (Main r) e); simpl;
    first [rewrite decide_True by lia; by rewrite <-app_assoc | by rewrite decide_False by lia].
Qed.

Lemma imap_pair_snoc {A} (l : list A) x : imap pair (l ++ [x]) = imap pair l ++ [(length l, x)].
Proof. rewrite imap_app. simpl. by rewrite Nat.add_0_r. Qed.

Lemma NoDup_revs gs g : StronglySorted rev_lt (all_revs gs) -> g ∈ gs -> NoDup (revs g).
Proof.
  intros Hs (a & b & ->)%list_elem_of_split. rewrite all_revs_app, all_revs_cons in Hs.
  apply StronglySorted_app in Hs as (_ & _ & Hs). apply StronglySorted_app in Hs as (_ & Hs & _).
  induction Hs as [|r l _ IH Hr]; constructor; [|done].
  intros Hin. pose proof (proj1 (Forall_forall _ _) Hr r Hin) as Hlt. by apply (irreflexivity rev_lt) in Hlt.
Qed.

(** The closure appends the events of the key inside the window. *)
Lemma getRevs_window s e out ki : wf ki -> getRevs s e out ki = out ++ window s e (abs ki).
Proof.
  intros Hwf. pose proof (fun g => NoDup_revs _ g (wf_sorted _ Hwf)) as Hnd. clear Hwf.
  unfold getRevs, abs. destruct (generations ki) as [|last_g gs] using rev_ind.
  { simpl. by rewrite app_nil_r. }
  rewrite imap_pair_snoc, foldl_app, abs_gens_snoc, window_app. cbn [foldl].
  rewrite length_app. simpl. rewrite (proj2 (Nat.ltb_ge _ _)) by lia.
  rewrite (walk_window false) by (apply Hnd, elem_of_app; right; left). rewrite app_assoc. f_equal. clear IHgs.
  assert (forall pre post out, gs = pre ++ post ->
    foldl (fun out p => let '(i, g) := (p : nat * generation) in
      let genComplete := (i <? length gs + 1 - 1)%nat in
      (walk (fun out rev => ((if (s <? Main rev) && (Main rev <? e)
         then out ++ [mkBK rev (genComplete && bool_decide (last (revs g) = Some rev))] else out), None)) out g).1)
      out (imap (fun i => pair (length pre + i)%nat) post) = out ++ window s e (mjoin (gen_events true <$> post))) as Hgo.
  { intros pre post. revert pre. induction post as [|g post IH]; intros pre out' E; [simpl; by rewrite app_nil_r|].
    cbn [imap foldl]. rewrite (proj2 (Nat.ltb_lt _ _)) by (rewrite E, length_app; simpl; lia).
    rewrite (walk_window true) by (apply Hnd; rewrite E; set_solver).
    cbn [fmap list_fmap mjoin list_join]. rewrite window_app, app_assoc.
    rewrite <-(IH (pre ++ [g])) by (by rewrite <-app_assoc). f_equal. apply imap_ext. intros i x _. simpl.
    f_equal. rewrite length_app. simpl. lia. }
  exact (Hgo [] gs out eq_refl).
Qed.

Section Tree.
Context {T : Type} {BT : BTree Less T}.

(** The items a query visits, in order. *)
Definition queried (k : bytes) (end_ : option bytes) (ti : T) : list keyIndex :=
  match end_, (length k =? 0)%nat with
  | None, false => from_option (fun ki => [ki]) [] (keyIndex_of k ti)
  | _, _ => items_in k end_ ti
  end.

Lemma queried_ok k end_ ti : ti_wf ti -> Forall item_ok (queried k end_ ti).
Proof.
  intros H. unfold queried. destruct end_, (length k =? 0)%nat; try by apply items_in_ok.
  unfold keyIndex_of. rewrite bt_Get_find. simpl. destruct (find_key key k (bt_Items ti)) as [ki|] eqn:E; [|constructor].
  constructor; [|constructor]. by apply (find_item_ok ti k ki).
Qed.

Lemma queried_hist k end_ ti ki e :
  ti_wf ti -> ki ∈ queried k end_ ti -> e ∈ abs ki -> selects k end_ (key ki) = true /\ e ∈ hist ti (key ki).
Proof.
  intros H Hki He. unfold queried, selects in *. destruct end_ as [en|], (length k =? 0)%nat;
    try (apply list_elem_of_filter in Hki as [Hr Hki]; split; [done|]; unfold hist;
         by rewrite (find_key_elem key) by (apply H || done)).
  unfold keyIndex_of in Hki. rewrite bt_Get_find in Hki. simpl in Hki.
  destruct (find_key key k (bt_Items ti)) as [ki'|] eqn:E; [|by apply not_elem_of_nil in Hki].
  apply list_elem_of_singleton in Hki as ->. pose proof E as [_ Hk]%find_key_Some. rewrite Hk.
  rewrite bool_decide_eq_true_2 by done. split; [done|]. unfold hist. by rewrite E.
Qed.

(** The revisions in (s, e) of the keys in the range, key after key. *)
Lemma RevisionsRange_window k end_ s e ti :
  ti_wf ti -> RevisionsRange k end_ s e ti = Ok (mjoin ((window s e ∘ abs) <$> queried k end_ ti)).
Proof.
  intros H. unfold RevisionsRange.
  assert (forall l out, Forall item_ok l ->
    iterate (fun out ki => Ok (getRevs s e out ki, true)) out l = Ok (out ++ mjoin ((window s e ∘ abs) <$> l))) as Hit.
  { induction l as [|ki l IH]; intros out Hl; [simpl; by rewrite app_nil_r|].
    apply Forall_cons in Hl as [[Hwf _] Hl]. cbn [iterate]. rewrite getRevs_window, IH by done.
    cbn [fmap list_fmap mjoin list_join compose]. by rewrite app_assoc. }
  destruct (Z.ltb_spec e s) as [Hlt|Hge].
  { assert (forall l, mjoin ((window s e ∘ abs) <$> l) = []) as ->; [|done].
    induction l as [|ki l IH]; [done|]. change (window s e (abs ki) ++ mjoin ((window s e ∘ abs) <$> l) = []).
    rewrite IH, app_nil_r. apply filter_none, Forall_forall. intros bk _. unfold in_window. lia. }
  pose proof (queried_ok k end_ ti H) as Hq. unfold queried in *.
  destruct end_ as [en|], (length k =? 0)%nat; simpl;
    try (rewrite unsafeVisit_spec by (done || (by intros ???? [= _ <-])); by rewrite Hit).
  destruct (keyIndex_of k ti) as [ki|]; [|done]. simpl in *. inversion Hq as [|?? [Hwf _]]; subst.
  by rewrite getRevs_window, app_nil_r by done.
Qed.

(** A listed bucket key is the key of an event of a selected key, inside the window. *)
Lemma RevisionsRange_elem k end_ s e ti bks bk :
  ti_wf ti -> RevisionsRange k end_ s e ti = Ok bks -> bk ∈ bks ->
  exists x ev, selects k end_ x = true /\ ev ∈ hist ti x /\ bk = event_key ev /\ in_window s e bk.
Proof.
  intros H. rewrite RevisionsRange_window by done. intros [= <-].
  intros (l & Hbk & Hl)%list_elem_of_join. apply list_elem_of_fmap in Hl as (ki & -> & Hki).
  apply list_elem_of_filter in Hbk as [Hin (ev & -> & Hev)%list_elem_of_fmap].
  destruct (queried_hist _ _ _ _ _ H Hki Hev). by exists (key ki), ev.
Qed.

(** For a single key: its history inside the window, in order. *)
Lemma RevisionsRange_single k s e ti :
  ti_wf ti -> k <> [] -> RevisionsRange k None s e ti = Ok (window s e (hist ti k)).
Proof.
  intros H Hk. rewrite RevisionsRange_window by done. unfold queried.
  destruct (Nat.eqb_spec (length k) 0) as [E|_]; [by apply nil_length_inv in E|].
  unfold keyIndex_of, hist. rewrite bt_Get_find. simpl. destruct (find_key key k (bt_Items ti)); [|done].
  simpl. by rewrite app_nil_r.
Qed.
End Tree.
