(* ===== verification/Storage.v ===== *)
(** Storage interfaces: [internal/storage/types.go], the write collector
    [bytestore/write_collector.go], the schema constants, and the contract of
    [bytestore.ByteStore] and [bytestore.Batch] as a class: what a store promises to
    the transactions built on it. A nil byte slice is [None]. *)

From S2P Require Import Prelude OrdTree.
From Stdlib Require Import ZArith Lia.
From stdpp Require Import base gmap sets list strings sorting.
Open Scope Z_scope.

(** ** internal/storage/types.go, internal/schema *)

Abbreviation Bucket := string.
Abbreviation value := (option bytes).

Record CommitInfo := mkCI { DeletedKeys : Z; NewKeys : Z }.

Inductive StorageKind := StorageKindInMemory | StorageKindBoltdb | StorageKindOther (s : string).
#[export] Instance StorageKind_eq_dec : EqDecision StorageKind.
Proof. solve_decision. Defined.

Record StorageOptions := mkSO { so_Dir : string; so_Kind : StorageKind; so_InitialBuckets : list Bucket }.

Definition StorageOptions_Check (o : StorageOptions) : option error :=
  if String.eqb (so_Dir o) EmptyString then Some (errMsg "data dir is required")
  else match so_Kind o with
       | StorageKindBoltdb | StorageKindInMemory => None
       | StorageKindOther _ => Some (errMsg "unrecognised storage kind")
       end.

(** [[]byte("...")] of an ASCII literal. *)
Definition str_bytes (s : string) : bytes := String.list_byte_of_string s.

Definition BucketKV : Bucket := "kv".
Definition BucketMeta : Bucket := "_meta".
Definition BucketLease : Bucket := "lease".
Definition BucketOT : Bucket := "ot".

Definition KeyRaftApplyIndex : bytes := str_bytes "consistent_index".
Definition KeyRaftTerm : bytes := str_bytes "term".
Definition KeyCurrentRevision : bytes := str_bytes "current_revision".
Definition KeyScheduledCompactedRev : bytes := str_bytes "scheduled_compacted_rev".
Definition KeyFinishedCompactedRev : bytes := str_bytes "finished_compacted_rev".
Definition KeyOTBlob : bytes := str_bytes "blob".
Definition KeyOTClusterKey : bytes := str_bytes "cluster_key".
Definition AllBuckets : list Bucket := [BucketKV; BucketMeta; BucketLease; BucketOT].

(** ** bytestore/write_collector.go *)

Record WriteCollector := mkWC {
  puts : gmap Bucket (gmap bytes value);
  deletes : gmap Bucket (gset bytes) }.

Definition NewWriteCollector : WriteCollector := mkWC ∅ ∅.

Definition RecordPut (bucket : Bucket) (k : bytes) (v : value) (bc : WriteCollector)
  : WriteCollector :=
  let puts' := match puts bc !! bucket with Some _ => puts bc | None => <[bucket := ∅]> (puts bc) end in
  mkWC (alter (<[k := v]>) bucket puts')
       (match deletes bc !! bucket with
        | Some _ => alter (fun d => d ∖ {[ k ]}) bucket (deletes bc)
        | None => deletes bc
        end).

Definition RecordDelete (bucket : Bucket) (k : bytes) (bc : WriteCollector) : WriteCollector :=
  let deletes' := match deletes bc !! bucket with
                  | Some _ => deletes bc | None => <[bucket := ∅]> (deletes bc) end in
  mkWC (match puts bc !! bucket with
        | Some _ => alter (delete k) bucket (puts bc)
        | None => puts bc
        end)
       (alter (fun d => {[ k ]} ∪ d) bucket deletes').

Definition Puts (bc : WriteCollector) := puts bc.
Definition Deletes (bc : WriteCollector) := deletes bc.
Definition Reset (bc : WriteCollector) : WriteCollector := mkWC ∅ ∅.

(** ** Contents of a store, and what a collector does to them *)

Abbreviation contents := (gmap Bucket (gmap bytes value)).

Definition c_put (bucket : Bucket) (k : bytes) (v : value) (c : contents) : contents :=
  alter (<[k := v]>) bucket c.
Definition c_del (bucket : Bucket) (k : bytes) (c : contents) : contents :=
  alter (delete k) bucket c.

Definition wc_bucket (wc : WriteCollector) (bucket : Bucket) (m : gmap bytes value) : gmap bytes value :=
  default ∅ (puts wc !! bucket)
    ∪ filter (fun kv => kv.1 ∉ default ∅ (deletes wc !! bucket)) m.

Definition wc_apply (wc : WriteCollector) (c : contents) : contents :=
  map_imap (fun b m => Some (wc_bucket wc b m)) c.

Definition wc_buckets (wc : WriteCollector) : gset Bucket := dom (puts wc) ∪ dom (deletes wc).

Lemma lookup_wc_apply wc c b : wc_apply wc c !! b = wc_bucket wc b <$> c !! b.
Proof. unfold wc_apply. rewrite map_lookup_imap. by destruct (c !! b). Qed.

Lemma lookup_wc_bucket wc b m k :
  wc_bucket wc b m !! k =
    match default ∅ (puts wc !! b) !! k with
    | Some v => Some v
    | None => if bool_decide (k ∈ default (∅ : gset bytes) (deletes wc !! b)) then None else m !! k
    end.
Proof.
  unfold wc_bucket. rewrite lookup_union. destruct (default ∅ (puts wc !! b) !! k) as [v|].
  - by destruct (filter _ m !! k).
  - rewrite (left_id_L None (∪) (filter _ m !! k)). case_bool_decide as Hk.
    + apply map_lookup_filter_None. right. intros v _ H. by apply H.
    + destruct (m !! k) as [v|] eqn:E.
      * by apply map_lookup_filter_Some.
      * apply map_lookup_filter_None. by left.
Qed.

Lemma puts_RecordPut b k v wc b' :
  default ∅ (puts (RecordPut b k v wc) !! b') =
    if bool_decide (b' = b) then <[k := v]> (default ∅ (puts wc !! b)) else default ∅ (puts wc !! b').
Proof.
  unfold RecordPut. cbn [puts]. case_bool_decide as E; [subst b'|].
  - rewrite lookup_alter_eq. destruct (puts wc !! b) eqn:Eb; [by rewrite Eb|].
    by rewrite lookup_insert_eq.
  - rewrite lookup_alter_ne by done. destruct (puts wc !! b); [done|].
    by rewrite lookup_insert_ne.
Qed.

Lemma deletes_RecordPut b k v wc b' :
  default ∅ (deletes (RecordPut b k v wc) !! b') =
    if bool_decide (b' = b) then default ∅ (deletes wc !! b) ∖ {[ k ]} else default ∅ (deletes wc !! b').
Proof.
  unfold RecordPut. cbn [deletes]. case_bool_decide as E; [subst b'|].
  - destruct (deletes wc !! b) eqn:Eb; [by rewrite lookup_alter_eq, Eb|]. rewrite Eb. simpl. set_solver.
  - destruct (deletes wc !! b); [|done]. by rewrite lookup_alter_ne.
Qed.

Lemma puts_RecordDelete b k wc b' :
  default ∅ (puts (RecordDelete b k wc) !! b') =
    if bool_decide (b' = b) then delete k (default ∅ (puts wc !! b)) else default ∅ (puts wc !! b').
Proof.
  unfold RecordDelete. cbn [puts]. case_bool_decide as E; [subst b'|].
  - destruct (puts wc !! b) eqn:Eb; [by rewrite lookup_alter_eq, Eb|]. rewrite Eb. simpl. by rewrite delete_empty.
  - destruct (puts wc !! b); [|done]. by rewrite lookup_alter_ne.
Qed.

Lemma deletes_RecordDelete b k wc b' :
  default ∅ (deletes (RecordDelete b k wc) !! b') =
    if bool_decide (b' = b) then {[ k ]} ∪ default ∅ (deletes wc !! b) else default ∅ (deletes wc !! b').
Proof.
  unfold RecordDelete. cbn [deletes]. case_bool_decide as E; [subst b'|].
  - rewrite lookup_alter_eq. destruct (deletes wc !! b) eqn:Eb; [by rewrite Eb|].
    by rewrite lookup_insert_eq.
  - rewrite lookup_alter_ne by done. destruct (deletes wc !! b); [done|].
    by rewrite lookup_insert_ne.
Qed.

(** Recording a mutation and applying the collector is applying the collector and
    then the mutation: the last one recorded for a key wins. *)
Lemma wc_apply_put b k v wc c : wc_apply (RecordPut b k v wc) c = c_put b k v (wc_apply wc c).
Proof.
  apply map_eq. intros b'. unfold c_put. rewrite lookup_wc_apply.
  destruct (decide (b' = b)) as [->|Hb].
  - rewrite lookup_alter_eq, lookup_wc_apply. destruct (c !! b) as [m|]; [|done]. simpl. f_equal.
    apply map_eq. intros k'. rewrite lookup_wc_bucket, puts_RecordPut, deletes_RecordPut.
    rewrite !bool_decide_eq_true_2 by done. destruct (decide (k' = k)) as [->|Hk].
    + by rewrite !lookup_insert_eq.
    + rewrite !lookup_insert_ne by done. rewrite lookup_wc_bucket.
      destruct (default ∅ (puts wc !! b) !! k'); [done|].
      rewrite (bool_decide_ext _ (k' ∈ default ∅ (deletes wc !! b))) by set_solver. done.
  - rewrite lookup_alter_ne, lookup_wc_apply by done. destruct (c !! b') as [m|]; [|done]. simpl.
    f_equal. unfold wc_bucket. rewrite puts_RecordPut, deletes_RecordPut.
    by rewrite !bool_decide_eq_false_2.
Qed.

Lemma wc_apply_del b k wc c : wc_apply (RecordDelete b k wc) c = c_del b k (wc_apply wc c).
Proof.
  apply map_eq. intros b'. unfold c_del. rewrite lookup_wc_apply.
  destruct (decide (b' = b)) as [->|Hb].
  - rewrite lookup_alter_eq, lookup_wc_apply. destruct (c !! b) as [m|]; [|done]. simpl. f_equal.
    apply map_eq. intros k'. rewrite lookup_wc_bucket, puts_RecordDelete, deletes_RecordDelete.
    rewrite !(bool_decide_eq_true_2 (b = b)) by done. destruct (decide (k' = k)) as [->|Hk].
    + rewrite !lookup_delete_eq. by rewrite bool_decide_eq_true_2 by set_solver.
    + rewrite !lookup_delete_ne by done. rewrite lookup_wc_bucket.
      destruct (default ∅ (puts wc !! b) !! k'); [done|].
      rewrite (bool_decide_ext _ (k' ∈ default ∅ (deletes wc !! b))) by set_solver. done.
  - rewrite lookup_alter_ne, lookup_wc_apply by done. destruct (c !! b') as [m|]; [|done]. simpl.
    f_equal. unfold wc_bucket. rewrite puts_RecordDelete, deletes_RecordDelete.
    by rewrite !bool_decide_eq_false_2.
Qed.

Lemma wc_apply_new c : wc_apply NewWriteCollector c = c.
Proof.
  apply map_eq. intros b. rewrite lookup_wc_apply. destruct (c !! b) as [m|]; [|done]. simpl. f_equal.
  apply map_eq. intros k. rewrite lookup_wc_bucket. simpl. rewrite !lookup_empty. simpl.
  by rewrite lookup_empty, bool_decide_eq_false_2 by set_solver.
Qed.

Lemma wc_buckets_put b k v wc : wc_buckets (RecordPut b k v wc) = {[ b ]} ∪ wc_buckets wc.
Proof.
  unfold wc_buckets, RecordPut. cbn [puts deletes].
  destruct (puts wc !! b) eqn:E1, (deletes wc !! b) eqn:E2; rewrite ?dom_alter_L, ?dom_insert_L;
    try (assert (b ∈ dom (puts wc)) by (by apply elem_of_dom));
    try (assert (b ∈ dom (deletes wc)) by (by apply elem_of_dom)); set_solver.
Qed.

Lemma wc_buckets_del b k wc : wc_buckets (RecordDelete b k wc) = {[ b ]} ∪ wc_buckets wc.
Proof.
  unfold wc_buckets, RecordDelete. cbn [puts deletes].
  destruct (puts wc !! b) eqn:E1, (deletes wc !! b) eqn:E2; rewrite ?dom_alter_L, ?dom_insert_L;
    try (assert (b ∈ dom (puts wc)) by (by apply elem_of_dom));
    try (assert (b ∈ dom (deletes wc)) by (by apply elem_of_dom)); set_solver.
Qed.

(** ** bytestore/bytestore.go, bytestore/batch.go: the storage contract *)

(** The operations the transaction layer uses. [bs_Scan] lists the pairs [Scan]
    passes to its callback, in order. A commit closes its batch; it may fail. *)
Class ByteStore (St B : Type) := {
  bs_Get : Bucket -> bytes -> St -> res value;
  bs_Scan : Bucket -> St -> res (list (bytes * value));
  bs_NewBatch : St -> res B;
  ba_Put : Bucket -> bytes -> value -> B -> B * option error;
  ba_Delete : Bucket -> bytes -> B -> B * option error;
  ba_Commit : B -> St -> St * B * res CommitInfo;
  ba_Abort : B -> B;
  (* what the operations mean *)
  bs_ok : St -> Prop;
  bs_view : St -> contents;
  ba_open : B -> Prop;
  ba_apply : B -> contents -> contents;
  ba_buckets : B -> gset Bucket;
  bs_Get_view : forall b k s, bs_ok s ->
    match bs_view s !! b with
    | Some m => bs_Get b k s = Ok (mjoin (m !! k))
    | None => exists e, bs_Get b k s = Err e
    end;
  bs_Scan_view : forall b s, bs_ok s ->
    match bs_view s !! b with
    | Some m => exists l, bs_Scan b s = Ok l /\ key_sorted fst l /\ list_to_map l = m
    | None => exists e, bs_Scan b s = Err e
    end;
  bs_NewBatch_view : forall s, bs_ok s ->
    exists b, bs_NewBatch s = Ok b /\ ba_open b /\ ba_buckets b = ∅ /\ forall c, ba_apply b c = c;
  ba_Put_view : forall b k v ba, ba_open ba ->
    if bool_decide (k = []) then exists e, ba_Put b k v ba = (ba, Some e)
    else exists ba', ba_Put b k v ba = (ba', None) /\ ba_open ba' /\
           ba_buckets ba' = {[ b ]} ∪ ba_buckets ba /\
           forall c, ba_apply ba' c = c_put b k v (ba_apply ba c);
  ba_Delete_view : forall b k ba, ba_open ba ->
    if bool_decide (k = []) then exists e, ba_Delete b k ba = (ba, Some e)
    else exists ba', ba_Delete b k ba = (ba', None) /\ ba_open ba' /\
           ba_buckets ba' = {[ b ]} ∪ ba_buckets ba /\
           forall c, ba_apply ba' c = c_del b k (ba_apply ba c);
  ba_Commit_view : forall ba s, bs_ok s -> ba_open ba -> ba_buckets ba ⊆ dom (bs_view s) ->
    match ba_Commit ba s with
    | (s', _, Ok _) => bs_ok s' /\ bs_view s' = ba_apply ba (bs_view s)
    | (s', _, Err _) => bs_ok s' /\ bs_view s' = bs_view s
    | (_, _, Panicked) => False
    end }.
