(* ===== verification/Inmem.v ===== *)
(** The in-memory store: [internal/storage/bytestore/inmem] (btree.go, batch.go,
    store.go, codec.go), over the ordered trees of OrdTree. It is shown to meet the
    [ByteStore] contract; the mutexes are not modelled (each method holds them). *)

From S2P Require Import Prelude OrdTree Storage.
From Stdlib Require Import ZArith Lia.
From stdpp Require Import base gmap sets list strings sorting.
Open Scope Z_scope.

(** ** The code *)

Record Item := mkItem { it_Key : bytes; it_Value : value }.

#[export] Instance Item_eq_dec : EqDecision Item.
Proof. solve_decision. Defined.

Definition item_less (i than : Item) : bool := bytes_ltb (it_Key i) (it_Key than).

Record InmemStore (T : Type) := mkStore { buckets : gmap Bucket T; sz : Z }.
Arguments mkStore {T} _ _.
Arguments buckets {T} _.
Arguments sz {T} _.

Record inmemBatch := mkBatch { closed : bool; wc : WriteCollector }.

Section Inmem.
Context {T : Type} {BT : BTree item_less T}.
Abbreviation store := (InmemStore T).

Definition NewStore (opts : StorageOptions) : res store :=
  if bool_decide (so_Kind opts = StorageKindInMemory)
  then Ok (mkStore (foldl (fun m b => <[b := bt_NewG]> m) ∅ (so_InitialBuckets opts)) 0)
  else Panicked.

Definition unsafeGet (bucket : Bucket) (k : bytes) (s : store) : res value :=
  match buckets s !! bucket with
  | None => Err [ErrBucketNotFound]
  | Some tree =>
      match bt_Get (mkItem k None) tree with
      | None => Ok None
      | Some item => Ok (it_Value item)
      end
  end.

Definition unsafePut (bucket : Bucket) (k : bytes) (v : value) : M store value := fun s =>
  if (length k =? 0)%nat then (s, Err [ErrEmptyKey])
  else
    match buckets s !! bucket with
    | None => (s, Err [ErrBucketNotFound])
    | Some tree =>
        let '(tree', old) := bt_ReplaceOrInsert (mkItem k v) tree in
        (mkStore (<[bucket := tree']> (buckets s)) (sz s),
         Ok match old with Some o => it_Value o | None => None end)
    end.

Definition unsafeDelete (bucket : Bucket) (k : bytes) : M store value := fun s =>
  match buckets s !! bucket with
  | None => (s, Err [ErrBucketNotFound])
  | Some tree =>
      let '(tree', old) := bt_Delete (mkItem k None) tree in
      (mkStore (<[bucket := tree']> (buckets s)) (sz s),
       Ok match old with Some o => it_Value o | None => None end)
  end.

Definition Get (bucket : Bucket) (k : bytes) (s : store) : res value := unsafeGet bucket k s.
Definition Put (bucket : Bucket) (k : bytes) (v : value) : M store value := unsafePut bucket k v.
Definition Delete (bucket : Bucket) (k : bytes) : M store value := unsafeDelete bucket k.

Definition item_pair (i : Item) : bytes * value := (it_Key i, it_Value i).

(** The callbacks of the scans thread a state and return whether to go on. *)
Definition PrefixScan {S} (bucket : Bucket) (prefix : bytes)
    (f : S -> bytes -> value -> S * bool) (a : S) (s : store) : res S :=
  match buckets s !! bucket with
  | None => Err [ErrBucketNotFound]
  | Some tree =>
      iterate (fun a item =>
        if bool_decide (prefix `prefix_of` it_Key item)
        then Ok (f a (it_Key item) (it_Value item))
        else Ok (a, false)) a (bt_ItemsFrom (mkItem prefix None) tree)
  end.

Definition Scan {S} (bucket : Bucket) (op : S -> bytes -> value -> S * bool) (a : S) (s : store)
  : res S :=
  match buckets s !! bucket with
  | None => Err [ErrBucketNotFound]
  | Some tree => iterate (fun a item => Ok (op a (it_Key item) (it_Value item))) a (bt_Items tree)
  end.

(** The pairs a full scan visits. *)
Definition scan_items (bucket : Bucket) (s : store) : res (list (bytes * value)) :=
  Scan bucket (fun out k v => (out ++ [(k, v)], true)) [] s.

Definition newBatch : inmemBatch := mkBatch false NewWriteCollector.
Definition NewBatch (s : store) : res inmemBatch := Ok newBatch.

Definition batch_Put (bucket : Bucket) (k : bytes) (v : value) (b : inmemBatch)
  : inmemBatch * option error :=
  if closed b then (b, Some [ErrBatchClosed])
  else if (length k =? 0)%nat then (b, Some [ErrEmptyKey])
  else (mkBatch false (RecordPut bucket k v (wc b)), None).

Definition batch_Delete (bucket : Bucket) (k : bytes) (b : inmemBatch)
  : inmemBatch * option error :=
  if closed b then (b, Some [ErrBatchClosed])
  else if (length k =? 0)%nat then (b, Some [ErrEmptyKey])
  else (mkBatch false (RecordDelete bucket k (wc b)), None).

Definition len_value (v : value) : Z := Z.of_nat (length (default [] v)).

(** The two loops of Commit over an enumeration of the collector's maps; the
    accumulator is (totalDelta, info). *)
Fixpoint commit_deletes (l : list (Bucket * bytes)) (acc : Z * CommitInfo) : M store (Z * CommitInfo) :=
  match l with
  | [] => mret acc
  | (bucket, k) :: rest =>
      unsafeDelete bucket k ≫= fun old =>
      commit_deletes rest
        match old with
        | Some o => (acc.1 - Z.of_nat (length o), mkCI (DeletedKeys acc.2 + 1) (NewKeys acc.2))
        | None => acc
        end
  end.

Fixpoint commit_puts (l : list (Bucket * bytes * value)) (acc : Z * CommitInfo)
  : M store (Z * CommitInfo) :=
  match l with
  | [] => mret acc
  | (bucket, k, v) :: rest =>
      unsafePut bucket k v ≫= fun old =>
      commit_puts rest
        match old with
        | Some o => (acc.1 + (Z.of_nat (length o) - len_value v), acc.2)
        | None => (acc.1 + len_value v, mkCI (DeletedKeys acc.2) (NewKeys acc.2 + 1))
        end
  end.

(** Commit when Go's random map iteration enumerates the deletes as [dels] and the
    puts as [ps]. *)
Definition Commit_in (dels : list (Bucket * bytes)) (ps : list (Bucket * bytes * value))
    (b : inmemBatch) (s : store) : store * inmemBatch * res CommitInfo :=
  if closed b then (s, b, Err [ErrBatchClosed])
  else
    let b' := mkBatch true (wc b) in
    match (commit_deletes dels (0, mkCI 0 0) ≫= commit_puts ps) s with
    | (s', Ok (totalDelta, info)) => (mkStore (buckets s') (sz s' + totalDelta), b', Ok info)
    | (s', Err e) => (s', b', Err e)
    | (s', Panicked) => (s', b', Panicked)
    end.

Definition all_deletes (w : WriteCollector) : list (Bucket * bytes) :=
  map_to_list (Deletes w) ≫= fun '(b, ks) => (fun k => (b, k)) <$> elements ks.
Definition all_puts (w : WriteCollector) : list (Bucket * bytes * value) :=
  map_to_list (Puts w) ≫= fun '(b, kvs) => (fun '(k, v) => (b, k, v)) <$> map_to_list kvs.

Definition Commit (b : inmemBatch) (s : store) : store * inmemBatch * res CommitInfo :=
  Commit_in (all_deletes (wc b)) (all_puts (wc b)) b s.

Definition Abort (b : inmemBatch) : inmemBatch :=
  if closed b then b else mkBatch true (Reset (wc b)).

Definition SizeBytes (s : store) : Z := sz s.

Definition Defragment (s : store) : store :=
  mkStore ((fun t => foldl (fun c item => (bt_ReplaceOrInsert item c).1) bt_NewG (bt_Items t)) <$> buckets s)
    (foldr (fun bt n => foldl (fun n item => n + (Z.of_nat (length (it_Key item)) + len_value (it_Value item)))
                          n (bt_Items bt.2)) 0 (map_to_list (buckets s))).

Definition Close (s : store) : store := mkStore ((fun _ => bt_NewG) <$> buckets s) (sz s).

Definition Ping (s : store) : option error := None.

(** ** Contents of the store *)

Definition tree_map (l : list Item) : gmap bytes value := list_to_map (item_pair <$> l).
Definition store_view (s : store) : contents := (fun t => tree_map (bt_Items t)) <$> buckets s.
Definition store_ok (s : store) : Prop :=
  map_Forall (fun _ t => key_sorted it_Key (bt_Items t)) (buckets s).

Lemma lookup_tree_map l k : tree_map l !! k = it_Value <$> find_key it_Key k l.
Proof.
  unfold tree_map, find_key. induction l as [|i l IH]; [done|].
  rewrite fmap_cons, filter_cons. cbn [list_to_map foldr item_pair].
  change (foldr _ _ _) with (list_to_map (M := gmap bytes value) (item_pair <$> l)).
  case_decide as E.
  - subst k. by rewrite lookup_insert_eq.
  - rewrite lookup_insert_ne by done. exact IH.
Qed.

Lemma tree_map_insert x l :
  key_sorted it_Key l -> tree_map (ref_insert item_less x l) = <[it_Key x := it_Value x]> (tree_map l).
Proof.
  intros Hs. apply map_eq. intros k. rewrite lookup_tree_map.
  change item_less with (key_less it_Key). rewrite (find_insert it_Key) by done.
  case_bool_decide as E; [subst; by rewrite lookup_insert_eq|].
  by rewrite lookup_insert_ne, lookup_tree_map.
Qed.

Lemma tree_map_delete x l :
  key_sorted it_Key l -> tree_map (ref_delete item_less x l) = delete (it_Key x) (tree_map l).
Proof.
  intros Hs. apply map_eq. intros k. rewrite lookup_tree_map.
  change item_less with (key_less it_Key). rewrite (find_delete it_Key) by done.
  case_bool_decide as E; [subst; by rewrite lookup_delete_eq|].
  by rewrite lookup_delete_ne, lookup_tree_map.
Qed.

Lemma lookup_store_view s b : store_view s !! b = (fun t => tree_map (bt_Items t)) <$> buckets s !! b.
Proof. apply lookup_fmap. Qed.

Lemma dom_store_view s : dom (store_view s) = dom (buckets s).
Proof. unfold store_view. by rewrite dom_fmap_L. Qed.

(** Replacing one tree. *)
Lemma store_view_upd s b t f n :
  store_view s !! b <> None -> tree_map (bt_Items t) = f (default ∅ (store_view s !! b)) ->
  store_view (mkStore (<[b := t]> (buckets s)) n) = alter f b (store_view s).
Proof.
  intros Hb Ht. apply map_eq. intros b'. rewrite lookup_store_view. cbn [buckets].
  destruct (decide (b' = b)) as [->|Hne].
  - rewrite lookup_insert_eq, lookup_alter_eq. destruct (store_view s !! b); [|done]. simpl.
    by rewrite Ht.
  - by rewrite lookup_insert_ne, lookup_alter_ne, lookup_store_view.
Qed.

Lemma store_ok_upd s b t n :
  store_ok s -> key_sorted it_Key (bt_Items t) -> store_ok (mkStore (<[b := t]> (buckets s)) n).
Proof. intros Hs Ht. by apply map_Forall_insert_2. Qed.

Lemma unsafePut_view b k v s :
  store_ok s -> k <> [] -> b ∈ dom (store_view s) ->
  exists s' old, unsafePut b k v s = (s', Ok old) /\ store_ok s' /\
    store_view s' = c_put b k v (store_view s).
Proof.
  intros Hs Hk Hb. unfold unsafePut. rewrite (proj2 (Nat.eqb_neq _ _)) by (by destruct k).
  rewrite dom_store_view in Hb. apply elem_of_dom in Hb as [t Ht]. rewrite Ht.
  assert (key_sorted it_Key (bt_Items t)) as Hst by (by eapply Hs).
  pose proof (bt_RoI_items (mkItem k v) t) as Hit.
  destruct (bt_ReplaceOrInsert (mkItem k v) t) as [t' old]. simpl in Hit.
  eexists _, _. split; [done|]. split.
  - apply store_ok_upd; [done|]. rewrite Hit. by apply (insert_sorted it_Key).
  - apply store_view_upd; rewrite lookup_store_view, Ht; [done|].
    rewrite Hit, tree_map_insert by done. done.
Qed.

Lemma unsafeDelete_view b k s :
  store_ok s -> b ∈ dom (store_view s) ->
  exists s' old, unsafeDelete b k s = (s', Ok old) /\ store_ok s' /\
    store_view s' = c_del b k (store_view s).
Proof.
  intros Hs Hb. unfold unsafeDelete.
  rewrite dom_store_view in Hb. apply elem_of_dom in Hb as [t Ht]. rewrite Ht.
  assert (key_sorted it_Key (bt_Items t)) as Hst by (by eapply Hs).
  pose proof (bt_Delete_items (mkItem k None) t) as Hit.
  destruct (bt_Delete (mkItem k None) t) as [t' old]. simpl in Hit.
  eexists _, _. split; [done|]. split.
  - apply store_ok_upd; [done|]. rewrite Hit. by apply (delete_sorted it_Key).
  - apply store_view_upd; rewrite lookup_store_view, Ht; [done|].
    rewrite Hit, tree_map_delete by done. done.
Qed.

Lemma dom_c_put (b : Bucket) (k : bytes) (v : value) (c : contents) : dom (c_put b k v c) = (dom c : gset Bucket).
Proof. apply dom_alter_L. Qed.
Lemma dom_c_del (b : Bucket) (k : bytes) (c : contents) : dom (c_del b k c) = (dom c : gset Bucket).
Proof. apply dom_alter_L. Qed.

Lemma commit_deletes_view l acc s :
  store_ok s -> Forall (fun p => p.1 ∈ dom (store_view s)) l ->
  exists s' acc', commit_deletes l acc s = (s', Ok acc') /\ store_ok s' /\
    store_view s' = foldl (fun c p => c_del p.1 p.2 c) (store_view s) l.
Proof.
  intros Hs Hl. revert s acc Hs Hl. induction l as [|[b k] l IH]; intros s acc Hs Hl; [by eexists _, _|].
  inversion Hl as [|? ? Hb Hl']; subst. simpl in Hb.
  destruct (unsafeDelete_view b k s Hs Hb) as (s1 & old & Hrun & Hs1 & Hv1).
  cbn [commit_deletes]. unfold mbind, M_bind. rewrite Hrun. cbn [foldl fst snd]. rewrite <-Hv1.
  apply IH; [done|]. rewrite Hv1. eapply Forall_impl; [exact Hl'|]. simpl.
  intros p. by rewrite dom_c_del.
Qed.

Lemma commit_puts_view l acc s :
  store_ok s -> Forall (fun p => p.1.1 ∈ dom (store_view s) /\ p.1.2 <> []) l ->
  exists s' acc', commit_puts l acc s = (s', Ok acc') /\ store_ok s' /\
    store_view s' = foldl (fun c p => c_put p.1.1 p.1.2 p.2 c) (store_view s) l.
Proof.
  intros Hs Hl. revert s acc Hs Hl. induction l as [|[[b k] v] l IH]; intros s acc Hs Hl; [by eexists _, _|].
  inversion Hl as [|? ? [Hb Hk] Hl']; subst. simpl in Hb, Hk.
  destruct (unsafePut_view b k v s Hs Hk Hb) as (s1 & old & Hrun & Hs1 & Hv1).
  cbn [commit_puts]. unfold mbind, M_bind. rewrite Hrun. cbn [foldl fst snd]. rewrite <-Hv1.
  apply IH; [done|]. rewrite Hv1. eapply Forall_impl; [exact Hl'|]. simpl.
  intros p. by rewrite dom_c_put.
Qed.

(** *** Any enumeration of the collector has the same effect *)

Lemma elem_all_deletes w b k : (b, k) ∈ all_deletes w <-> k ∈ default ∅ (deletes w !! b).
Proof.
  unfold all_deletes, Deletes. rewrite list_elem_of_bind. split.
  - intros ([b' ks] & Hin & Hm). apply list_elem_of_fmap in Hin as (k' & [= -> ->] & Hin).
    apply elem_of_map_to_list in Hm. rewrite Hm. simpl. by apply elem_of_elements.
  - intros Hk. destruct (deletes w !! b) as [ks|] eqn:E; [|set_solver].
    exists (b, ks). split; [|by apply elem_of_map_to_list].
    apply list_elem_of_fmap. exists k. split; [done|]. by apply elem_of_elements.
Qed.

Lemma elem_all_puts w b k v : (b, k, v) ∈ all_puts w <-> default ∅ (puts w !! b) !! k = Some v.
Proof.
  unfold all_puts, Puts. rewrite list_elem_of_bind. split.
  - intros ([b' kvs] & Hin & Hm). apply list_elem_of_fmap in Hin as ([k' v'] & [= -> -> ->] & Hin).
    apply elem_of_map_to_list in Hm. rewrite Hm. simpl. by apply elem_of_map_to_list.
  - intros Hk. destruct (puts w !! b) as [kvs|] eqn:E; [|done].
    exists (b, kvs). split; [|by apply elem_of_map_to_list].
    apply list_elem_of_fmap. exists (k, v). split; [done|]. by apply elem_of_map_to_list.
Qed.

Lemma fold_del_lookup (l : list (Bucket * bytes)) (b : Bucket) (c : contents) :
  foldl (fun c p => c_del p.1 p.2 c) c l !! b =
    filter (fun kv : bytes * value => (b, kv.1) ∉ l) <$> c !! b.
Proof.
  revert c. induction l as [|[b' k] l IH]; intros c; cbn [foldl].
  - destruct (c !! b) as [m|]; [|done]. simpl. f_equal. symmetry. apply map_filter_id.
    intros k v _. apply not_elem_of_nil.
  - rewrite IH. unfold c_del. simpl. destruct (decide (b' = b)) as [->|Hb].
    + rewrite lookup_alter_eq. destruct (c !! b) as [m|]; [|done]. simpl. f_equal.
      apply map_eq. intros k'. rewrite !map_lookup_filter. destruct (decide (k' = k)) as [->|Hk].
      * rewrite lookup_delete_eq. destruct (m !! k); [|done]. simpl.
        rewrite option_guard_False; [done|]. intros Hn. apply Hn. left.
      * rewrite lookup_delete_ne by done. destruct (m !! k'); [|done]. simpl.
        apply option_guard_iff. rewrite elem_of_cons. split; [naive_solver|tauto].
    + rewrite lookup_alter_ne by done. destruct (c !! b) as [m|]; [|done]. simpl. f_equal.
      apply map_filter_ext. intros k' v _. simpl. rewrite elem_of_cons. split; [naive_solver|tauto].
Qed.

Definition consistent (l : list (Bucket * bytes * value)) : Prop :=
  forall b k v v', (b, k, v) ∈ l -> (b, k, v') ∈ l -> v = v'.

Lemma fold_put_lookup (l : list (Bucket * bytes * value)) (b : Bucket) (k : bytes) (c : contents) (m : gmap bytes value) :
  consistent l -> c !! b = Some m ->
  exists m', foldl (fun c p => c_put p.1.1 p.1.2 p.2 c) c l !! b = Some m' /\
    (forall v, (b, k, v) ∈ l -> m' !! k = Some v) /\
    ((forall v, (b, k, v) ∉ l) -> m' !! k = m !! k).
Proof.
  intros Hcons Hc. revert Hcons. induction l as [|[[b' k'] v'] l IH] using rev_ind; intros Hcons.
  { exists m. split; [done|]. split; [by intros v ?%not_elem_of_nil|done]. }
  destruct IH as (m' & Hm' & Hin & Hout).
  { intros ? ? ? ? ? ?. eapply Hcons; apply elem_of_app; by left. }
  rewrite foldl_app. cbn [foldl]. unfold c_put at 1. cbn [fst snd].
  destruct (decide (b' = b)) as [->|Hb].
  - rewrite lookup_alter_eq, Hm'. eexists. split; [done|].
    destruct (decide (k' = k)) as [->|Hk].
    + rewrite lookup_insert_eq. split.
      * intros v Hv. f_equal. eapply Hcons; [|exact Hv]. apply elem_of_app. right. left.
      * intros Hno. destruct (Hno v'). apply elem_of_app. right. left.
    + rewrite lookup_insert_ne by done. split.
      * intros v [Hv|Hv%list_elem_of_singleton]%elem_of_app; [by apply Hin|congruence].
      * intros Hno. apply Hout. intros v Hv. apply (Hno v). apply elem_of_app. by left.
  - rewrite lookup_alter_ne by done. exists m'. split; [done|]. split.
    + intros v [Hv|Hv%list_elem_of_singleton]%elem_of_app; [by apply Hin|congruence].
    + intros Hno. apply Hout. intros v Hv. apply (Hno v). apply elem_of_app. by left.
Qed.

Lemma commit_effect (w : WriteCollector) (dels : list (Bucket * bytes)) (ps : list (Bucket * bytes * value)) (c : contents) :
  dels ≡ₚ all_deletes w -> ps ≡ₚ all_puts w ->
  foldl (fun c p => c_put p.1.1 p.1.2 p.2 c) (foldl (fun c p => c_del p.1 p.2 c) c dels) ps
  = wc_apply w c.
Proof.
  intros Hd Hp. assert (consistent ps) as Hcons.
  { intros b k v v'. rewrite Hp, !elem_all_puts. congruence. }
  apply map_eq. intros b. rewrite lookup_wc_apply. destruct (c !! b) as [m|] eqn:Ec.
  - assert (foldl (fun c p => c_del p.1 p.2 c) c dels !! b
            = Some (filter (fun kv : bytes * value => (b, kv.1) ∉ dels) m)) as Hdel
      by (by rewrite fold_del_lookup, Ec).
    destruct (fold_put_lookup ps b [] _ _ Hcons Hdel) as (m1 & Hm1 & _). rewrite Hm1. simpl. f_equal.
    apply map_eq. intros k. rewrite lookup_wc_bucket.
    destruct (fold_put_lookup ps b k _ _ Hcons Hdel) as (m2 & Hm2 & Hin & Hout).
    rewrite Hm1 in Hm2. injection Hm2 as <-.
    destruct (default ∅ (puts w !! b) !! k) as [v|] eqn:Ev.
    + apply Hin. by rewrite Hp, elem_all_puts.
    + rewrite Hout by (intros v; rewrite Hp, elem_all_puts; congruence).
      rewrite map_lookup_filter. destruct (m !! k) as [v|]; simpl; [|by case_bool_decide].
      case_bool_decide as Hk.
      * rewrite option_guard_False; [done|]. rewrite Hd, elem_all_deletes. tauto.
      * destruct (decide ((b, k) ∉ dels)) as [?|Hn]; [by rewrite option_guard_True|].
        destruct Hn. by rewrite Hd, elem_all_deletes.
  - assert (forall l c, c !! b = None -> foldl (fun c p => c_put p.1.1 p.1.2 p.2 c) c l !! b = None) as Hn.
    { induction l as [|[[b' k'] v'] l IH]; intros c' Hc'; [done|]. cbn [foldl]. apply IH.
      unfold c_put. simpl. destruct (decide (b' = b)) as [->|?];
        [by rewrite lookup_alter_eq, Hc'|by rewrite lookup_alter_ne]. }
    rewrite Hn; [done|]. by rewrite fold_del_lookup, Ec.
Qed.

(** ** The store meets the storage contract *)

Definition batch_open (b : inmemBatch) : Prop :=
  closed b = false /\ forall bk k v, default ∅ (puts (wc b) !! bk) !! k = Some v -> k <> [].

Lemma batch_Put_view bk k v b :
  batch_open b ->
  if bool_decide (k = []) then exists e, batch_Put bk k v b = (b, Some e)
  else exists b', batch_Put bk k v b = (b', None) /\ batch_open b' /\
         wc_buckets (wc b') = {[ bk ]} ∪ wc_buckets (wc b) /\
         forall c, wc_apply (wc b') c = c_put bk k v (wc_apply (wc b) c).
Proof.
  intros [Hc Hk]. unfold batch_Put. rewrite Hc. case_bool_decide as E; [subst; simpl; eauto|].
  rewrite (proj2 (Nat.eqb_neq _ _)) by (by destruct k). eexists. split; [done|].
  split_and!; [|apply wc_buckets_put|intros; apply wc_apply_put].
  split; [done|]. intros bk' k' v'. cbn [wc]. rewrite puts_RecordPut.
  case_bool_decide; [|apply Hk]. destruct (decide (k' = k)) as [->|?]; [done|].
  rewrite lookup_insert_ne by done. apply Hk.
Qed.

Lemma batch_Delete_view bk k b :
  batch_open b ->
  if bool_decide (k = []) then exists e, batch_Delete bk k b = (b, Some e)
  else exists b', batch_Delete bk k b = (b', None) /\ batch_open b' /\
         wc_buckets (wc b') = {[ bk ]} ∪ wc_buckets (wc b) /\
         forall c, wc_apply (wc b') c = c_del bk k (wc_apply (wc b) c).
Proof.
  intros [Hc Hk]. unfold batch_Delete. rewrite Hc. case_bool_decide as E; [subst; simpl; eauto|].
  rewrite (proj2 (Nat.eqb_neq _ _)) by (by destruct k). eexists. split; [done|].
  split_and!; [|apply wc_buckets_del|intros; apply wc_apply_del].
  split; [done|]. intros bk' k' v'. cbn [wc]. rewrite puts_RecordDelete.
  case_bool_decide; [|apply Hk]. intros Hl. apply lookup_delete_Some in Hl as [_ Hl]. by eapply Hk.
Qed.

Lemma Commit_in_view dels ps b s :
  store_ok s -> batch_open b -> wc_buckets (wc b) ⊆ dom (store_view s) ->
  dels ≡ₚ all_deletes (wc b) -> ps ≡ₚ all_puts (wc b) ->
  exists s' info, Commit_in dels ps b s = (s', mkBatch true (wc b), Ok info) /\ store_ok s' /\
    store_view s' = wc_apply (wc b) (store_view s).
Proof.
  intros Hs [Hc Hk] Hb Hd Hp. unfold Commit_in. rewrite Hc. unfold mbind, M_bind.
  destruct (commit_deletes_view dels (0, mkCI 0 0) s Hs) as (s1 & acc & -> & Hs1 & Hv1).
  { apply Forall_forall. intros [b' k'] Hin. simpl. apply Hb. unfold wc_buckets.
    rewrite Hd, elem_all_deletes in Hin. apply elem_of_union_r, elem_of_dom.
    destruct (deletes (wc b) !! b'); [done|set_solver]. }
  destruct (commit_puts_view ps acc s1 Hs1) as (s2 & [d info] & -> & Hs2 & Hv2).
  { assert (dom (store_view s1) = dom (store_view s)) as Hdom.
    { rewrite Hv1. clear. generalize (store_view s). intros c. revert c.
      induction dels as [|p l IH]; intros c; [done|]. cbn [foldl]. by rewrite IH, dom_c_del. }
    apply Forall_forall. intros [[b' k'] v'] Hin. rewrite Hp, elem_all_puts in Hin. simpl.
    split; [|by eapply Hk]. rewrite Hdom. apply Hb. apply elem_of_union_l, elem_of_dom.
    by destruct (puts (wc b) !! b'). }
  exists (mkStore (buckets s2) (sz s2 + d)), info. split; [done|]. split; [exact Hs2|].
  change (store_view (mkStore (buckets s2) (sz s2 + d))) with (store_view s2).
  by rewrite Hv2, Hv1, (commit_effect (wc b)).
Qed.

Lemma scan_items_spec b s :
  scan_items b s = match buckets s !! b with
                   | None => Err [ErrBucketNotFound]
                   | Some t => Ok (item_pair <$> bt_Items t) end.
Proof.
  unfold scan_items, Scan. destruct (buckets s !! b) as [t|]; [|done].
  assert (forall l out, iterate (fun a item => Ok (a ++ [(it_Key item, it_Value item)], true)) out l
    = Ok (out ++ (item_pair <$> l))) as H.
  { induction l as [|i l IH]; intros out; simpl; [by rewrite app_nil_r|].
    by rewrite IH, <-app_assoc. }
  apply H.
Qed.

Lemma key_sorted_pairs l : key_sorted it_Key l -> key_sorted fst (item_pair <$> l).
Proof.
  unfold key_sorted. induction 1 as [|i l ? IH Hi]; [constructor|]. simpl. constructor; [done|].
  apply Forall_fmap. exact Hi.
Qed.

#[export] Program Instance inmem_bytestore : ByteStore store inmemBatch := {|
  bs_Get := Get;
  bs_Scan := scan_items;
  bs_NewBatch := NewBatch;
  ba_Put := batch_Put;
  ba_Delete := batch_Delete;
  ba_Commit := Commit;
  ba_Abort := Abort;
  bs_ok := store_ok;
  bs_view := store_view;
  ba_open := batch_open;
  ba_apply := fun b => wc_apply (wc b);
  ba_buckets := fun b => wc_buckets (wc b) |}.
Next Obligation.
  intros b k s Hs. unfold Get, unsafeGet. rewrite lookup_store_view.
  destruct (buckets s !! b) as [t|]; simpl; [|eauto].
  rewrite lookup_tree_map, bt_Get_items. change item_less with (key_less it_Key).
  rewrite (ref_get_find it_Key). simpl. by destruct (find_key it_Key k (bt_Items t)).
Qed.
Next Obligation.
  intros b s Hs. rewrite scan_items_spec, lookup_store_view.
  destruct (buckets s !! b) as [t|] eqn:E; simpl; [|eauto]. eexists. split; [done|].
  split; [|done]. apply key_sorted_pairs. by eapply Hs.
Qed.
Next Obligation.
  intros s Hs. exists newBatch. split; [done|]. split; [|split; [done|apply wc_apply_new]].
  split; [done|]. by intros bk k v H.
Qed.
Next Obligation. intros. by apply batch_Put_view. Qed.
Next Obligation. intros. by apply batch_Delete_view. Qed.
Next Obligation.
  intros b s Hs Hb Hsub. unfold Commit.
  by destruct (Commit_in_view (all_deletes (wc b)) (all_puts (wc b)) b s) as (s' & info & -> & ? & ?).
Qed.

(** The same store on a medium whose commits fail: also within the contract. *)
Program Definition failing_bytestore : ByteStore store inmemBatch := {|
  bs_Get := Get;
  bs_Scan := scan_items;
  bs_NewBatch := NewBatch;
  ba_Put := batch_Put;
  ba_Delete := batch_Delete;
  ba_Commit := fun b s => (s, mkBatch true (wc b), Err [ErrInternalStorageError]);
  ba_Abort := Abort;
  bs_ok := store_ok;
  bs_view := store_view;
  ba_open := batch_open;
  ba_apply := fun b => wc_apply (wc b);
  ba_buckets := fun b => wc_buckets (wc b) |}.
Next Obligation. intros b k s Hs. exact (bs_Get_view b k s Hs). Qed.
Next Obligation. intros b s Hs. exact (bs_Scan_view b s Hs). Qed.
Next Obligation. intros s Hs. exact (bs_NewBatch_view s Hs). Qed.
Next Obligation. intros. by apply batch_Put_view. Qed.
Next Obligation. intros. by apply batch_Delete_view. Qed.
Next Obligation. intros b s Hs Hb Hsub. done. Qed.

(** ** codec.go: snapshots *)

(** The values written to the gob stream, in order. Gob leaves out an empty slice of
    a struct, so an empty value is read back as nil. *)
Inductive token := TInt (n : Z) | TBucket (b : Bucket) | TItem (i : Item).

Definition gob_item (i : Item) : Item :=
  mkItem (it_Key i) match it_Value i with Some [] => None | v => v end.

Definition encodeTree (t : T) : list token :=
  TInt (bt_Len t) :: (TItem ∘ gob_item <$> bt_Items t).

(** [bs] is the order in which the map of buckets is enumerated. *)
Definition encode_in (bs : list (Bucket * T)) : list token :=
  TInt (Z.of_nat (length bs)) :: (bs ≫= fun p => TBucket p.1 :: encodeTree p.2).

Definition encode (s : store) : list token := encode_in (map_to_list (buckets s)).

Definition gob_error : error := errMsg "codec error".

Fixpoint decode_items (count : nat) (tree : T) (ts : list token) : res (T * list token) :=
  match count with
  | O => Ok (tree, ts)
  | S n =>
      match ts with
      | TItem i :: ts' => decode_items n (bt_ReplaceOrInsert i tree).1 ts'
      | _ => Err gob_error
      end
  end.

Definition decodeTree (ts : list token) : res (T * list token) :=
  match ts with
  | TInt count :: ts' => decode_items (Z.to_nat count) bt_NewG ts'
  | _ => Err gob_error
  end.

Fixpoint decode_buckets (n : nat) (acc : gmap Bucket T) (ts : list token) : res (gmap Bucket T) :=
  match n with
  | O => Ok acc
  | S n' =>
      match ts with
      | TBucket b :: ts' =>
          match decodeTree ts' with
          | Ok (t, rest) => decode_buckets n' (<[b := t]> acc) rest
          | Err e => Err e
          | Panicked => Panicked
          end
      | _ => Err gob_error
      end
  end.

Definition decode (ts : list token) : res (gmap Bucket T) :=
  match ts with
  | TInt n :: ts' => decode_buckets (Z.to_nat n) ∅ ts'
  | _ => Err gob_error
  end.

Definition WriteTo (s : store) : list token := encode s.

Definition ReadFrom (ts : list token) : M store unit := fun s =>
  match decode ts with
  | Ok bs => (mkStore bs (sz s), Ok tt)
  | Err e => (s, Err e)
  | Panicked => (s, Panicked)
  end.

(** *** Decoding what was encoded *)

Lemma insert_at_end x l :
  Forall (fun y => bytes_ltb (it_Key y) (it_Key x) = true) l -> ref_insert item_less x l = l ++ [x].
Proof.
  induction 1 as [|y l Hy _ IH]; [done|]. simpl. unfold item_less at 1 2. rewrite Hy, IH.
  destruct (bytes_ltb (it_Key x) (it_Key y)) eqn:E; [|done].
  pose proof (bytes_ltb_trans _ _ _ Hy E) as H. by rewrite bytes_ltb_irrefl in H.
Qed.

Lemma rebuild_items l (t : T) :
  key_sorted it_Key (bt_Items t ++ l) ->
  bt_Items (foldl (fun c item => (bt_ReplaceOrInsert item c).1) t l) = bt_Items t ++ l.
Proof.
  revert t. induction l as [|x l IH]; intros t Hs; simpl; [by rewrite app_nil_r|].
  assert (bt_Items (bt_ReplaceOrInsert x t).1 = bt_Items t ++ [x]) as E.
  { rewrite bt_RoI_items. apply insert_at_end. apply StronglySorted_app in Hs as (Hs & _ & _).
    apply Forall_forall. intros y Hy. apply Hs; [done|left]. }
  rewrite IH; rewrite E, <-app_assoc; done.
Qed.

Lemma decode_items_spec l (t : T) rest :
  decode_items (length l) t ((TItem <$> l) ++ rest) =
    Ok (foldl (fun c item => (bt_ReplaceOrInsert item c).1) t l, rest).
Proof. revert t. induction l as [|x l IH]; intros t; [done|]. simpl. apply IH. Qed.

Definition rebuild (t : T) : T :=
  foldl (fun c item => (bt_ReplaceOrInsert item c).1) bt_NewG (gob_item <$> bt_Items t).

Lemma decodeTree_spec (t : T) rest : decodeTree (encodeTree t ++ rest) = Ok (rebuild t, rest).
Proof.
  unfold encodeTree, decodeTree, bt_Len. cbn [app]. rewrite Nat2Z.id, list_fmap_compose.
  rewrite <-(length_fmap gob_item). apply decode_items_spec.
Qed.

Lemma rebuild_view t :
  key_sorted it_Key (bt_Items t) -> bt_Items (rebuild t) = gob_item <$> bt_Items t.
Proof.
  intros Hs. unfold rebuild. rewrite rebuild_items; rewrite bt_NewG_items; [done|]. simpl.
  unfold key_sorted in *. induction Hs as [|x l ? IH Hx]; [constructor|]. simpl.
  constructor; [done|]. apply Forall_fmap. exact Hx.
Qed.

Lemma decode_buckets_spec bs acc :
  decode_buckets (length bs) acc (bs ≫= fun p => TBucket p.1 :: encodeTree p.2) =
    Ok (foldl (fun m p => <[p.1 := rebuild p.2]> m) acc bs).
Proof.
  revert acc. induction bs as [|[b t] bs IH]; intros acc; [done|].
  cbn [length decode_buckets mbind list_bind fst snd]. change (list_bind ?f ?l) with (l ≫= f).
  cbn [app]. rewrite decodeTree_spec. apply IH.
Qed.

Lemma fold_rebuild_lookup bs (b : Bucket) (t : T) :
  (b, t) ∈ bs -> (forall t', (b, t') ∈ bs -> t' = t) ->
  foldl (fun m p => <[p.1 := rebuild p.2]> m) (∅ : gmap Bucket T) bs !! b = Some (rebuild t).
Proof.
  induction bs as [|[b' t'] bs IH] using rev_ind; [by intros ?%not_elem_of_nil|].
  intros Hin Huniq. rewrite foldl_app. cbn [foldl fst snd]. destruct (decide (b' = b)) as [->|Hb].
  - rewrite lookup_insert_eq. do 2 f_equal. apply Huniq. apply elem_of_app. right. left.
  - rewrite lookup_insert_ne by done. apply IH.
    + apply elem_of_app in Hin as [?|Hin%list_elem_of_singleton]; [done|]. congruence.
    + intros t2 Ht2. apply Huniq. apply elem_of_app. by left.
Qed.

Lemma fold_rebuild_dom bs (b : Bucket) :
  (forall t, (b, t) ∉ bs) ->
  foldl (fun m (p : Bucket * T) => <[p.1 := rebuild p.2]> m) (∅ : gmap Bucket T) bs !! b = None.
Proof.
  induction bs as [|[b' t'] bs IH] using rev_ind; [done|]. intros Hno. rewrite foldl_app.
  cbn [foldl fst snd]. rewrite lookup_insert_ne.
  - apply IH. intros t Ht. apply (Hno t). apply elem_of_app. by left.
  - intros ->. apply (Hno t'). apply elem_of_app. right. left.
Qed.

(** No value of the store is an empty, non-nil slice. *)
Definition no_empty_values (s : store) : Prop :=
  map_Forall (fun _ t => Forall (fun i => it_Value i <> Some []) (bt_Items t)) (buckets s).

(** ** Properties *)

(** One recorded mutation of a batch: a value is put, nothing is a deletion. *)
Definition batch_op : Type := Bucket * bytes * option value.

Definition record_op (b : inmemBatch) (op : batch_op) : inmemBatch :=
  match op with
  | (bk, k, Some v) => (batch_Put bk k v b).1
  | (bk, k, None) => (batch_Delete bk k b).1
  end.

Definition apply_op (c : contents) (op : batch_op) : contents :=
  match op with
  | (bk, k, Some v) => c_put bk k v c
  | (bk, k, None) => c_del bk k c
  end.

Lemma record_ops ops b :
  batch_open b -> Forall (fun op => op.1.2 <> []) ops ->
  let b' := foldl record_op b ops in
  batch_open b' /\ (forall c, wc_apply (wc b') c = foldl apply_op (wc_apply (wc b) c) ops) /\
  wc_buckets (wc b') ⊆ wc_buckets (wc b) ∪ list_to_set ((fun op => op.1.1) <$> ops).
Proof.
  intros Hb Hops. cbv zeta. revert b Hb.
  induction Hops as [|[[bk k] [v|]] ops Hk _ IH]; intros b Hb; cbn [foldl record_op fmap list_fmap list_to_set].
  { split_and!; [done|done|]. clear. set_solver. }
  - pose proof (batch_Put_view bk k v b Hb) as HP. rewrite bool_decide_eq_false_2 in HP by done.
    destruct HP as (b1 & -> & Hb1 & Hbk & Happ). destruct (IH b1 Hb1) as (H1 & H2 & H3).
    split_and!; [done|by intros c; rewrite H2, Happ|].
    etransitivity; [exact H3|]. rewrite Hbk. clear. set_solver.
  - pose proof (batch_Delete_view bk k b Hb) as HP. rewrite bool_decide_eq_false_2 in HP by done.
    destruct HP as (b1 & -> & Hb1 & Hbk & Happ). destruct (IH b1 Hb1) as (H1 & H2 & H3).
    split_and!; [done|by intros c; rewrite H2, Happ|].
    etransitivity; [exact H3|]. rewrite Hbk. clear. set_solver.
Qed.

(** C25: Committing a batch of puts and deletes on known buckets succeeds and changes
    the store exactly as running the mutations one by one in the recorded order
    would, whatever order Go's map iteration visits the collected writes in; the
    batch is closed afterwards. *)
Theorem inmem_batch_commit ops dels ps s :
  store_ok s -> Forall (fun op => op.1.2 <> [] /\ op.1.1 ∈ dom (store_view s)) ops ->
  let b := foldl record_op newBatch ops in
  dels ≡ₚ all_deletes (wc b) -> ps ≡ₚ all_puts (wc b) ->
  exists s' b' info, Commit_in dels ps b s = (s', b', Ok info) /\ closed b' = true /\ store_ok s' /\
    store_view s' = foldl apply_op (store_view s) ops.
Proof.
  intros Hs Hops b Hd Hp. destruct (record_ops ops newBatch) as (Hb & Happ & Hbk).
  - split; [done|]. by intros bk k v H.
  - eapply Forall_impl; [exact Hops|]. simpl. tauto.
  - destruct (Commit_in_view dels ps b s Hs Hb) as (s' & info & Hrun & Hs' & Hv); [|exact Hd|exact Hp|].
    { etransitivity; [exact Hbk|]. simpl. intros x Hx.
      apply elem_of_union in Hx as [Hx|Hx]; [by apply not_elem_of_empty in Hx|].
      apply elem_of_list_to_set, list_elem_of_fmap in Hx as (op & -> & Hop).
      eapply (proj1 (Forall_forall _ _)) in Hop; [|exact Hops]. apply Hop. }
    exists s', (mkBatch true (wc b)), info. split; [exact Hrun|]. split; [reflexivity|].
    split; [exact Hs'|]. unfold b in Hv. by rewrite Hv, Happ, wc_apply_new.
Qed.

(** The decoder rebuilds the contents. *)
Lemma ReadFrom_encoded s s0 bs :
  store_ok s -> no_empty_values s -> bs ≡ₚ map_to_list (buckets s) ->
  exists s', ReadFrom (encode_in bs) s0 = (s', Ok tt) /\ store_ok s' /\ store_view s' = store_view s.
Proof.
  intros Hs Hne Hbs. unfold ReadFrom, decode, encode_in. rewrite Nat2Z.id, decode_buckets_spec.
  eexists. split; [done|].
  assert (forall b, foldl (fun m p => <[p.1 := rebuild p.2]> m) (∅ : gmap Bucket T) bs !! b
                    = rebuild <$> buckets s !! b) as Hl.
  { intros b. destruct (buckets s !! b) as [t|] eqn:E.
    - apply fold_rebuild_lookup; [by rewrite Hbs, elem_of_map_to_list|].
      intros t'. rewrite Hbs, elem_of_map_to_list. congruence.
    - apply fold_rebuild_dom. intros t. rewrite Hbs, elem_of_map_to_list. congruence. }
  split.
  - intros b t'. cbn [buckets]. rewrite Hl. destruct (buckets s !! b) as [t|] eqn:E; [|done].
    intros [= <-]. assert (key_sorted it_Key (bt_Items t)) as Hst by (by eapply Hs).
    rewrite rebuild_view by done. unfold key_sorted in *. clear -Hst.
    induction Hst as [|x l ? IH Hx]; [constructor|]. simpl. constructor; [done|]. by apply Forall_fmap.
  - apply map_eq. intros b. rewrite !lookup_store_view. cbn [buckets]. rewrite Hl.
    destruct (buckets s !! b) as [t|] eqn:E; [|done]. simpl. f_equal.
    rewrite rebuild_view by (by eapply Hs). f_equal. specialize (Hne _ _ E). simpl in Hne. clear -Hne.
    induction Hne as [|i l Hi _ IH]; [done|]. simpl. f_equal; [|done].
    destruct i as [k [[|x v]|]]; done.
Qed.

(** Restoring a snapshot of the store, whatever order its buckets are written
    in, gives back the same contents (when no stored value is an empty slice, which
    the encoding turns into nil). *)
Theorem inmem_snapshot_roundtrip s s0 bs :
  store_ok s -> no_empty_values s -> bs ≡ₚ map_to_list (buckets s) ->
  exists s', ReadFrom (encode_in bs) s0 = (s', Ok tt) /\ store_ok s' /\ store_view s' = store_view s.
Proof. apply ReadFrom_encoded. Qed.

End Inmem.

(** ** Concrete stores *)

Definition store1 : InmemStore (list Item) :=
  mkStore {[ BucketKV := [mkItem [Byte.x61] (Some [Byte.x01])]; BucketMeta := [] ]} 1.

Lemma store1_ok : store_ok store1.
Proof.
  intros b t H. unfold store1 in H. cbn [buckets] in H.
  apply lookup_insert_Some in H as [[_ <-]|[_ H]]; [by repeat constructor|].
  apply lookup_singleton_Some in H as [_ <-]. constructor.
Qed.

Lemma inmem_batch_commit_witness :
  exists s' b' info,
    Commit_in [(BucketKV, [Byte.x61])] [(BucketMeta, [Byte.x62], Some [])]
      (foldl record_op newBatch [(BucketKV, [Byte.x61], None); (BucketMeta, [Byte.x62], Some (Some []))])
      store1 = (s', b', Ok info) /\ closed b' = true.
Proof.
  destruct (inmem_batch_commit
    [(BucketKV, [Byte.x61], None); (BucketMeta, [Byte.x62], Some (Some []))]
    [(BucketKV, [Byte.x61])] [(BucketMeta, [Byte.x62], Some [])] store1 store1_ok)
    as (s' & b' & info & H1 & H2 & _);
    [repeat constructor; (done || by apply elem_of_dom)
    | vm_compute; reflexivity | vm_compute; reflexivity | ].
  exists s', b', info. split; [exact H1|exact H2].
Defined.

Lemma inmem_snapshot_roundtrip_witness :
  exists s', ReadFrom (WriteTo store1) (mkStore ∅ 0) = (s', Ok tt) /\ store_view s' = store_view store1.
Proof.
  destruct (inmem_snapshot_roundtrip store1 (mkStore ∅ 0) (map_to_list (buckets store1)) store1_ok)
    as (s' & H1 & _ & H2); [|reflexivity|].
  - intros b t H. unfold store1 in H. cbn [buckets] in H.
    apply lookup_insert_Some in H as [[_ <-]|[_ H]]; [by repeat constructor|].
    apply lookup_singleton_Some in H as [_ <-]. constructor.
  - exists s'. split; [exact H1|exact H2].
Defined.

(** Commit is not all-or-nothing: a batch that deletes a key of a known bucket and
    puts into an unknown one fails with ErrBucketNotFound after the deletion has
    been applied. *)
Theorem inmem_commit_partial :
  let out := Commit (foldl record_op newBatch
    [(BucketKV, [Byte.x61], None); ("nope"%string, [Byte.x62], Some (Some [Byte.x02]))]) store1 in
  out.2 = Err [ErrBucketNotFound] /\
  unsafeGet BucketKV [Byte.x61] store1 = Ok (Some [Byte.x01]) /\
  unsafeGet BucketKV [Byte.x61] out.1.1 = Ok None.
Proof. vm_compute. split; [reflexivity|]. split; reflexivity. Qed.

(** The size counter moves the wrong way when a value is replaced: overwriting the
    one-byte value of a store of size 1 by a three-byte value leaves SizeBytes at
    -1, while recounting (Defragment) gives 4. *)
Theorem inmem_size_sign :
  let out := Commit (foldl record_op newBatch
    [(BucketKV, [Byte.x61], Some (Some [Byte.x02; Byte.x03; Byte.x04]))]) store1 in
  out.2 = Ok (mkCI 0 0) /\ SizeBytes store1 = 1 /\ SizeBytes out.1.1 = -1 /\
  SizeBytes (Defragment out.1.1) = 4.
Proof. vm_compute. repeat split. Qed.

(** A fresh store with the buckets of the schema. *)
Definition empty_store : InmemStore (list Item) :=
  match NewStore (mkSO "data" StorageKindInMemory AllBuckets) with Ok s => s | _ => mkStore ∅ 0 end.

Lemma empty_store_ok : store_ok empty_store.
Proof.
  intros b t H. change (buckets empty_store) with
    (<[BucketOT := []]> (<[BucketLease := []]> (<[BucketMeta := []]>
      (<[BucketKV := []]> (∅ : gmap Bucket (list Item)))))) in H.
  repeat (apply lookup_insert_Some in H as [[_ <-]|[_ H]]; [constructor|]).
  by rewrite lookup_empty in H.
Qed.
