(* ===== verification/Durable.v ===== *)
(** The durable store: [internal/storage/bytestore/durable] (store.go, batch.go, codec.go).
    bbolt is third-party code: its databases, transactions and files are the types of the
    class [Bolt], with the documented behaviour of each call as laws. bbolt admits one
    read-write transaction at a time and [Begin(true)] waits for it, so the calls that
    write return an option: [None] is a call that does not return while the other
    transaction stays open. System calls on files take their outcome as an argument. *)

From S2P Require Import Prelude OrdTree Storage Inmem.
From Stdlib Require Import ZArith Lia.
From stdpp Require Import base gmap sets list strings sorting.
Open Scope Z_scope.

(** ** go.etcd.io/bbolt *)

Definition MaxKeySize : Z := 32768.
Definition MaxValueSize : Z := 2 ^ 31 - 2.
Definition ErrBucketExists : cause := ErrMsg "bucket already exists".

(** Buckets by name, then pairs by key. *)
Abbreviation bolt_data := (gmap bytes (gmap bytes bytes)).

(** [bolt_Cursor] lists what First and Next visit. [bolt_writer] says whether a read-write
    transaction is open. A commit that fails rolls back; its error is one of bbolt or of
    the system, not the [ErrBucketNotFound] of this program. *)
Class Bolt (DB Tx File : Type) := {
  bolt_Begin : DB -> option (DB * res Tx);
  bolt_BeginRO : DB -> res Tx;
  bolt_CreateBucket : bytes -> Tx -> Tx * option error;
  bolt_Bucket : bytes -> Tx -> bool;
  bolt_Get : bytes -> bytes -> Tx -> option bytes;
  bolt_Put : bytes -> bytes -> bytes -> Tx -> Tx * option error;
  bolt_Delete : bytes -> bytes -> Tx -> Tx * option error;
  bolt_Cursor : bytes -> Tx -> list (bytes * bytes);
  bolt_Commit : Tx -> DB -> DB * option error;
  bolt_Rollback : Tx -> DB -> DB;
  bolt_WriteTo : Tx -> File;
  bolt_Open : File -> DB;
  bolt_Close : DB -> DB;
  (* what the calls mean *)
  bolt_open : DB -> Prop;
  bolt_writer : DB -> bool;
  db_view : DB -> bolt_data;
  tx_view : Tx -> bolt_data;
  tx_writable : Tx -> Prop;
  bolt_Begin_law : forall db, bolt_open db ->
    if bolt_writer db then bolt_Begin db = None
    else exists db' tx, bolt_Begin db = Some (db', Ok tx) /\ bolt_open db' /\ bolt_writer db' = true /\
           db_view db' = db_view db /\ tx_view tx = db_view db /\ tx_writable tx;
  bolt_BeginRO_law : forall db, bolt_open db ->
    exists tx, bolt_BeginRO db = Ok tx /\ tx_view tx = db_view db;
  bolt_CreateBucket_law : forall n tx, tx_writable tx -> n <> [] ->
    if bool_decide (is_Some (tx_view tx !! n))
    then bolt_CreateBucket n tx = (tx, Some [ErrBucketExists])
    else exists tx', bolt_CreateBucket n tx = (tx', None) /\ tx_writable tx' /\
           tx_view tx' = <[n := ∅]> (tx_view tx);
  bolt_Bucket_law : forall n tx, bolt_Bucket n tx = bool_decide (is_Some (tx_view tx !! n));
  bolt_Get_law : forall n k tx, bolt_Get n k tx = tx_view tx !! n ≫= lookup k;
  bolt_Put_law : forall n k v m tx, tx_writable tx -> tx_view tx !! n = Some m -> k <> [] ->
    Z.of_nat (length k) <= MaxKeySize -> Z.of_nat (length v) <= MaxValueSize ->
    exists tx', bolt_Put n k v tx = (tx', None) /\ tx_writable tx' /\
      tx_view tx' = <[n := <[k := v]> m]> (tx_view tx);
  bolt_Delete_law : forall n k m tx, tx_writable tx -> tx_view tx !! n = Some m ->
    exists tx', bolt_Delete n k tx = (tx', None) /\ tx_writable tx' /\
      tx_view tx' = <[n := delete k m]> (tx_view tx);
  bolt_Cursor_law : forall n m tx, tx_view tx !! n = Some m ->
    key_sorted fst (bolt_Cursor n tx) /\ list_to_map (bolt_Cursor n tx) = m;
  bolt_Commit_law : forall tx db, tx_writable tx -> bolt_open db -> bolt_writer db = true ->
    let '(db', r) := bolt_Commit tx db in
    bolt_open db' /\ bolt_writer db' = false /\ r <> Some [ErrBucketNotFound] /\
    db_view db' = match r with None => tx_view tx | Some _ => db_view db end;
  bolt_Rollback_law : forall tx db, bolt_open db -> bolt_writer db = true ->
    bolt_open (bolt_Rollback tx db) /\ bolt_writer (bolt_Rollback tx db) = false /\
    db_view (bolt_Rollback tx db) = db_view db;
  bolt_Open_law : forall tx,
    bolt_open (bolt_Open (bolt_WriteTo tx)) /\ bolt_writer (bolt_Open (bolt_WriteTo tx)) = false /\
    db_view (bolt_Open (bolt_WriteTo tx)) = tx_view tx }.

Section Durable.
Context {DB Tx File : Type} {BO : Bolt DB Tx File}.

(** [db.View(f)] and [db.Update(f)]. *)
Definition db_View {A} (f : Tx -> res A) (d : DB) : res A :=
  match bolt_BeginRO d with Ok tx => f tx | Err e => Err e | Panicked => Panicked end.

Definition db_Update {A} (f : M Tx A) (d : DB) : option (DB * res A) :=
  '(d1, r) ← bolt_Begin d;
  Some match r with
       | Err e => (d1, Err e)
       | Panicked => (d1, Panicked)
       | Ok tx =>
           match f tx with
           | (tx', Ok a) =>
               let '(d2, r) := bolt_Commit tx' d1 in
               (d2, match r with None => Ok a | Some e => Err e end)
           | (tx', Err e) => (bolt_Rollback tx' d1, Err e)
           | (tx', Panicked) => (bolt_Rollback tx' d1, Panicked)
           end
       end.

(** ** store.go *)

Record boltStore := mkBolt { db : DB; file : string; bsz : Z; bucketMap : gmap Bucket bytes }.

Definition set_db (d : DB) (s : boltStore) : boltStore := mkBolt d (file s) (bsz s) (bucketMap s).

Definition dbFileName : string := "bolt.db".

(** The loop of NewStore over the initial buckets. *)
Fixpoint create_buckets (bs : list Bucket) (m : gmap Bucket bytes) : M Tx (gmap Bucket bytes) :=
  match bs with
  | [] => mret m
  | bucket :: rest => fun tx =>
      let '(tx', err) := bolt_CreateBucket (str_bytes bucket) tx in
      match err with
      | Some e =>
          if errors_Is e ErrBucketExists
          then create_buckets rest (<[bucket := str_bytes bucket]> m) tx'
          else (tx', Err (errMsg "failed to create boltdb store"))
      | None => create_buckets rest (<[bucket := str_bytes bucket]> m) tx'
      end
  end.

(** [opened] is the outcome of bolt.Open on the path. *)
Definition NewStore (opts : StorageOptions) (opened : res DB) : option (res boltStore) :=
  if bool_decide (so_Kind opts = StorageKindBoltdb) then
    match opened with
    | Ok d =>
        '(d1, r) ← bolt_Begin d;
        Some match r with
             | Ok tx =>
                 match create_buckets (so_InitialBuckets opts) ∅ tx with
                 | (tx', Ok m) =>
                     let '(d2, err) := bolt_Commit tx' d1 in
                     match err with
                     | None => Ok (mkBolt d2 (so_Dir opts ++ "/" ++ dbFileName) 0 m)
                     | Some e => Err e
                     end
                 | (_, Err e) => Err e
                 | (_, Panicked) => Panicked
                 end
             | Err e => Err e
             | Panicked => Panicked
             end
    | Err e => Some (Err e)
    | Panicked => Some Panicked
    end
  else Some (Err (errMsg "failed to create boltdb store: option 'Kind' was not StorageKindBoltdb")).

(** [append(nil, in...)]: nil for a nil and for an empty slice. *)
Definition copyBytes (b : option bytes) : value :=
  match b with None => None | Some [] => None | Some (x :: r) => Some (x :: r) end.

Definition open_bucket (m : gmap Bucket bytes) (bucket : Bucket) (tx : Tx) : res bytes :=
  match m !! bucket with
  | None => Err [ErrBucketNotFound]
  | Some name => if bolt_Bucket name tx then Ok name else Err [ErrBucketNotFound]
  end.

Definition wrap_internal {A} (r : res A) : res A :=
  match r with
  | Err e => if bool_decide (e = [ErrBucketNotFound]) then Err e else Err [ErrInternalStorageError]
  | _ => r
  end.

Definition Get (bucket : Bucket) (k : bytes) (s : boltStore) : res value :=
  wrap_internal (db_View (fun tx =>
    match open_bucket (bucketMap s) bucket tx with
    | Ok name => Ok (copyBytes (bolt_Get name k tx))
    | Err e => Err e
    | Panicked => Panicked
    end) (db s)).

(** The value of a bucket before a write, then the write. *)
Definition with_old (m : gmap Bucket bytes) (bucket : Bucket) (k : bytes)
    (write : bytes -> Tx -> Tx * option error) : M Tx value := fun tx =>
  match open_bucket m bucket tx with
  | Ok name =>
      let oldValue := copyBytes (bolt_Get name k tx) in
      let '(tx', err) := write name tx in
      (tx', match err with None => Ok oldValue | Some e => Err e end)
  | Err e => (tx, Err e)
  | Panicked => (tx, Panicked)
  end.

Definition update_store {A} (f : M Tx A) (s : boltStore) : option (boltStore * res A) :=
  '(d, r) ← db_Update f (db s); Some (set_db d s, wrap_internal r).

Definition Put (bucket : Bucket) (k : bytes) (v : value) (s : boltStore) : option (boltStore * res value) :=
  if (length k =? 0)%nat then Some (s, Err [ErrEmptyKey])
  else update_store (with_old (bucketMap s) bucket k (fun name => bolt_Put name k (default [] v))) s.

Definition Delete (bucket : Bucket) (k : bytes) (s : boltStore) : option (boltStore * res value) :=
  update_store (with_old (bucketMap s) bucket k (fun name => bolt_Delete name k)) s.

(** The callbacks of the scans thread a state and return whether to go on. *)
Definition view_cursor {A} (bucket : Bucket) (loop : list (bytes * bytes) -> A) (s : boltStore) : res A :=
  wrap_internal (db_View (fun tx =>
    match open_bucket (bucketMap s) bucket tx with
    | Ok name => Ok (loop (bolt_Cursor name tx))
    | Err e => Err e
    | Panicked => Panicked
    end) (db s)).

Fixpoint scan_loop {S} (f : S -> bytes -> value -> S * bool) (a : S) (l : list (bytes * bytes)) : S :=
  match l with
  | [] => a
  | (k, v) :: rest =>
      let '(a', go) := f a k (copyBytes (Some v)) in
      if (go : bool) then scan_loop f a' rest else a'
  end.

(** A callback that returns false does not end this loop. *)
Fixpoint prefix_loop {S} (prefix : bytes) (f : S -> bytes -> value -> S * bool) (a : S)
    (l : list (bytes * bytes)) : S :=
  match l with
  | [] => a
  | (k, v) :: rest =>
      let g := if bool_decide (prefix `prefix_of` k) then f a k (copyBytes (Some v)) else (a, false) in
      prefix_loop prefix f g.1 rest
  end.

Definition Scan {S} (bucket : Bucket) (f : S -> bytes -> value -> S * bool) (a : S) (s : boltStore) : res S :=
  view_cursor bucket (scan_loop f a) s.
Definition PrefixScan {S} (bucket : Bucket) (prefix : bytes) (f : S -> bytes -> value -> S * bool) (a : S)
    (s : boltStore) : res S :=
  view_cursor bucket (prefix_loop prefix f a) s.

Definition SizeBytes (s : boltStore) : Z := bsz s.
Definition Ping (s : boltStore) : option error :=
  match db_View (fun _ => Ok tt) (db s) with Ok _ => None | Err e => Some e | Panicked => None end.
Definition Close (s : boltStore) : boltStore := set_db (bolt_Close (db s)) s.

(** ** batch.go *)

(** A batch shares the bucket map and the size counter of its store. *)
Record durableBatch := mkDB { b_tx : Tx; b_wc : WriteCollector; b_closed : bool }.

Definition newBatch (tx : Tx) : durableBatch := mkDB tx NewWriteCollector false.

Definition NewBatch (s : boltStore) : option (boltStore * res durableBatch) :=
  '(d, r) ← bolt_Begin (db s);
  Some (set_db d s, match r with
                    | Ok tx => Ok (newBatch tx)
                    | Err _ => Err [ErrInternalStorageError]
                    | Panicked => Panicked
                    end).

Definition batch_Put (bucket : Bucket) (k : bytes) (v : value) (b : durableBatch)
  : durableBatch * option error :=
  if b_closed b then (b, Some [ErrBatchClosed])
  else if (length k =? 0)%nat then (b, Some [ErrEmptyKey])
  else (mkDB (b_tx b) (RecordPut bucket k v (b_wc b)) false, None).

Definition batch_Delete (bucket : Bucket) (k : bytes) (b : durableBatch)
  : durableBatch * option error :=
  if b_closed b then (b, Some [ErrBatchClosed])
  else if (length k =? 0)%nat then (b, Some [ErrEmptyKey])
  else (mkDB (b_tx b) (RecordDelete bucket k (b_wc b)) false, None).

Definition bolt_write (w : Tx -> Tx * option error) : M Tx unit := fun tx =>
  let '(tx', err) := w tx in (tx', match err with None => Ok tt | Some e => Err e end).

(** The loops of Commit over enumerations of the collector's maps; the accumulator is
    (totalDelta, info). *)
Fixpoint delete_keys (name : bytes) (ks : list bytes) (acc : Z * CommitInfo) : M Tx (Z * CommitInfo) :=
  match ks with
  | [] => mret acc
  | k :: rest =>
      if (length k =? 0)%nat then fail [ErrEmptyKey]
      else
        get_st ≫= fun tx =>
        let acc' := match bolt_Get name k tx with
                    | Some old => (acc.1 - Z.of_nat (length old), mkCI (DeletedKeys acc.2 + 1) (NewKeys acc.2))
                    | None => acc
                    end in
        bolt_write (bolt_Delete name k) ≫= fun _ => delete_keys name rest acc'
  end.

Fixpoint put_keys (name : bytes) (kvs : list (bytes * value)) (acc : Z * CommitInfo) : M Tx (Z * CommitInfo) :=
  match kvs with
  | [] => mret acc
  | (k, v) :: rest =>
      if (length k =? 0)%nat then fail [ErrEmptyKey]
      else
        get_st ≫= fun tx =>
        let old := bolt_Get name k tx in
        let totalDelta := match old with
                          | Some o => acc.1 + (Z.of_nat (length o) - len_value v)
                          | None => acc.1 + len_value v
                          end in
        bolt_write (bolt_Put name k (default [] v)) ≫= fun _ =>
        put_keys name rest
          (totalDelta, match old with
                       | None => mkCI (DeletedKeys acc.2) (NewKeys acc.2 + 1)
                       | Some _ => acc.2
                       end)
  end.

Fixpoint each_bucket {A B} (m : gmap Bucket bytes) (body : bytes -> A -> B -> M Tx B)
    (l : list (Bucket * A)) (acc : B) : M Tx B :=
  match l with
  | [] => mret acc
  | (bucket, keys) :: rest =>
      get_st ≫= fun tx =>
      lift (open_bucket m bucket tx) ≫= fun name =>
      body name keys acc ≫= fun acc' => each_bucket m body rest acc'
  end.

(** A return in the loops leaves the transaction open. *)
Definition Commit_in (dels : list (Bucket * list bytes)) (ps : list (Bucket * list (bytes * value)))
    (b : durableBatch) (s : boltStore) : boltStore * durableBatch * res CommitInfo :=
  if b_closed b then (s, b, Err [ErrBatchClosed])
  else
    match (each_bucket (bucketMap s) delete_keys dels (0, mkCI 0 0) ≫=
           each_bucket (bucketMap s) put_keys ps) (b_tx b) with
    | (tx, Ok (totalDelta, info)) =>
        let '(d, err) := bolt_Commit tx (db s) in
        let b' := mkDB tx (b_wc b) true in
        match err with
        | None => (mkBolt d (file s) (i64 (bsz s + totalDelta)) (bucketMap s), b', Ok info)
        | Some e => (set_db d s, b', Err e)
        end
    | (tx, Err e) => (s, mkDB tx (b_wc b) true, Err e)
    | (tx, Panicked) => (s, mkDB tx (b_wc b) true, Panicked)
    end.

Definition Abort (b : durableBatch) (s : boltStore) : boltStore * durableBatch :=
  if b_closed b then (s, b)
  else (set_db (bolt_Rollback (b_tx b) (db s)) s, mkDB (b_tx b) (Reset (b_wc b)) true).

(** ** codec.go, and the calls of store.go that replace the file *)

Abbreviation files := (gmap string File).

Definition encode (s : boltStore) : res File := db_View (fun tx => Ok (bolt_WriteTo tx)) (db s).
Definition WriteTo (s : boltStore) : res File := encode s.

(** Outcomes of the system calls of decode; a failed copy leaves a partial file. *)
Record decode_io := mkDIO {
  dio_create : option error; dio_copy : option (File * error); dio_sync : option error;
  dio_close : option error; dio_remove : option error; dio_rename : option error;
  dio_open : option error }.
Definition decode_ok : decode_io := mkDIO None None None None None None None.

Definition decode (io : decode_io) (r : File) (oldPath : string) (fs : files) : files * res DB :=
  let tmpfile := (oldPath ++ ".restore")%string in
  match dio_create io with
  | Some _ => (fs, Err (errMsg "failed to create tmpfile"))
  | None =>
      match dio_copy io with
      | Some (part, _) => (<[tmpfile := part]> fs, Err (errMsg "failed to copy files"))
      | None =>
          let fs1 := <[tmpfile := r]> fs in
          if dio_sync io is Some _ then (fs1, Err (errMsg "failed to sync file"))
          else if dio_close io is Some _ then (fs1, Err (errMsg "failed to close file"))
          else if dio_remove io is Some _ then (fs1, Err (errMsg "failed to remove file"))
          else
            let fs2 := delete oldPath fs1 in
            if dio_rename io is Some _ then (fs2, Err (errMsg "failed to rename file"))
            else
              let fs3 := <[oldPath := r]> (delete tmpfile fs2) in
              if dio_open io is Some _ then (fs3, Err (errMsg "failed to create boltdb"))
              else (fs3, Ok (bolt_Open r))
      end
  end.

Definition ReadFrom (io : decode_io) (r : File) (fs : files) (s : boltStore) : files * boltStore * res unit :=
  match decode io r (file s) fs with
  | (fs', Ok d) => (fs', set_db d s, Ok tt)
  | (fs', Err _) => (fs', s, Err (errMsg "failed to decode reader"))
  | (fs', Panicked) => (fs', s, Panicked)
  end.

(** Outcomes of the system calls of Defragment: a failed copy leaves a partial file, which is
    then removed. *)
Record defrag_io := mkGIO {
  gio_create : option error; gio_write : option error; gio_sync : option error;
  gio_close : option error; gio_rename : option error; gio_open : option error }.
Definition defrag_ok : defrag_io := mkGIO None None None None None None.

Definition Defragment (io : defrag_io) (fs : files) (s : boltStore) : files * boltStore * res unit :=
  let newpath := (file s ++ ".defrag")%string in
  match gio_create io with
  | Some e => (fs, s, Err e)
  | None =>
      match (if gio_write io is Some e then Err e else db_View (fun tx => Ok (bolt_WriteTo tx)) (db s)) with
      | Err e => (delete newpath fs, s, Err e)
      | Panicked => (fs, s, Panicked)
      | Ok f =>
          if gio_sync io is Some e then (delete newpath fs, s, Err e)
          else
            let s1 := set_db (bolt_Close (db s)) s in
            if gio_close io is Some e then (delete newpath fs, s1, Err e)
            else if gio_rename io is Some e then (<[newpath := f]> fs, s1, Err e)
            else
              let fs2 := <[file s := f]> (delete newpath fs) in
              if gio_open io is Some e then (fs2, s1, Err e)
              else (fs2, set_db (bolt_Open f) s1, Ok tt)
      end
  end.
End Durable.
