(* ===== verification/DurableInv.v ===== *)
(** Correctness of the durable store: its contents as the transaction layer sees them, the
    effect of writes and batches, agreement with the in-memory store, and replacing the
    database file. *)

From S2P Require Import Prelude OrdTree Storage Inmem Durable.
From Stdlib Require Import ZArith Lia.
From stdpp Require Import base gmap sets list strings sorting.
Open Scope Z_scope.

(** ** Counting the keys a commit removes and adds *)

Definition present (c : contents) (p : Bucket * bytes) : Prop := is_Some (c !! p.1 ≫= lookup p.2).
#[export] Instance present_dec c p : Decision (present c p).
Proof. unfold present. apply _. Defined.

(** Deletions and puts one by one, with the counters of the commit. *)
Definition spec_del (st : contents * CommitInfo) (p : Bucket * bytes) : contents * CommitInfo :=
  (c_del p.1 p.2 st.1,
   if bool_decide (present st.1 p) then mkCI (DeletedKeys st.2 + 1) (NewKeys st.2) else st.2).
Definition spec_put (st : contents * CommitInfo) (p : Bucket * bytes * value) : contents * CommitInfo :=
  (c_put p.1.1 p.1.2 p.2 st.1,
   if bool_decide (present st.1 p.1) then st.2 else mkCI (DeletedKeys st.2) (NewKeys st.2 + 1)).
Definition spec_commit (dels : list (Bucket * bytes)) (ps : list (Bucket * bytes * value)) (c : contents)
  : contents * CommitInfo :=
  foldl spec_put (foldl spec_del (c, mkCI 0 0) dels) ps.

Lemma lookup2_c_put (b : Bucket) (k : bytes) (v : value) (c : contents) (p : Bucket * bytes) :
  p <> (b, k) -> c_put b k v c !! p.1 ≫= lookup p.2 = c !! p.1 ≫= lookup p.2.
Proof.
  intros Hp. unfold c_put. destruct p as [b' k']. simpl. destruct (decide (b' = b)) as [->|Hb].
  - rewrite lookup_alter_eq. destruct (c !! b); [|done]. simpl. rewrite lookup_insert_ne; [done|congruence].
  - by rewrite lookup_alter_ne.
Qed.
Lemma lookup2_c_del (b : Bucket) (k : bytes) (c : contents) (p : Bucket * bytes) :
  p <> (b, k) -> c_del b k c !! p.1 ≫= lookup p.2 = c !! p.1 ≫= lookup p.2.
Proof.
  intros Hp. unfold c_del. destruct p as [b' k']. simpl. destruct (decide (b' = b)) as [->|Hb].
  - rewrite lookup_alter_eq. destruct (c !! b); [|done]. simpl. rewrite lookup_delete_ne; [done|congruence].
  - by rewrite lookup_alter_ne.
Qed.

Lemma spec_dels_1 l st : (foldl spec_del st l).1 = foldl (fun c p => c_del p.1 p.2 c) st.1 l.
Proof. revert st. induction l as [|p l IH]; intros st; [done|]. cbn [foldl]. by rewrite IH. Qed.
Lemma spec_puts_1 l st : (foldl spec_put st l).1 = foldl (fun c p => c_put p.1.1 p.1.2 p.2 c) st.1 l.
Proof. revert st. induction l as [|p l IH]; intros st; [done|]. cbn [foldl]. by rewrite IH. Qed.

Lemma filter_present_ext (c c' : contents) (l : list (Bucket * bytes)) q :
  q ∉ l -> (forall p, p <> q -> c' !! p.1 ≫= lookup p.2 = c !! p.1 ≫= lookup p.2) ->
  filter (present c') l = filter (present c) l.
Proof.
  intros Hq Hc. apply list_filter_ext_in. intros p Hp. unfold present. rewrite Hc; [done|]. by intros ->.
Qed.

Lemma spec_dels_2 l st : NoDup l ->
  (foldl spec_del st l).2 =
    mkCI (DeletedKeys st.2 + Z.of_nat (length (filter (present st.1) l))) (NewKeys st.2).
Proof.
  intros Hl. revert st. induction Hl as [|p l Hp Hl IH]; intros [c [dk nk]]; cbn [foldl].
  { simpl. f_equal. lia. }
  rewrite IH. cbn [spec_del fst snd].
  rewrite (filter_present_ext c (c_del p.1 p.2 c) l p Hp)
    by (intros q Hq; apply lookup2_c_del; by destruct p).
  rewrite filter_cons. case_bool_decide as E; cbn [snd DeletedKeys NewKeys];
    [rewrite decide_True by done|rewrite decide_False by done]; cbn [length]; f_equal; lia.
Qed.

Lemma spec_puts_2 l st : NoDup l.*1 ->
  (foldl spec_put st l).2 =
    mkCI (DeletedKeys st.2)
      (NewKeys st.2 + Z.of_nat (length (filter (fun p => ~ present st.1 p) l.*1))).
Proof.
  revert st. induction l as [|[p v] l IH]; intros [c [dk nk]] Hl; cbn [foldl].
  { simpl. f_equal. lia. }
  rewrite fmap_cons in Hl. apply NoDup_cons in Hl as [Hp Hl]. rewrite IH by done.
  cbn [spec_put fst snd]. cbn [fst] in Hp.
  rewrite (list_filter_ext_in (fun q => ~ present (c_put p.1 p.2 v c) q) (fun q => ~ present c q) l.*1).
  2:{ intros q Hq. unfold present. rewrite lookup2_c_put; [done|]. destruct p. intros ->. done. }
  rewrite fmap_cons, filter_cons. cbn [fst]. case_bool_decide as E; cbn [snd DeletedKeys NewKeys].
  - rewrite decide_False by tauto. f_equal.
  - rewrite decide_True by done. cbn [length]. f_equal. lia.
Qed.

(** The order of the enumerations does not matter. *)
Lemma spec_commit_perm w dels ps dels' ps' c :
  NoDup dels -> NoDup ps.*1 ->
  dels ≡ₚ all_deletes w -> ps ≡ₚ all_puts w -> dels' ≡ₚ all_deletes w -> ps' ≡ₚ all_puts w ->
  spec_commit dels ps c = spec_commit dels' ps' c.
Proof.
  intros Nd Np Hd Hp Hd' Hp'.
  assert (dels' ≡ₚ dels) as Ed by (by rewrite Hd', Hd). assert (ps' ≡ₚ ps) as Ep by (by rewrite Hp', Hp).
  assert (NoDup dels') as Nd' by (by rewrite Ed).
  assert (NoDup ps'.*1) as Np' by (by rewrite Ep).
  assert (forall l l', l ≡ₚ all_deletes w -> l' ≡ₚ all_deletes w ->
    foldl (fun c p => c_del p.1 p.2 c) c l = foldl (fun c p => c_del p.1 p.2 c) c l') as Hdel.
  { intros l l' Hl Hl'. apply map_eq. intros b. rewrite !fold_del_lookup. destruct (c !! b); [|done].
    simpl. f_equal. apply map_filter_ext. intros k v _. simpl. by rewrite Hl, Hl'. }
  unfold spec_commit. rewrite (surjective_pairing (foldl spec_put _ ps)).
  rewrite (surjective_pairing (foldl spec_put _ ps')). f_equal.
  - rewrite !spec_puts_1, !spec_dels_1. cbn [fst]. by rewrite !(commit_effect w).
  - rewrite !spec_puts_2, !spec_dels_2, !spec_dels_1 by done. cbn [fst snd DeletedKeys NewKeys].
    rewrite (Hdel dels dels') by done. rewrite Ed, Ep. done.
Qed.

(** ** Contents of the durable store *)

Definition cp (v : bytes) : value := copyBytes (Some v).
(** A value as the store gives it back. *)
Definition norm (v : value) : value := cp (default [] v).

Definition view_of (m : gmap Bucket bytes) (d : bolt_data) : contents :=
  omap (fun n => (fun kvs : gmap bytes bytes => cp <$> kvs) <$> d !! n) m.

Definition names_ok (m : gmap Bucket bytes) : Prop := map_Forall (fun b n => n = str_bytes b) m.

Lemma str_bytes_inj s t : str_bytes s = str_bytes t -> s = t.
Proof.
  unfold str_bytes. intros H. apply (f_equal String.string_of_list_byte) in H.
  by rewrite !String.string_of_list_byte_of_string in H.
Qed.

Lemma view_of_insert m d b n mm : names_ok m -> m !! b = Some n ->
  view_of m (<[n := mm]> d) = <[b := cp <$> mm]> (view_of m d).
Proof.
  intros Hm Hb. apply map_eq. intros b'. unfold view_of. rewrite lookup_omap.
  destruct (decide (b' = b)) as [->|Hne].
  - rewrite lookup_insert_eq, Hb. simpl. by rewrite lookup_insert_eq.
  - rewrite lookup_insert_ne, lookup_omap by done. destruct (m !! b') as [n'|] eqn:E; [|done]. simpl.
    rewrite lookup_insert_ne; [done|]. apply Hm in Hb, E. subst. intros ?%str_bytes_inj. congruence.
Qed.

Section DurableInv.
Context {DB Tx File : Type} {BO : Bolt DB Tx File}.
Implicit Types (tx : Tx) (s : boltStore (DB := DB)).

Definition tv (m : gmap Bucket bytes) (tx : Tx) : contents := view_of m (tx_view tx).
Definition durable_view s : contents := view_of (bucketMap s) (db_view (db s)).

(** The database is open; [idle]: and no read-write transaction is. *)
Definition durable_ok s : Prop := bolt_open (db s) /\ names_ok (bucketMap s).
Definition idle s : Prop := bolt_writer (db s) = false.

Lemma open_bucket_view m b tx :
  match tv m tx !! b with
  | None => open_bucket m b tx = Err [ErrBucketNotFound]
  | Some c => exists n mm, open_bucket m b tx = Ok n /\ m !! b = Some n /\ tx_view tx !! n = Some mm /\ c = cp <$> mm
  end.
Proof.
  unfold tv, view_of, open_bucket. rewrite lookup_omap. destruct (m !! b) as [n|]; simpl; [|done].
  rewrite bolt_Bucket_law. destruct (tx_view tx !! n) as [mm|] eqn:E; simpl; [|done].
  exists n, mm. done.
Qed.

Lemma open_bucket_dom m b tx : b ∈ dom (tv m tx) ->
  exists n mm, open_bucket m b tx = Ok n /\ m !! b = Some n /\ tx_view tx !! n = Some mm /\
    tv m tx !! b = Some (cp <$> mm).
Proof.
  intros [c Hc]%elem_of_dom. pose proof (open_bucket_view m b tx) as H. rewrite Hc in H.
  destruct H as (n & mm & ? & ? & ? & ->). eauto 7.
Qed.

Lemma tx_get m b n mm k tx : m !! b = Some n -> tx_view tx !! n = Some mm ->
  bolt_Get n k tx = mm !! k /\ tv m tx !! b ≫= lookup k = cp <$> mm !! k.
Proof.
  intros Hb Hn. split; [by rewrite bolt_Get_law, Hn|].
  unfold tv, view_of. rewrite lookup_omap, Hb. simpl. rewrite Hn. simpl. apply lookup_fmap.
Qed.

Lemma tx_present m b n mm k tx : m !! b = Some n -> tx_view tx !! n = Some mm ->
  bool_decide (present (tv m tx) (b, k)) = match mm !! k with Some _ => true | None => false end.
Proof.
  intros Hb Hn. destruct (tx_get m b n mm k tx Hb Hn) as [_ Hp].
  destruct (mm !! k); [apply bool_decide_eq_true_2|apply bool_decide_eq_false_2];
    unfold present; cbn [fst snd]; rewrite Hp; simpl; [eauto|]. by intros [? ?].
Qed.

Definition fits (k : bytes) (v : value) : Prop :=
  Z.of_nat (length k) <= MaxKeySize /\ len_value v <= MaxValueSize.

Lemma tx_put m b n mm k v tx : names_ok m -> tx_writable tx -> m !! b = Some n -> tx_view tx !! n = Some mm ->
  k <> [] -> fits k v ->
  exists tx', bolt_Put n k (default [] v) tx = (tx', None) /\ tx_writable tx' /\
    tx_view tx' !! n = Some (<[k := default [] v]> mm) /\ tv m tx' = c_put b k (norm v) (tv m tx).
Proof.
  intros Hm Hw Hb Hn Hk [Hk1 Hv]. destruct (bolt_Put_law n k (default [] v) mm tx) as (tx' & -> & Hw' & Ev); try done.
  exists tx'. split; [done|]. split; [done|]. rewrite Ev, lookup_insert_eq. split; [done|].
  unfold tv. rewrite Ev, view_of_insert with (b := b) by done.
  unfold c_put. apply map_eq. intros b'. destruct (decide (b' = b)) as [->|?].
  - rewrite lookup_insert_eq, lookup_alter_eq. unfold view_of at 1. rewrite lookup_omap, Hb. simpl.
    rewrite Hn. simpl. by rewrite fmap_insert.
  - by rewrite lookup_insert_ne, lookup_alter_ne.
Qed.

Lemma tx_delete m b n mm k tx : names_ok m -> tx_writable tx -> m !! b = Some n -> tx_view tx !! n = Some mm ->
  exists tx', bolt_Delete n k tx = (tx', None) /\ tx_writable tx' /\
    tx_view tx' !! n = Some (delete k mm) /\ tv m tx' = c_del b k (tv m tx).
Proof.
  intros Hm Hw Hb Hn. destruct (bolt_Delete_law n k mm tx) as (tx' & -> & Hw' & Ev); try done.
  exists tx'. split; [done|]. split; [done|]. rewrite Ev, lookup_insert_eq. split; [done|].
  unfold tv. rewrite Ev, view_of_insert with (b := b) by done.
  unfold c_del. apply map_eq. intros b'. destruct (decide (b' = b)) as [->|?].
  - rewrite lookup_insert_eq, lookup_alter_eq. unfold view_of at 1. rewrite lookup_omap, Hb. simpl.
    rewrite Hn. simpl. by rewrite fmap_delete.
  - by rewrite lookup_insert_ne, lookup_alter_ne.
Qed.

(** *** The loops of a commit *)

Lemma delete_keys_run m b n ks acc tx mm : names_ok m -> tx_writable tx -> m !! b = Some n ->
  tx_view tx !! n = Some mm -> Forall (fun k => k <> []) ks ->
  exists tx' d, tx_writable tx' /\
    let out := foldl spec_del (tv m tx, acc.2) (pair b <$> ks) in
    delete_keys n ks acc tx = (tx', Ok (d, out.2)) /\ tv m tx' = out.1.
Proof.
  intros Hm Hw Hb Hn Hks. revert acc tx mm Hw Hn.
  induction Hks as [|k ks Hk _ IH]; intros acc tx mm Hw Hn; cbn [delete_keys fmap list_fmap foldl].
  { exists tx, acc.1. split; [done|]. by destruct acc. }
  rewrite (proj2 (Nat.eqb_neq _ _)) by (by destruct k). unfold get_st, bolt_write, mbind, M_bind.
  destruct (tx_get m b n mm k tx Hb Hn) as [Hg _]. pose proof (tx_present m b n mm k tx Hb Hn) as Hp.
  destruct (tx_delete m b n mm k tx) as (tx' & -> & Hw' & Hn' & Ev); try done.
  set (acc' := match bolt_Get n k tx with Some old => _ | None => _ end).
  assert (spec_del (tv m tx, acc.2) (b, k) = (tv m tx', acc'.2)) as ->.
  { unfold spec_del, acc'. cbn [fst snd]. rewrite Hp, Hg, Ev. by destruct (mm !! k). }
  exact (IH acc' tx' _ Hw' Hn').
Qed.

Lemma put_keys_run m b n kvs acc tx mm : names_ok m -> tx_writable tx -> m !! b = Some n ->
  tx_view tx !! n = Some mm -> Forall (fun p => p.1 <> [] /\ fits p.1 p.2) kvs ->
  exists tx' d, tx_writable tx' /\
    let out := foldl spec_put (tv m tx, acc.2) ((fun p => (b, p.1, norm p.2)) <$> kvs) in
    put_keys n kvs acc tx = (tx', Ok (d, out.2)) /\ tv m tx' = out.1.
Proof.
  intros Hm Hw Hb Hn Hks. revert acc tx mm Hw Hn.
  induction Hks as [|[k v] ks [Hk Hf] _ IH]; intros acc tx mm Hw Hn; cbn [put_keys fmap list_fmap foldl].
  { exists tx, acc.1. split; [done|]. by destruct acc. }
  cbn [fst snd] in Hk, Hf |- *.
  rewrite (proj2 (Nat.eqb_neq _ _)) by (by destruct k). unfold get_st, bolt_write, mbind, M_bind.
  destruct (tx_get m b n mm k tx Hb Hn) as [Hg _]. pose proof (tx_present m b n mm k tx Hb Hn) as Hp.
  destruct (tx_put m b n mm k v tx) as (tx' & -> & Hw' & Hn' & Ev); try done.
  set (acc' := pair (match bolt_Get n k tx with Some old => acc.1 + _ | None => _ end) _).
  assert (spec_put (tv m tx, acc.2) (b, k, norm v) = (tv m tx', acc'.2)) as ->.
  { unfold spec_put, acc'. cbn [fst snd]. rewrite Hp, Hg, Ev. by destruct (mm !! k). }
  exact (IH acc' tx' _ Hw' Hn').
Qed.

(** Enumerations of the collector, and the flat lists they visit. *)
Definition flat_dels (l : list (Bucket * list bytes)) : list (Bucket * bytes) :=
  l ≫= fun p => pair p.1 <$> p.2.
Definition flat_puts (l : list (Bucket * list (bytes * value))) : list (Bucket * bytes * value) :=
  l ≫= fun p => (fun q => (p.1, q.1, q.2)) <$> p.2.
Definition norm_put (p : Bucket * bytes * value) : Bucket * bytes * value := (p.1, norm p.2).

Lemma dom_spec_dels l st : dom (foldl spec_del st l).1 = (dom st.1 : gset Bucket).
Proof. revert st. induction l as [|p l IH]; intros st; [done|]. cbn [foldl]. rewrite IH. apply dom_c_del. Qed.
Lemma dom_spec_puts l st : dom (foldl spec_put st l).1 = (dom st.1 : gset Bucket).
Proof. revert st. induction l as [|p l IH]; intros st; [done|]. cbn [foldl]. rewrite IH. apply dom_c_put. Qed.

Lemma delete_buckets_run m dels acc tx : names_ok m -> tx_writable tx ->
  Forall (fun p => p.1 ∈ dom (tv m tx) /\ Forall (fun k => k <> []) p.2) dels ->
  exists tx' d, tx_writable tx' /\
    let out := foldl spec_del (tv m tx, acc.2) (flat_dels dels) in
    each_bucket m delete_keys dels acc tx = (tx', Ok (d, out.2)) /\ tv m tx' = out.1.
Proof.
  intros Hm. revert acc tx. induction dels as [|[b ks] dels IH]; intros acc tx Hw Hd; cbn [each_bucket].
  { exists tx, acc.1. split; [done|]. by destruct acc. }
  apply Forall_cons in Hd as [[Hb Hks] Hd]. cbn [fst snd] in Hb, Hks.
  destruct (open_bucket_dom m b tx Hb) as (n & mm & Ho & Hbn & Hn & _).
  unfold get_st, lift, mbind, M_bind. rewrite Ho.
  destruct (delete_keys_run m b n ks acc tx mm) as (tx1 & d1 & Hw1 & Hrun & Hv); try done. rewrite Hrun.
  change (flat_dels ((b, ks) :: dels)) with ((pair b <$> ks) ++ flat_dels dels). rewrite foldl_app.
  destruct (IH (d1, (foldl spec_del (tv m tx, acc.2) (pair b <$> ks)).2) tx1 Hw1) as (tx2 & d2 & Hw2 & Hr2 & Hv2).
  { rewrite Hv, dom_spec_dels. done. }
  exists tx2, d2. split; [done|]. cbv zeta. cbn [snd] in Hr2, Hv2. rewrite Hr2, Hv2, Hv.
  by rewrite <-surjective_pairing.
Qed.

Lemma put_buckets_run m ps acc tx : names_ok m -> tx_writable tx ->
  Forall (fun p => p.1 ∈ dom (tv m tx) /\ Forall (fun q => q.1 <> [] /\ fits q.1 q.2) p.2) ps ->
  exists tx' d, tx_writable tx' /\
    let out := foldl spec_put (tv m tx, acc.2) (norm_put <$> flat_puts ps) in
    each_bucket m put_keys ps acc tx = (tx', Ok (d, out.2)) /\ tv m tx' = out.1.
Proof.
  intros Hm. revert acc tx. induction ps as [|[b ks] ps IH]; intros acc tx Hw Hd; cbn [each_bucket].
  { exists tx, acc.1. split; [done|]. by destruct acc. }
  apply Forall_cons in Hd as [[Hb Hks] Hd]. cbn [fst snd] in Hb, Hks.
  destruct (open_bucket_dom m b tx Hb) as (n & mm & Ho & Hbn & Hn & _).
  unfold get_st, lift, mbind, M_bind. rewrite Ho.
  destruct (put_keys_run m b n ks acc tx mm) as (tx1 & d1 & Hw1 & Hrun & Hv); try done. rewrite Hrun.
  assert (norm_put <$> flat_puts ((b, ks) :: ps) =
    ((fun p => (b, p.1, norm p.2)) <$> ks) ++ (norm_put <$> flat_puts ps)) as ->.
  { unfold flat_puts. rewrite bind_cons, fmap_app, <-list_fmap_compose. done. }
  rewrite foldl_app.
  edestruct (IH (d1, (foldl spec_put (tv m tx, acc.2) ((fun p => (b, p.1, norm p.2)) <$> ks)).2) tx1 Hw1)
    as (tx2 & d2 & Hw2 & Hr2 & Hv2).
  { rewrite Hv, dom_spec_puts. done. }
  exists tx2, d2. split; [done|]. cbv zeta. cbn [snd] in Hr2, Hv2. rewrite Hr2, Hv2, Hv.
  by rewrite <-surjective_pairing.
Qed.

Definition enum_dels (dels : list (Bucket * list bytes)) (w : WriteCollector) : Prop :=
  exists bs, bs ≡ₚ map_to_list (deletes w) /\
    Forall2 (fun p (q : Bucket * gset bytes) => p.1 = q.1 /\ p.2 ≡ₚ elements q.2) dels bs.
Definition enum_puts (ps : list (Bucket * list (bytes * value))) (w : WriteCollector) : Prop :=
  exists bs, bs ≡ₚ map_to_list (puts w) /\
    Forall2 (fun p (q : Bucket * gmap bytes value) => p.1 = q.1 /\ p.2 ≡ₚ map_to_list q.2) ps bs.

Lemma flat_dels_perm dels w : enum_dels dels w -> flat_dels dels ≡ₚ all_deletes w.
Proof.
  intros (bs & Hbs & Hf). unfold all_deletes, Deletes. rewrite <-Hbs. clear Hbs.
  induction Hf as [|[b ks] [b' ks'] dels bs [Hb Hk] _ IH]; [done|]. simpl in Hb, Hk. subst b'.
  unfold flat_dels in *. rewrite !bind_cons. cbn [fst snd]. by rewrite Hk, IH.
Qed.
Lemma flat_puts_perm ps w : enum_puts ps w -> flat_puts ps ≡ₚ all_puts w.
Proof.
  intros (bs & Hbs & Hf). unfold all_puts, Puts. rewrite <-Hbs. clear Hbs.
  induction Hf as [|[b ks] [b' ks'] dels bs [Hb Hk] _ IH]; [done|]. simpl in Hb, Hk. subst b'.
  unfold flat_puts in *. rewrite !bind_cons. cbn [fst snd]. rewrite IH, Hk. apply Permutation_app_tail.
  apply reflexive_eq, list_fmap_ext. intros ? [? ?]. done.
Qed.

Lemma enum_exists w : (exists dels, enum_dels dels w) /\ (exists ps, enum_puts ps w).
Proof.
  split.
  - exists ((fun q => (q.1, elements q.2)) <$> map_to_list (deletes w)), (map_to_list (deletes w)).
    split; [done|]. apply Forall2_fmap_l, Forall_Forall2_diag, Forall_forall. by intros.
  - exists ((fun q => (q.1, map_to_list q.2)) <$> map_to_list (puts w)), (map_to_list (puts w)).
    split; [done|]. apply Forall2_fmap_l, Forall_Forall2_diag, Forall_forall. by intros.
Qed.

Lemma NoDup_grouped {K A B} `{EqDecision K} (l : list (K * A)) (f : K -> A -> list B) (key : B -> K) :
  NoDup l.*1 -> (forall k a, NoDup (f k a)) -> (forall k a x, x ∈ f k a -> key x = k) ->
  NoDup (l ≫= fun p => f p.1 p.2).
Proof.
  intros Hl Hf Hk. induction l as [|[k a] l IH]; [constructor|].
  rewrite fmap_cons in Hl. apply NoDup_cons in Hl as [Hn Hl]. rewrite bind_cons.
  apply NoDup_app. split_and!; [apply Hf| |by apply IH]. intros x Hx Hx'. apply Hn.
  apply list_elem_of_bind in Hx' as ([k' a'] & Hx' & Hin). apply Hk in Hx, Hx'. simpl in *.
  rewrite <-Hx, Hx'. by apply (list_elem_of_fmap_2 fst _ (k', a')).
Qed.

Lemma NoDup_all_deletes w : NoDup (all_deletes w).
Proof.
  unfold all_deletes. rewrite (list_bind_ext _ (fun p : Bucket * gset bytes => pair p.1 <$> elements p.2) _ _)
    by (by intros [? ?] || done).
  apply (NoDup_grouped _ (fun (b : Bucket) (ks : gset bytes) => pair b <$> elements ks) fst).
  - apply NoDup_fst_map_to_list.
  - intros b ks. apply NoDup_fmap; [by intros ? ? [=]|apply NoDup_elements].
  - intros b ks x (k & -> & _)%list_elem_of_fmap. done.
Qed.
Lemma NoDup_all_puts w : NoDup (all_puts w).*1.
Proof.
  assert ((all_puts w).*1 = map_to_list (puts w) ≫= fun p => pair p.1 <$> (map_to_list p.2).*1) as ->.
  { unfold all_puts, Puts. generalize (map_to_list (puts w)). induction l as [|[b kvs] l IH]; [done|].
    rewrite !bind_cons, fmap_app, IH. f_equal. rewrite <-!list_fmap_compose. apply list_fmap_ext.
    by intros ? [? ?]. }
  apply (NoDup_grouped _ (fun (b : Bucket) (kvs : gmap bytes value) => pair b <$> (map_to_list kvs).*1) fst).
  - apply NoDup_fst_map_to_list.
  - intros b ks. apply NoDup_fmap; [by intros ? ? [=]|apply NoDup_fst_map_to_list].
  - intros b ks x (k & -> & _)%list_elem_of_fmap. done.
Qed.

(** *** Recording a batch *)

Definition wc_record (w : WriteCollector) (op : batch_op) : WriteCollector :=
  match op with
  | (b, k, Some v) => RecordPut b k v w
  | (b, k, None) => RecordDelete b k w
  end.

Lemma wc_record_apply ops w c : wc_apply (foldl wc_record w ops) c = foldl apply_op (wc_apply w c) ops.
Proof.
  revert w. induction ops as [|[[b k] [v|]] ops IH]; intros w; cbn [foldl]; [done| |]; rewrite IH; cbn [wc_record apply_op];
    by rewrite ?wc_apply_put, ?wc_apply_del.
Qed.

Lemma wc_record_buckets ops w :
  wc_buckets (foldl wc_record w ops) = wc_buckets w ∪ list_to_set ((fun op => op.1.1) <$> ops).
Proof.
  revert w. induction ops as [|[[b k] [v|]] ops IH]; intros w; cbn [foldl]; [set_solver| |];
    rewrite IH; cbn [wc_record]; rewrite ?wc_buckets_put, ?wc_buckets_del; rewrite fmap_cons; cbn [fst list_to_set];
    set_solver.
Qed.

Lemma wc_record_puts ops w b k v :
  default ∅ (puts (foldl wc_record w ops) !! b) !! k = Some v ->
  (b, k, Some v) ∈ ops \/ default ∅ (puts w !! b) !! k = Some v.
Proof.
  revert w. induction ops as [|op ops IH]; intros w H; [by right|]. cbn [foldl] in H.
  destruct (IH _ H) as [?|H']; [left; by right|]. destruct op as [[b' k'] [v'|]]; cbn [wc_record] in H'.
  - rewrite puts_RecordPut in H'. case_bool_decide as E; [subst b'|by right].
    apply lookup_insert_Some in H' as [[-> ->]|[_ H']]; [left; left|by right].
  - rewrite puts_RecordDelete in H'. case_bool_decide as E; [subst b'|by right].
    apply lookup_delete_Some in H' as [_ H']. by right.
Qed.
Lemma wc_record_deletes ops w b k :
  k ∈ default ∅ (deletes (foldl wc_record w ops) !! b) ->
  (b, k, None) ∈ ops \/ k ∈ default ∅ (deletes w !! b).
Proof.
  revert w. induction ops as [|op ops IH]; intros w H; [by right|]. cbn [foldl] in H.
  destruct (IH _ H) as [?|H']; [left; by right|]. destruct op as [[b' k'] [v'|]]; cbn [wc_record] in H'.
  - rewrite deletes_RecordPut in H'. case_bool_decide as E; [subst b'|by right]. right. set_solver.
  - rewrite deletes_RecordDelete in H'. case_bool_decide as E; [subst b'|by right].
    apply elem_of_union in H' as [->%elem_of_singleton|H']; [left; left|by right].
Qed.

Definition d_record (b : durableBatch (Tx := Tx)) (op : batch_op) : durableBatch (Tx := Tx) :=
  match op with
  | (bk, k, Some v) => (batch_Put bk k v b).1
  | (bk, k, None) => (batch_Delete bk k b).1
  end.

Lemma d_record_ops ops b : b_closed b = false -> Forall (fun op => op.1.2 <> []) ops ->
  foldl d_record b ops = mkDB (b_tx b) (foldl wc_record (b_wc b) ops) false.
Proof.
  intros Hc Hops. revert b Hc. induction Hops as [|[[bk k] [v|]] ops Hk _ IH]; intros b Hc; cbn [foldl];
    [by destruct b; simpl in *; subst| |]; cbn [fst snd] in Hk;
    unfold d_record at 2, batch_Put, batch_Delete; rewrite Hc, (proj2 (Nat.eqb_neq _ _)) by (by destruct k);
    cbn [fst]; by rewrite IH.
Qed.
Lemma i_record_ops ops b : closed b = false -> Forall (fun op => op.1.2 <> []) ops ->
  foldl record_op b ops = mkBatch false (foldl wc_record (wc b) ops).
Proof.
  intros Hc Hops. revert b Hc. induction Hops as [|[[bk k] [v|]] ops Hk _ IH]; intros b Hc; cbn [foldl];
    [by destruct b; simpl in *; subst| |]; cbn [fst snd] in Hk;
    unfold record_op at 2, Inmem.batch_Put, Inmem.batch_Delete; rewrite Hc, (proj2 (Nat.eqb_neq _ _)) by (by destruct k);
    cbn [fst]; by rewrite IH.
Qed.

(** Values as the store gives them back. *)
Definition norm_op (op : batch_op) : batch_op := (op.1, norm <$> op.2).
Definition wc_norm (w : WriteCollector) : WriteCollector :=
  mkWC ((fun m : gmap bytes value => norm <$> m) <$> puts w) (deletes w).

Lemma wc_norm_record ops w : wc_norm (foldl wc_record w ops) = foldl wc_record (wc_norm w) (norm_op <$> ops).
Proof.
  revert w. induction ops as [|[[b k] [v|]] ops IH]; intros w; [done| |]; cbn [foldl fmap list_fmap]; rewrite IH;
    f_equal; unfold wc_norm, norm_op; cbn [wc_record fst snd fmap option_fmap option_map].
  - unfold RecordPut. cbn [puts deletes]. f_equal. rewrite lookup_fmap.
    destruct (puts w !! b) eqn:E; cbn [fmap option_fmap option_map];
      rewrite ?fmap_insert; apply map_eq; intros b'; rewrite !lookup_fmap;
      (destruct (decide (b' = b)) as [->|?];
        [rewrite !lookup_alter_eq|rewrite !lookup_alter_ne by done]);
      rewrite ?lookup_insert_eq, ?lookup_insert_ne, ?lookup_fmap, ?E by done; cbn; rewrite ?fmap_insert, ?fmap_empty; done.
  - unfold RecordDelete. cbn [puts deletes]. f_equal. rewrite lookup_fmap.
    destruct (puts w !! b) eqn:E; cbn [fmap option_fmap option_map]; [|done].
    apply map_eq; intros b'; rewrite !lookup_fmap;
      (destruct (decide (b' = b)) as [->|?];
        [rewrite !lookup_alter_eq|rewrite !lookup_alter_ne by done]);
      rewrite ?lookup_fmap, ?E by done; cbn; rewrite ?fmap_delete; done.
Qed.

Lemma all_puts_norm w : all_puts (wc_norm w) ≡ₚ norm_put <$> all_puts w.
Proof.
  unfold all_puts, Puts, wc_norm. cbn [puts]. rewrite map_to_list_fmap.
  generalize (map_to_list (puts w)). induction l as [|[b kvs] l IH]; [done|].
  rewrite fmap_cons, !bind_cons, fmap_app, IH. apply Permutation_app_tail. cbn [prod_map].
  rewrite map_to_list_fmap, <-!list_fmap_compose. apply reflexive_eq, list_fmap_ext. by intros ? [? ?].
Qed.

(** *** Commit *)

(** An operation the schema and the limits of bbolt allow. *)
Definition op_ok (c : contents) (op : batch_op) : Prop :=
  op.1.1 ∈ dom c /\ op.1.2 <> [] /\ match op.2 with Some v => fits op.1.2 v | None => True end.

(** An open batch: the store holds the write lock, the transaction shows the contents. *)
Definition batch_of s (tx : Tx) : Prop :=
  bolt_open (db s) /\ names_ok (bucketMap s) /\ bolt_writer (db s) = true /\ tx_writable tx /\
  tv (bucketMap s) tx = durable_view s.

Lemma NewBatch_run s : durable_ok s -> idle s ->
  exists s1 tx, NewBatch s = Some (s1, Ok (newBatch tx)) /\ batch_of s1 tx /\
    bucketMap s1 = bucketMap s /\ durable_view s1 = durable_view s.
Proof.
  intros [Ho Hn] Hi. unfold NewBatch. pose proof (bolt_Begin_law (db s) Ho) as HB. rewrite Hi in HB.
  destruct HB as (d & tx & -> & Ho' & Hw & Hv & Hvt & Hwt). simpl. eexists _, tx. split; [done|].
  unfold batch_of, durable_view, tv, set_db. cbn [db bucketMap]. by rewrite Hvt, Hv.
Qed.

Lemma enum_forall ops c dels ps w :
  w = foldl wc_record NewWriteCollector ops -> Forall (op_ok c) ops -> enum_dels dels w -> enum_puts ps w ->
  Forall (fun p => p.1 ∈ dom c /\ Forall (fun k => k <> []) p.2) dels /\
  Forall (fun p => p.1 ∈ dom c /\ Forall (fun q => q.1 <> [] /\ fits q.1 q.2) p.2) ps.
Proof.
  intros Hw Hops (bs & Hbs & Hd) (bs' & Hbs' & Hp).
  assert (forall b, b ∈ wc_buckets w -> b ∈ dom c) as Hdom.
  { intros b. rewrite Hw, wc_record_buckets. unfold wc_buckets at 1. simpl. rewrite !dom_empty_L, elem_of_union.
    intros [?|Hb]; [set_solver|]. apply elem_of_list_to_set, list_elem_of_fmap in Hb as (op & -> & Hin).
    rewrite Forall_forall in Hops. by apply Hops. }
  rewrite Forall_forall in Hops. split.
  - apply Forall_forall. intros [b ks] Hin. apply list_elem_of_lookup_1 in Hin as [i Hi].
    destruct (Forall2_lookup_l _ _ _ _ _ Hd Hi) as ([b' ks'] & Hi' & Hb & Hks). simpl in *. subst b'.
    apply list_elem_of_lookup_2 in Hi'. rewrite Hbs in Hi'. apply elem_of_map_to_list in Hi'. split.
    + apply Hdom, elem_of_union_r, elem_of_dom. eauto.
    + apply Forall_forall. intros k Hk. rewrite Hks, elem_of_elements in Hk.
      destruct (wc_record_deletes ops NewWriteCollector b k) as [Ho|Ho]; [by rewrite <-Hw, Hi'| |].
      * apply Hops in Ho. apply Ho.
      * simpl in Ho. rewrite lookup_empty in Ho. set_solver.
  - apply Forall_forall. intros [b ks] Hin. apply list_elem_of_lookup_1 in Hin as [i Hi].
    destruct (Forall2_lookup_l _ _ _ _ _ Hp Hi) as ([b' ks'] & Hi' & Hb & Hks). simpl in *. subst b'.
    apply list_elem_of_lookup_2 in Hi'. rewrite Hbs' in Hi'. apply elem_of_map_to_list in Hi'. split.
    + apply Hdom, elem_of_union_l, elem_of_dom. eauto.
    + apply Forall_forall. intros [k v] Hk. rewrite Hks, elem_of_map_to_list in Hk. simpl.
      destruct (wc_record_puts ops NewWriteCollector b k v) as [Ho|Ho]; [by rewrite <-Hw, Hi'| |].
      * apply Hops in Ho. apply Ho.
      * simpl in Ho. by rewrite lookup_empty in Ho.
Qed.

Lemma Commit_run ops dels ps s tx :
  batch_of s tx -> Forall (op_ok (durable_view s)) ops ->
  let b := foldl d_record (newBatch tx) ops in
  enum_dels dels (b_wc b) -> enum_puts ps (b_wc b) ->
  exists s' b' r, Commit_in dels ps b s = (s', b', r) /\ b_closed b' = true /\
    durable_ok s' /\ idle s' /\ bucketMap s' = bucketMap s /\
    match r with
    | Ok info => (durable_view s', info) =
        spec_commit (flat_dels dels) (norm_put <$> flat_puts ps) (durable_view s)
    | Err _ => durable_view s' = durable_view s
    | Panicked => False
    end.
Proof.
  intros (Ho & Hn & Hw & Htx & Hv) Hops b.
  assert (b = mkDB tx (foldl wc_record NewWriteCollector ops) false) as ->.
  { unfold b. rewrite d_record_ops; [done|done|]. eapply Forall_impl; [exact Hops|]. intros op Hop. apply Hop. }
  cbn [b_wc]. intros Hd Hp. destruct (enum_forall ops (durable_view s) dels ps _ eq_refl Hops Hd Hp) as [Fd Fp].
  unfold Commit_in. cbn [b_closed b_tx b_wc].
  destruct (delete_buckets_run (bucketMap s) dels (0, mkCI 0 0) tx) as (tx1 & d1 & Hw1 & Hr1 & Hv1);
    [done|done|by rewrite Hv|]. cbn [snd] in Hr1, Hv1. rewrite Hv in Hr1, Hv1.
  unfold mbind, M_bind. rewrite Hr1.
  destruct (put_buckets_run (bucketMap s) ps (d1, (foldl spec_del (durable_view s, mkCI 0 0) (flat_dels dels)).2) tx1)
    as (tx2 & d2 & Hw2 & Hr2 & Hv2); [done|done| |].
  { by rewrite Hv1, dom_spec_dels. }
  cbn [snd] in Hr2, Hv2. rewrite Hv1, <-surjective_pairing in Hr2, Hv2. rewrite Hr2.
  pose proof (bolt_Commit_law tx2 (db s) Hw2 Ho Hw) as HC.
  destruct (bolt_Commit tx2 (db s)) as [d [e|]]; destruct HC as (Ho' & Hi' & _ & Hvd);
    eexists _, _, _; (split; [done|]); (split; [done|]); (split; [by split|]); (split; [done|]); (split; [done|]).
  - unfold durable_view, set_db. cbn [db bucketMap]. by rewrite Hvd.
  - unfold durable_view at 1. cbn [db bucketMap]. rewrite Hvd.
    change (view_of (bucketMap s) (tx_view tx2)) with (tv (bucketMap s) tx2). rewrite Hv2.
    unfold spec_commit. by rewrite <-surjective_pairing.
Qed.

Lemma spec_commit_effect ops dels ps c :
  let w := foldl wc_record NewWriteCollector ops in
  enum_dels dels w -> enum_puts ps w ->
  (spec_commit (flat_dels dels) (norm_put <$> flat_puts ps) c).1 = foldl apply_op c (norm_op <$> ops).
Proof.
  intros w Hd Hp. unfold spec_commit. rewrite spec_puts_1, spec_dels_1. cbn [fst].
  rewrite (commit_effect (wc_norm w)).
  - unfold w. rewrite wc_norm_record, wc_record_apply. f_equal. apply (wc_apply_new c).
  - by apply flat_dels_perm.
  - rewrite all_puts_norm. by rewrite (flat_puts_perm ps w).
Qed.

(** C26: A batch on the durable store is atomic: from a store with no open writer, starting a
    batch does not block, and committing recorded puts and deletes on known buckets, within
    the size limits of bbolt, either makes exactly the recorded changes in the recorded order
    (with empty values read back as nil), whatever order the maps are visited in, or fails
    and changes nothing; in both cases the batch is closed and the next writer can start. *)
Theorem durable_batch_commit ops s dels ps :
  durable_ok s -> idle s -> Forall (op_ok (durable_view s)) ops ->
  enum_dels dels (foldl wc_record NewWriteCollector ops) ->
  enum_puts ps (foldl wc_record NewWriteCollector ops) ->
  exists s1 b0, NewBatch s = Some (s1, Ok b0) /\ durable_view s1 = durable_view s /\
  exists s' b' r, Commit_in dels ps (foldl d_record b0 ops) s1 = (s', b', r) /\
    b_closed b' = true /\ durable_ok s' /\ idle s' /\
    match r with
    | Ok _ => durable_view s' = foldl apply_op (durable_view s) (norm_op <$> ops)
    | Err _ => durable_view s' = durable_view s
    | Panicked => False
    end.
Proof.
  intros Hs Hi Hops Hd Hp. destruct (NewBatch_run s Hs Hi) as (s1 & tx & HN & Hb & Hm & Hv).
  exists s1, (newBatch tx). split; [done|]. split; [done|]. rewrite <-Hv in Hops.
  assert (b_wc (foldl d_record (newBatch tx) ops) = foldl wc_record NewWriteCollector ops) as Ew.
  { rewrite d_record_ops; [done|done|]. eapply Forall_impl; [exact Hops|]. intros op Hop. apply Hop. }
  destruct (Commit_run ops dels ps s1 tx Hb Hops) as (s' & b' & r & HC & Hc & Hok & Hi' & _ & Hr);
    [by rewrite Ew..|].
  exists s', b', r. split_and!; [done..|]. destruct r as [info|e|]; [|by rewrite Hr|done].
  apply (f_equal fst) in Hr. cbn [fst] in Hr. by rewrite Hr, (spec_commit_effect ops), Hv.
Qed.

(** ** A commit that stops before bbolt's own commit *)

Lemma each_bucket_unknown {A B} m (body : bytes -> A -> B -> M Tx B) (good : A -> Prop) l acc tx :
  (forall b n mm a acc tx, tx_writable tx -> m !! b = Some n -> tx_view tx !! n = Some mm -> good a ->
    exists tx' acc', body n a acc tx = (tx', Ok acc') /\ tx_writable tx' /\ dom (tv m tx') = (dom (tv m tx) : gset Bucket)) ->
  tx_writable tx -> Forall (fun p => good p.2) l -> Exists (fun p => p.1 ∉ dom (tv m tx)) l ->
  exists tx', each_bucket m body l acc tx = (tx', Err [ErrBucketNotFound]).
Proof.
  intros Hbody. revert acc tx. induction l as [|[b a] l IH]; intros acc tx Hw Hg He; [by apply Exists_nil in He|].
  apply Forall_cons in Hg as [Ha Hg]. cbn [fst snd] in Ha. cbn [each_bucket]. unfold get_st, lift, mbind, M_bind.
  destruct (decide (b ∈ dom (tv m tx))) as [Hb|Hb].
  - destruct (open_bucket_dom m b tx Hb) as (n & mm & Ho & Hbn & Hn & _). rewrite Ho.
    destruct (Hbody b n mm a acc tx Hw Hbn Hn Ha) as (tx1 & acc1 & -> & Hw1 & Hd1).
    apply Exists_cons in He as [He|He]; [done|]. apply (IH acc1 tx1 Hw1 Hg). by rewrite Hd1.
  - pose proof (open_bucket_view m b tx) as Ho. apply not_elem_of_dom in Hb. rewrite Hb in Ho. rewrite Ho.
    by exists tx.
Qed.

Lemma enum_keys ops dels ps w :
  w = foldl wc_record NewWriteCollector ops ->
  Forall (fun op => op.1.2 <> [] /\ match op.2 with Some v => fits op.1.2 v | None => True end) ops ->
  enum_dels dels w -> enum_puts ps w ->
  Forall (fun p => Forall (fun k => k <> []) p.2) dels /\
  Forall (fun p => Forall (fun q => q.1 <> [] /\ fits q.1 q.2) p.2) ps.
Proof.
  intros Hw Hops Hd Hp.
  set (c := set_to_map (fun b => (b, ∅)) (list_to_set ((fun op => op.1.1) <$> ops) : gset Bucket) : contents).
  assert (Forall (op_ok c) ops) as Hok.
  { apply Forall_forall. intros op Hin. rewrite Forall_forall in Hops. split; [|by apply Hops].
    apply elem_of_dom. exists ∅. apply lookup_set_to_map; [done|]. exists op.1.1. split; [|done].
    apply elem_of_list_to_set, list_elem_of_fmap. eauto. }
  destruct (enum_forall ops c dels ps w Hw Hok Hd Hp) as [H1 H2].
  split; (eapply Forall_impl; [eassumption|]); simpl; intros ? [_ ?]; done.
Qed.

Lemma enum_unknown dels ps w b (D : gset Bucket) : enum_dels dels w -> enum_puts ps w ->
  b ∈ wc_buckets w -> b ∉ D ->
  Exists (fun p => p.1 ∉ D) dels \/ Exists (fun p => p.1 ∉ D) ps.
Proof.
  intros (bs & Hbs & Hd) (bs' & Hbs' & Hp) Hb Hn.
  unfold wc_buckets in Hb. apply elem_of_union in Hb as [[x Hx]%elem_of_dom|[x Hx]%elem_of_dom];
    apply elem_of_map_to_list in Hx; [right; rewrite <-Hbs' in Hx|left; rewrite <-Hbs in Hx];
    apply list_elem_of_lookup_1 in Hx as [i Hi]; apply Exists_exists.
  - destruct (Forall2_lookup_r _ _ _ _ _ Hp Hi) as (p & Hp' & E & _). exists p. split; [|by rewrite E].
    by apply list_elem_of_lookup_2 in Hp'.
  - destruct (Forall2_lookup_r _ _ _ _ _ Hd Hi) as (p & Hp' & E & _). exists p. split; [|by rewrite E].
    by apply list_elem_of_lookup_2 in Hp'.
Qed.

Lemma Commit_unknown ops dels ps s tx b :
  batch_of s tx ->
  Forall (fun op => op.1.2 <> [] /\ match op.2 with Some v => fits op.1.2 v | None => True end) ops ->
  let ba := foldl d_record (newBatch tx) ops in
  enum_dels dels (b_wc ba) -> enum_puts ps (b_wc ba) -> b ∈ wc_buckets (b_wc ba) -> b ∉ dom (durable_view s) ->
  exists tx', Commit_in dels ps ba s = (s, mkDB tx' (b_wc ba) true, Err [ErrBucketNotFound]).
Proof.
  intros (Ho & Hn & Hw & Htx & Hv) Hops ba.
  assert (ba = mkDB tx (foldl wc_record NewWriteCollector ops) false) as ->.
  { unfold ba. rewrite d_record_ops; [done|done|]. eapply Forall_impl; [exact Hops|]. intros op Hop. apply Hop. }
  cbn [b_wc]. intros Hd Hp Hb Hnb. destruct (enum_keys ops dels ps _ eq_refl Hops Hd Hp) as [Fd Fp].
  rewrite <-Hv in Hnb. unfold Commit_in. cbn [b_closed b_tx b_wc]. unfold mbind, M_bind.
  destruct (decide (Exists (fun p => p.1 ∉ dom (tv (bucketMap s) tx)) dels)) as [Hex|Hex].
  - destruct (each_bucket_unknown (bucketMap s) delete_keys (Forall (fun k => k <> [])) dels (0, mkCI 0 0) tx)
      as (tx' & ->); [|done|done|done|by exists tx'].
    intros b' n mm a acc tx' Hw' Hb' Hn' Ha.
    destruct (delete_keys_run (bucketMap s) b' n a acc tx' mm) as (tx2 & d & Hw2 & Hr & Hv2); try done.
    eexists tx2, _. split; [exact Hr|]. split; [done|]. rewrite Hv2. apply dom_spec_dels.
  - destruct (enum_unknown dels ps _ b _ Hd Hp Hb Hnb) as [?|Hps]; [done|].
    destruct (delete_buckets_run (bucketMap s) dels (0, mkCI 0 0) tx) as (tx1 & d1 & Hw1 & Hr1 & Hv1); [done|done| |].
    { apply Forall_forall. intros p Hin. split; [|rewrite Forall_forall in Fd; by apply Fd].
      destruct (decide (p.1 ∈ dom (tv (bucketMap s) tx))); [done|]. destruct Hex. apply Exists_exists. eauto. }
    cbn [snd] in Hr1, Hv1. rewrite Hr1.
    destruct (each_bucket_unknown (bucketMap s) put_keys (Forall (fun q => q.1 <> [] /\ fits q.1 q.2)) ps
      (d1, (foldl spec_del (tv (bucketMap s) tx, mkCI 0 0) (flat_dels dels)).2) tx1) as (tx' & Hr2);
      [|done|done|by rewrite Hv1, dom_spec_dels|rewrite Hr2; by exists tx'].
    intros b' n mm a acc tx' Hw' Hb' Hn' Ha.
    destruct (put_keys_run (bucketMap s) b' n a acc tx' mm) as (tx2 & d & Hw2 & Hr & Hv2); try done.
    eexists tx2, _. split; [exact Hr|]. split; [done|]. rewrite Hv2. apply dom_spec_puts.
Qed.

Lemma writer_blocks s : bolt_open (db s) -> bolt_writer (db s) = true ->
  NewBatch s = None /\ (forall b k v, k <> [] -> Put b k v s = None) /\ (forall b k, Durable.Delete b k s = None).
Proof.
  intros Ho Hw. pose proof (bolt_Begin_law (db s) Ho) as HB. rewrite Hw in HB.
  unfold NewBatch, Put, Durable.Delete, update_store, db_Update. rewrite HB. split_and!; [done| |done].
  intros b k v Hk. by rewrite (proj2 (Nat.eqb_neq _ _)) by (by destruct k).
Qed.

(** A commit that meets an unknown bucket fails and changes nothing, but its bbolt
    transaction stays open: the batch counts as closed, so Abort does nothing, and from then
    on NewBatch, Put and Delete wait for ever. *)
Theorem durable_failed_commit_blocks ops dels ps s tx b :
  batch_of s tx ->
  Forall (fun op => op.1.2 <> [] /\ match op.2 with Some v => fits op.1.2 v | None => True end) ops ->
  let ba := foldl d_record (newBatch tx) ops in
  enum_dels dels (b_wc ba) -> enum_puts ps (b_wc ba) -> b ∈ wc_buckets (b_wc ba) -> b ∉ dom (durable_view s) ->
  exists b', Commit_in dels ps ba s = (s, b', Err [ErrBucketNotFound]) /\
    Abort b' s = (s, b') /\ NewBatch s = None /\
    (forall bk k v, k <> [] -> Put bk k v s = None) /\ (forall bk k, Durable.Delete bk k s = None).
Proof.
  intros Hb Hops ba Hd Hp Hbk Hn. destruct (Commit_unknown ops dels ps s tx b) as (tx' & HC); try done.
  eexists. split; [exact HC|]. split; [done|]. destruct Hb as (Ho & _ & Hw & _). by apply writer_blocks.
Qed.

(** ** Single operations *)

Lemma db_Update_run {A} s (f : M Tx A) : durable_ok s -> idle s ->
  exists d1 tx, bolt_open d1 /\ bolt_writer d1 = true /\ db_view d1 = db_view (db s) /\
    tx_writable tx /\ tx_view tx = db_view (db s) /\
    db_Update f (db s) = Some match f tx with
      | (tx', Ok a) => let '(d2, r) := bolt_Commit tx' d1 in (d2, match r with None => Ok a | Some e => Err e end)
      | (tx', Err e) => (bolt_Rollback tx' d1, Err e)
      | (tx', Panicked) => (bolt_Rollback tx' d1, Panicked) end.
Proof.
  intros [Ho _] Hi. pose proof (bolt_Begin_law (db s) Ho) as HB. rewrite Hi in HB.
  destruct HB as (d1 & tx & HB & ? & ? & ? & ? & ?). exists d1, tx. split_and!; [done..|].
  unfold db_Update. by rewrite HB.
Qed.

(** A write either commits, or leaves the contents alone. *)
Definition failed {A} (r : res A) : Prop :=
  match r with Err e => e <> [ErrBucketNotFound] /\ e <> [ErrEmptyKey] | _ => False end.

Lemma with_old_run s (bk : Bucket) (k : bytes) (write : bytes -> Tx -> Tx * option error) (f : contents -> contents) :
  durable_ok s -> idle s ->
  (forall n mm tx, tx_writable tx -> bucketMap s !! bk = Some n -> tx_view tx !! n = Some mm ->
    exists tx', write n tx = (tx', None) /\ tx_writable tx' /\ tv (bucketMap s) tx' = f (tv (bucketMap s) tx)) ->
  exists s' r, update_store (with_old (bucketMap s) bk k write) s = Some (s', r) /\
    durable_ok s' /\ idle s' /\
    (failed r /\ durable_view s' = durable_view s \/
     match durable_view s !! bk with
     | None => r = Err [ErrBucketNotFound] /\ durable_view s' = durable_view s
     | Some m => r = Ok (mjoin (m !! k)) /\ durable_view s' = f (durable_view s)
     end).
Proof.
  intros Hs Hi Hwr. unfold update_store.
  destruct (db_Update_run s (with_old (bucketMap s) bk k write) Hs Hi) as (d1 & tx & Ho1 & Hw1 & Hv1 & Hwt & Hvt & ->).
  destruct Hs as [Ho Hn]. assert (tv (bucketMap s) tx = durable_view s) as Etv by (unfold tv, durable_view; by rewrite Hvt).
  unfold with_old. pose proof (open_bucket_view (bucketMap s) bk tx) as Hob. rewrite Etv in Hob.
  destruct (durable_view s !! bk) as [c|] eqn:Ec.
  - destruct Hob as (n & mm & -> & Hb & Htn & ->).
    destruct (Hwr n mm tx Hwt Hb Htn) as (tx' & -> & Hwt' & Hv').
    pose proof (bolt_Commit_law tx' d1 Hwt' Ho1 Hw1) as HC.
    destruct (bolt_Commit tx' d1) as [d2 [e|]]; destruct HC as (Ho2 & Hi2 & Hne & Hv2); simpl;
      eexists _, _; (split; [done|]); (split; [by split|]); (split; [done|]).
    + left. split; [case_bool_decide; [congruence|done]|]. unfold durable_view, set_db. cbn [db bucketMap]. by rewrite Hv2, Hv1.
    + right. split.
      * rewrite lookup_fmap. destruct (tx_get (bucketMap s) bk n mm k tx Hb Htn) as [-> _]. by destruct (mm !! k).
      * unfold durable_view at 1, set_db. cbn [db bucketMap]. rewrite Hv2.
        change (view_of (bucketMap s) (tx_view tx')) with (tv (bucketMap s) tx'). by rewrite Hv', Etv.
  - rewrite Hob. simpl. destruct (bolt_Rollback_law tx d1 Ho1 Hw1) as (Ho2 & Hi2 & Hv2).
    eexists _, _. split; [done|]. split; [by split|]. split; [done|]. right. split; [done|].
    unfold durable_view, set_db. cbn [db bucketMap]. by rewrite Hv2, Hv1.
Qed.

Lemma Put_run s bk k v : durable_ok s -> idle s -> k <> [] -> fits k v ->
  exists s' r, Put bk k v s = Some (s', r) /\ durable_ok s' /\ idle s' /\
    (failed r /\ durable_view s' = durable_view s \/
     match durable_view s !! bk with
     | None => r = Err [ErrBucketNotFound] /\ durable_view s' = durable_view s
     | Some m => r = Ok (mjoin (m !! k)) /\ durable_view s' = c_put bk k (norm v) (durable_view s)
     end).
Proof.
  intros Hs Hi Hk Hf. unfold Put. rewrite (proj2 (Nat.eqb_neq _ _)) by (by destruct k).
  apply with_old_run; [done|done|]. intros n mm tx Hw Hb Hn. destruct Hs as [_ Hm].
  destruct (tx_put (bucketMap s) bk n mm k v tx) as (tx' & ? & ? & _ & ?); eauto.
Qed.

Lemma Delete_run s bk k : durable_ok s -> idle s ->
  exists s' r, Durable.Delete bk k s = Some (s', r) /\ durable_ok s' /\ idle s' /\
    (failed r /\ durable_view s' = durable_view s \/
     match durable_view s !! bk with
     | None => r = Err [ErrBucketNotFound] /\ durable_view s' = durable_view s
     | Some m => r = Ok (mjoin (m !! k)) /\ durable_view s' = c_del bk k (durable_view s)
     end).
Proof.
  intros Hs Hi. apply with_old_run; [done|done|]. intros n mm tx Hw Hb Hn. destruct Hs as [_ Hm].
  destruct (tx_delete (bucketMap s) bk n mm k tx) as (tx' & ? & ? & _ & ?); eauto.
Qed.

Lemma Get_run s bk k : durable_ok s ->
  Get bk k s = match durable_view s !! bk with
               | None => Err [ErrBucketNotFound]
               | Some m => Ok (mjoin (m !! k)) end.
Proof.
  intros [Ho Hn]. unfold Get, db_View. destruct (bolt_BeginRO_law (db s) Ho) as (tx & -> & Hv).
  pose proof (open_bucket_view (bucketMap s) bk tx) as Hob. unfold tv in Hob. rewrite Hv in Hob.
  change (view_of (bucketMap s) (db_view (db s))) with (durable_view s) in Hob.
  destruct (durable_view s !! bk) as [c|]; [|by rewrite Hob].
  destruct Hob as (n & mm & -> & Hb & Htn & ->). simpl.
  rewrite <-Hv in Htn. destruct (tx_get (bucketMap s) bk n mm k tx Hb Htn) as [-> _].
  rewrite lookup_fmap. by destruct (mm !! k).
Qed.

(** The pairs a full scan visits. *)
Definition d_scan_items (bk : Bucket) s : res (list (bytes * value)) :=
  Scan bk (fun out k v => (out ++ [(k, v)], true)) [] s.

Lemma Scan_run s bk : durable_ok s ->
  match durable_view s !! bk with
  | None => d_scan_items bk s = Err [ErrBucketNotFound]
  | Some m => exists l, d_scan_items bk s = Ok l /\ key_sorted fst l /\ list_to_map l = m
  end.
Proof.
  intros [Ho Hn]. unfold d_scan_items, Scan, view_cursor, db_View.
  destruct (bolt_BeginRO_law (db s) Ho) as (tx & -> & Hv).
  pose proof (open_bucket_view (bucketMap s) bk tx) as Hob. unfold tv in Hob. rewrite Hv in Hob.
  change (view_of (bucketMap s) (db_view (db s))) with (durable_view s) in Hob.
  destruct (durable_view s !! bk) as [c|]; [|by rewrite Hob].
  destruct Hob as (n & mm & -> & Hb & Htn & ->). simpl.
  rewrite <-Hv in Htn. destruct (bolt_Cursor_law n mm tx Htn) as [Hs Hm].
  assert (forall l out, scan_loop (fun out k v => (out ++ [(k, v)], true)) out l
    = out ++ (prod_map id cp <$> l)) as HL.
  { induction l as [|[k v] l IH]; intros out; simpl; [by rewrite app_nil_r|]. by rewrite IH, <-app_assoc. }
  rewrite HL. eexists. split; [done|]. simpl. split.
  - clear -Hs. unfold key_sorted in *. induction Hs as [|x l ? IH Hx]; [constructor|]. rewrite fmap_cons.
    constructor; [done|]. apply Forall_fmap. exact Hx.
  - rewrite <-Hm. apply (list_to_map_fmap cp).
Qed.
End DurableInv.

(** ** Agreement of the two stores *)

(** No stored value is nil or empty, as for all values this program writes. *)
Definition full (c : contents) : Prop :=
  forall b m k v, c !! b = Some m -> m !! k = Some v -> exists x r, v = Some (x :: r).
Definition nonempty (v : value) : Prop := exists x r, v = Some (x :: r).

Lemma norm_full v : nonempty v -> norm v = v.
Proof. by intros (x & r & ->). Qed.

Lemma full_put (b : Bucket) (k : bytes) (v : value) (c : contents) : full c -> nonempty v -> full (c_put b k v c).
Proof.
  intros Hc Hv b' m k' v' Hb Hk. unfold c_put in Hb. destruct (decide (b' = b)) as [->|?].
  - rewrite lookup_alter_eq in Hb. destruct (c !! b) as [m0|] eqn:E; simplify_eq/=.
    apply lookup_insert_Some in Hk as [[_ <-]|[_ Hk]]; [done|by eapply Hc].
  - rewrite lookup_alter_ne in Hb by done. by eapply Hc.
Qed.
Lemma full_del (b : Bucket) (k : bytes) (c : contents) : full c -> full (c_del b k c).
Proof.
  intros Hc b' m k' v' Hb Hk. unfold c_del in Hb. destruct (decide (b' = b)) as [->|?].
  - rewrite lookup_alter_eq in Hb. destruct (c !! b) as [m0|] eqn:E; simplify_eq/=.
    apply lookup_delete_Some in Hk as [_ Hk]. by eapply Hc.
  - rewrite lookup_alter_ne in Hb by done. by eapply Hc.
Qed.

Lemma full_present (c : contents) (b : Bucket) (m : gmap bytes value) (k : bytes) : full c -> c !! b = Some m ->
  bool_decide (present c (b, k)) = match mjoin (m !! k) with Some _ => true | None => false end.
Proof.
  intros Hc Hb. destruct (m !! k) as [v|] eqn:E.
  - destruct (Hc b m k v Hb E) as (x & r & ->). apply bool_decide_eq_true_2. unfold present. cbn [fst snd].
    rewrite Hb. simpl. rewrite E. eauto.
  - apply bool_decide_eq_false_2. unfold present. cbn [fst snd]. rewrite Hb. simpl. rewrite E. by intros [? ?].
Qed.

Section InmemRuns.
Context {T : Type} {BT : BTree item_less T}.
Implicit Types s : InmemStore T.

Lemma mem_Get s (bk : Bucket) (k : bytes) : Inmem.store_ok s ->
  Inmem.Get bk k s = match store_view s !! bk with
                     | None => Err [ErrBucketNotFound]
                     | Some m => Ok (mjoin (m !! k)) end.
Proof.
  intros Hs. unfold Inmem.Get, unsafeGet. rewrite lookup_store_view.
  destruct (buckets s !! bk) as [t|]; simpl; [|done].
  rewrite lookup_tree_map, bt_Get_items. change item_less with (key_less it_Key).
  rewrite (ref_get_find it_Key). simpl. by destruct (find_key it_Key k (bt_Items t)).
Qed.

Lemma mem_Put s (bk : Bucket) (k : bytes) (v : value) : Inmem.store_ok s -> k <> [] ->
  match store_view s !! bk with
  | None => unsafePut bk k v s = (s, Err [ErrBucketNotFound])
  | Some m => exists s', unsafePut bk k v s = (s', Ok (mjoin (m !! k))) /\ Inmem.store_ok s' /\
      store_view s' = c_put bk k v (store_view s)
  end.
Proof.
  intros Hs Hk. destruct (store_view s !! bk) as [m|] eqn:Em.
  - destruct (unsafePut_view bk k v s Hs Hk) as (s' & old & Hr & Hs' & Hv); [by apply elem_of_dom|].
    exists s'. split; [|done]. rewrite Hr. f_equal. unfold unsafePut in Hr.
    rewrite (proj2 (Nat.eqb_neq _ _)) in Hr by (by destruct k). rewrite lookup_store_view in Em.
    destruct (buckets s !! bk) as [t|]; simplify_eq/=.
    pose proof (bt_RoI_old (mkItem k v) t) as Ho. destruct (bt_ReplaceOrInsert (mkItem k v) t) as [t' o].
    simpl in Ho. injection Hr as _ <-. f_equal. rewrite lookup_tree_map, Ho.
    change item_less with (key_less it_Key). rewrite (ref_get_find it_Key). simpl.
    by destruct (find_key it_Key k (bt_Items t)).
  - unfold unsafePut. rewrite (proj2 (Nat.eqb_neq _ _)) by (by destruct k).
    rewrite lookup_store_view in Em. by destruct (buckets s !! bk).
Qed.

Lemma mem_Delete s (bk : Bucket) (k : bytes) : Inmem.store_ok s ->
  match store_view s !! bk with
  | None => unsafeDelete bk k s = (s, Err [ErrBucketNotFound])
  | Some m => exists s', unsafeDelete bk k s = (s', Ok (mjoin (m !! k))) /\ Inmem.store_ok s' /\
      store_view s' = c_del bk k (store_view s)
  end.
Proof.
  intros Hs. destruct (store_view s !! bk) as [m|] eqn:Em.
  - destruct (unsafeDelete_view bk k s Hs) as (s' & old & Hr & Hs' & Hv); [by apply elem_of_dom|].
    exists s'. split; [|done]. rewrite Hr. f_equal. unfold unsafeDelete in Hr. rewrite lookup_store_view in Em.
    destruct (buckets s !! bk) as [t|]; simplify_eq/=.
    pose proof (bt_Delete_old (mkItem k None) t) as Ho. destruct (bt_Delete (mkItem k None) t) as [t' o].
    simpl in Ho. injection Hr as _ <-. f_equal. rewrite lookup_tree_map, Ho.
    change item_less with (key_less it_Key). rewrite (ref_get_find it_Key). simpl.
    by destruct (find_key it_Key k (bt_Items t)).
  - unfold unsafeDelete. rewrite lookup_store_view in Em. by destruct (buckets s !! bk).
Qed.

Lemma mem_deletes l acc s : Inmem.store_ok s -> full (store_view s) -> Forall (fun p => p.1 ∈ dom (store_view s)) l ->
  exists s' d, Inmem.store_ok s' /\ full (store_view s') /\
    let out := foldl spec_del (store_view s, acc.2) l in
    commit_deletes l acc s = (s', Ok (d, out.2)) /\ store_view s' = out.1.
Proof.
  revert acc s. induction l as [|[b k] l IH]; intros acc s Hs Hf Hl; cbn [commit_deletes foldl].
  { exists s, acc.1. by destruct acc. }
  apply Forall_cons in Hl as [[m Hm]%elem_of_dom Hl]. cbn [fst] in Hm.
  pose proof (mem_Delete s b k Hs) as HD. rewrite Hm in HD. destruct HD as (s1 & Hr & Hs1 & Hv1).
  unfold mbind, M_bind. rewrite Hr. set (acc' := match mjoin (m !! k) with Some o => _ | None => _ end).
  assert (spec_del (store_view s, acc.2) (b, k) = (store_view s1, acc'.2)) as ->.
  { unfold spec_del, acc'. cbn [fst snd]. rewrite Hv1, (full_present _ b m) by done. by destruct (mjoin (m !! k)). }
  apply (IH acc' s1); [done|rewrite Hv1; by apply full_del|by rewrite Hv1, dom_c_del].
Qed.

Lemma mem_puts l acc s : Inmem.store_ok s -> full (store_view s) ->
  Forall (fun p => p.1.1 ∈ dom (store_view s) /\ p.1.2 <> [] /\ nonempty p.2) l ->
  exists s' d, Inmem.store_ok s' /\ full (store_view s') /\
    let out := foldl spec_put (store_view s, acc.2) l in
    commit_puts l acc s = (s', Ok (d, out.2)) /\ store_view s' = out.1.
Proof.
  revert acc s. induction l as [|[[b k] v] l IH]; intros acc s Hs Hf Hl; cbn [commit_puts foldl].
  { exists s, acc.1. by destruct acc. }
  apply Forall_cons in Hl as [([m Hm]%elem_of_dom & Hk & Hne) Hl]. cbn [fst snd] in Hm, Hk, Hne.
  pose proof (mem_Put s b k v Hs Hk) as HD. rewrite Hm in HD. destruct HD as (s1 & Hr & Hs1 & Hv1).
  unfold mbind, M_bind. rewrite Hr. set (acc' := match mjoin (m !! k) with Some o => _ | None => _ end).
  assert (spec_put (store_view s, acc.2) (b, k, v) = (store_view s1, acc'.2)) as ->.
  { unfold spec_put, acc'. cbn [fst snd]. rewrite Hv1, (full_present _ b m) by done. by destruct (mjoin (m !! k)). }
  apply (IH acc' s1); [done|rewrite Hv1; by apply full_put|by rewrite Hv1, dom_c_put].
Qed.
End InmemRuns.

(** *** Calls on a store, their meaning on the contents, and the two implementations *)

Inductive sop :=
  | SGet (b : Bucket) (k : bytes) | SScan (b : Bucket) | SPut (b : Bucket) (k : bytes) (v : value)
  | SDelete (b : Bucket) (k : bytes) | SBatch (ops : list batch_op).
Inductive answer :=
  | AVal (r : res value) | AItems (r : res (list (bytes * value))) | AInfo (r : res CommitInfo).

Definition spec_val (c : contents) (b : Bucket) (k : bytes) : res value :=
  match c !! b with None => Err [ErrBucketNotFound] | Some m => Ok (mjoin (m !! k)) end.

Inductive spec_step (c : contents) : sop -> contents -> answer -> Prop :=
  | sp_get b k : spec_step c (SGet b k) c (AVal (spec_val c b k))
  | sp_scan_none b : c !! b = None -> spec_step c (SScan b) c (AItems (Err [ErrBucketNotFound]))
  | sp_scan b m l : c !! b = Some m -> key_sorted fst l -> list_to_map l = m ->
      spec_step c (SScan b) c (AItems (Ok l))
  | sp_put_empty b v : spec_step c (SPut b [] v) c (AVal (Err [ErrEmptyKey]))
  | sp_put b k v : k <> [] -> spec_step c (SPut b k v) (c_put b k v c) (AVal (spec_val c b k))
  | sp_delete b k : spec_step c (SDelete b k) (c_del b k c) (AVal (spec_val c b k))
  | sp_batch ops w out : w = foldl wc_record NewWriteCollector ops ->
      out = spec_commit (all_deletes w) (all_puts w) c ->
      spec_step c (SBatch ops) out.1 (AInfo (Ok out.2)).

Inductive runs {S} (step : S -> sop -> S -> answer -> Prop) : S -> list sop -> S -> list answer -> Prop :=
  | runs_nil s : runs step s [] s []
  | runs_cons s op s1 a ops s2 l : step s op s1 a -> runs step s1 ops s2 l -> runs step s (op :: ops) s2 (a :: l).

(** A call the two stores agree on. It leaves out the calls on which they differ: a batch that
    touches an unknown bucket or records an empty key (its commit leaves bbolt's transaction
    open, [durable_failed_commit_blocks]), a put of an empty value (it reads back as nil from
    the durable store), and keys and values bbolt refuses for their size. *)
Definition sop_ok (D : gset Bucket) (op : sop) : Prop :=
  match op with
  | SPut b k v => fits k v /\ nonempty v
  | SBatch ops => Forall (fun op => op.1.1 ∈ D /\ op.1.2 <> [] /\
      match op.2 with Some v => fits op.1.2 v /\ nonempty v | None => True end) ops
  | _ => True
  end.

Lemma sorted_pairs_unique (l l' : list (bytes * value)) :
  key_sorted fst l -> key_sorted fst l' ->
  (list_to_map l : gmap bytes value) = list_to_map l' -> l = l'.
Proof.
  intros Hl Hl' Hm. assert (forall l : list (bytes * value), forall k, snd <$> find_key fst k l = (list_to_map l : gmap bytes value) !! k) as HF.
  { clear. intros l k. unfold find_key. induction l as [|[k' v] l IH]; [done|]. rewrite filter_cons.
    cbn [list_to_map foldr fst snd]. case_decide as E; simpl in E.
    - subst k'. by rewrite lookup_insert_eq.
    - by rewrite lookup_insert_ne. }
  apply (key_sorted_ext fst); [done|done|]. intros k. pose proof (HF l k) as H1. rewrite Hm, <-HF in H1.
  destruct (find_key fst k l) as [[k1 v1]|] eqn:E1, (find_key fst k l') as [[k2 v2]|] eqn:E2; simplify_eq/=; [|done].
  apply find_key_Some in E1 as [_ E1], E2 as [_ E2]. simpl in *. by subst.
Qed.

Lemma spec_step_det c op c1 a1 c2 a2 : spec_step c op c1 a1 -> spec_step c op c2 a2 -> c1 = c2 /\ a1 = a2.
Proof.
  intros H1 H2. inversion H1; subst; inversion H2; subst; try done; try congruence.
  split; [done|]. do 2 f_equal. apply sorted_pairs_unique; [done|done|]. congruence.
Qed.

Lemma spec_step_dom c op c' a : spec_step c op c' a -> dom c' = (dom c : gset Bucket).
Proof.
  destruct 1; subst; try done; [apply dom_c_put|apply dom_c_del|].
  unfold spec_commit. by rewrite dom_spec_puts, dom_spec_dels.
Qed.

(** The batch of an operation list, in terms of its collector. *)
Lemma batch_facts D ops w : w = foldl wc_record NewWriteCollector ops -> sop_ok D (SBatch ops) ->
  Forall (fun p => p.1 ∈ D) (all_deletes w) /\
  Forall (fun p => p.1.1 ∈ D /\ p.1.2 <> [] /\ nonempty p.2) (all_puts w).
Proof.
  intros -> Hops. simpl in Hops. rewrite Forall_forall in Hops. split; apply Forall_forall.
  - intros [b k] Hin. apply elem_all_deletes in Hin.
    destruct (wc_record_deletes ops NewWriteCollector b k Hin) as [Ho|Ho]; [by apply Hops in Ho as [? _]|].
    simpl in Ho. rewrite lookup_empty in Ho. set_solver.
  - intros [[b k] v] Hin. apply elem_all_puts in Hin.
    destruct (wc_record_puts ops NewWriteCollector b k v Hin) as [Ho|Ho]; [apply Hops in Ho; simpl in *; tauto|].
    simpl in Ho. by rewrite lookup_empty in Ho.
Qed.

Section Agreement.
Context {DB Tx File : Type} {BO : Bolt DB Tx File} {T : Type} {BT : BTree item_less T}.
Implicit Types (d : boltStore (DB := DB)) (s : InmemStore T).

Inductive mem_step s : sop -> InmemStore T -> answer -> Prop :=
  | mem_get b k : mem_step s (SGet b k) s (AVal (Inmem.Get b k s))
  | mem_scan b : mem_step s (SScan b) s (AItems (scan_items b s))
  | mem_put b k v s' r : Inmem.Put b k v s = (s', r) -> mem_step s (SPut b k v) s' (AVal r)
  | mem_delete b k s' r : Inmem.Delete b k s = (s', r) -> mem_step s (SDelete b k) s' (AVal r)
  | mem_batch ops dels ps s' b' r :
      dels ≡ₚ all_deletes (wc (foldl record_op Inmem.newBatch ops)) ->
      ps ≡ₚ all_puts (wc (foldl record_op Inmem.newBatch ops)) ->
      Inmem.Commit_in dels ps (foldl record_op Inmem.newBatch ops) s = (s', b', r) ->
      mem_step s (SBatch ops) s' (AInfo r).

(** A call that waits for another writer is not a step. *)
Inductive dur_step d : sop -> boltStore (DB := DB) -> answer -> Prop :=
  | dur_get b k : dur_step d (SGet b k) d (AVal (Get b k d))
  | dur_scan b : dur_step d (SScan b) d (AItems (d_scan_items b d))
  | dur_put b k v d' r : Put b k v d = Some (d', r) -> dur_step d (SPut b k v) d' (AVal r)
  | dur_delete b k d' r : Durable.Delete b k d = Some (d', r) -> dur_step d (SDelete b k) d' (AVal r)
  | dur_batch ops dels ps d1 b0 d' b' r :
      NewBatch d = Some (d1, Ok b0) ->
      enum_dels dels (b_wc (foldl d_record b0 ops)) -> enum_puts ps (b_wc (foldl d_record b0 ops)) ->
      Commit_in dels ps (foldl d_record b0 ops) d1 = (d', b', r) ->
      dur_step d (SBatch ops) d' (AInfo r).

(** A call that bbolt refused or could not write. *)
Definition io_failed (a : answer) : Prop :=
  match a with AVal r => failed r | AInfo (Err _) => True | _ => False end.

Lemma mem_step_spec s op s' a : Inmem.store_ok s -> full (store_view s) -> sop_ok (dom (store_view s)) op ->
  mem_step s op s' a ->
  Inmem.store_ok s' /\ full (store_view s') /\ spec_step (store_view s) op (store_view s') a.
Proof.
  intros Hs Hf Hop Hstep.
  destruct Hstep as [b k|b|b k v s' r Hr|b k s' r Hr|ops dels ps s' b' r Hd Hp Hr].
  - split_and!; [done..|]. rewrite mem_Get by done. constructor.
  - split_and!; [done..|]. rewrite scan_items_spec. pose proof (lookup_store_view s b) as E.
    destruct (buckets s !! b) as [t|] eqn:Et; simpl in E; [|by constructor].
    eapply sp_scan; [exact E| |done]. apply key_sorted_pairs. by eapply Hs.
  - destruct Hop as [_ Hne]. unfold Inmem.Put in Hr. destruct (decide (k = [])) as [->|Hk].
    { injection Hr as <- <-. split_and!; [done..|]. constructor. }
    pose proof (mem_Put s b k v Hs Hk) as HP. destruct (store_view s !! b) as [m|] eqn:Em.
    + destruct HP as (s1 & HP & Hs1 & Hv1). rewrite HP in Hr. injection Hr as <- <-.
      split_and!; [done|rewrite Hv1; by apply full_put|]. rewrite Hv1.
      replace (Ok (mjoin (m !! k))) with (spec_val (store_view s) b k); [by constructor|].
      unfold spec_val. by rewrite Em.
    + rewrite HP in Hr. injection Hr as <- <-. split_and!; [done..|].
      pose proof (sp_put (store_view s) b k v Hk) as H. unfold spec_val in H. rewrite Em in H.
      unfold c_put in H. by rewrite alter_id in H by (intros; congruence).
  - unfold Inmem.Delete in Hr.
    pose proof (mem_Delete s b k Hs) as HP. destruct (store_view s !! b) as [m|] eqn:Em.
    + destruct HP as (s1 & HP & Hs1 & Hv1). rewrite HP in Hr. injection Hr as <- <-.
      split_and!; [done|rewrite Hv1; by apply full_del|]. rewrite Hv1.
      replace (Ok (mjoin (m !! k))) with (spec_val (store_view s) b k); [by constructor|].
      unfold spec_val. by rewrite Em.
    + rewrite HP in Hr. injection Hr as <- <-. split_and!; [done..|].
      pose proof (sp_delete (store_view s) b k) as H. unfold spec_val in H. rewrite Em in H.
      unfold c_del in H. by rewrite alter_id in H by (intros; congruence).
  - assert (foldl record_op Inmem.newBatch ops = mkBatch false (foldl wc_record NewWriteCollector ops)) as E.
    { apply i_record_ops; [done|]. eapply Forall_impl; [exact Hop|]. simpl. tauto. }
    rewrite E in Hd, Hp, Hr. cbn [wc] in Hd, Hp, Hr. set (w := foldl wc_record NewWriteCollector ops) in *.
    destruct (batch_facts _ ops w eq_refl Hop) as [Fd Fp].
    unfold Inmem.Commit_in in Hr. cbn [closed wc] in Hr. unfold mbind, M_bind in Hr.
    destruct (mem_deletes dels (0, mkCI 0 0) s Hs Hf) as (s1 & d1 & Hs1 & Hf1 & Hr1 & Hv1); [by rewrite Hd|].
    cbn [snd] in Hr1, Hv1. rewrite Hr1 in Hr.
    destruct (mem_puts ps (d1, (foldl spec_del (store_view s, mkCI 0 0) dels).2) s1 Hs1 Hf1)
      as (s2 & d2 & Hs2 & Hf2 & Hr2 & Hv2).
    { rewrite Hv1, dom_spec_dels, Hp. exact Fp. }
    cbn [snd] in Hr2, Hv2. rewrite Hv1, <-surjective_pairing in Hr2, Hv2. rewrite Hr2 in Hr.
    injection Hr as <- _ <-. split_and!; [exact Hs2|exact Hf2|].
    change (store_view (mkStore (buckets s2) (sz s2 + d2))) with (store_view s2). rewrite Hv2.
    change (foldl spec_put (foldl spec_del (store_view s, mkCI 0 0) dels) ps) with (spec_commit dels ps (store_view s)).
    rewrite (spec_commit_perm w dels ps (all_deletes w) (all_puts w)); try done; [by econstructor| |].
    + rewrite Hd. apply NoDup_all_deletes.
    + rewrite Hp. apply NoDup_all_puts.
Qed.

Lemma batch_ops_ok D ops : sop_ok D (SBatch ops) -> forall c : contents, dom c = D -> Forall (op_ok c) ops.
Proof.
  intros Hop c Hc. eapply Forall_impl; [exact Hop|]. intros op (? & ? & Hv). unfold op_ok. rewrite Hc.
  split_and!; [done..|]. destruct (op.2); [apply Hv|done].
Qed.

Lemma norm_puts_id D ops w ps : w = foldl wc_record NewWriteCollector ops -> sop_ok D (SBatch ops) ->
  ps ≡ₚ all_puts w -> norm_put <$> ps = ps.
Proof.
  intros Hw Hop Hp. destruct (batch_facts D ops w Hw Hop) as [_ Fp]. rewrite <-Hp in Fp.
  clear -Fp. induction Fp as [|[p v] ps (_ & _ & Hv) _ IH]; [done|]. rewrite fmap_cons, IH. f_equal.
  unfold norm_put. cbn [fst snd] in *. by rewrite norm_full.
Qed.

(** A batch that was started leaves the store ready for the next one. *)
Lemma dur_step_spec d op d' a : durable_ok d -> idle d -> sop_ok (dom (durable_view d)) op ->
  dur_step d op d' a ->
  durable_ok d' /\ idle d' /\
  (io_failed a /\ durable_view d' = durable_view d \/ spec_step (durable_view d) op (durable_view d') a).
Proof.
  intros Hd Hi Hop Hstep.
  destruct Hstep as [b k|b|b k v d' r Hr|b k d' r Hr|ops dels ps d1 b0 d' b' r HN Hdl Hps Hr].
  - split_and!; [done..|]. right. rewrite Get_run by done. constructor.
  - split_and!; [done..|]. right. pose proof (Scan_run d b Hd) as HS.
    destruct (durable_view d !! b) as [m|] eqn:E.
    + destruct HS as (l & -> & Hl & Hm). by eapply sp_scan.
    + rewrite HS. by constructor.
  - destruct Hop as [Hfit Hne]. destruct (decide (k = [])) as [->|Hk].
    { injection Hr as <- <-. split_and!; [done..|]. right. constructor. }
    destruct (Put_run d b k v Hd Hi Hk Hfit) as (d2 & r2 & HP & Hd2 & Hi2 & Hcase).
    rewrite HP in Hr. injection Hr as <- <-. split_and!; [done..|]. destruct Hcase as [?|Hcase]; [by left|right].
    pose proof (sp_put (durable_view d) b k v Hk) as H. unfold spec_val in H.
    destruct (durable_view d !! b) as [m|] eqn:Em; destruct Hcase as [-> ->].
    + by rewrite norm_full.
    + unfold c_put in H. by rewrite alter_id in H by (intros; congruence).
  - destruct (Delete_run d b k Hd Hi) as (d2 & r2 & HP & Hd2 & Hi2 & Hcase).
    rewrite HP in Hr. injection Hr as <- <-. split_and!; [done..|]. destruct Hcase as [?|Hcase]; [by left|right].
    pose proof (sp_delete (durable_view d) b k) as H. unfold spec_val in H.
    destruct (durable_view d !! b) as [m|] eqn:Em; destruct Hcase as [-> ->]; [done|].
    unfold c_del in H. by rewrite alter_id in H by (intros; congruence).
  - destruct (NewBatch_run d Hd Hi) as (d2 & tx & HN' & Hb & Hm & Hv). rewrite HN' in HN. injection HN as <- <-.
    pose proof (batch_ops_ok _ ops Hop (durable_view d2)) as Hok. rewrite Hv in Hok. specialize (Hok eq_refl).
    assert (b_wc (foldl d_record (newBatch tx) ops) = foldl wc_record NewWriteCollector ops) as Ew.
    { rewrite d_record_ops; [done|done|]. eapply Forall_impl; [exact Hop|]. simpl. tauto. }
    destruct (Commit_run ops dels ps d2 tx Hb) as (d3 & b3 & r3 & HC & _ & Hd3 & Hi3 & _ & Hres);
      [by rewrite Hv|done|done|]. rewrite HC in Hr. injection Hr as <- <- <-. split_and!; [done..|].
    destruct r3 as [info|e|]; [right|left; split; [done|by rewrite Hres, Hv]|done].
    rewrite Ew in Hdl, Hps. set (w := foldl wc_record NewWriteCollector ops) in *.
    pose proof (flat_dels_perm dels w Hdl) as Pd. pose proof (flat_puts_perm ps w Hps) as Pp.
    rewrite (norm_puts_id _ ops w _ eq_refl Hop Pp), Hv in Hres.
    rewrite (spec_commit_perm w _ _ (all_deletes w) (all_puts w)) in Hres; try done;
      [|rewrite Pd; apply NoDup_all_deletes|rewrite Pp; apply NoDup_all_puts].
    pose proof (sp_batch (durable_view d) ops w _ eq_refl eq_refl) as H. rewrite <-Hres in H. exact H.
Qed.

Lemma dur_progress d op : durable_ok d -> idle d -> sop_ok (dom (durable_view d)) op ->
  exists d' a, dur_step d op d' a.
Proof.
  intros Hd Hi Hop. destruct op as [b k|b|b k v|b k|ops].
  - eexists _, _. constructor.
  - eexists _, _. constructor.
  - destruct (decide (k = [])) as [->|Hk]; [eexists _, _; by apply dur_put|].
    destruct (Put_run d b k v Hd Hi Hk) as (d2 & r2 & HP & _); [apply Hop|]. eexists _, _. by apply dur_put.
  - destruct (Delete_run d b k Hd Hi) as (d2 & r2 & HP & _). eexists _, _. by apply dur_delete.
  - destruct (NewBatch_run d Hd Hi) as (d2 & tx & HN & _).
    destruct (enum_exists (b_wc (foldl d_record (newBatch tx) ops))) as [[dels Hdl] [ps Hps]].
    destruct (Commit_in dels ps (foldl d_record (newBatch tx) ops) d2) as [[d' b'] r] eqn:HC.
    eexists _, _. by eapply dur_batch.
Qed.

Definition same_contents s d : Prop :=
  Inmem.store_ok s /\ durable_ok d /\ idle d /\ store_view s = durable_view d /\ full (store_view s).

Lemma dur_runs_exist ops d : durable_ok d -> idle d -> Forall (sop_ok (dom (durable_view d))) ops ->
  exists d' l, runs dur_step d ops d' l.
Proof.
  revert d. induction ops as [|op ops IH]; intros d Hd Hi Hops; [eexists _, _; constructor|].
  apply Forall_cons in Hops as [Hop Hops]. destruct (dur_progress d op Hd Hi Hop) as (d1 & a & Hst).
  destruct (dur_step_spec d op d1 a Hd Hi Hop Hst) as (Hd1 & Hi1 & Hc).
  assert (dom (durable_view d1) = (dom (durable_view d) : gset Bucket)) as E.
  { destruct Hc as [[_ ->]|Hc]; [done|by eapply spec_step_dom]. }
  destruct (IH d1 Hd1 Hi1) as (d' & l & Hr); [by rewrite E|]. eexists _, _. by econstructor.
Qed.

(** C13: The two stores are interchangeable: from stores with the same contents, any sequence
    of reads, scans, puts, deletes and committed batches that uses the schema's buckets in
    batches, keys and values within bbolt's limits and no empty values, runs to its end on
    the durable store without waiting for a writer; and unless a write fails inside bbolt, it gives exactly the
    answers of the in-memory store and ends with the same contents, for every order in which
    either store visits its maps. *)
Theorem durable_inmem_agree ops s d s' l :
  same_contents s d -> Forall (sop_ok (dom (store_view s))) ops -> runs mem_step s ops s' l ->
  (exists d' l', runs dur_step d ops d' l') /\
  forall d' l', runs dur_step d ops d' l' -> Forall (fun a => ~ io_failed a) l' ->
    l' = l /\ same_contents s' d'.
Proof.
  intros Hsd Hops Hrun. split.
  { destruct Hsd as (_ & Hd & Hi & Hv & _). apply dur_runs_exist; [done|done|]. by rewrite <-Hv. }
  revert d Hsd Hops. induction Hrun as [s|s op s1 a ops s2 l Hst Hrun IH]; intros d Hsd Hops d' l' Hdr Hok.
  { inversion Hdr; subst. done. }
  inversion Hdr as [|? ? d1 a' ? ? l2 Hdst Hdr2]; subst. apply Forall_cons in Hops as [Hop Hops].
  apply Forall_cons in Hok as [Ha Hok]. destruct Hsd as (Hs & Hd & Hi & Hv & Hf).
  destruct (mem_step_spec s op s1 a Hs Hf Hop Hst) as (Hs1 & Hf1 & Hsp). rewrite Hv in Hop.
  destruct (dur_step_spec d op d1 a' Hd Hi Hop Hdst) as (Hd1 & Hi1 & [[? _]|Hsp']); [done|].
  pose proof (spec_step_dom _ _ _ _ Hsp) as Hdom. rewrite Hv in Hsp.
  destruct (spec_step_det _ _ _ _ _ _ Hsp Hsp') as [Hv1 <-].
  destruct (IH d1) with (d' := d') (l' := l2) as [-> HR]; [done|by rewrite Hdom|done|done|done].
Qed.
End Agreement.

(** ** Replacing the database file *)

Section Files.
Context {DB Tx File : Type} {BO : Bolt DB Tx File}.
Implicit Types (s : boltStore (DB := DB)) (fs : gmap string File).

Lemma suffix_ne (p q : string) : q <> EmptyString -> (p ++ q)%string <> p.
Proof.
  intros Hq. induction p as [|a p IH]; [done|]. intros [= E]. by apply IH.
Qed.

(** Restoring a snapshot of a store replaces the database and its file by the snapshot:
    the restored store has the contents of the one the snapshot was taken from, seen through
    its own buckets, and no writer. Its size counter is left as it was. *)
Theorem durable_restore s r s0 fs :
  durable_ok s -> WriteTo s = Ok r -> names_ok (bucketMap s0) ->
  exists fs' s', ReadFrom decode_ok r fs s0 = (fs', s', Ok tt) /\
    durable_ok s' /\ idle s' /\ durable_view s' = view_of (bucketMap s0) (db_view (db s)) /\
    fs' !! file s0 = Some r /\ fs' !! (file s0 ++ ".restore")%string = None /\ SizeBytes s' = SizeBytes s0.
Proof.
  intros [Ho _] Hr Hn. unfold WriteTo, Durable.encode, db_View in Hr.
  destruct (bolt_BeginRO_law (db s) Ho) as (tx & Htx & Hv). rewrite Htx in Hr. injection Hr as <-.
  destruct (bolt_Open_law tx) as (Ho' & Hw' & Hv'). eexists _, _. split; [done|].
  split; [by split|]. split; [done|]. split_and!.
  - unfold durable_view, set_db. cbn [db bucketMap]. by rewrite Hv', Hv.
  - apply lookup_insert_eq.
  - rewrite lookup_insert_ne by (intros E; by apply (suffix_ne (file s0) ".restore")).
    apply lookup_delete_eq.
  - done.
Qed.

(** A restore that fails keeps the open database. Up to the removal of the old file the file
    on disk is kept too; when the rename after it fails, the path has no file any more. *)
Lemma restore_failure io r fs s0 fs' s' e : ReadFrom io r fs s0 = (fs', s', Err e) ->
  s' = s0 /\
  (dio_create io <> None \/ dio_copy io <> None \/ dio_sync io <> None \/ dio_close io <> None \/ dio_remove io <> None ->
     fs' !! file s0 = fs !! file s0).
Proof.
  unfold ReadFrom, Durable.decode. intros H.
  assert (file s0 ++ ".restore" <> file s0)%string as Hne by (by apply suffix_ne).
  destruct (dio_create io), (dio_copy io) as [[part ?]|], (dio_sync io), (dio_close io), (dio_remove io);
    try (injection H as <- <- _; split; [done|]; intros _; rewrite ?lookup_insert_ne by done; done).
  destruct (dio_rename io), (dio_open io); simplify_eq/=; (split; [done|]; intros Hx; destruct_or!; done).
Qed.

Lemma restore_rename_loses r fs s0 e :
  let '(fs', s', res) := ReadFrom (mkDIO None None None None None (Some e) None) r fs s0 in
  res = Err (errMsg "failed to decode reader") /\ s' = s0 /\ fs' !! file s0 = None.
Proof. simpl. split_and!; [done..|]. apply lookup_delete_eq. Qed.

Lemma defragment_contents fs s : durable_ok s ->
  exists fs' s', Defragment defrag_ok fs s = (fs', s', Ok tt) /\ durable_ok s' /\ idle s' /\
    durable_view s' = durable_view s.
Proof.
  intros [Ho Hn]. unfold Defragment, db_View. cbn [defrag_ok gio_create gio_write gio_sync gio_close gio_rename gio_open].
  destruct (bolt_BeginRO_law (db s) Ho) as (tx & -> & Hv). destruct (bolt_Open_law tx) as (Ho' & Hw' & Hv').
  eexists _, _. split; [done|]. split; [by split|]. split; [done|].
  unfold durable_view, set_db. cbn [db bucketMap]. by rewrite Hv', Hv.
Qed.

(** A callback of PrefixScan that asks to stop is called again for the next match. *)
Lemma prefix_scan_no_stop {S} prefix (f : S -> bytes -> value -> S * bool) a k v l :
  prefix `prefix_of` k -> (f a k (copyBytes (Some v))).2 = false ->
  prefix_loop prefix f a ((k, v) :: l) = prefix_loop prefix f (f a k (copyBytes (Some v))).1 l.
Proof. intros Hp _. simpl. by rewrite bool_decide_eq_true_2. Qed.

(** *** Opening the store *)

Lemma str_bytes_ne (b : Bucket) : b <> EmptyString -> str_bytes b <> [].
Proof. intros Hb E. by apply (str_bytes_inj b EmptyString) in E. Qed.

Lemma create_buckets_run bs m tx : tx_writable tx -> Forall (fun b => b <> EmptyString) bs ->
  names_ok m -> (forall b n, m !! b = Some n -> is_Some (tx_view tx !! n)) ->
  exists tx' m', create_buckets bs m tx = (tx', Ok m') /\ tx_writable tx' /\ names_ok m' /\
    dom m' = dom m ∪ list_to_set bs /\
    (forall b n, m' !! b = Some n -> is_Some (tx_view tx' !! n)) /\
    (forall n, default ∅ (tx_view tx' !! n) = default ∅ (tx_view tx !! n)).
Proof.
  intros Hw Hbs. revert m tx Hw. induction Hbs as [|b bs Hb _ IH]; intros m tx Hw Hm Hin; cbn [create_buckets].
  { exists tx, m. split_and!; [done..|set_solver|done|done]. }
  assert (names_ok (<[b := str_bytes b]> m)) as Hm' by (by apply map_Forall_insert_2).
  pose proof (bolt_CreateBucket_law (str_bytes b) tx Hw (str_bytes_ne b Hb)) as HC. case_bool_decide as Hex.
  - rewrite HC. cbn [errors_Is]. unfold errors_Is. rewrite bool_decide_eq_true_2 by set_solver.
    destruct (IH _ tx Hw Hm') as (tx' & m' & ? & ? & ? & Hd & ? & ?).
    { intros b' n [[<- <-]|[_ ?]]%lookup_insert_Some; [done|by eapply Hin]. }
    exists tx', m'. split_and!; try done. rewrite Hd, dom_insert_L. set_solver.
  - destruct HC as (tx1 & -> & Hw1 & Hv1).
    destruct (IH _ tx1 Hw1 Hm') as (tx' & m' & ? & ? & ? & Hd & ? & Hdf).
    { intros b' n [[<- <-]|[_ Hl]]%lookup_insert_Some; rewrite Hv1; [rewrite lookup_insert_eq; eauto|].
      apply Hin in Hl. destruct (decide (n = str_bytes b)) as [->|?]; [done|]. by rewrite lookup_insert_ne. }
    exists tx', m'. split_and!; try done; [rewrite Hd, dom_insert_L; set_solver|].
    intros n. rewrite Hdf, Hv1. destruct (decide (n = str_bytes b)) as [->|?]; [|by rewrite lookup_insert_ne].
    rewrite lookup_insert_eq. destruct (tx_view tx !! str_bytes b) eqn:E; [by destruct Hex|done].
Qed.

(** Opening the store on a database, new or old, makes every configured bucket available with
    the pairs it already had. *)
Lemma NewStore_run opts d : so_Kind opts = StorageKindBoltdb -> Forall (fun b => b <> EmptyString) (so_InitialBuckets opts) ->
  bolt_open d -> bolt_writer d = false ->
  exists r, NewStore opts (Ok d) = Some r /\
    match r with
    | Ok s => durable_ok s /\ idle s /\ dom (durable_view s) = list_to_set (so_InitialBuckets opts) /\
        forall b m, durable_view s !! b = Some m -> m = cp <$> default ∅ (db_view d !! str_bytes b)
    | Err _ => True
    | Panicked => False
    end.
Proof.
  intros Hk Hbs Ho Hi. unfold NewStore. rewrite bool_decide_eq_true_2 by done.
  pose proof (bolt_Begin_law d Ho) as HB. rewrite Hi in HB.
  destruct HB as (d1 & tx & -> & Ho1 & Hw1 & Hv1 & Hvt & Hwt). simpl.
  destruct (create_buckets_run (so_InitialBuckets opts) ∅ tx Hwt Hbs) as (tx' & m' & -> & Hwt' & Hm' & Hd' & Hin & Hdf);
    [done|by intros b n Hl; rewrite lookup_empty in Hl|].
  pose proof (bolt_Commit_law tx' d1 Hwt' Ho1 Hw1) as HC.
  destruct (bolt_Commit tx' d1) as [d2 [e|]]; destruct HC as (Ho2 & Hi2 & _ & Hv2); eexists; (split; [done|]); [done|].
  split; [by split|]. split; [done|]. unfold durable_view. cbn [db bucketMap]. rewrite Hv2. split.
  - assert (dom (view_of m' (tx_view tx')) = dom m') as ->; [|rewrite Hd', dom_empty_L; set_solver].
    apply set_eq. intros b. rewrite !elem_of_dom. unfold view_of. rewrite lookup_omap.
    destruct (m' !! b) as [n|] eqn:E; simpl; [|done]. destruct (Hin _ _ E) as [mm Hmm]. rewrite Hmm. simpl. by split; eauto.
  - intros b m. unfold view_of. rewrite lookup_omap. destruct (m' !! b) as [n|] eqn:E; simpl; [|done].
    pose proof (Hm' _ _ E) as ->. pose proof (Hdf (str_bytes b)) as Hd. rewrite Hvt in Hd.
    destruct (tx_view tx' !! str_bytes b) as [mm|]; simpl; [|done]. intros [= <-]. simpl in Hd. by rewrite Hd.
Qed.
End Files.

(** ** A database in memory that meets the laws of bbolt, and examples *)

Record mem_bolt := mkMB { mb_data : bolt_data; mb_writer : bool }.

Definition sorted_pairs (m : gmap bytes bytes) : list (bytes * bytes) :=
  foldr (ref_insert (key_less fst)) [] (map_to_list m).

Lemma sorted_pairs_spec m : key_sorted fst (sorted_pairs m) /\ list_to_map (sorted_pairs m) = m.
Proof.
  assert (forall l : list (bytes * bytes), key_sorted fst (foldr (ref_insert (key_less fst)) [] l)) as Hs.
  { induction l; [constructor|]. by apply insert_sorted. }
  split; [apply Hs|]. rewrite <-(list_to_map_to_list m) at 2. unfold sorted_pairs.
  induction (map_to_list m) as [|[k v] l IH]; [done|]. cbn [foldr]. change (list_to_map ((k, v) :: l)) with (<[k := v]> (list_to_map l : gmap bytes bytes)).
  rewrite <-IH. clear IH. generalize (Hs l). generalize (foldr (ref_insert (key_less fst)) [] l). clear Hs l.
  intros l Hl. induction Hl as [|[k' v'] l Hl IH Hx]; [done|]. cbn [ref_insert].
  unfold key_less. cbn [fst]. destruct (bytes_ltb k k') eqn:E1; [done|]. destruct (bytes_ltb k' k) eqn:E2.
  - change (list_to_map ((k', v') :: ?l)) with (<[k' := v']> (list_to_map l : gmap bytes bytes)).
    cbn [list_to_map foldr fst snd]. fold (list_to_map (M := gmap bytes bytes) l).
    change (foldr _ ∅ (ref_insert ?f ?x l)) with (list_to_map (M := gmap bytes bytes) (ref_insert f x l)).
    unfold key_less in IH. rewrite IH. rewrite insert_insert_ne; [done|]. intros ->. by rewrite bytes_ltb_irrefl in E2.
  - assert (k = k') as -> by (by apply bytes_ltb_total). cbn [list_to_map foldr fst snd]. by rewrite insert_insert_eq.
Qed.

#[export] Program Instance mem_bolt_laws : Bolt mem_bolt bolt_data bolt_data := {|
  bolt_Begin d := if mb_writer d then None else Some (mkMB (mb_data d) true, Ok (mb_data d));
  bolt_BeginRO d := Ok (mb_data d);
  bolt_CreateBucket n tx := match tx !! n with Some _ => (tx, Some [ErrBucketExists]) | None => (<[n := ∅]> tx, None) end;
  bolt_Bucket n tx := bool_decide (is_Some (tx !! n));
  bolt_Get n k tx := tx !! n ≫= lookup k;
  bolt_Put n k v tx := (alter (<[k := v]>) n tx, None);
  bolt_Delete n k tx := (alter (delete k) n tx, None);
  bolt_Cursor n tx := sorted_pairs (default ∅ (tx !! n));
  bolt_Commit tx d := (mkMB tx false, None);
  bolt_Rollback tx d := mkMB (mb_data d) false;
  bolt_WriteTo tx := tx;
  bolt_Open f := mkMB f false;
  bolt_Close d := d;
  bolt_open d := True;
  bolt_writer := mb_writer;
  db_view := mb_data;
  tx_view tx := tx;
  tx_writable tx := True |}.
Next Obligation. intros d _. cbn. destruct (mb_writer d); [done|]. by eexists _, _. Qed.
Next Obligation. eauto. Qed.
Next Obligation.
  intros n tx _ _. cbn. case_bool_decide as E; destruct (tx !! n); [done|by destruct E|by destruct E|]. by eexists.
Qed.
Next Obligation. done. Qed.
Next Obligation. done. Qed.
Next Obligation.
  intros n k v m tx _ H _ _ _. cbn in *. eexists. split; [done|]. split; [done|].
  apply map_eq. intros n'. destruct (decide (n' = n)) as [->|?];
    [by rewrite lookup_alter_eq, lookup_insert_eq, H|by rewrite lookup_alter_ne, lookup_insert_ne].
Qed.
Next Obligation.
  intros n k m tx _ H. cbn in *. eexists. split; [done|]. split; [done|].
  apply map_eq. intros n'. destruct (decide (n' = n)) as [->|?];
    [by rewrite lookup_alter_eq, lookup_insert_eq, H|by rewrite lookup_alter_ne, lookup_insert_ne].
Qed.
Next Obligation. intros n m tx H. cbn in *. rewrite H. apply sorted_pairs_spec. Qed.
Next Obligation. intros. cbn. by split_and!. Qed.
Next Obligation. intros. cbn. by split_and!. Qed.
Next Obligation. intros. cbn. by split_and!. Qed.

Abbreviation bolt1_data := ({[ str_bytes BucketKV := ∅; str_bytes BucketMeta := ∅ ]} : bolt_data).
Definition bolt1 : boltStore (DB := mem_bolt) :=
  mkBolt (mkMB bolt1_data false) "data/bolt.db" 0
    {[ BucketKV := str_bytes BucketKV; BucketMeta := str_bytes BucketMeta ]}.
(** The same store with a batch open. *)
Definition bolt1_open : boltStore (DB := mem_bolt) := set_db (mkMB bolt1_data true) bolt1.
Definition mem1 : InmemStore (list Item) := mkStore {[ BucketKV := []; BucketMeta := [] ]} 0.

Lemma bolt1_ok : durable_ok bolt1.
Proof.
  split; [done|]. apply map_Forall_insert_2; [done|]. apply map_Forall_singleton. done.
Qed.
Lemma bolt1_kv : BucketKV ∈ dom (durable_view bolt1).
Proof. apply elem_of_dom. vm_compute. eauto. Qed.

Definition ops1 : list batch_op :=
  [(BucketKV, [Byte.x61], Some (Some [Byte.x01])); (BucketKV, [Byte.x62], None)].
Lemma ops1_ok : Forall (op_ok (durable_view bolt1)) ops1.
Proof.
  repeat constructor; try exact bolt1_kv; try done; cbn [fst snd length]; unfold MaxKeySize, MaxValueSize, len_value; simpl; lia.
Qed.

Lemma durable_batch_commit_witness :
  exists dels ps s1 b0 s' b' r,
    NewBatch bolt1 = Some (s1, Ok b0) /\ Commit_in dels ps (foldl d_record b0 ops1) s1 = (s', b', r) /\ idle s'.
Proof.
  destruct (enum_exists (foldl wc_record NewWriteCollector ops1)) as [[dels Hd] [ps Hp]].
  destruct (durable_batch_commit ops1 bolt1 dels ps bolt1_ok eq_refl ops1_ok Hd Hp)
    as (s1 & b0 & H1 & _ & s' & b' & r & H2 & _ & _ & H3 & _).
  exists dels, ps, s1, b0, s', b', r. split; [exact H1|]. split; [exact H2|exact H3].
Defined.

Definition ops_lost : list batch_op := [("nope"%string, [Byte.x61], Some (Some [Byte.x01]))].

Lemma durable_failed_commit_blocks_witness :
  exists dels ps b', Commit_in dels ps (foldl d_record (newBatch bolt1_data) ops_lost) bolt1_open
    = (bolt1_open, b', Err [ErrBucketNotFound]) /\ NewBatch bolt1_open = None.
Proof.
  destruct (enum_exists (b_wc (foldl d_record (newBatch bolt1_data) ops_lost))) as [[dels Hd] [ps Hp]].
  destruct (durable_failed_commit_blocks ops_lost dels ps bolt1_open bolt1_data "nope"%string)
    as (b' & H1 & _ & H2 & _); [|repeat constructor; try done; cbn [fst snd length]; unfold MaxKeySize, MaxValueSize, len_value; simpl; lia
      |exact Hd|exact Hp| | |].
  - split; [done|]. split; [apply bolt1_ok|]. by split_and!.
  - apply elem_of_union_l, elem_of_dom. vm_compute. eauto.
  - apply not_elem_of_dom. vm_compute. reflexivity.
  - exists dels, ps, b'. split; [exact H1|exact H2].
Defined.

Lemma mem1_bolt1 : same_contents mem1 bolt1.
Proof.
  split_and!; [|apply bolt1_ok|done|by vm_compute|].
  - intros b t H. unfold mem1 in H. cbn [buckets] in H.
    apply lookup_insert_Some in H as [[_ <-]|[_ H]]; [constructor|].
    apply lookup_singleton_Some in H as [_ <-]. constructor.
  - intros b m k v Hb Hk. exfalso. unfold store_view, mem1 in Hb. cbn [buckets] in Hb.
    rewrite fmap_insert in Hb. apply lookup_insert_Some in Hb as [[_ <-]|[_ Hb]]; [by rewrite lookup_tree_map in Hk|].
    rewrite map_fmap_singleton in Hb. apply lookup_singleton_Some in Hb as [_ <-]. by rewrite lookup_tree_map in Hk.
Qed.

Definition calls1 : list sop := [SPut BucketKV [Byte.x61] (Some [Byte.x01]); SGet BucketKV [Byte.x61]].

Lemma durable_inmem_agree_witness :
  exists s' l, runs mem_step mem1 calls1 s' l /\ exists d' l', runs dur_step bolt1 calls1 d' l'.
Proof.
  assert (exists s' l, runs mem_step mem1 calls1 s' l) as (s' & l & Hr).
  { eexists _, _. unfold calls1. eapply runs_cons; [eapply mem_put; reflexivity|].
    eapply runs_cons; [apply mem_get|]. constructor. }
  destruct (durable_inmem_agree calls1 mem1 bolt1 s' l mem1_bolt1) as [Hd _]; [|exact Hr|].
  - repeat constructor; cbn [fst snd length]; unfold MaxKeySize, MaxValueSize, len_value; simpl; [lia..|]. by eexists _, _.
  - exists s', l. split; [exact Hr|exact Hd].
Defined.

Lemma durable_restore_witness :
  exists fs' s', ReadFrom decode_ok bolt1_data ∅ bolt1 = (fs', s', Ok tt) /\ idle s' /\
    durable_view s' = view_of (bucketMap bolt1) bolt1_data.
Proof.
  destruct (durable_restore bolt1 bolt1_data bolt1 ∅ bolt1_ok eq_refl) as (fs' & s' & H1 & _ & H2 & H3 & _);
    [apply bolt1_ok|]. exists fs', s'. split; [exact H1|]. split; [exact H2|exact H3].
Defined.
