(* ===== verification/Backend.v ===== *)
(** Transactions over a store: [internal/storage/backend] (backend.go, read_tx.go,
    write_tx.go), for any store that meets the [ByteStore] contract. The read-write
    lock is not modelled: a write transaction owns the backend from Lock to Unlock.
    The operation counter of a transaction only feeds metrics and is left out. *)

From S2P Require Import Prelude OrdTree Storage Inmem.
From Stdlib Require Import ZArith Lia.
From stdpp Require Import base gmap sets list strings sorting.
Open Scope Z_scope.

(** A nil batch is [None]. *)
Record backend (St B : Type) := mkBackend { be_store : St; be_batch : option B }.
Arguments mkBackend {St B} _ _.
Arguments be_store {St B} _.
Arguments be_batch {St B} _.

(** The part of a store that snapshots and maintenance use: [Snap] is what is written to the
    stream. *)
Class SnapshotStore (St Snap : Type) := {
  ss_WriteTo : St -> Snap;
  ss_ReadFrom : Snap -> M St unit;
  ss_SizeBytes : St -> Z;
  ss_Defragment : M St unit;
  ss_Ping : St -> option error;
  ss_Close : St -> St }.

#[export] Instance inmem_snapshots {T} {BT : BTree item_less T} : SnapshotStore (InmemStore T) (list token) := {
  ss_WriteTo := WriteTo; ss_ReadFrom := ReadFrom; ss_SizeBytes := SizeBytes;
  ss_Defragment := fun s => (Defragment s, Ok tt); ss_Ping := Ping; ss_Close := Close }.

Section Backend.
Context {St B : Type} {BS : ByteStore St B}.
Abbreviation be := (backend St B).

(** ** The code *)

Definition New (s : St) : be := mkBackend s None.

Definition UnsafeGet (bucket : Bucket) (k : bytes) (b : be) : res value :=
  bs_Get bucket k (be_store b).

Definition in_bounds (start end_ : option bytes) (k : bytes) : bool :=
  match start with None => true | Some st => bytes_leb st k end
    && match end_ with None => true | Some en => bytes_ltb k en end.

(** The callback [f] may change the variables of its closure (the state [S]) and
    stops the scan by returning an error. *)
Fixpoint scan_loop {S} (start end_ : option bytes) (f : bytes -> value -> M S unit)
    (items : list (bytes * value)) : M S unit :=
  match items with
  | [] => mret tt
  | (k, v) :: rest =>
      if in_bounds start end_ k then f k v ≫= fun _ => scan_loop start end_ f rest
      else scan_loop start end_ f rest
  end.

(** The error of the callback is formatted with %v: its identity is lost. *)
Definition UnsafeScan {S} (bucket : Bucket) (start end_ : option bytes)
    (f : bytes -> value -> M S unit) (b : be) : M S unit := fun s =>
  match bs_Scan bucket (be_store b) with
  | Ok items =>
      match scan_loop start end_ f items s with
      | (s', Ok _) => (s', Ok tt)
      | (s', Err _) => (s', Err (errMsg "UnsafeScan failed"))
      | (s', Panicked) => (s', Panicked)
      end
  | Err _ => (s, Err (errMsg "UnsafeScan failed"))
  | Panicked => (s, Panicked)
  end.

(** Collects the values; here the callback's error is returned as it is. *)
Fixpoint range_loop {S} (start end_ : option bytes) (f : bytes -> value -> M S unit)
    (items : list (bytes * value)) (out : list value) : M S (list value) :=
  match items with
  | [] => mret out
  | (k, v) :: rest =>
      if in_bounds start end_ k
      then f k v ≫= fun _ => range_loop start end_ f rest (out ++ [v])
      else range_loop start end_ f rest out
  end.

Definition UnsafeRange {S} (bucket : Bucket) (start end_ : option bytes)
    (f : bytes -> value -> M S unit) (b : be) : M S (list value) := fun s =>
  match bs_Scan bucket (be_store b) with
  | Ok items => range_loop start end_ f items [] s
  | Err e => (s, Err e)
  | Panicked => (s, Panicked)
  end.

Definition Lock : M be unit := fun b =>
  match bs_NewBatch (be_store b) with
  | Ok batch => (mkBackend (be_store b) (Some batch), Ok tt)
  | _ => (b, Panicked)
  end.

(** A method call on the nil batch panics. *)
Definition UnsafePut (bucket : Bucket) (k : bytes) (v : value) : M be unit := fun b =>
  match be_batch b with
  | None => (b, Panicked)
  | Some batch =>
      let '(batch', err) := ba_Put bucket k v batch in
      (mkBackend (be_store b) (Some batch'), match err with None => Ok tt | Some e => Err e end)
  end.

Definition UnsafeDelete (bucket : Bucket) (k : bytes) : M be unit := fun b =>
  match be_batch b with
  | None => (b, Panicked)
  | Some batch =>
      let '(batch', err) := ba_Delete bucket k batch in
      (mkBackend (be_store b) (Some batch'), match err with None => Ok tt | Some e => Err e end)
  end.

(** [writetx.Commit]: the deferred function clears the batch whatever happens. *)
Definition Commit : M be CommitInfo := fun b =>
  match be_batch b with
  | None => (b, Panicked)
  | Some batch =>
      let '(s', _, r) := ba_Commit batch (be_store b) in (mkBackend s' None, r)
  end.

(** The aborted batch is dropped with the reference to it. *)
Definition Rollback : M be unit := fun b =>
  match be_batch b with
  | None => (b, Panicked)
  | Some batch => let aborted := ba_Abort batch in (mkBackend (be_store b) None, Ok tt)
  end.

(** [backend.Commit] checks for the nil batch and wraps the error. *)
Definition backend_Commit : M be CommitInfo := fun b =>
  match be_batch b with
  | None => (b, Err (errMsg "backend commit error: attempted to commit a nil batch"))
  | Some batch =>
      let '(s', _, r) := ba_Commit batch (be_store b) in (mkBackend s' None, r)
  end.

Section Snapshots.
Context {Snap : Type} {SS : SnapshotStore St Snap}.

Definition backend_Snapshot (b : be) : Snap := ss_WriteTo (be_store b).
Definition backend_Restore (sn : Snap) : M be unit := fun b =>
  let '(s', r) := ss_ReadFrom sn (be_store b) in (mkBackend s' (be_batch b), r).
Definition backend_SizeBytes (b : be) : Z := ss_SizeBytes (be_store b).
Definition backend_Defragment : M be unit := fun b =>
  let '(s', r) := ss_Defragment (be_store b) in (mkBackend s' (be_batch b), r).
Definition backend_Ping (b : be) : option error := ss_Ping (be_store b).
(** An open batch is dropped. *)
Definition backend_Close : M be unit := fun b => (mkBackend (ss_Close (be_store b)) None, Ok tt).

End Snapshots.

(** ** What a transaction sees and does *)

Definition be_ok (b : be) : Prop := bs_ok (be_store b).
Definition be_view (b : be) : contents := bs_view (be_store b).

(** Between Lock and Commit: the batch is open and names known buckets only. *)
Definition in_tx (b : be) : Prop :=
  be_ok b /\ exists ba, be_batch b = Some ba /\ ba_open ba /\ ba_buckets ba ⊆ dom (be_view b).

(** The contents a commit would install. *)
Definition pending (b : be) : contents :=
  match be_batch b with Some ba => ba_apply ba (be_view b) | None => be_view b end.

Lemma Lock_spec b :
  be_ok b -> exists b', Lock b = (b', Ok tt) /\ in_tx b' /\ be_store b' = be_store b /\
    pending b' = be_view b.
Proof.
  intros H. unfold Lock. destruct (bs_NewBatch_view (be_store b) H) as (ba & -> & Ho & Hb & Ha).
  eexists. split; [done|]. split_and!; [|done|].
  - split; [done|]. exists ba. split_and!; [done|done|]. rewrite Hb. apply empty_subseteq.
  - unfold pending. simpl. by rewrite Ha.
Qed.

Lemma UnsafePut_spec bucket k v b :
  in_tx b -> bucket ∈ dom (be_view b) -> k <> [] ->
  exists b', UnsafePut bucket k v b = (b', Ok tt) /\ in_tx b' /\ be_store b' = be_store b /\
    pending b' = c_put bucket k v (pending b).
Proof.
  intros (Hok & ba & Eb & Ho & Hsub) Hd Hk. unfold UnsafePut, pending. rewrite Eb.
  pose proof (ba_Put_view bucket k v ba Ho) as HP. rewrite bool_decide_eq_false_2 in HP by done.
  destruct HP as (ba' & -> & Ho' & Hb' & Ha'). eexists. split; [done|]. split_and!; [|done|].
  - split; [done|]. exists ba'. split_and!; [done|done|]. rewrite Hb'.
    apply union_least; [by apply singleton_subseteq_l|done].
  - simpl. by rewrite Ha'.
Qed.

Lemma UnsafeDelete_spec bucket k b :
  in_tx b -> bucket ∈ dom (be_view b) -> k <> [] ->
  exists b', UnsafeDelete bucket k b = (b', Ok tt) /\ in_tx b' /\ be_store b' = be_store b /\
    pending b' = c_del bucket k (pending b).
Proof.
  intros (Hok & ba & Eb & Ho & Hsub) Hd Hk. unfold UnsafeDelete, pending. rewrite Eb.
  pose proof (ba_Delete_view bucket k ba Ho) as HP. rewrite bool_decide_eq_false_2 in HP by done.
  destruct HP as (ba' & -> & Ho' & Hb' & Ha'). eexists. split; [done|]. split_and!; [|done|].
  - split; [done|]. exists ba'. split_and!; [done|done|]. rewrite Hb'.
    apply union_least; [by apply singleton_subseteq_l|done].
  - simpl. by rewrite Ha'.
Qed.

Lemma Commit_spec b :
  in_tx b ->
  match Commit b with
  | (b', Ok _) => be_ok b' /\ be_batch b' = None /\ be_view b' = pending b
  | (b', Err _) => be_ok b' /\ be_batch b' = None /\ be_view b' = be_view b
  | (_, Panicked) => False
  end.
Proof.
  intros (Hok & ba & Eb & Ho & Hsub). unfold Commit, pending. rewrite Eb.
  pose proof (ba_Commit_view ba (be_store b) Hok Ho Hsub) as HC.
  destruct (ba_Commit ba (be_store b)) as [[s' ba'] [info|e|]]; [| |done]; by destruct HC.
Qed.

Lemma Rollback_spec b :
  in_tx b -> exists b', Rollback b = (b', Ok tt) /\ be_store b' = be_store b /\ be_batch b' = None.
Proof. intros (Hok & ba & Eb & _). unfold Rollback. rewrite Eb. eauto. Qed.

Lemma UnsafeGet_spec bucket k b m :
  be_ok b -> be_view b !! bucket = Some m -> UnsafeGet bucket k b = Ok (mjoin (m !! k)).
Proof.
  intros H E. unfold UnsafeGet. pose proof (bs_Get_view bucket k (be_store b) H) as HG.
  unfold be_view in E. by rewrite E in HG.
Qed.

(** The pairs of a bucket that lie in the bounds, in key order. *)
Definition scanned (start end_ : option bytes) (l : list (bytes * value)) : list (bytes * value) :=
  filter (fun p => in_bounds start end_ p.1 = true) l.

Fixpoint scan_all {S} (f : bytes -> value -> M S unit) (l : list (bytes * value)) : M S unit :=
  match l with
  | [] => mret tt
  | (k, v) :: rest => f k v ≫= fun _ => scan_all f rest
  end.

Lemma scan_loop_all {S} start end_ (f : bytes -> value -> M S unit) items s :
  scan_loop start end_ f items s = scan_all f (scanned start end_ items) s.
Proof.
  revert s. induction items as [|[k v] items IH]; intros s; [done|]. cbn [scan_loop].
  unfold scanned. rewrite filter_cons. cbn [fst]. destruct (in_bounds start end_ k) eqn:E.
  - rewrite decide_True by done. cbn [scan_all]. unfold mbind, M_bind.
    destruct (f k v s) as [s' [[]|e|]]; [apply IH|done..].
  - rewrite decide_False by done. apply IH.
Qed.

(** A callback that never fails visits every pair in the bounds. *)
Lemma scan_all_total {S} (f : bytes -> value -> M S unit) (g : S -> bytes * value -> S) l s :
  Forall (fun p => forall s, f p.1 p.2 s = (g s p, Ok tt)) l ->
  scan_all f l s = (foldl g s l, Ok tt).
Proof.
  intros Hf. revert s. induction Hf as [|[k v] l Hp _ IH]; intros s; [done|].
  cbn [scan_all foldl]. unfold mbind, M_bind. simpl in Hp. by rewrite Hp.
Qed.

Lemma UnsafeScan_spec {S} bucket start end_ (f : bytes -> value -> M S unit) b m :
  be_ok b -> be_view b !! bucket = Some m ->
  exists l, key_sorted fst l /\ list_to_map l = m /\ forall s,
    UnsafeScan bucket start end_ f b s =
      match scan_all f (scanned start end_ l) s with
      | (s', Ok _) => (s', Ok tt)
      | (s', Err _) => (s', Err (errMsg "UnsafeScan failed"))
      | (s', Panicked) => (s', Panicked)
      end.
Proof.
  intros H E. pose proof (bs_Scan_view bucket (be_store b) H) as HS. unfold be_view in E.
  rewrite E in HS. destruct HS as (l & Hl & Hs & Hm). exists l. split_and!; [done..|].
  intros s. unfold UnsafeScan. rewrite Hl. by rewrite scan_loop_all.
Qed.

(** ** Properties *)

(** A write transaction over known buckets and non-empty keys, towards readers of the store: puts and
    deletes leave the stored contents alone, a successful Commit installs all of them, and Rollback discards
    them. That a failed Commit installs none is what the interface of the stores asks for; the in-memory store
    meets it because its commits of such batches do not fail, and breaks it for unknown buckets. *)
Theorem backend_tx_atomic (ops : list (Bucket * bytes * option value)) b b1 :
  be_ok b -> Forall (fun op => op.1.2 <> [] /\ op.1.1 ∈ dom (be_view b)) ops ->
  Lock b = (b1, Ok tt) ->
  let step op := match op with
                 | (bk, k, Some v) => UnsafePut bk k v
                 | (bk, k, None) => UnsafeDelete bk k end in
  let apply c op := match op with
                    | (bk, k, Some v) => c_put bk k v c
                    | (bk, k, None) => c_del bk k c end in
  exists b2, foldl (fun m op => m ≫= fun _ => step op) (mret tt) ops b1 = (b2, Ok tt) /\
    be_view b2 = be_view b /\
    match Commit b2 with
    | (b3, Ok _) => be_view b3 = foldl apply (be_view b) ops
    | (b3, Err _) => be_view b3 = be_view b
    | (_, Panicked) => False
    end /\
    exists b3, Rollback b2 = (b3, Ok tt) /\ be_view b3 = be_view b.
Proof.
  intros Hok Hops Hlock step apply.
  destruct (Lock_spec b Hok) as (b1' & Hl & Htx & Hst & Hp). rewrite Hlock in Hl. injection Hl as <-.
  assert (exists b2, foldl (fun m op => m ≫= fun _ => step op) (mret tt) ops b1 = (b2, Ok tt) /\
    in_tx b2 /\ be_store b2 = be_store b /\ pending b2 = foldl apply (be_view b) ops)
    as (b2 & Hrun & Htx2 & Hst2 & Hp2).
  { clear Hlock. induction ops as [|op ops IH] using rev_ind; [by exists b1|].
    apply Forall_app in Hops as [Hops [Hk Hd]%Forall_inv].
    destruct (IH Hops) as (b2 & Hrun & Htx2 & Hst2 & Hp2). rewrite !foldl_app. cbn [foldl].
    rewrite (M_bind_Ok _ _ _ _ _ Hrun).
    assert (be_view b2 = be_view b) as Hv2 by (unfold be_view; by rewrite Hst2).
    destruct op as [[bk k] [v|]]; simpl in Hk, Hd; unfold step, apply at 1.
    - destruct (UnsafePut_spec bk k v b2 Htx2) as (b3 & -> & ? & ? & ?); [by rewrite Hv2|done|].
      exists b3. rewrite <-Hp2, <-Hst2. done.
    - destruct (UnsafeDelete_spec bk k b2 Htx2) as (b3 & -> & ? & ? & ?); [by rewrite Hv2|done|].
      exists b3. rewrite <-Hp2, <-Hst2. done. }
  assert (be_view b2 = be_view b) as Hv2 by (unfold be_view; by rewrite Hst2).
  exists b2. split; [done|]. split; [done|]. split.
  - pose proof (Commit_spec b2 Htx2) as HC. destruct (Commit b2) as [b3 [?|?|]]; [| |done].
    + destruct HC as (_ & _ & ->). done.
    + destruct HC as (_ & _ & ->). done.
  - destruct (Rollback_spec b2 Htx2) as (b3 & ? & E & _). exists b3. split; [done|].
    unfold be_view. by rewrite E, Hst2.
Qed.

(** Commit always clears the batch, also when it fails, so a Rollback after it
    panics on the nil batch: the error paths that call Rollback after a failed
    Commit cannot run. *)
Theorem rollback_after_commit_panics b b' r :
  Commit b = (b', r) -> Rollback b' = (b', Panicked).
Proof.
  unfold Commit, Rollback. destruct (be_batch b) as [ba|] eqn:E.
  - destruct (ba_Commit ba (be_store b)) as [[s' ba'] r']. by intros [= <- _].
  - intros [= <- _]. by rewrite E.
Qed.

End Backend.

(** ** Witnesses, on the in-memory store *)

Definition backend1 : backend (InmemStore (list Item)) inmemBatch := New store1.

Lemma backend1_ok : be_ok backend1.
Proof. apply store1_ok. Qed.

Lemma backend_tx_atomic_witness :
  exists b2 : backend (InmemStore (list Item)) inmemBatch, be_view b2 = be_view backend1 /\
    exists b3, Rollback b2 = (b3, Ok tt) /\ be_view b3 = be_view backend1.
Proof.
  destruct (backend_tx_atomic [(BucketKV, [Byte.x61], None)] backend1 (Lock backend1).1 backend1_ok)
    as (b2 & _ & Hv & _ & Hr);
    [repeat constructor; (done || by apply elem_of_dom) | reflexivity |].
  exists b2. split; [exact Hv|exact Hr].
Defined.

Lemma rollback_after_commit_panics_witness :
  Rollback (Commit (Lock backend1).1).1 = ((Commit (Lock backend1).1).1, Panicked).
Proof.
  exact (rollback_after_commit_panics (Lock backend1).1 (Commit (Lock backend1).1).1
    (Commit (Lock backend1).1).2 eq_refl).
Defined.
