(* ===== verification/Mvcc.v ===== *)
(** The multi-version store: [internal/mvcc] (kvstore.go, reader.go, writer.go) over
    any key-index tree and any store meeting the [ByteStore] contract. A writer owns
    the store from NewWriter to End or Abort; the background part of Compact is the
    separate step [doCompact]. Metrics and logging are left out. *)

From S2P Require Import Prelude OrdTree KvTypes KeyIndex TreeIndex Storage Backend.
From Stdlib Require Import ZArith Lia.
From stdpp Require Import base gmap sets list strings sorting.
Open Scope Z_scope.

Definition MAX_COMPACTION_BATCH_SIZE : nat := 100.

(** kvstore.go:32-47 *)
Record KvStore (T St B : Type) := mkKvStore {
  kv_backend : backend St B;
  kvIndex : T;
  currentRev : Revision;
  compactedMainRev : Z;
  raftTerm : Z;
  applyIndex : Z;
  keyCount : Z }.
Arguments mkKvStore {T St B} _ _ _ _ _ _ _.
Arguments kv_backend {T St B} _.
Arguments kvIndex {T St B} _.
Arguments currentRev {T St B} _.
Arguments compactedMainRev {T St B} _.
Arguments raftTerm {T St B} _.
Arguments applyIndex {T St B} _.
Arguments keyCount {T St B} _.

(** writer.go:49-59; the write transaction is the open batch of the backend. *)
Record writer (T St B : Type) := mkWriter {
  w_store : KvStore T St B;
  w_startRev : Revision;
  w_changes : list Entry;
  w_newKeys : Z;
  w_deletedKeys : Z }.
Arguments mkWriter {T St B} _ _ _ _ _.
Arguments w_store {T St B} _.
Arguments w_startRev {T St B} _.
Arguments w_changes {T St B} _.
Arguments w_newKeys {T St B} _.
Arguments w_deletedKeys {T St B} _.

Section Mvcc.
Context {T St B : Type} {BT : BTree Less T} {BS : ByteStore St B}.
Abbreviation kvs := (KvStore T St B).
Abbreviation wr := (writer T St B).
Abbreviation be := (backend St B).

Definition set_backend (b : be) (s : kvs) : kvs :=
  mkKvStore b (kvIndex s) (currentRev s) (compactedMainRev s) (raftTerm s) (applyIndex s) (keyCount s).
Definition set_index (i : T) (s : kvs) : kvs :=
  mkKvStore (kv_backend s) i (currentRev s) (compactedMainRev s) (raftTerm s) (applyIndex s) (keyCount s).
Definition set_currentRev (r : Revision) (s : kvs) : kvs :=
  mkKvStore (kv_backend s) (kvIndex s) r (compactedMainRev s) (raftTerm s) (applyIndex s) (keyCount s).
Definition set_compacted (r : Z) (s : kvs) : kvs :=
  mkKvStore (kv_backend s) (kvIndex s) (currentRev s) r (raftTerm s) (applyIndex s) (keyCount s).
Definition set_keyCount (n : Z) (s : kvs) : kvs :=
  mkKvStore (kv_backend s) (kvIndex s) (currentRev s) (compactedMainRev s) (raftTerm s) (applyIndex s) n.

Definition set_store (s : kvs) (w : wr) : wr :=
  mkWriter s (w_startRev w) (w_changes w) (w_newKeys w) (w_deletedKeys w).

(** Running an operation of the backend or of the index on the store that holds it. *)
Definition on_backend {A} (m : M be A) : M kvs A := fun s =>
  let '(b, r) := m (kv_backend s) in (set_backend b s, r).
Definition on_index {A} (m : M T A) : M kvs A := fun s =>
  let '(i, r) := m (kvIndex s) in (set_index i s, r).
Definition on_store {A} (m : M kvs A) : M wr A := fun w =>
  let '(s, r) := m (w_store w) in (set_store s w, r).

(** ** kvstore.go: accessors *)

Definition NewKvStore (b : be) : kvs := mkKvStore b NewTreeIndex rev0 0 0 0 0.

Definition Revisions (s : kvs) : Revision * Z := (currentRev s, compactedMainRev s).
Definition Meta (s : kvs) : Revision * Z * Z * Z :=
  (currentRev s, compactedMainRev s, applyIndex s, raftTerm s).
Definition KeyCount (s : kvs) : Z := keyCount s.
Definition RaftMeta (s : kvs) : Z * Z := (applyIndex s, raftTerm s).

Definition UpdateInmemRaftMeta (logIndex term : Z) (s : kvs) : kvs :=
  mkKvStore (kv_backend s) (kvIndex s) (currentRev s) (compactedMainRev s) term logIndex (keyCount s).

(** Errors of the two puts and of the commit are ignored. *)
Definition PersistRaftMeta : M kvs unit :=
  get_st ≫= fun s =>
  on_backend Lock ≫= fun _ =>
  try (on_backend (UnsafePut BucketMeta KeyRaftApplyIndex (Some (EncodeUint64 (applyIndex s))))) ≫= fun _ =>
  try (on_backend (UnsafePut BucketMeta KeyRaftTerm (Some (EncodeUint64 (raftTerm s))))) ≫= fun _ =>
  try (on_backend Commit) ≫= fun _ => mret tt.

(** ** reader.go *)

(** The loop over the revision pairs: (buffer, entries, lastRev). *)
Fixpoint range_entries (b : be) (rps : list Revision) (revBytes : bytes)
    (entries : list Entry) (lastRev : Z) : res (list Entry * Z) :=
  match rps with
  | [] => Ok (entries, lastRev)
  | rp :: rest =>
      match EncodeRevisionAsBucketKey rp revBytes with
      | Ok revBytes =>
          match UnsafeGet BucketKV revBytes b with
          | Ok (Some entryBytes) =>
              match DecodeEntry (Some entryBytes) with
              | (Some entry, None) =>
                  range_entries b rest revBytes (entries ++ [entry])
                    (if lastRev <? ModRev entry then ModRev entry else lastRev)
              | _ => range_entries b rest revBytes entries lastRev
              end
          | Panicked => Panicked
          | _ => range_entries b rest revBytes entries lastRev
          end
      | Err e => Err e
      | Panicked => Panicked
      end
  end.

(** Returns (entries, count, lastRev). *)
Definition doRange (idx : T) (b : be) (currRev compactedRev targetRev : Z)
    (k : bytes) (end_ : option bytes) (limit : Z) : res (list Entry * Z * Z) :=
  let all := bool_decide (k = [Byte.x00]) && bool_decide (end_ = Some [Byte.x00]) in
  let k := if all then [] else k in
  let end_ := if all then None else end_ in
  if currRev <? targetRev then Err (errMsg "future revision requested")
  else
    let targetRev := if targetRev <=? 0 then currRev else targetRev in
    if targetRev <? compactedRev then Err [ErrCompacted]
    else
      match TreeIndex.Revisions k end_ targetRev limit idx with
      | Ok (revpairs, total) =>
          if (length revpairs =? 0)%nat then Ok ([], total, targetRev)
          else
            let lim := if (limit <=? 0) || (Z.of_nat (length revpairs) <? limit)
                       then length revpairs else Z.to_nat limit in
            match range_entries b (take lim revpairs) NewRevBytes [] 0 with
            | Ok (entries, lastRev) => Ok (entries, total, lastRev)
            | Err e => Err e
            | Panicked => Panicked
            end
      | Err e => Err e
      | Panicked => Panicked
      end.

(** The variable [entries] of the closure of the scan. *)
Definition revision_range_step (limit : Z) (k : bytes) (v : value) : M (list Entry) unit :=
  fun entries =>
    match DecodeEntry v with
    | (Some entry, None) =>
        if Z.of_nat (length entries) <? limit then (entries ++ [entry], Ok tt)
        else if negb (limit =? 0) then (entries, Err (errMsg "revision range: limit reached"))
        else (entries, Ok tt)
    | _ => (entries, Ok tt)
    end.

Definition errRevisionLimitReached : cause := ErrMsg "revision range: limit reached".

Definition doRevisionRange (b : be) (startRev endRev currRevMain compactedRev limit : Z)
  : res (list Entry) :=
  if currRevMain <? startRev then Err (errMsg "revision range: future revision requested")
  else if startRev <? compactedRev then Err [ErrCompacted]
  else
    let limit := if limit <=? 0 then MaxInt64 else limit in
    let bounds :=
      if endRev <=? 0 then Ok MaxInt64
      else if endRev <? startRev then Err (errMsg "revision range: invalid range where endRev < startRev")
      else if endRev <? MaxInt64 then Ok (endRev + 1) else Ok endRev in
    bounds ≫= fun endRev =>
    EncodeRevisionAsBucketKey (mkRev startRev 0) NewRevBytes ≫= fun startInclusive =>
    EncodeRevisionAsBucketKey (mkRev endRev 0) NewRevBytes ≫= fun endExclusive =>
    match UnsafeScan BucketKV (Some startInclusive) (Some endExclusive) (revision_range_step limit) b [] with
    | (entries, Ok _) => Ok entries
    | (entries, Err e) => if errors_Is e errRevisionLimitReached then Ok entries else Err e
    | (_, Panicked) => Panicked
    end.

Definition reader_Range (k : bytes) (end_ : option bytes) (rev limit : Z) (s : kvs)
  : res (list Entry * Z * Z) :=
  let '(currRev, compactedRev) := Revisions s in
  doRange (kvIndex s) (kv_backend s) (Main currRev) compactedRev rev k end_ limit.

Definition reader_Get (k : bytes) (rev : Z) (s : kvs) : res (option Entry) :=
  match reader_Range k None rev 1 s with
  | Ok (entries, _, _) => Ok (head entries)
  | Err _ => Ok None
  | Panicked => Panicked
  end.

Definition reader_RevisionRange (startRev endRev limit : Z) (s : kvs) : res (list Entry) :=
  let '(currRev, compactRev) := Revisions s in
  doRevisionRange (kv_backend s) startRev endRev (Main currRev) compactRev limit.

(** ** writer.go *)

(** kvstore.go:87-99 *)
Definition NewWriter (s : kvs) : res wr :=
  match on_backend Lock s with
  | (s', Ok _) => Ok (mkWriter s' (currentRev s) [] 0 0)
  | (_, Err e) => Err e
  | (_, Panicked) => Panicked
  end.

Definition StartRevision (w : wr) : Revision := w_startRev w.
Definition UnsafeExpectedChanges (w : wr) : Z * list Entry :=
  (i64 (Main (w_startRev w) + 1), w_changes w).

Definition writer_Range (k : bytes) (end_ : option bytes) (targetRev limit : Z) (w : wr)
  : res (list Entry * Z * Z) :=
  let '(currRev, compactedRev) := Revisions (w_store w) in
  let next := i64 (Main (w_startRev w) + 1) in
  let '(targetRev, currentMain) :=
    if targetRev <=? 0 then (next, next) else (targetRev, Main currRev) in
  doRange (kvIndex (w_store w)) (kv_backend (w_store w)) currentMain compactedRev targetRev k end_ limit.

Definition writer_RevisionRange (startRev endRev limit : Z) (w : wr) : res (list Entry) :=
  let '(currRev, compactedRev) := Revisions (w_store w) in
  doRevisionRange (kv_backend (w_store w)) startRev endRev (Main currRev) compactedRev limit.

(** The latest change of [k] made by the writer, if any. *)
Definition find_change (k : bytes) (w : wr) : option Entry :=
  head (filter (fun e => Key e = k) (reverse (w_changes w))).

Definition writer_Get (k : bytes) (rev : Z) (w : wr) : res (option Entry) :=
  match (if rev <=? 0 then find_change k w else None) with
  | Some entry => match Value entry with None => Ok None | Some _ => Ok (Some entry) end
  | None =>
      match writer_Range k None rev 1 w with
      | Ok (entries, _, _) => Ok (head entries)
      | Err _ => Ok None
      | Panicked => Panicked
      end
  end.

Definition add_newKey (w : wr) : wr :=
  mkWriter (w_store w) (w_startRev w) (w_changes w) (w_newKeys w + 1) (w_deletedKeys w).
Definition add_deletedKey (w : wr) : wr :=
  mkWriter (w_store w) (w_startRev w) (w_changes w) (w_newKeys w) (w_deletedKeys w + 1).
Definition add_change (e : Entry) (w : wr) : wr :=
  mkWriter (w_store w) (w_startRev w) (w_changes w ++ [e]) (w_newKeys w) (w_deletedKeys w).

(** An error formatted with %v keeps no cause. *)
Definition flatten_err {A} (m : M wr A) : M wr A := fun w =>
  match m w with
  | (w', Err _) => (w', Err (errMsg "error"))
  | r => r
  end.

Definition put (k : bytes) (v : value) (leaseID : Z) : M wr unit :=
  get_st ≫= fun w =>
  let nextRev := i64 (Main (w_startRev w) + 1) in
  (match TreeIndex.Get k nextRev (kvIndex (w_store w)) with
   | Ok (created, _, version) => mret (Main created, version)
   | Err _ => modify add_newKey ≫= fun _ => mret (nextRev, 0)
   | Panicked => lift Panicked
   end) ≫= fun cv =>
  let '(createRev, version) := cv in
  let idxRev := mkRev nextRev (Z.of_nat (length (w_changes w))) in
  lift (EncodeRevisionAsBucketKey idxRev NewRevBytes) ≫= fun idxRevBytes =>
  let entry := mkEntry k v createRev nextRev (i64 (version + 1)) leaseID in
  flatten_err (lift (EncodeKvEntry (Some entry))) ≫= fun d =>
  flatten_err (on_store (on_backend (UnsafePut BucketKV idxRevBytes (Some d)))) ≫= fun _ =>
  flatten_err (on_store (on_index (TreeIndex.Put k idxRev))) ≫= fun _ =>
  modify (add_change entry).

Definition Put (k : bytes) (v : value) (leaseID : Z) : M wr unit := put k v leaseID.

Definition deleteKey (k : bytes) : M wr unit :=
  modify add_deletedKey ≫= fun _ =>
  get_st ≫= fun w =>
  let nextRev := i64 (Main (w_startRev w) + 1) in
  let bk := NewKvBucketKey nextRev (Z.of_nat (length (w_changes w))) true in
  lift (EncodeKvBucketKey bk NewRevBytes) ≫= fun bkBytes =>
  let tombstoneEntry := mkEntry k None 0 nextRev 0 0 in
  flatten_err (lift (EncodeKvEntry (Some tombstoneEntry))) ≫= fun tombstoneEntryBytes =>
  flatten_err (on_store (on_backend (UnsafePut BucketKV bkBytes (Some tombstoneEntryBytes)))) ≫= fun _ =>
  flatten_err (on_store (on_index (TreeIndex.Tombstone k (bk_Revision bk)))) ≫= fun _ =>
  modify (add_change tombstoneEntry).

Fixpoint deleteKeys (ks : list bytes) : M wr unit :=
  match ks with
  | [] => mret tt
  | k :: rest => flatten_err (deleteKey k) ≫= fun _ => deleteKeys rest
  end.

Definition deleteRange (k : bytes) (end_ : option bytes) : M wr unit :=
  get_st ≫= fun w =>
  let startRev := if (0 <? length (w_changes w))%nat
                  then i64 (Main (w_startRev w) + 1) else Main (w_startRev w) in
  lift (TreeIndex.Range k end_ startRev (kvIndex (w_store w))) ≫= fun krs =>
  deleteKeys (fst <$> krs).

Definition DeleteRange (k : bytes) (end_ : option bytes) : M wr unit := deleteRange k end_.
Definition DeleteKey (k : bytes) : M wr unit := DeleteRange k None.

(** The loop of Abort and End over the changes, from the last one to the first. *)
Fixpoint drop_changes (nextRev : Z) (down : list Entry) (idx : T) : T :=
  match down with
  | [] => idx
  | entry :: rest =>
      drop_changes nextRev rest
        (DropRevision (Key entry) (mkRev nextRev (Z.of_nat (length rest))) idx)
  end.

Definition undo_index (w : wr) : wr :=
  set_store (set_index (drop_changes (i64 (Main (w_startRev w) + 1)) (reverse (w_changes w))
                          (kvIndex (w_store w))) (w_store w)) w.

Definition clear_changes (w : wr) : wr :=
  mkWriter (w_store w) (w_startRev w) [] (w_newKeys w) (w_deletedKeys w).

Definition Abort : M wr unit :=
  modify undo_index ≫= fun _ =>
  modify clear_changes ≫= fun _ =>
  on_store (on_backend Rollback).

(** A failure of the meta puts is only logged. *)
Definition warn_put (k : bytes) (v : bytes) : M wr unit :=
  try (on_store (on_backend (UnsafePut BucketMeta k (Some v)))) ≫= fun _ => mret tt.

Definition bump_rev (w : wr) : wr :=
  set_store (set_currentRev (mkRev (i64 (Main (currentRev (w_store w)) + 1)) 0) (w_store w)) w.

Definition End_ : M wr unit :=
  get_st ≫= fun w0 =>
  let hasChanges := negb (length (w_changes w0) =? 0)%nat in
  (if hasChanges then
     modify bump_rev ≫= fun _ =>
     get_st ≫= fun w =>
     warn_put KeyCurrentRevision (EncodeUint64 (Main (currentRev (w_store w)))) ≫= fun _ =>
     if 0 <? applyIndex (w_store w) then
       warn_put KeyRaftApplyIndex (EncodeUint64 (applyIndex (w_store w))) ≫= fun _ =>
       warn_put KeyRaftTerm (EncodeUint64 (raftTerm (w_store w)))
     else mret tt
   else mret tt) ≫= fun _ =>
  try (on_store (on_backend Commit)) ≫= fun r =>
  match r with
  | inr err => (if hasChanges then modify undo_index else mret tt) ≫= fun _ => fail err
  | inl _ =>
      modify (fun w => set_store (set_keyCount
        (i64 (keyCount (w_store w) + (w_newKeys w - w_deletedKeys w))) (w_store w)) w)
  end.

(** ** kvstore.go: restore and compaction *)

(** The closure of the restore scan: (index, lastRev, restoredKey). A nil entry is
    dereferenced. *)
Definition restore_step (k : bytes) (v : value) : M (T * Revision * Z) unit := fun st =>
  let '(idx, lastRev, restoredKey) := st in
  match DecodeKvBucketKey k with
  | Ok bk =>
      match DecodeEntry v with
      | (Some entry, _) =>
          match (if bk_Tombstone bk then TreeIndex.Tombstone (Key entry) (bk_Revision bk)
                 else TreeIndex.Put (Key entry) (bk_Revision bk)) idx with
          | (idx', Panicked) => ((idx', lastRev, restoredKey), Panicked)
          | (idx', _) => ((idx', bk_Revision bk, restoredKey + 1), Ok tt)
          end
      | (None, _) => (st, Panicked)
      end
  | _ => (st, Panicked)
  end.

Definition decode_or_zero (r : res value) (dec : bytes -> res Z) : Z :=
  match r with
  | Ok v => match dec (default [] v) with Ok z => z | _ => 0 end
  | _ => 0
  end.

(** The result is the compaction Restore resumes in the background: its target and
    the last finished revision. *)
Definition Restore : M kvs (option (Z * Z)) := fun s =>
  match EncodeRevisionAsBucketKey (mkRev 0 0) NewRevBytes,
        EncodeRevisionAsBucketKey (mkRev MaxInt64 MaxInt64) NewRevBytes with
  | Ok min, Ok max =>
      let b := kv_backend s in
      match UnsafeScan BucketKV (Some min) (Some max) restore_step b (Clear (kvIndex s), mkRev 0 0, 0) with
      | ((idx, _, _), Panicked) => (set_index idx s, Panicked)
      | ((idx, lastRev, restoredKey), _) =>
          let term := decode_or_zero (UnsafeGet BucketMeta KeyRaftTerm b) DecodeUint64 in
          let raftIndex := decode_or_zero (UnsafeGet BucketMeta KeyRaftApplyIndex b) DecodeUint64 in
          let finished := decode_or_zero (UnsafeGet BucketMeta KeyFinishedCompactedRev b) DecodeInt64 in
          let scheduled := decode_or_zero (UnsafeGet BucketMeta KeyScheduledCompactedRev b) DecodeInt64 in
          let '(final, resume) :=
            if finished <? scheduled then (scheduled, Some (scheduled, finished)) else (finished, None) in
          (mkKvStore b idx lastRev final term raftIndex restoredKey, Ok resume)
      end
  | _, _ => (s, Panicked)
  end.

Definition nextMainRevOverflowing (r : Revision) (delta : Z) : option Revision :=
  if MaxInt64 - delta <? Main r then None else Some (mkRev (Main r + delta) (Sub r)).

(** The closure of one compaction scan: (batch, lastRevVisited). *)
Definition compact_scan_step (retain : gset Revision) (k : bytes) (v : value)
  : M (list bytes * Revision) unit := fun st =>
  let '(batch, lastRevVisited) := st in
  if (length batch =? MAX_COMPACTION_BATCH_SIZE)%nat
  then (st, Err (errMsg "MAX_COMPACTION_BATCH_SIZE exceeded"))
  else
    match DecodeKvBucketKey k with
    | Ok bk =>
        ((if bool_decide (bk_Revision bk ∈ retain) then batch else batch ++ [k], bk_Revision bk), Ok tt)
    | _ => (st, Panicked)
    end.

(** Failures of the deletes are only logged. *)
Fixpoint delete_batch (batch : list bytes) : M be unit :=
  match batch with
  | [] => mret tt
  | k :: rest => try (UnsafeDelete BucketKV k) ≫= fun _ => delete_batch rest
  end.

(** One turn of the loop. The result tells whether the loop is over; [inr] is the
    return of the function on a failed commit (where Rollback panics). *)
Definition compact_turn (targetRev : Z) (retain : gset Revision) (start endExcluded : bytes)
    (done_ : bool) (lastRevVisited : Revision) : M be (bool * Revision) :=
  Lock ≫= fun _ =>
  get_st ≫= fun b =>
  match UnsafeScan BucketKV (Some start) (Some endExcluded) (compact_scan_step retain) b ([], lastRevVisited) with
  | (_, Panicked) => lift Panicked
  | ((batch, lastRevVisited), scan_res) =>
      delete_batch batch ≫= fun _ =>
      let done_ := done_ || match scan_res with Ok _ => true | _ => false end
                     || (length batch <? MAX_COMPACTION_BATCH_SIZE)%nat in
      (if done_ then
         lift (EncodeRevisionAsBucketKey (mkRev targetRev 0) NewRevBytes) ≫= fun revBytes =>
         try (UnsafePut BucketMeta KeyFinishedCompactedRev (Some revBytes)) ≫= fun _ => mret tt
       else mret tt) ≫= fun _ =>
      try Commit ≫= fun r =>
      match r with
      | inr e => Rollback ≫= fun _ => fail e
      | inl _ => mret (done_, lastRevVisited)
      end
  end.

Fixpoint compact_loop (fuel : nat) (targetRev : Z) (retain : gset Revision) (start endExcluded : bytes)
    (done_ : bool) (lastRevVisited : Revision) : M be unit :=
  match fuel with
  | O => fail (errMsg "out of fuel")
  | S fuel' =>
      compact_turn targetRev retain start endExcluded done_ lastRevVisited ≫= fun r =>
      if (r.1 : bool) then mret tt
      else
        match nextMainRevOverflowing r.2 1 with
        | Some nextRev =>
            lift (EncodeRevisionAsBucketKey nextRev NewRevBytes) ≫= fun start' =>
            compact_loop fuel' targetRev retain start' endExcluded false r.2
        | None => compact_loop fuel' targetRev retain start endExcluded true r.2
        end
  end.

(** Every turn but the last moves the start past the last main revision visited, so
    the distance to the target bounds the number of turns. *)
Definition compact_fuel (targetRev compactedRev : Z) : nat := S (S (Z.to_nat (targetRev - compactedRev + 1))).

Definition doCompact (targetRev compactedRev : Z) : M kvs unit := fun s =>
  match on_index (TreeIndex.Compact targetRev) s with
  | (s, Ok retain) =>
      (lift (EncodeRevisionAsBucketKey (mkRev compactedRev 0) NewRevBytes) ≫= fun start =>
       lift (EncodeRevisionAsBucketKey (mkRev (i64 (targetRev + 1)) 0) NewRevBytes) ≫= fun endExcluded =>
       on_backend (compact_loop (compact_fuel targetRev compactedRev) targetRev retain start endExcluded
                     false rev0) ≫= fun _ =>
       modify (set_compacted targetRev)) s
  | (s, Err _) => (s, Ok tt)
  | (s, Panicked) => (s, Panicked)
  end.

(** The synchronous part of Compact; the result is what the goroutine it starts is
    called with. *)
Definition Compact (rev : Z) : M kvs (Z * Z) :=
  get_st ≫= fun s =>
  if rev <? 0 then fail (errMsg "compaction error: compaction target revision cannot be negative")
  else if Main (currentRev s) <? rev
       then fail (errMsg "compaction error: compaction target revision cannot be higher than current revision")
  else if rev <=? compactedMainRev s then fail (errMsg "compaction error: revision compacted")
  else
    on_backend Lock ≫= fun _ =>
    lift (EncodeRevisionAsBucketKey (mkRev rev 0) NewRevBytes) ≫= fun revBytes =>
    on_backend (UnsafePut BucketMeta KeyScheduledCompactedRev (Some revBytes)) ≫= fun _ =>
    try (on_backend Commit) ≫= fun r =>
    match r with
    | inr e => on_backend Rollback ≫= fun _ => fail e
    | inl _ => mret (rev, compactedMainRev s)
    end.

End Mvcc.
