(* ===== verification/MvccInv.v ===== *)
(** The invariant of the multi-version store and what readers and writers do:
    the index and the kv bucket agree, a range read returns the entries that are
    live at its revision, a committed writer adds one revision on top of an
    unchanged past, and an aborted one leaves no trace. *)

From S2P Require Import Prelude OrdTree KvTypes KeyIndex TreeIndex Storage Inmem Backend Mvcc.
From Stdlib Require Import ZArith Lia.
From stdpp Require Import base gmap sets list strings sorting.
Open Scope Z_scope.

(** Projections of updated stores and writers. *)
Ltac kvsimpl :=
  cbn [w_store w_changes w_startRev w_newKeys w_deletedKeys kv_backend kvIndex currentRev
       compactedMainRev raftTerm applyIndex keyCount set_index set_backend set_store set_currentRev
       set_compacted set_keyCount undo_index clear_changes bump_rev add_change add_newKey add_deletedKey].

Section MvccInv.
Context {T St B : Type} {BT : BTree Less T} {BS : ByteStore St B}.
Abbreviation kvs := (KvStore T St B).
Abbreviation wr := (writer T St B).
Abbreviation be := (backend St B).

(** ** Agreement of the index and the kv bucket *)

Definition kv_map (c : contents) : gmap bytes value := default ∅ (c !! BucketKV).

(** [ent] is the stored form of event [e] of key [k]. *)
Record entry_of (k : bytes) (e : kevent) (ent : Entry) : Prop := {
  eo_key : Key ent = k;
  eo_mod : ModRev ent = Main (ke_rev e);
  eo_ok : entry_ok ent;
  eo_live : ke_tomb e = false -> CreateRev ent = Main (ke_created e) /\ Version ent = ke_version e }.

Definition bk_of (e : kevent) : bytes := bk_bytes (mkBK (ke_rev e) (ke_tomb e)).

Definition coherent (idx : T) (m : gmap bytes value) : Prop :=
  forall k e, e ∈ hist idx k -> exists ent, m !! bk_of e = Some (Some (entry_bytes ent)) /\ entry_of k e ent.

(** Every revision in the index is below [bound]. *)
Definition bounded (idx : T) (bound : Revision) : Prop :=
  forall k e, e ∈ hist idx k -> rev_ok (ke_rev e) /\ rev_lt (ke_rev e) bound.

(** The store between transactions. *)
Record kv_inv (s : kvs) : Prop := {
  ki_be : be_ok (kv_backend s);
  ki_batch : be_batch (kv_backend s) = None;
  ki_kv : BucketKV ∈ dom (be_view (kv_backend s));
  ki_meta : BucketMeta ∈ dom (be_view (kv_backend s));
  ki_idx : ti_wf (kvIndex s);
  ki_cur : 0 <= Main (currentRev s);
  ki_bound : bounded (kvIndex s) (mkRev (Main (currentRev s) + 1) 0);
  ki_coh : coherent (kvIndex s) (kv_map (be_view (kv_backend s)));
  ki_comp : compactedMainRev s <= Main (currentRev s) }.

(** The next revision a writer hands out. *)
Definition next_rev (w : wr) : Revision :=
  mkRev (Main (w_startRev w) + 1) (Z.of_nat (length (w_changes w))).

(** The store while a writer is open. *)
Record w_inv (w : wr) : Prop := {
  wi_tx : in_tx (kv_backend (w_store w));
  wi_kv : BucketKV ∈ dom (be_view (kv_backend (w_store w)));
  wi_pkv : BucketKV ∈ dom (pending (kv_backend (w_store w)));
  wi_meta : BucketMeta ∈ dom (be_view (kv_backend (w_store w)));
  wi_pmeta : BucketMeta ∈ dom (pending (kv_backend (w_store w)));
  wi_idx : ti_wf (kvIndex (w_store w));
  wi_start : 0 <= Main (w_startRev w) < MaxInt64;
  wi_cur : currentRev (w_store w) = w_startRev w;
  wi_bound : bounded (kvIndex (w_store w)) (next_rev w);
  wi_coh : coherent (kvIndex (w_store w)) (kv_map (pending (kv_backend (w_store w)))) }.

Lemma bk_bytes_inj a b :
  rev_typed (bk_Revision a) -> rev_typed (bk_Revision b) -> bk_bytes a = bk_bytes b -> a = b.
Proof.
  intros Ha Hb E. pose proof (DecodeKvBucketKey_bytes a Ha) as H1.
  rewrite E, (DecodeKvBucketKey_bytes b Hb) in H1. congruence.
Qed.

Lemma bk_bytes_nonempty bk : bk_bytes bk <> [].
Proof.
  intros E. apply (f_equal length) in E. unfold bk_bytes in E.
  rewrite length_app, length_rev_bytes in E. simpl in E. lia.
Qed.

Lemma kv_map_put (k : bytes) (v : value) (c : contents) :
  BucketKV ∈ dom c -> kv_map (c_put BucketKV k v c) = <[k := v]> (kv_map c).
Proof.
  intros H. apply elem_of_dom in H as [m Hm]. unfold kv_map, c_put.
  by rewrite lookup_alter_eq, Hm.
Qed.

Lemma kv_map_meta (k : bytes) (v : value) (c : contents) : kv_map (c_put BucketMeta k v c) = kv_map c.
Proof. unfold kv_map, c_put. by rewrite lookup_alter_ne. Qed.

(** The same buckets, of which all but the two the store writes to are unchanged. *)
Definition others_kept (c c' : contents) : Prop :=
  dom c' = dom c /\ forall b, b <> BucketKV -> b <> BucketMeta -> c' !! b = c !! b.

Lemma others_kept_refl c : others_kept c c.
Proof. done. Qed.
Lemma others_kept_trans c1 c2 c3 : others_kept c1 c2 -> others_kept c2 c3 -> others_kept c1 c3.
Proof. intros [D1 O1] [D2 O2]. split; [congruence|]. intros b H1 H2. by rewrite O2, O1. Qed.
Lemma others_kept_put (b : Bucket) (k : bytes) (v : value) (c : contents) :
  b = BucketKV \/ b = BucketMeta -> others_kept c (c_put b k v c).
Proof.
  intros Hb. unfold c_put. split; [apply dom_alter_L|]. intros b' H1 H2. apply lookup_alter_ne.
  intros <-. by destruct Hb.
Qed.

Lemma hist_upd_elem idx k h idx' k' e :
  hist_upd idx k (hist idx k ++ [h]) idx' -> e ∈ hist idx' k' ->
  (k' = k /\ e = h) \/ e ∈ hist idx k'.
Proof.
  intros (_ & Hk & Ho) He. destruct (decide (k' = k)) as [->|Hne].
  - rewrite Hk in He. apply elem_of_app in He as [He|He%list_elem_of_singleton]; auto.
  - rewrite Ho in He by done. by right.
Qed.

Lemma coherent_extend idx m k e idx' ent :
  coherent idx m -> bounded idx (ke_rev e) -> rev_ok (ke_rev e) ->
  hist_upd idx k (hist idx k ++ [e]) idx' -> entry_of k e ent ->
  coherent idx' (<[bk_of e := Some (entry_bytes ent)]> m).
Proof.
  intros Hc Hb Hok Hu He k' e' Hin. destruct (hist_upd_elem _ _ _ _ _ _ Hu Hin) as [[-> ->]|Hold].
  - exists ent. by rewrite lookup_insert_eq.
  - destruct (Hc k' e' Hold) as (ent' & Hl & He'). exists ent'. split; [|done].
    rewrite lookup_insert_ne; [done|]. intros E. unfold bk_of in E.
    destruct (Hb k' e' Hold) as [Hok' Hlt].
    apply bk_bytes_inj in E; [|simpl; by apply rev_ok_typed..]. injection E as E _.
    rewrite E in Hlt. by apply (irreflexivity rev_lt) in Hlt.
Qed.

Lemma bounded_extend idx k e idx' :
  bounded idx (ke_rev e) -> rev_ok (ke_rev e) -> hist_upd idx k (hist idx k ++ [e]) idx' ->
  bounded idx' (mkRev (Main (ke_rev e)) (Sub (ke_rev e) + 1)).
Proof.
  intros Hb Hok Hu k' e' Hin. destruct (hist_upd_elem _ _ _ _ _ _ Hu Hin) as [[-> ->]|Hold].
  - split; [done|]. unfold rev_lt. simpl. lia.
  - destruct (Hb k' e' Hold) as [? Hlt]. split; [done|]. etransitivity; [exact Hlt|].
    unfold rev_lt. simpl. lia.
Qed.

Lemma bounded_last idx k bound :
  bounded idx bound -> 0 <= Main bound -> 0 < Main bound \/ 0 < Sub bound ->
  rev_lt (last_rev (hist idx k)) bound.
Proof.
  intros Hb H0 H1. unfold last_rev. rewrite fmap_last.
  destruct (last (hist idx k)) as [e|] eqn:E; simpl.
  - apply last_Some_elem_of in E. by destruct (Hb k e E).
  - unfold rev_lt, rev0. simpl. lia.
Qed.

(** With every event at or before [r], a read at [r] sees the last one. *)
Lemma lookup_at_last h r :
  Forall (upto r) h ->
  lookup_at h r = match last h with Some e => if ke_tomb e then None else Some e | None => None end.
Proof. intros H. unfold lookup_at. by rewrite filter_all. Qed.

Lemma bounded_upto idx k bound :
  bounded idx bound -> Forall (upto (Main bound)) (hist idx k).
Proof.
  intros Hb. apply Forall_forall. intros e He. destruct (Hb k e He) as [_ Hlt].
  apply rev_lt_Main in Hlt. exact Hlt.
Qed.

(** ** Writing *)

Lemma version_in_i64 idx k e : e ∈ hist idx k -> in_i64 (ke_version e).
Proof.
  unfold hist. destruct (find_key key k (bt_Items idx)) as [ki|]; [|by intros ?%not_elem_of_nil].
  unfold abs. intros He. assert (forall c g, e ∈ gen_events c g -> in_i64 (ke_version e)) as Hg.
  { intros c g. unfold gen_events. intros (i & r & -> & _)%elem_of_lookup_imap. simpl. apply i64_in. }
  induction (generations ki) as [|g gs IH]; [by apply not_elem_of_nil in He|].
  rewrite abs_gens_cons in He. apply elem_of_app in He as [He|He]; [by eapply Hg|by apply IH].
Qed.

(** The entry that a put of [v] under [k] stores when [h] is the history of [k]. *)
Definition new_entry (h : list kevent) (k : bytes) (v : value) (leaseID : Z) (rev : Revision) : Entry :=
  let e := put_event h rev in
  mkEntry k v (Main (ke_created e)) (Main rev) (ke_version e) leaseID.

Definition tomb_entry (k : bytes) (rev : Revision) : Entry := mkEntry k None 0 (Main rev) 0 0.

Lemma put_event_rev h rev : ke_rev (put_event h rev) = rev /\ ke_tomb (put_event h rev) = false.
Proof. unfold put_event. by repeat case_match. Qed.

Lemma put_event_version h rev : in_i64 (ke_version (put_event h rev)).
Proof. unfold put_event. repeat case_match; simpl; (apply i64_in || by apply (bool_decide_unpack _)). Qed.

Lemma len_i64 n : n < 2 ^ 32 -> 0 <= n -> in_i64 n.
Proof. unfold in_i64, MinInt64, MaxInt64. lia. Qed.

(** Sizes and lease ids that fit the entry codec. *)
Definition put_args_ok (k : bytes) (v : value) (leaseID : Z) : Prop :=
  Z.of_nat (length k) < 2 ^ 32 /\ Z.of_nat (length (default [] v)) < 2 ^ 32 /\ in_i64 leaseID.

Lemma new_entry_of idx m k v leaseID rev :
  coherent idx m -> put_args_ok k v leaseID -> rev_ok rev ->
  entry_of k (put_event (hist idx k) rev) (new_entry (hist idx k) k v leaseID rev).
Proof.
  intros Hc (Hk & Hv & Hl) [Hm _]. destruct (put_event_rev (hist idx k) rev) as [Hr _].
  split; [done|by rewrite Hr| |done].
  assert (in_i64 (Main rev)) as Hi by (unfold in_i64, MinInt64; lia).
  split_and!; simpl; try done; [|apply put_event_version].
  unfold put_event. destruct (last (hist idx k)) as [e|] eqn:E; [|done].
  destruct (ke_tomb e) eqn:Et; [done|]. simpl.
  apply last_Some_elem_of in E. destruct (Hc k e E) as (ent & _ & [_ _ Hok Hlive]).
  destruct (Hlive Et) as [<- _]. apply Hok.
Qed.

(** [e] is what the index itself would add to the history [h]. *)
Definition event_follows (h : list kevent) (e : kevent) : Prop :=
  e = put_event h (ke_rev e) \/
  e = set_tomb (put_event h (ke_rev e)) /\ exists e', last h = Some e' /\ ke_tomb e' = false.

(** The writer after one more change: what stays and what is new. *)
Record w_step (w w' : wr) (k : bytes) (e : kevent) (ent : Entry) : Prop := {
  ws_inv : w_inv w';
  ws_changes : w_changes w' = w_changes w ++ [ent];
  ws_start : w_startRev w' = w_startRev w;
  ws_hist : hist_upd (kvIndex (w_store w)) k (hist (kvIndex (w_store w)) k ++ [e]) (kvIndex (w_store w'));
  ws_store : be_store (kv_backend (w_store w')) = be_store (kv_backend (w_store w));
  ws_pending : pending (kv_backend (w_store w')) =
    c_put BucketKV (bk_of e) (Some (entry_bytes ent)) (pending (kv_backend (w_store w)));
  ws_meta : compactedMainRev (w_store w') = compactedMainRev (w_store w) /\
    applyIndex (w_store w') = applyIndex (w_store w) /\ raftTerm (w_store w') = raftTerm (w_store w);
  ws_rev : ke_rev e = next_rev w;
  ws_entry : entry_of k e ent;
  ws_follows : event_follows (hist (kvIndex (w_store w)) k) e }.

(** Storing the entry and recording the event makes a step. *)
Lemma w_step_intro w k e ent b' idx' n d :
  w_inv w -> ke_rev e = next_rev w -> rev_ok (next_rev w) -> entry_of k e ent ->
  event_follows (hist (kvIndex (w_store w)) k) e ->
  hist_upd (kvIndex (w_store w)) k (hist (kvIndex (w_store w)) k ++ [e]) idx' ->
  in_tx b' -> be_store b' = be_store (kv_backend (w_store w)) ->
  pending b' = c_put BucketKV (bk_of e) (Some (entry_bytes ent)) (pending (kv_backend (w_store w))) ->
  w_step w (mkWriter (set_index idx' (set_backend b' (w_store w))) (w_startRev w)
              (w_changes w ++ [ent]) n d) k e ent.
Proof.
  intros [Htx Hkv Hpkv Hmeta Hpmeta Hidx Hstart Hcur Hb Hc] He Hok Hent Hfol Hu Htx' Hst Hp.
  assert (be_view b' = be_view (kv_backend (w_store w))) as Hv by (unfold be_view; by rewrite Hst).
  split; kvsimpl; try done.
  split; kvsimpl; try done.
  - by rewrite Hv.
  - rewrite Hp. unfold c_put. by rewrite dom_alter_L.
  - by rewrite Hv.
  - rewrite Hp. unfold c_put. by rewrite dom_alter_L.
  - apply Hu.
  - rewrite <-He in Hb, Hok. pose proof (bounded_extend _ _ _ _ Hb Hok Hu) as Hb'.
    rewrite He in Hb'. unfold next_rev in *. cbn [w_startRev w_changes Main Sub] in *.
    rewrite length_app, Nat2Z.inj_add. exact Hb'.
  - rewrite Hp, kv_map_put by done. rewrite <-He in Hb, Hok. eapply coherent_extend;
      [exact Hc|exact Hb|exact Hok|exact Hu|exact Hent].
Qed.

Lemma next_i64 w : w_inv w -> i64 (Main (w_startRev w) + 1) = Main (next_rev w).
Proof.
  intros Hw. pose proof (wi_start w Hw) as Hs. simpl. apply i64_id. unfold in_i64, MinInt64, MaxInt64 in *. lia.
Qed.

Lemma w_next_above w k : w_inv w -> rev_lt (last_rev (hist (kvIndex (w_store w)) k)) (next_rev w).
Proof.
  intros Hw. pose proof (wi_start w Hw) as Hs. pose proof (wi_bound w Hw) as Hb. apply bounded_last; simpl; [exact Hb|lia|lia].
Qed.

Lemma w_lookup_next w k :
  w_inv w ->
  lookup_at (hist (kvIndex (w_store w)) k) (Main (next_rev w)) =
    match last (hist (kvIndex (w_store w)) k) with
    | Some e => if ke_tomb e then None else Some e | None => None end.
Proof. intros Hw. apply lookup_at_last, (bounded_upto _ _ _ (wi_bound w Hw)). Qed.

Lemma w_next_ok w : w_inv w -> Z.of_nat (length (w_changes w)) <= MaxInt64 -> rev_ok (next_rev w).
Proof.
  intros Hw Hl. pose proof (wi_start w Hw) as Hs. unfold rev_ok, next_rev, MaxInt64 in *. simpl. lia.
Qed.

(** The part of [put] that looks up the previous version of the key. *)
Lemma put_previous w k v leaseID :
  w_inv w ->
  let ent := new_entry (hist (kvIndex (w_store w)) k) k v leaseID (next_rev w) in
  exists cr ver n, (match TreeIndex.Get k (Main (next_rev w)) (kvIndex (w_store w)) with
     | Ok (created, _, version) => mret (Main created, version)
     | Err _ => modify add_newKey ≫= fun _ => mret (Main (next_rev w), 0)
     | Panicked => lift Panicked end) w =
       (mkWriter (w_store w) (w_startRev w) (w_changes w) n (w_deletedKeys w), Ok (cr, ver)) /\
     cr = CreateRev ent /\ i64 (ver + 1) = Version ent.
Proof.
  intros Hw. cbv zeta. set (h := hist (kvIndex (w_store w)) k).
  pose proof (unsafeGet_hist (kvIndex (w_store w)) k (Main (next_rev w)) (wi_idx w Hw)) as Hg.
  rewrite (w_lookup_next w k Hw) in Hg. fold h in Hg. unfold TreeIndex.Get, new_entry, put_event.
  destruct (last h) as [e|] eqn:El; [destruct (ke_tomb e) eqn:Et|].
  - destruct Hg as [err ->]. by do 3 eexists.
  - rewrite Hg. exists (Main (ke_created e)), (ke_version e), (w_newKeys w).
    split; [by destruct w|done].
  - destruct Hg as [err ->]. by do 3 eexists.
Qed.

Lemma put_step w k v leaseID :
  w_inv w -> put_args_ok k v leaseID -> Z.of_nat (length (w_changes w)) <= MaxInt64 ->
  exists w', Mvcc.put k v leaseID w = (w', Ok tt) /\
    let h := hist (kvIndex (w_store w)) k in
    w_step w w' k (put_event h (next_rev w)) (new_entry h k v leaseID (next_rev w)).
Proof.
  intros Hw Hargs Hl. set (h := hist (kvIndex (w_store w)) k).
  pose proof (w_next_ok w Hw Hl) as Hok. destruct (put_event_rev h (next_rev w)) as [Hr Ht].
  destruct (put_previous w k v leaseID Hw) as (cr & ver & n & Hrun & Hcr & Hver). fold h in Hcr, Hver.
  assert (entry_of k (put_event h (next_rev w)) (new_entry h k v leaseID (next_rev w))) as Hent
    by (eapply new_entry_of; [apply Hw|done|done]).
  set (ent := new_entry h k v leaseID (next_rev w)) in *.
  destruct (UnsafePut_spec BucketKV (rev_bytes (next_rev w)) (Some (entry_bytes ent))
    (kv_backend (w_store w))) as (b' & Hput & Htx' & Hst & Hp); [apply Hw|apply Hw| |].
  { intros E. apply (f_equal length) in E. by rewrite length_rev_bytes in E. }
  destruct (Put_hist (kvIndex (w_store w)) k (next_rev w)) as (idx' & Hidx & Hu);
    [apply Hw|by apply w_next_above|].
  assert (rev_bytes (next_rev w) = bk_of (put_event h (next_rev w))) as Hbk
    by (unfold bk_of, bk_bytes; simpl; by rewrite Hr, Ht, app_nil_r).
  rewrite Hbk in Hp.
  unfold Mvcc.put. rewrite (M_bind_Ok _ _ _ _ _ (eq_refl : get_st w = (w, Ok w))).
  rewrite (next_i64 w Hw). rewrite (M_bind_Ok _ _ _ _ _ Hrun). cbv beta iota.
  change (mkRev (Main (next_rev w)) (Z.of_nat (length (w_changes w)))) with (next_rev w).
  rewrite EncodeRevision_new.
  assert (mkEntry k v cr (Main (next_rev w)) (i64 (ver + 1)) leaseID = ent) as -> by (by rewrite Hcr, Hver).
  unfold mbind, M_bind, lift, flatten_err, on_store, on_backend, on_index, modify.
  rewrite EncodeKvEntry_Some. cbn [w_store set_store w_startRev w_changes w_newKeys w_deletedKeys].
  rewrite Hput. cbn [set_store w_store kvIndex set_backend w_startRev w_changes w_newKeys w_deletedKeys].
  rewrite Hidx. eexists. split; [done|]. cbv zeta.
  refine (w_step_intro w k _ ent b' idx' n (w_deletedKeys w) Hw Hr Hok Hent _ Hu Htx' Hst Hp).
  left. by rewrite Hr.
Qed.

Lemma deleteKey_step w k :
  w_inv w -> Z.of_nat (length k) < 2 ^ 32 -> Z.of_nat (length (w_changes w)) <= MaxInt64 ->
  (exists e, last (hist (kvIndex (w_store w)) k) = Some e /\ ke_tomb e = false) ->
  exists w', deleteKey k w = (w', Ok tt) /\
    w_step w w' k (set_tomb (put_event (hist (kvIndex (w_store w)) k) (next_rev w)))
      (tomb_entry k (next_rev w)).
Proof.
  intros Hw Hk Hl Hlive. set (h := hist (kvIndex (w_store w)) k) in *.
  pose proof (w_next_ok w Hw Hl) as Hok. destruct (put_event_rev h (next_rev w)) as [Hr _].
  set (e := set_tomb (put_event h (next_rev w))). set (ent := tomb_entry k (next_rev w)).
  assert (entry_of k e ent) as Hent.
  { split; [done|by simpl; rewrite Hr| |done]. destruct Hok as [Hm _]. simpl in Hm.
    split_and!; simpl; try done; unfold in_i64, MinInt64, MaxInt64 in *; lia. }
  destruct (UnsafePut_spec BucketKV (bk_of e) (Some (entry_bytes ent))
    (kv_backend (w_store w))) as (b' & Hput & Htx' & Hst & Hp);
    [apply Hw|apply Hw|apply bk_bytes_nonempty|].
  destruct (Tombstone_hist (kvIndex (w_store w)) k (next_rev w)) as (idx' & Hidx & Hu);
    [apply Hw|by apply w_next_above|done|].
  unfold deleteKey. rewrite (M_bind_Ok _ _ _ _ _ (eq_refl : modify add_deletedKey w = (add_deletedKey w, Ok tt))).
  rewrite (M_bind_Ok _ _ _ _ _ (eq_refl : get_st (add_deletedKey w) = (_, Ok (add_deletedKey w)))).
  cbn [add_deletedKey w_startRev w_changes]. rewrite (next_i64 w Hw).
  assert (NewKvBucketKey (Main (next_rev w)) (Z.of_nat (length (w_changes w))) true
          = mkBK (ke_rev e) (ke_tomb e)) as Hbk
    by (unfold NewKvBucketKey, e; simpl; by rewrite Hr).
  rewrite Hbk, EncodeKvBucketKey_new. fold (bk_of e).
  change (mkEntry k None 0 (Main (next_rev w)) 0 0) with ent.
  unfold mbind, M_bind, lift, flatten_err, on_store, on_backend, on_index, modify.
  rewrite EncodeKvEntry_Some. cbn [add_deletedKey w_store set_store w_startRev w_changes w_newKeys w_deletedKeys].
  rewrite Hput. cbn [add_deletedKey set_store w_store kvIndex set_backend w_startRev w_changes w_newKeys w_deletedKeys
                     bk_Revision].
  assert (ke_rev e = next_rev w) as Her by (unfold e; simpl; by rewrite Hr).
  rewrite Her, Hidx. eexists. split; [done|].
  refine (w_step_intro w k e ent b' idx' _ _ Hw Her Hok Hent _ Hu Htx' Hst Hp).
  right. split; [by rewrite Her|exact Hlive].
Qed.

(** ** The live entries *)

(** [lm] is the map of the keys that are live in the index to their stored entries. *)
Definition live_map (idx : T) (m : gmap bytes value) (lm : gmap bytes Entry) : Prop :=
  forall k, match last (hist idx k) with
    | Some e =>
        if ke_tomb e then lm !! k = None
        else exists ent, m !! bk_of e = Some (Some (entry_bytes ent)) /\ entry_of k e ent /\
               lm !! k = Some (stored ent)
    | None => lm !! k = None
    end.

Definition w_live (w : wr) (lm : gmap bytes Entry) : Prop :=
  live_map (kvIndex (w_store w)) (kv_map (pending (kv_backend (w_store w)))) lm.

Lemma live_map_live idx m lm k :
  live_map idx m lm -> is_Some (lm !! k) <-> exists e, last (hist idx k) = Some e /\ ke_tomb e = false.
Proof.
  intros H. specialize (H k). destruct (last (hist idx k)) as [e|]; [destruct (ke_tomb e) eqn:Et|].
  - rewrite H. split; [by intros [? ?]|intros (e' & [= <-] & ?); congruence].
  - destruct H as (ent & _ & _ & ->). split; [intros _; by exists e|by intros _; eexists].
  - rewrite H. split; [by intros [? ?]|by intros (e' & ? & _)].
Qed.

(** A step updates the live map at its key. *)
Lemma w_step_live (w w' : wr) (k : bytes) (e : kevent) (ent : Entry) (lm : gmap bytes Entry) :
  w_inv w -> w_step w w' k e ent -> w_live w lm ->
  w_live w' (if ke_tomb e then delete k lm else <[k := stored ent]> lm).
Proof.
  intros Hw [Hw' Hch Hst (Hwf & Hk & Ho) _ Hp _ Hr He] Hl x. unfold w_live in Hl. rewrite Hp.
  rewrite kv_map_put by apply Hw. destruct (decide (x = k)) as [->|Hne].
  - rewrite Hk, last_snoc. destruct (ke_tomb e); [apply lookup_delete_eq|].
    exists ent. by rewrite !lookup_insert_eq.
  - rewrite Ho by done.
    assert ((if ke_tomb e then delete k lm else <[k := stored ent]> lm) !! x = lm !! x) as ->
      by (destruct (ke_tomb e); [by apply lookup_delete_ne|by apply lookup_insert_ne]).
    specialize (Hl x). destruct (last (hist (kvIndex (w_store w)) x)) as [e'|] eqn:El; [|done].
    destruct (ke_tomb e'); [done|]. destruct Hl as (ent' & Hl' & He' & Hlm). exists ent'.
    split; [|done]. rewrite lookup_insert_ne; [done|]. intros E. unfold bk_of in E.
    apply last_Some_elem_of in El. destruct (wi_bound w Hw x e' El) as [Hok' Hlt].
    assert (rev_ok (ke_rev e)) as Hok.
    { assert (e ∈ hist (kvIndex (w_store w')) k) as Hin by (rewrite Hk; apply elem_of_app; right; left).
      by destruct (wi_bound w' Hw' k e Hin). }
    apply bk_bytes_inj in E; [|simpl; by apply rev_ok_typed..]. injection E as E _.
    rewrite <-E, Hr in Hlt. by apply (irreflexivity rev_lt) in Hlt.
Qed.

(** One change made by the writer. *)
Definition one_step (w w' : wr) : Prop :=
  exists k e ent, w_step w w' k e ent /\ ke_rev e = next_rev w /\ Key ent = k.

(** *** Deleting several keys *)

(** The index after deleting [ks]: each of them gets one tombstone. *)
Definition all_deleted (idx : T) (ks : list bytes) (idx' : T) : Prop :=
  forall k, if bool_decide (k ∈ ks)
            then exists e, hist idx' k = hist idx k ++ [e] /\ ke_tomb e = true
            else hist idx' k = hist idx k.

Lemma deleteKeys_steps ks w :
  w_inv w -> NoDup ks ->
  Z.of_nat (length (w_changes w)) + Z.of_nat (length ks) <= MaxInt64 ->
  Forall (fun k => Z.of_nat (length k) < 2 ^ 32 /\
    exists e, last (hist (kvIndex (w_store w)) k) = Some e /\ ke_tomb e = false) ks ->
  exists w', deleteKeys ks w = (w', Ok tt) /\ w_inv w' /\ rtc one_step w w' /\
    all_deleted (kvIndex (w_store w)) ks (kvIndex (w_store w')) /\
    length (w_changes w') = (length (w_changes w) + length ks)%nat /\
    forall lm : gmap bytes Entry, w_live w lm -> w_live w' (foldl (fun lm k => delete k lm) lm ks).
Proof.
  revert w. induction ks as [|k ks IH]; intros w Hw Hnd Hl Hks.
  { exists w. split_and!; [done|done|apply rtc_refl| |simpl; lia|done]. intros k.
    by rewrite bool_decide_eq_false_2 by apply not_elem_of_nil. }
  inversion Hnd as [|? ? Hnin Hnd']; subst. inversion Hks as [|? ? [Hk Hlive] Hks']; subst.
  simpl in Hl. destruct (deleteKey_step w k Hw Hk) as (w1 & Hrun & Hstep); [lia|done|].
  assert (one_step w w1) as Hone.
  { do 3 eexists. split; [exact Hstep|]. split; [|done]. simpl. apply put_event_rev. }
  pose proof (fun lm => w_step_live w w1 k _ _ lm Hw Hstep) as Hlive1.
  destruct Hstep as [Hw1 Hch Hst (_ & Hhk & Hho) _ _ _].
  destruct (IH w1 Hw1 Hnd') as (w' & Hrun' & Hw' & Hrtc & Hall & Hlen & Hlive').
  { rewrite Hch, length_app. simpl. lia. }
  { apply Forall_forall. intros x Hx. rewrite Forall_forall in Hks'. specialize (Hks' x Hx).
    rewrite Hho; [done|]. by intros ->. }
  exists w'. split_and!; [|done| | |rewrite Hlen, Hch, length_app; simpl; lia|].
  - cbn [deleteKeys]. rewrite (M_bind_Ok _ _ w w1 tt); [done|]. unfold flatten_err. by rewrite Hrun.
  - by eapply rtc_l.
  - intros x. specialize (Hall x). destruct (decide (x = k)) as [->|Hne].
    + rewrite bool_decide_eq_false_2 in Hall by done. rewrite bool_decide_eq_true_2 by left.
      rewrite Hall, Hhk. eexists. split; [done|]. done.
    + rewrite Hho in Hall by done.
      rewrite (bool_decide_ext _ (x ∈ ks)) by (rewrite elem_of_cons; tauto). exact Hall.
  - intros lm Hlm. simpl. by apply Hlive', Hlive1.
Qed.

Definition keys_short (idx : T) : Prop := forall k, hist idx k <> [] -> Z.of_nat (length k) < 2 ^ 32.

Lemma coherent_keys_short idx m : coherent idx m -> keys_short idx.
Proof.
  intros Hc k Hne. destruct (hist idx k) as [|e h] eqn:E; [done|].
  destruct (Hc k e) as (ent & _ & [Hk _ Hok _]); [rewrite E; left|]. rewrite <-Hk. apply Hok.
Qed.

Lemma answers_NoDup sel r idx out : answers sel r idx out -> NoDup (fst <$> out).
Proof.
  intros [Hsort _]. induction Hsort as [|[x e] l ? IH Hx]; [constructor|]. simpl. constructor; [|done].
  intros ([y e'] & E & Hy)%list_elem_of_fmap. simpl in E. subst y.
  eapply (proj1 (Forall_forall _ _)) in Hx; [|exact Hy]. simpl in Hx. by rewrite bytes_ltb_irrefl in Hx.
Qed.

Lemma deleteRange_spec w k end_ :
  w_inv w ->
  exists ks, NoDup ks /\
    (forall x, x ∈ ks <-> range_selects k end_ x = true /\
       exists e, last (hist (kvIndex (w_store w)) x) = Some e /\ ke_tomb e = false) /\
    (Z.of_nat (length (w_changes w)) + Z.of_nat (length ks) <= MaxInt64 ->
     exists w', deleteRange k end_ w = (w', Ok tt) /\ w_inv w' /\ rtc one_step w w' /\
       all_deleted (kvIndex (w_store w)) ks (kvIndex (w_store w')) /\
       length (w_changes w') = (length (w_changes w) + length ks)%nat /\
       forall lm : gmap bytes Entry, w_live w lm -> w_live w' (foldl (fun lm k => delete k lm) lm ks)).
Proof.
  intros Hw. set (idx := kvIndex (w_store w)).
  set (r := if (0 <? length (w_changes w))%nat then i64 (Main (w_startRev w) + 1) else Main (w_startRev w)).
  assert (forall x, Forall (upto r) (hist idx x)) as Hup.
  { intros x. pose proof (wi_bound w Hw) as Hb. fold idx in Hb. unfold r.
    destruct (length (w_changes w)) as [|n] eqn:El; simpl.
    - apply Forall_forall. intros e He. destruct (Hb x e He) as [[_ Hs] Hlt].
      unfold rev_lt, next_rev, upto in *. rewrite El in Hlt. simpl in Hlt. lia.
    - rewrite (next_i64 w Hw). by apply bounded_upto. }
  destruct (Range_hist k end_ r idx (wi_idx w Hw)) as (out & Hansw & Hrange).
  pose proof (answers_NoDup _ _ _ _ Hansw) as Hnd. destruct Hansw as [_ Hans].
  exists (fst <$> out).
  assert (forall x, x ∈ fst <$> out <-> range_selects k end_ x = true /\
    exists e, last (hist idx x) = Some e /\ ke_tomb e = false) as Helem.
  { intros x. rewrite list_elem_of_fmap. split.
    - intros ([y e] & -> & [Hs Hl]%Hans). simpl. split; [done|]. rewrite lookup_at_last in Hl by apply Hup.
      destruct (last (hist idx y)) as [e'|]; [|done]. destruct (ke_tomb e') eqn:Et; [done|]. eauto.
    - intros (Hs & e & He & Ht). exists (x, e). split; [done|]. apply Hans. split; [done|].
      rewrite lookup_at_last by apply Hup. by rewrite He, Ht. }
  split; [|split; [exact Helem|]].
  - exact Hnd.
  - intros Hl. unfold deleteRange.
    rewrite (M_bind_Ok _ _ _ _ _ (eq_refl : get_st w = (w, Ok w))). fold r. fold idx.
    rewrite Hrange. unfold lift at 1, mbind, M_bind.
    assert (fst <$> ((fun p => (p.1, ke_created p.2)) <$> out) = fst <$> out) as ->
      by (rewrite <-list_fmap_compose; done).
    apply deleteKeys_steps; [done|done|done|].
    + apply Forall_forall. intros x Hx. apply Helem in Hx as (_ & e & He & Ht). split; [|eauto].
      apply (coherent_keys_short idx _ (wi_coh w Hw)). intros En. by rewrite En in He.
Qed.

(** ** Sessions of a writer *)

Lemma NewWriter_spec s :
  kv_inv s -> Main (currentRev s) < MaxInt64 ->
  exists w, NewWriter s = Ok w /\ w_inv w /\ w_changes w = [] /\ w_startRev w = currentRev s /\
    kvIndex (w_store w) = kvIndex s /\ be_store (kv_backend (w_store w)) = be_store (kv_backend s) /\
    pending (kv_backend (w_store w)) = be_view (kv_backend s) /\
    compactedMainRev (w_store w) = compactedMainRev s.
Proof.
  intros [Hbe Hba Hkv Hme Hidx Hcur Hb Hc Hcm] Hmax. unfold NewWriter, on_backend.
  destruct (Lock_spec (kv_backend s) Hbe) as (b' & -> & Htx & Hst & Hp).
  assert (be_view b' = be_view (kv_backend s)) as Hv by (unfold be_view; by rewrite Hst).
  eexists. split; [done|]. cbn [w_store w_changes w_startRev kvIndex kv_backend set_backend].
  split_and!; try done. split; cbn [w_store w_changes w_startRev kvIndex kv_backend set_backend currentRev];
    rewrite ?Hp, ?Hv; try done.
Qed.

(** How far a history has grown by the changes of a transaction at main revision [m]. *)
Inductive extends (h0 : bytes -> list kevent) (m : Z) : list Entry -> (bytes -> list kevent) -> Prop :=
  | ext_nil h : (forall k, h k = h0 k) -> extends h0 m [] h
  | ext_snoc cs c e h1 h :
      extends h0 m cs h1 -> ke_rev e = mkRev m (Z.of_nat (length cs)) ->
      h (Key c) = h1 (Key c) ++ [e] -> (forall k, k <> Key c -> h k = h1 k) ->
      extends h0 m (cs ++ [c]) h.

Lemma extends_past h0 m cs h :
  extends h0 m cs h -> forall k r, r < m -> lookup_at (h k) r = lookup_at (h0 k) r.
Proof.
  induction 1 as [h Hh|cs c e h1 h _ IH Hr Hk Ho]; intros k r Hlt; [by rewrite Hh|].
  destruct (decide (k = Key c)) as [->|Hne]; [|by rewrite Ho, IH].
  rewrite Hk, <-IH by done. unfold lookup_at. rewrite last_filter_app, filter_cons_False; [done|].
  unfold upto. rewrite Hr. simpl. lia.
Qed.

Lemma drop_changes_spec h0 m cs h :
  extends h0 m cs h -> forall idx, ti_wf idx -> (forall k, hist idx k = h k) ->
  ti_wf (drop_changes m (reverse cs) idx) /\
  forall k, hist (drop_changes m (reverse cs) idx) k = h0 k.
Proof.
  induction 1 as [h Hh|cs c e h1 h _ IH Hr Hk Ho]; intros idx Hwf Hi.
  { split; [done|]. intros k. simpl. by rewrite Hi, Hh. }
  rewrite reverse_snoc. cbn [drop_changes]. rewrite length_reverse.
  destruct (DropRevision_hist idx (Key c) (mkRev m (Z.of_nat (length cs))) (h1 (Key c)) e)
    as (Hwf' & Hk' & Ho'); [done|by rewrite Hi|done|].
  apply IH; [done|]. intros k. destruct (decide (k = Key c)) as [->|Hne]; [done|].
  by rewrite Ho', Hi, Ho.
Qed.

(** What a writer opened on [s] has done so far. *)
Record session (s : kvs) (w : wr) : Prop := {
  se_inv : w_inv w;
  se_start : w_startRev w = currentRev s;
  se_store : be_store (kv_backend (w_store w)) = be_store (kv_backend s);
  se_ext : extends (hist (kvIndex s)) (Main (currentRev s) + 1) (w_changes w) (hist (kvIndex (w_store w)));
  se_comp : compactedMainRev (w_store w) = compactedMainRev s;
  se_others : others_kept (be_view (kv_backend s)) (pending (kv_backend (w_store w)));
  se_steps : exists w0, NewWriter s = Ok w0 /\ rtc one_step w0 w }.

Lemma session_new s w : kv_inv s -> Main (currentRev s) < MaxInt64 -> NewWriter s = Ok w -> session s w.
Proof.
  intros Hs Hm Hw. destruct (NewWriter_spec s Hs Hm) as (w' & Hw' & Hinv & Hch & Hst & Hidx & Hbe & Hp & Hcomp).
  rewrite Hw in Hw'. injection Hw' as <-. split; [done|done|done| |done|by rewrite Hp|by exists w]. rewrite Hch, Hidx. by apply ext_nil.
Qed.

Lemma session_step s w w' : session s w -> one_step w w' -> session s w'.
Proof.
  intros [Hinv Hst Hbe Hext Hcomp Hoth (w0 & Hn & Hw0)] Hone.
  pose proof Hone as (k & e & ent & [Hinv' Hch Hst' (_ & Hk & Ho) Hbe' Hp [Hc' _]] & Hr & Hkey).
  split; [done|congruence|congruence| |congruence|rewrite Hp; eapply others_kept_trans; [done|apply others_kept_put; auto]
    |exists w0; split; [done|by eapply rtc_r]]. rewrite Hch. subst k.
  eapply ext_snoc; [exact Hext| |exact Hk|exact Ho]. rewrite Hr. unfold next_rev. by rewrite Hst.
Qed.

Lemma session_steps s w w' : session s w -> rtc one_step w w' -> session s w'.
Proof. intros Hs H. induction H as [|? ? ? H1 _ IH]; [done|]. by eapply IH, session_step. Qed.

(** A successful call of the Writer interface. There is room for the sub-revisions
    of its changes. *)
Definition roomy (w : wr) : Prop :=
  Z.of_nat (length (w_changes w)) + Z.of_nat (length (bt_Items (kvIndex (w_store w)))) <= MaxInt64.

Inductive w_op : wr -> wr -> Prop :=
  | op_Put w k v leaseID w' :
      put_args_ok k v leaseID -> roomy w -> Put k v leaseID w = (w', Ok tt) -> w_op w w'
  | op_DeleteRange w k end_ w' :
      roomy w -> DeleteRange k end_ w = (w', Ok tt) -> w_op w w'.

Lemma live_keys_bound idx (ks : list bytes) :
  NoDup ks -> (forall k, k ∈ ks -> hist idx k <> []) -> (length ks <= length (bt_Items idx))%nat.
Proof.
  intros Hnd Hks. rewrite <-(length_fmap key (bt_Items idx)). apply submseteq_length, NoDup_submseteq; [done|].
  intros k Hk. specialize (Hks k Hk). unfold hist in Hks.
  destruct (find_key key k (bt_Items idx)) as [ki|] eqn:E; [|done].
  apply find_key_Some in E as [E <-]. by apply list_elem_of_fmap_2.
Qed.

Lemma w_op_steps w w' : w_inv w -> w_op w w' -> rtc one_step w w'.
Proof.
  intros Hw Hop. inversion Hop as [? k v l ? Hargs Hroom Hrun|? k end_ ? Hroom Hrun]; subst.
  - destruct (put_step w k v l Hw Hargs) as (w1 & Hrun1 & Hstep); [unfold roomy in Hroom; lia|].
    unfold Put in Hrun. rewrite Hrun in Hrun1. injection Hrun1 as <-. apply rtc_once.
    do 3 eexists. split; [exact Hstep|]. split; [apply put_event_rev|done].
  - destruct (deleteRange_spec w k end_ Hw) as (ks & Hnd & Hks & Hdel).
    destruct Hdel as (w1 & Hrun1 & _ & Hrtc & _).
    { pose proof (live_keys_bound (kvIndex (w_store w)) ks Hnd) as Hlen. unfold roomy in Hroom.
      assert (length ks <= length (bt_Items (kvIndex (w_store w))))%nat; [|lia]. apply Hlen.
      intros x (_ & e & He & _)%Hks En. by rewrite En in He. }
    unfold DeleteRange in Hrun. rewrite Hrun in Hrun1. by injection Hrun1 as <-.
Qed.

Lemma session_ops s w w' : session s w -> rtc w_op w w' -> session s w'.
Proof.
  intros Hs H. induction H as [|w1 w2 w3 H1 _ IH]; [done|]. apply IH.
  eapply session_steps; [exact Hs|]. apply w_op_steps; [apply Hs|done].
Qed.

(** *** Abort and End *)

Lemma coherent_hist_eq idx idx' m :
  (forall k, hist idx' k = hist idx k) -> coherent idx m -> coherent idx' m.
Proof. intros H Hc k e. rewrite H. apply Hc. Qed.

Lemma bounded_hist_eq idx idx' r :
  (forall k, hist idx' k = hist idx k) -> bounded idx r -> bounded idx' r.
Proof. intros H Hc k e. rewrite H. apply Hc. Qed.

Lemma bounded_mono idx r r' : bounded idx r -> rev_lt r r' \/ r = r' -> bounded idx r'.
Proof.
  intros Hb Hr k e He. destruct (Hb k e He) as [? Hlt]. split; [done|].
  destruct Hr as [Hr| <-]; [by etransitivity|done].
Qed.

Lemma undo_index_spec s w :
  session s w ->
  let idx := kvIndex (w_store (undo_index w)) in
  ti_wf idx /\ forall k, hist idx k = hist (kvIndex s) k.
Proof.
  intros [Hinv Hst _ Hext]. cbv zeta. unfold undo_index. cbn [w_store set_store kvIndex set_index].
  rewrite (next_i64 w Hinv). unfold next_rev. cbn [Main]. rewrite Hst.
  eapply drop_changes_spec; [exact Hext|apply Hinv|done].
Qed.

Lemma Abort_spec s w :
  kv_inv s -> session s w ->
  exists w', Abort w = (w', Ok tt) /\ let s' := w_store w' in
    kv_inv s' /\ be_view (kv_backend s') = be_view (kv_backend s) /\
    (forall k, hist (kvIndex s') k = hist (kvIndex s) k) /\
    currentRev s' = currentRev s.
Proof.
  intros Hs Hse. destruct (undo_index_spec s w Hse) as [Hwf Hh]. destruct Hse as [Hinv Hst Hbe Hext Hcomp _ _].
  unfold Abort.
  rewrite (M_bind_Ok _ _ _ _ _ (eq_refl : modify undo_index w = (undo_index w, Ok tt))).
  rewrite (M_bind_Ok _ _ _ _ _ (eq_refl : modify clear_changes (undo_index w) = (clear_changes (undo_index w), Ok tt))).
  unfold on_store, on_backend. kvsimpl.
  destruct (Rollback_spec (kv_backend (w_store w)) (wi_tx w Hinv)) as (b' & -> & Hst' & Hba').
  eexists. split; [done|]. cbv zeta.
  kvsimpl.
  assert (be_view b' = be_view (kv_backend s)) as Hv by (unfold be_view; by rewrite Hst', Hbe).
  cbn [undo_index w_store set_store kvIndex set_index] in Hwf, Hh.
  destruct Hs as [H1 H2 H3 H4 H5 H6 H7 H8 H9].
  split_and!; [|done|done|by rewrite (wi_cur w Hinv), Hst].
  split; kvsimpl; rewrite ?Hv; try done.
  - unfold be_ok. by rewrite Hst', Hbe.
  - by rewrite (wi_cur w Hinv), Hst.
  - eapply bounded_hist_eq; [exact Hh|]. rewrite (wi_cur w Hinv), Hst. exact H7.
  - eapply coherent_hist_eq; [exact Hh|exact H8].
  - by rewrite (wi_cur w Hinv), Hst, Hcomp.
Qed.

(** The meta puts of End do not touch the kv bucket. *)
Definition meta_only (b b' : be) : Prop :=
  in_tx b' /\ be_store b' = be_store b /\ kv_map (pending b') = kv_map (pending b) /\
  others_kept (pending b) (pending b').

Lemma meta_only_trans b1 b2 b3 : meta_only b1 b2 -> meta_only b2 b3 -> meta_only b1 b3.
Proof.
  intros (_ & ? & ? & ?) (? & ? & ? & ?). split_and!; [done|congruence|congruence|by eapply others_kept_trans].
Qed.

Lemma warn_put_run (w : wr) k v :
  in_tx (kv_backend (w_store w)) -> BucketMeta ∈ dom (be_view (kv_backend (w_store w))) -> k <> [] ->
  exists b', warn_put k v w = (set_store (set_backend b' (w_store w)) w, Ok tt) /\
    meta_only (kv_backend (w_store w)) b'.
Proof.
  intros Htx Hm Hk.
  destruct (UnsafePut_spec BucketMeta k (Some v) _ Htx Hm Hk) as (b' & Hrun & Htx' & Hst & Hp).
  exists b'. split.
  - unfold warn_put, mbind, M_bind, try, on_store, on_backend. by rewrite Hrun.
  - split_and!; [done|done|by rewrite Hp, kv_map_meta|]. rewrite Hp. apply others_kept_put. auto.
Qed.

Definition end_prepare (w : wr) : M wr unit :=
  if negb (length (w_changes w) =? 0)%nat then
    modify bump_rev ≫= fun _ =>
    get_st ≫= fun w =>
    warn_put KeyCurrentRevision (EncodeUint64 (Main (currentRev (w_store w)))) ≫= fun _ =>
    if 0 <? applyIndex (w_store w) then
      warn_put KeyRaftApplyIndex (EncodeUint64 (applyIndex (w_store w))) ≫= fun _ =>
      warn_put KeyRaftTerm (EncodeUint64 (raftTerm (w_store w)))
    else mret tt
  else mret tt.

Definition end_rev (w : wr) : Revision :=
  if (length (w_changes w) =? 0)%nat then currentRev (w_store w)
  else mkRev (i64 (Main (currentRev (w_store w)) + 1)) 0.

Lemma end_prepare_run w :
  w_inv w ->
  exists b', end_prepare w w =
      (set_store (set_backend b' (set_currentRev (end_rev w) (w_store w))) w, Ok tt) /\
    meta_only (kv_backend (w_store w)) b'.
Proof.
  intros Hw. unfold end_prepare, end_rev. destruct (length (w_changes w) =? 0)%nat; cbn [negb].
  { exists (kv_backend (w_store w)). split; [by destruct w as [[] ? ? ? ?]|].
    split_and!; [apply Hw|done..]. }
  rewrite (M_bind_Ok _ _ _ _ _ (eq_refl : modify bump_rev w = (bump_rev w, Ok tt))).
  rewrite (M_bind_Ok _ _ _ _ _ (eq_refl : get_st (bump_rev w) = (bump_rev w, Ok (bump_rev w)))).
  destruct (warn_put_run (bump_rev w) KeyCurrentRevision
    (EncodeUint64 (Main (currentRev (w_store (bump_rev w)))))) as (b1 & Hr1 & Hm1);
    [apply Hw|apply Hw|done|].
  rewrite (M_bind_Ok _ _ _ _ _ Hr1). kvsimpl. cbn [kv_backend bump_rev w_store set_store set_currentRev] in Hm1.
  destruct (0 <? applyIndex (w_store w)); [|exists b1; split; [done|exact Hm1]].
  set (w1 := set_store (set_backend b1 (set_currentRev _ _)) _).
  assert (be_view b1 = be_view (kv_backend (w_store w))) as Hv1.
  { destruct Hm1 as (_ & E & _). unfold be_view. by rewrite E. }
  destruct (warn_put_run w1 KeyRaftApplyIndex (EncodeUint64 (applyIndex (w_store w)))) as (b2 & Hr2 & Hm2);
    [apply Hm1|unfold w1; kvsimpl; rewrite Hv1; apply Hw|done|].
  rewrite (M_bind_Ok _ _ _ _ _ Hr2).
  assert (meta_only (kv_backend (w_store w)) b2) as Hm12 by (by eapply meta_only_trans).
  set (w2 := set_store (set_backend b2 (w_store w1)) w1).
  assert (be_view b2 = be_view (kv_backend (w_store w))) as Hv2.
  { destruct Hm12 as (_ & E & _). unfold be_view. by rewrite E. }
  destruct (warn_put_run w2 KeyRaftTerm (EncodeUint64 (raftTerm (w_store w)))) as (b3 & Hr3 & Hm3);
    [apply Hm12|unfold w2; kvsimpl; rewrite Hv2; apply Hw|done|].
  exists b3. split; [exact Hr3|]. by eapply meta_only_trans.
Qed.

Lemma end_rev_main s w :
  session s w -> Main (currentRev s) < MaxInt64 ->
  end_rev w = if (length (w_changes w) =? 0)%nat then currentRev s
              else mkRev (Main (currentRev s) + 1) 0.
Proof.
  intros [Hinv Hst _ _] Hm. unfold end_rev. rewrite (wi_cur w Hinv), Hst. destruct (_ =? 0)%nat; [done|].
  pose proof (wi_start w Hinv) as H0. rewrite Hst in H0. rewrite i64_id; [done|].
  unfold in_i64, MinInt64, MaxInt64 in *. lia.
Qed.

(** Whatever the index holds at the end is below the next revision. *)
Lemma end_bounded s w :
  session s w -> Main (currentRev s) < MaxInt64 ->
  bounded (kvIndex (w_store w)) (mkRev (Main (end_rev w) + 1) 0).
Proof.
  intros Hse Hm. rewrite (end_rev_main s w Hse Hm). destruct Hse as [Hinv Hst _ _ _ _ _].
  eapply bounded_mono; [apply (wi_bound w Hinv)|]. unfold next_rev. rewrite Hst.
  destruct (length (w_changes w) =? 0)%nat eqn:E.
  - right. apply Nat.eqb_eq in E. by rewrite E.
  - left. unfold rev_lt. simpl. lia.
Qed.

Lemma End_spec s w :
  kv_inv s -> session s w -> Main (currentRev s) < MaxInt64 ->
  match End_ w with
  | (w', Ok _) => let s' := w_store w' in
      kv_inv s' /\ currentRev s' = end_rev w /\ compactedMainRev s' = compactedMainRev (w_store w) /\
      (forall k, hist (kvIndex s') k = hist (kvIndex (w_store w)) k) /\
      kv_map (be_view (kv_backend s')) = kv_map (pending (kv_backend (w_store w))) /\
      others_kept (be_view (kv_backend s)) (be_view (kv_backend s'))
  | (w', Err _) => let s' := w_store w' in
      kv_inv s' /\ currentRev s' = end_rev w /\
      (forall k, hist (kvIndex s') k = hist (kvIndex s) k) /\
      be_view (kv_backend s') = be_view (kv_backend s)
  | (_, Panicked) => False
  end.
Proof.
  intros Hs Hse Hm. pose proof (end_bounded s w Hse Hm) as Hbound.
  destruct (undo_index_spec s w Hse) as [Hwfu Hhu]. pose proof (end_rev_main s w Hse Hm) as Hrev.
  destruct Hse as [Hinv Hst Hbe Hext Hcomp Hoth _].
  destruct (end_prepare_run w Hinv) as (b' & Hprep & Htx & Hst' & Hkv & Hdom & Hoth').
  unfold End_. rewrite (M_bind_Ok _ _ _ _ _ (eq_refl : get_st w = (w, Ok w))).
  fold (end_prepare w). rewrite (M_bind_Ok _ _ _ _ _ Hprep). cbv zeta.
  pose proof (Commit_spec b' Htx) as HC. unfold mbind at 1, M_bind, try, on_store, on_backend. kvsimpl.
  destruct (Commit b') as [b2 [info|err|]]; [| |done]; kvsimpl.
  - destruct HC as (Hok2 & Hba2 & Hv2). unfold modify. kvsimpl.
    assert (kv_map (be_view b2) = kv_map (pending (kv_backend (w_store w)))) as Hkv2 by (by rewrite Hv2).
    split_and!; try done; [|rewrite Hv2; by eapply others_kept_trans]. split; kvsimpl; try done.
    + rewrite Hv2, Hdom. apply Hinv.
    + rewrite Hv2, Hdom. apply Hinv.
    + apply Hinv.
    + rewrite Hrev. destruct Hs. destruct (_ =? 0)%nat; simpl; lia.
    + rewrite Hkv2. apply Hinv.
    + rewrite Hrev, Hcomp. destruct Hs. destruct (_ =? 0)%nat; simpl; lia.
  - destruct HC as (Hok2 & Hba2 & Hv2).
    assert (be_view b2 = be_view (kv_backend s)) as Hv by (rewrite Hv2; unfold be_view; by rewrite Hst', Hbe).
    assert (forall (w1 : wr), kv_backend (w_store w1) = b2 -> currentRev (w_store w1) = end_rev w ->
      ti_wf (kvIndex (w_store w1)) -> (forall k, hist (kvIndex (w_store w1)) k = hist (kvIndex s) k) ->
      compactedMainRev (w_store w1) = compactedMainRev (w_store w) -> kv_inv (w_store w1)) as Hkvinv.
    { intros w1 E1 E2 E3 E4 E5. destruct Hs as [H1 H2 H3 H4 H5 H6 H7 H8 H9].
      split; rewrite ?E1, ?E2, ?Hv; try done.
      - rewrite Hrev. destruct (_ =? 0)%nat; simpl; lia.
      - eapply bounded_hist_eq; [exact E4|]. eapply bounded_mono; [exact H7|]. rewrite Hrev.
        destruct (_ =? 0)%nat; [by right|]. left. unfold rev_lt. simpl. lia.
      - eapply coherent_hist_eq; [exact E4|done].
      - rewrite Hrev, E5, Hcomp. destruct (_ =? 0)%nat; simpl; lia. }
    destruct (length (w_changes w) =? 0)%nat eqn:El; cbn [negb].
    + unfold mbind, M_bind, mret, M_ret, fail. kvsimpl.
      assert (forall k, hist (kvIndex (w_store w)) k = hist (kvIndex s) k) as Hh.
      { apply Nat.eqb_eq, nil_length_inv in El. rewrite El in Hext. inversion Hext as [? Hh|cs]; [done|].
        by destruct cs. }
      split_and!; try done. apply (Hkvinv (set_store (set_backend b2 (set_currentRev (end_rev w) (w_store w))) w));
        kvsimpl; try done. apply Hinv.
    + unfold mbind, M_bind, modify, fail. kvsimpl. cbn [undo_index w_store set_store kvIndex set_index] in Hwfu, Hhu.
      split_and!; try done.
      apply (Hkvinv (undo_index (set_store (set_backend b2 (set_currentRev (end_rev w) (w_store w))) w)));
        kvsimpl; done.
Qed.

(** ** Reading *)

(** [ent] is what a reader decodes for event [p.2] of key [p.1] from bucket [m]. *)
Definition entry_at (m : gmap bytes value) (p : bytes * kevent) (ent : Entry) : Prop :=
  exists e0, m !! rev_bytes (ke_rev p.2) = Some (Some (entry_bytes e0)) /\
    entry_of p.1 p.2 e0 /\ ent = stored e0.

Lemma DecodeEntry_stored e : entry_ok e -> DecodeEntry (Some (entry_bytes e)) = (Some (stored e), None).
Proof. intros H. rewrite <-(app_nil_r (entry_bytes e)). by apply DecodeEntry_bytes. Qed.

Lemma range_entries_spec (b : be) m out buf acc lastRev :
  be_ok b -> be_view b !! BucketKV = Some m -> length buf = 16%nat ->
  Forall (fun p => exists ent, entry_at m p ent) out ->
  exists ents, Forall2 (entry_at m) out ents /\
    range_entries b (ke_rev ∘ snd <$> out) buf acc lastRev =
      Ok (acc ++ ents, foldl Z.max lastRev (ModRev <$> ents)).
Proof.
  intros Hok Hm Hbuf Hout. revert buf acc lastRev Hbuf.
  induction Hout as [|[x e] out (ent & e0 & Hl & Heo & ->) _ IH]; intros buf acc lastRev Hbuf.
  { exists []. split; [constructor|]. simpl. by rewrite app_nil_r. }
  cbn [fmap list_fmap range_entries compose snd]. rewrite EncodeRevision_buf by done.
  rewrite (UnsafeGet_spec _ _ _ _ Hok Hm). simpl in Hl. rewrite Hl. cbn [mjoin option_join].
  rewrite DecodeEntry_stored by apply Heo.
  destruct (IH (rev_bytes (ke_rev e)) (acc ++ [stored e0])
    (if lastRev <? ModRev (stored e0) then ModRev (stored e0) else lastRev)) as (ents & HF & Hrun);
    [apply length_rev_bytes|].
  exists (stored e0 :: ents). split.
  - constructor; [|done]. by exists e0.
  - etransitivity; [exact Hrun|]. rewrite <-app_assoc. cbn [fmap list_fmap foldl app]. do 2 f_equal.
    f_equal. destruct (Z.ltb_spec lastRev (ModRev (stored e0))); lia.
Qed.

(** The keys a Range call asks for: key and end both the zero byte mean everything. *)
Definition range_query (k : bytes) (end_ : option bytes) : bytes -> bool :=
  if bool_decide (k = [Byte.x00]) && bool_decide (end_ = Some [Byte.x00])
  then selects [] None else selects k end_.

Lemma capped_length {A} limit (l : list A) :
  (limit <= 0 \/ Z.of_nat (length (capped limit l)) <= limit).
Proof.
  unfold capped. destruct (Z.leb_spec limit 0); [by left|right]. rewrite length_take. lia.
Qed.

Lemma capped_nil {A} limit (l : list A) : length (capped limit l) = 0%nat -> l = [].
Proof.
  unfold capped. destruct (Z.leb_spec limit 0); [apply nil_length_inv|].
  rewrite length_take. intros H1. apply nil_length_inv. lia.
Qed.

Lemma capped_fmap {A B'} (f : A -> B') limit l : capped limit (f <$> l) = f <$> capped limit l.
Proof. unfold capped. destruct (limit <=? 0); [done|]. by rewrite fmap_take. Qed.

Lemma answers_entries sel r idx m out :
  coherent idx m -> answers sel r idx out -> Forall (fun p => exists ent, entry_at m p ent) out.
Proof.
  intros Hc [_ Hans]. apply Forall_forall. intros [x e] [_ Hl]%Hans.
  apply lookup_at_elem in Hl as (He & Ht & _). destruct (Hc x e He) as (e0 & Hl & Heo).
  exists (stored e0), e0. split_and!; [|done|done]. unfold bk_of, bk_bytes in Hl. rewrite Ht in Hl.
  by rewrite app_nil_r in Hl.
Qed.

Lemma doRange_spec idx (b : be) m currRev compactedRev targetRev k end_ limit :
  ti_wf idx -> be_ok b -> be_view b !! BucketKV = Some m -> coherent idx m ->
  let r := if targetRev <=? 0 then currRev else targetRev in
  targetRev <= currRev -> compactedRev <= r ->
  exists out ents, answers (range_query k end_) r idx out /\
    Forall2 (entry_at m) (capped limit out) ents /\
    doRange idx b currRev compactedRev targetRev k end_ limit =
      Ok (ents, Z.of_nat (length out),
          if bool_decide (out = []) then r else foldl Z.max 0 (ModRev <$> ents)).
Proof.
  intros Hidx Hok Hm Hc r Hle Hcomp. unfold doRange, range_query.
  rewrite (proj2 (Z.ltb_ge currRev targetRev)) by done. fold r.
  rewrite (proj2 (Z.ltb_ge r compactedRev)) by done.
  set (all := bool_decide (k = [Byte.x00]) && bool_decide (end_ = Some [Byte.x00])).
  assert ((if all then selects [] None else selects k end_) =
          selects (if all then [] else k) (if all then None else end_)) as -> by (by destruct all).
  destruct (Revisions_hist (if all then [] else k) (if all then None else end_) r limit idx Hidx)
    as (out & Hans & ->).
  pose proof (answers_entries _ _ _ _ _ Hc Hans) as Hent.
  assert (Forall (fun p => exists ent, entry_at m p ent) (capped limit out)) as Hent'.
  { unfold capped. destruct (limit <=? 0); [done|]. by apply Forall_take. }
  rewrite capped_fmap.
  destruct (range_entries_spec b m (capped limit out) NewRevBytes [] 0 Hok Hm eq_refl Hent')
    as (ents & HF & Hrun).
  exists out, ents. split; [done|]. split; [done|]. rewrite length_fmap.
  destruct (length (capped limit out) =? 0)%nat eqn:El.
  - apply Nat.eqb_eq in El. pose proof (capped_nil _ _ El) as ->. simpl.
    apply nil_length_inv in El. rewrite El in HF. by inversion HF.
  - apply Nat.eqb_neq in El. rewrite bool_decide_eq_false_2.
    2:{ intros ->. apply El. unfold capped. destruct (limit <=? 0); [done|]. by destruct (Z.to_nat limit). }
    rewrite take_ge; [by rewrite Hrun|]. rewrite length_fmap.
    destruct (capped_length limit out), (Z.leb_spec limit 0); simpl; try lia.
    destruct (Z.ltb_spec (Z.of_nat (length (capped limit out))) limit); lia.
Qed.

Lemma kv_inv_bucket s : kv_inv s -> be_view (kv_backend s) !! BucketKV = Some (kv_map (be_view (kv_backend s))).
Proof. intros H. destruct (proj1 (elem_of_dom _ _) (ki_kv s H)) as [m Hm]. unfold kv_map. by rewrite Hm. Qed.

Lemma answers_one k r idx out e :
  answers (fun x => bool_decide (x = k)) r idx out -> lookup_at (hist idx k) r = Some e -> out = [(k, e)].
Proof.
  intros Hans He. pose proof (answers_NoDup _ _ _ _ Hans) as Hnd. destruct Hans as [_ Hans].
  assert (forall x e', (x, e') ∈ out -> x = k /\ e' = e) as Hall.
  { intros x e' [Hx%bool_decide_eq_true Hl]%Hans. subst. split; [done|congruence]. }
  destruct out as [|[x1 e1] [|[x2 e2] l]].
  - assert ((k, e) ∈ []) as []%not_elem_of_nil. apply Hans. by rewrite bool_decide_eq_true.
  - destruct (Hall x1 e1) as [-> ->]; [left|done].
  - destruct (Hall x1 e1) as [-> ->]; [left|]. destruct (Hall x2 e2) as [-> ->]; [right; left|].
    simpl in Hnd. apply NoDup_cons in Hnd as [Hn _]. destruct Hn. left.
Qed.

(** A stored entry is determined by its bytes. *)
Lemma entry_bytes_stored e1 e2 :
  entry_ok e1 -> entry_ok e2 -> entry_bytes e1 = entry_bytes e2 -> stored e1 = stored e2.
Proof.
  intros H1 H2 E. pose proof (DecodeEntry_stored e1 H1) as D. rewrite E, DecodeEntry_stored in D by done.
  congruence.
Qed.

(** The entries of a store that are visible at a revision. *)
Definition visible (s : kvs) (r : Z) (k : bytes) (ent : Entry) : Prop :=
  exists e, lookup_at (hist (kvIndex s) k) r = Some e /\
    entry_at (kv_map (be_view (kv_backend s))) (k, e) ent.

Lemma NewKvStore_inv (b : be) :
  be_ok b -> be_batch b = None -> BucketKV ∈ dom (be_view b) -> BucketMeta ∈ dom (be_view b) ->
  kv_inv (NewKvStore b : kvs).
Proof.
  intros Hok Hba Hkv Hme. destruct NewTreeIndex_wf as [Hwf Hh].
  split; try done; unfold NewKvStore; kvsimpl.
  - intros k e. rewrite Hh. by intros ?%not_elem_of_nil.
  - intros k e. rewrite Hh. by intros ?%not_elem_of_nil.
Qed.

(** ** Properties *)

(** C6: A range read at revision r (0 meaning the current one) between the compacted
    and the current revision returns exactly the entries visible at r in the range,
    in key order, decoded from the kv bucket, cut at the limit, together with their
    total number; a read beyond the current revision and one below the compacted
    revision are refused. *)
Theorem reader_range_visible s k end_ rev limit :
  kv_inv s ->
  let r := if rev <=? 0 then Main (currentRev s) else rev in
  if Main (currentRev s) <? rev then exists e, reader_Range k end_ rev limit s = Err e
  else if r <? compactedMainRev s then reader_Range k end_ rev limit s = Err [ErrCompacted]
  else exists out ents lastRev, answers (range_query k end_) r (kvIndex s) out /\
         Forall2 (entry_at (kv_map (be_view (kv_backend s)))) (capped limit out) ents /\
         reader_Range k end_ rev limit s = Ok (ents, Z.of_nat (length out), lastRev).
Proof.
  intros Hs r. unfold reader_Range, Revisions. destruct (Z.ltb_spec (Main (currentRev s)) rev) as [Hlt|Hge].
  { unfold doRange. rewrite (proj2 (Z.ltb_lt _ _)) by done. eauto. }
  destruct (Z.ltb_spec r (compactedMainRev s)) as [Hlt'|Hge'].
  { unfold doRange. rewrite (proj2 (Z.ltb_ge _ _)) by done. fold r. by rewrite (proj2 (Z.ltb_lt _ _)) by done. }
  destruct (doRange_spec (kvIndex s) (kv_backend s) _ (Main (currentRev s)) (compactedMainRev s)
    rev k end_ limit (ki_idx s Hs) (ki_be s Hs) (kv_inv_bucket s Hs) (ki_coh s Hs) Hge Hge')
    as (out & ents & Hans & HF & ->). by do 3 eexists.
Qed.

(** C5: Committing a writer after any puts and range deletes advances the current
    revision by exactly one (not at all without changes), keeps the invariant that
    the index and the kv bucket agree, and leaves every read at or before the old
    revision as it was. *)
Theorem writer_commit_isolated s w0 w w' :
  kv_inv s -> Main (currentRev s) < MaxInt64 ->
  NewWriter s = Ok w0 -> rtc w_op w0 w -> End_ w = (w', Ok tt) ->
  kv_inv (w_store w') /\
  currentRev (w_store w') =
    (if (length (w_changes w) =? 0)%nat then currentRev s else mkRev (Main (currentRev s) + 1) 0) /\
  forall k r, r <= Main (currentRev s) ->
    lookup_at (hist (kvIndex (w_store w')) k) r = lookup_at (hist (kvIndex s) k) r.
Proof.
  intros Hs Hm Hn Hops Hend. pose proof (session_ops s w0 w (session_new s w0 Hs Hm Hn) Hops) as Hse.
  pose proof (End_spec s w Hs Hse Hm) as HE. rewrite Hend in HE. cbv zeta in HE.
  destruct HE as (Hinv & Hcur & _ & Hh & _). split_and!; [done|by rewrite Hcur, (end_rev_main s)|].
  intros k r Hr. rewrite Hh. apply (extends_past _ _ _ _ (se_ext s w Hse)). lia.
Qed.

(** C17: Aborting a writer after any puts and range deletes leaves no trace: index
    histories, stored contents and current revision are those before it was opened. *)
Theorem writer_abort_no_trace s w0 w :
  kv_inv s -> Main (currentRev s) < MaxInt64 -> NewWriter s = Ok w0 -> rtc w_op w0 w ->
  exists w', Abort w = (w', Ok tt) /\ kv_inv (w_store w') /\
    be_view (kv_backend (w_store w')) = be_view (kv_backend s) /\
    (forall k, hist (kvIndex (w_store w')) k = hist (kvIndex s) k) /\
    currentRev (w_store w') = currentRev s.
Proof.
  intros Hs Hm Hn Hops. pose proof (session_ops s w0 w (session_new s w0 Hs Hm Hn) Hops) as Hse.
  destruct (Abort_spec s w Hs Hse) as (w' & Hrun & H). by exists w'.
Qed.

(** When the commit of End fails, the index and the stored contents are rolled
    back, but the current revision stays advanced by one: the store reports a
    revision at which nothing was written. *)
Theorem writer_end_failed_rev s w0 w w' err :
  kv_inv s -> Main (currentRev s) < MaxInt64 ->
  NewWriter s = Ok w0 -> rtc w_op w0 w -> w_changes w <> [] -> End_ w = (w', Err err) ->
  currentRev (w_store w') = mkRev (Main (currentRev s) + 1) 0 /\
  be_view (kv_backend (w_store w')) = be_view (kv_backend s) /\
  forall k, hist (kvIndex (w_store w')) k = hist (kvIndex s) k.
Proof.
  intros Hs Hm Hn Hops Hne Hend. pose proof (session_ops s w0 w (session_new s w0 Hs Hm Hn) Hops) as Hse.
  pose proof (End_spec s w Hs Hse Hm) as HE. rewrite Hend in HE. cbv zeta in HE.
  destruct HE as (_ & Hcur & Hh & Hv). split_and!; [|done|done].
  rewrite Hcur, (end_rev_main s) by done. by destruct (w_changes w).
Qed.

(** A put that is committed is what the next reads return: reading the key at the
    new revision gives the value, with that revision as its modification revision,
    version 1 and itself as create revision for a new or deleted key, and otherwise
    the next version and the old create revision. *)
Theorem put_commit_get s w0 w w' k v leaseID :
  kv_inv s -> Main (currentRev s) < MaxInt64 -> put_args_ok k (Some v) leaseID ->
  k <> [] -> NewWriter s = Ok w0 -> Put k (Some v) leaseID w0 = (w, Ok tt) -> End_ w = (w', Ok tt) ->
  let h := hist (kvIndex s) k in
  reader_Get k 0 (w_store w') =
    Ok (Some (new_entry h k (Some v) leaseID (mkRev (Main (currentRev s) + 1) 0))).
Proof.
  intros Hs Hm Hargs Hk Hn Hput Hend h. pose proof (ki_comp s Hs) as Hcomp.
  destruct (NewWriter_spec s Hs Hm) as (w1 & Hn1 & Hw0 & Hch & Hst & Hidx & _ & _ & Hc0).
  rewrite Hn in Hn1. injection Hn1 as <-.
  destruct (put_step w0 k (Some v) leaseID Hw0 Hargs) as (w1 & Hrun & Hstep);
    [rewrite Hch; unfold MaxInt64; simpl; lia|].
  unfold Put in Hput. rewrite Hput in Hrun. injection Hrun as <-. cbv zeta in Hstep.
  rewrite Hidx in Hstep. fold h in Hstep.
  assert (next_rev w0 = mkRev (Main (currentRev s) + 1) 0) as Hnext
    by (unfold next_rev; by rewrite Hst, Hch).
  rewrite Hnext in Hstep. set (rev := mkRev (Main (currentRev s) + 1) 0) in *.
  set (ent := new_entry h k (Some v) leaseID rev) in *.
  assert (session s w) as Hse.
  { eapply session_step; [by apply (session_new s w0)|]. do 3 eexists. split; [exact Hstep|].
    split; [rewrite Hnext; apply put_event_rev|done]. }
  destruct Hstep as [Hw Hcw Hstw (Hwf & Hhk & _) _ Hpw [Hcomp' _]].
  pose proof (End_spec s w Hs Hse Hm) as HE. rewrite Hend in HE. cbv zeta in HE.
  destruct HE as (Hinv & Hcur & Hcmp & Hh & Hkv & _).
  rewrite (end_rev_main s) in Hcur by done. rewrite Hcw, Hch in Hcur. simpl in Hcur.
  assert (lookup_at (hist (kvIndex (w_store w')) k) (Main rev) = Some (put_event h rev)) as Hlook.
  { rewrite Hh, Hhk. unfold lookup_at. destruct (put_event_rev h rev) as [Hr Ht].
    rewrite last_filter_app, filter_cons_True by (unfold upto; rewrite Hr; done). simpl. by rewrite Ht. }
  unfold reader_Get, reader_Range, Revisions. rewrite Hcur. cbn [Main].
  destruct (doRange_spec (kvIndex (w_store w')) (kv_backend (w_store w')) _ (Main (currentRev s) + 1)
    (compactedMainRev (w_store w')) 0 k None 1 (ki_idx _ Hinv) (ki_be _ Hinv) (kv_inv_bucket _ Hinv)
    (ki_coh _ Hinv)) as (out & ents & Hans & HF & ->).
  { pose proof (ki_cur s Hs). lia. }
  { simpl. rewrite Hcmp, Hcomp', Hc0. lia. }
  assert (range_query k None = fun x => bool_decide (x = k)) as Eq.
  { unfold range_query, selects. rewrite (bool_decide_eq_false_2 (None = _)), andb_false_r by done.
    by destruct k. }
  rewrite Eq in Hans. cbn [Z.leb] in Hans. apply (answers_one k _ _ out (put_event h rev)) in Hans as ->; [|done].
  unfold capped in HF. simpl in HF. inversion HF as [|? ent' ? ? (e0 & Hl & Heo & ->) HF']; subst.
  inversion HF'; subst. simpl. do 2 f_equal.
  rewrite Hkv, Hpw, kv_map_put in Hl by apply Hw0. cbn [snd] in Hl.
  destruct (put_event_rev h rev) as [Hr Ht].
  assert (bk_of (put_event h rev) = rev_bytes (ke_rev (put_event h rev))) as Hbk
    by (unfold bk_of, bk_bytes; simpl; by rewrite Ht, app_nil_r).
  rewrite Hbk, lookup_insert_eq in Hl. assert (entry_bytes ent = entry_bytes e0) as Hl' by congruence.
  change ent with (stored ent). symmetry. apply entry_bytes_stored; [|apply Heo|done].
  destruct (new_entry_of (kvIndex s) _ k (Some v) leaseID rev (ki_coh s Hs) Hargs) as [_ _ Hok _]; [|done].
  pose proof (ki_cur s Hs). unfold rev_ok, rev, MaxInt64 in *. simpl. lia.
Qed.

End MvccInv.

(** ** Witnesses, on the in-memory store *)

Abbreviation inmem_kvs := (KvStore (list keyIndex) (InmemStore (list Item)) inmemBatch).
Abbreviation inmem_wr := (writer (list keyIndex) (InmemStore (list Item)) inmemBatch).

Definition kv0 : inmem_kvs := NewKvStore (New empty_store).

Lemma kv0_inv : kv_inv kv0.
Proof. apply NewKvStore_inv; [apply empty_store_ok|done|by apply elem_of_dom|by apply elem_of_dom]. Qed.

Definition writer_of (r : res inmem_wr) : inmem_wr :=
  match r with Ok w => w | _ => mkWriter kv0 rev0 [] 0 0 end.

(** Open a writer on the empty store, put a key, commit. *)
Definition kv0_w0 : inmem_wr := writer_of (NewWriter kv0).
Definition kv0_w1 : inmem_wr := (Put k_a (Some [Byte.x01]) 0 kv0_w0).1.
Definition kv0_w2 : inmem_wr := (End_ kv0_w1).1.

Lemma k_a_args v : Z.of_nat (length (default [] v)) < 2 ^ 32 -> put_args_ok k_a v 0.
Proof. intros H. split; [simpl; lia|]. split; [done|]. by apply (bool_decide_unpack _). Qed.

Lemma kv0_op : rtc w_op kv0_w0 kv0_w1.
Proof.
  apply rtc_once. apply (op_Put kv0_w0 k_a (Some [Byte.x01]) 0).
  - apply k_a_args. simpl. lia.
  - unfold roomy. vm_compute. discriminate.
  - vm_compute. reflexivity.
Qed.

Lemma kv0_room : Main (currentRev kv0) < MaxInt64.
Proof. vm_compute. reflexivity. Qed.
Lemma kv0_new : NewWriter kv0 = Ok kv0_w0.
Proof. vm_compute. reflexivity. Qed.
Lemma kv0_put : Put k_a (Some [Byte.x01]) 0 kv0_w0 = (kv0_w1, Ok tt).
Proof. vm_compute. reflexivity. Qed.
Lemma kv0_end : End_ kv0_w1 = (kv0_w2, Ok tt).
Proof. vm_compute. reflexivity. Qed.

Lemma writer_commit_isolated_witness :
  kv_inv (w_store kv0_w2) /\ Main (currentRev (w_store kv0_w2)) = 1 /\
  forall k r, r <= Main (currentRev kv0) ->
    lookup_at (hist (kvIndex (w_store kv0_w2)) k) r = lookup_at (hist (kvIndex kv0) k) r.
Proof.
  destruct (writer_commit_isolated kv0 kv0_w0 kv0_w1 kv0_w2 kv0_inv kv0_room kv0_new kv0_op kv0_end)
    as (H1 & H2 & H3).
  split; [exact H1|]. split; [rewrite H2; vm_compute; reflexivity|exact H3].
Defined.

Lemma writer_abort_no_trace_witness :
  exists w', Abort kv0_w1 = (w', Ok tt) /\ currentRev (w_store w') = currentRev kv0.
Proof.
  destruct (writer_abort_no_trace kv0 kv0_w0 kv0_w1 kv0_inv kv0_room kv0_new kv0_op)
    as (w' & Hr & _ & _ & _ & Hc).
  exists w'. split; [exact Hr|exact Hc].
Defined.

Lemma put_commit_get_witness :
  exists ent, reader_Get k_a 0 (w_store kv0_w2) = Ok (Some ent) /\
    Value ent = Some [Byte.x01] /\ ModRev ent = 1 /\ Version ent = 1.
Proof.
  eexists. split.
  - exact (put_commit_get kv0 kv0_w0 kv0_w1 kv0_w2 k_a [Byte.x01] 0 kv0_inv kv0_room
      (k_a_args (Some [Byte.x01]) eq_refl) ltac:(discriminate)
      kv0_new kv0_put kv0_end).
  - vm_compute. split; [reflexivity|split; reflexivity].
Defined.

Lemma reader_range_visible_witness :
  exists out ents lastRev, answers (range_query k_a None) 0 (kvIndex kv0) out /\
    reader_Range k_a None 0 1 kv0 = Ok (ents, Z.of_nat (length out), lastRev).
Proof.
  destruct (reader_range_visible kv0 k_a None 0 1 kv0_inv) as (out & ents & l & H1 & _ & H2).
  exists out, ents, l. split; [exact H1|exact H2].
Defined.

(** The same session on a store whose commit fails. *)
Definition kv0_w2f : inmem_wr := (@End_ _ _ _ _ failing_bytestore kv0_w1).1.

Lemma kv0_inv_failing : @kv_inv _ _ _ _ failing_bytestore kv0.
Proof.
  apply (@NewKvStore_inv _ _ _ _ failing_bytestore);
    [apply empty_store_ok|done|by apply elem_of_dom|by apply elem_of_dom].
Qed.

Lemma kv0_op_failing : rtc (@w_op _ _ _ _ failing_bytestore) kv0_w0 kv0_w1.
Proof.
  apply rtc_once. apply (@op_Put _ _ _ _ failing_bytestore kv0_w0 k_a (Some [Byte.x01]) 0).
  - apply k_a_args. simpl. lia.
  - unfold roomy. vm_compute. discriminate.
  - vm_compute. reflexivity.
Qed.

Lemma kv0_new_failing : @NewWriter _ _ _ failing_bytestore kv0 = Ok kv0_w0.
Proof. vm_compute. reflexivity. Qed.
Lemma kv0_end_failing :
  @End_ _ _ _ _ failing_bytestore kv0_w1 = (kv0_w2f, Err [ErrInternalStorageError]).
Proof. vm_compute. reflexivity. Qed.

Lemma writer_end_failed_rev_witness : Main (currentRev (w_store kv0_w2f)) = 1.
Proof.
  destruct (@writer_end_failed_rev _ _ _ _ failing_bytestore kv0 kv0_w0 kv0_w1 kv0_w2f
    [ErrInternalStorageError] kv0_inv_failing kv0_room kv0_new_failing kv0_op_failing
    ltac:(vm_compute; discriminate) kv0_end_failing) as (H & _).
  rewrite H. vm_compute. reflexivity.
Defined.
