(* ===== verification/Compaction.v ===== *)
(** Compaction of the store: doCompact of internal/mvcc/kvstore.go ([Mvcc.doCompact]). The
    batched loop terminates within the fuel of the model, and it removes nothing a reader
    at or after the target revision can see. *)

From S2P Require Import Prelude OrdTree KvTypes KeyIndex TreeIndex Storage Inmem Backend Mvcc MvccInv.
From Stdlib Require Import ZArith Lia.
From stdpp Require Import base gmap sets list strings sorting.
Open Scope Z_scope.

(** ** Bucket keys *)

(** The keys of the kv bucket are encoded revisions. *)
Definition bucket_keys (m : gmap bytes value) : Prop :=
  forall k v, m !! k = Some v -> exists bk, k = bk_bytes bk /\ rev_ok (bk_Revision bk).

Lemma rev_bytes_bk r : rev_bytes r = bk_bytes (mkBK r false).
Proof. unfold bk_bytes. simpl. by rewrite app_nil_r. Qed.

Lemma in_bounds_main r1 r2 bk :
  rev_ok r1 -> rev_ok r2 -> rev_ok (bk_Revision bk) -> Sub r2 = 0 ->
  in_bounds (Some (rev_bytes r1)) (Some (rev_bytes r2)) (bk_bytes bk) = true ->
  Main r1 <= Main (bk_Revision bk) < Main r2.
Proof.
  intros H1 H2 Hb Hs. unfold in_bounds. rewrite !rev_bytes_bk. intros [Hl Hr]%andb_true_iff.
  unfold bytes_leb, bytes_ltb in *. rewrite bk_bytes_compare in Hl, Hr by done. unfold bk_compare in *. simpl in *.
  destruct Hb as [? [? _]].
  destruct (Z.compare_spec (Main r1) (Main (bk_Revision bk))), (Z.compare_spec (Main (bk_Revision bk)) (Main r2));
    try done; try lia; rewrite Hs in Hr; destruct (Z.compare_spec (Sub (bk_Revision bk)) 0); try done; try lia;
    by destruct (bk_Tombstone bk).
Qed.

(** ** One scan *)

(** The pairs of a bucket, decoded. *)
Abbreviation pairs := (list (KvBucketKey * value)).
Definition raw (l : pairs) : list (bytes * value) := (fun p => (bk_bytes p.1, p.2)) <$> l.
Definition typed (l : pairs) : Prop := Forall (fun p => rev_ok (bk_Revision p.1)) l.

(** The keys of a scanned part that are not retained. *)
Definition dead (retain : gset Revision) (l : pairs) : list bytes :=
  (fun p => bk_bytes p.1) <$> filter (fun p => bk_Revision p.1 ∉ retain) l.

Lemma dead_app retain l1 l2 : dead retain (l1 ++ l2) = dead retain l1 ++ dead retain l2.
Proof. unfold dead. by rewrite filter_app, fmap_app. Qed.

Definition visited (last0 : Revision) (l : pairs) : Revision :=
  from_option (fun p => bk_Revision p.1) last0 (last l).

(** The scan visits a prefix: everything, or until the batch is full. *)
Lemma scan_run retain l batch last0 :
  typed l -> (length batch <= MAX_COMPACTION_BATCH_SIZE)%nat ->
  exists l1 l2, l = l1 ++ l2 /\ (length (batch ++ dead retain l1) <= MAX_COMPACTION_BATCH_SIZE)%nat /\
    (l2 = [] /\ scan_all (compact_scan_step retain) (raw l) (batch, last0) =
                 ((batch ++ dead retain l1, visited last0 l1), Ok tt) \/
     exists e, length (batch ++ dead retain l1) = MAX_COMPACTION_BATCH_SIZE /\
       scan_all (compact_scan_step retain) (raw l) (batch, last0) = ((batch ++ dead retain l1, visited last0 l1), Err e)).
Proof.
  intros Ht. revert batch last0. induction Ht as [|[bk v] l Hbk _ IH]; intros batch last0 Hb.
  { exists [], []. unfold dead. simpl. rewrite app_nil_r. split_and!; [done..|]. by left. }
  unfold raw. cbn [fmap list_fmap scan_all fst snd]. fold (raw l). unfold mbind, M_bind. unfold compact_scan_step at 1 3.
  destruct (Nat.eqb_spec (length batch) MAX_COMPACTION_BATCH_SIZE) as [Hf|Hf].
  { exists [], ((bk, v) :: l). unfold dead, visited. simpl. rewrite app_nil_r. split_and!; [done..|]. right. eauto. }
  simpl in Hbk. rewrite DecodeKvBucketKey_bytes by (by apply rev_ok_typed).
  set (batch' := if bool_decide (bk_Revision bk ∈ retain) then batch else batch ++ [bk_bytes bk]).
  assert (forall l1, batch ++ dead retain ((bk, v) :: l1) = batch' ++ dead retain l1) as Hd.
  { intros l1. unfold dead, batch'. rewrite filter_cons. simpl. case_bool_decide as Hr.
    - by rewrite decide_False by tauto.
    - rewrite decide_True by done. cbn [fmap list_fmap fst]. by rewrite <-app_assoc. }
  assert (forall l1, visited (bk_Revision bk) l1 = visited last0 ((bk, v) :: l1)) as Hv.
  { intros l1. unfold visited. destruct l1 as [|p l1]; [done|]. rewrite last_cons_cons.
    destruct (last (p :: l1)) eqn:E; [done|]. by apply last_None in E. }
  destruct (IH batch' (bk_Revision bk)) as (l1 & l2 & -> & Hlen & Hrun).
  { unfold batch'. case_bool_decide; [done|]. rewrite length_app. simpl. lia. }
  exists ((bk, v) :: l1), l2. rewrite Hd, <-Hv. split_and!; [done..|]. exact Hrun.
Qed.

Section Compaction.
Context {T St B : Type} {BT : BTree Less T} {BS : ByteStore St B}.
Abbreviation kvs := (KvStore T St B).
Abbreviation be := (backend St B).

Lemma keys_NoDup (l : list (bytes * value)) : key_sorted fst l -> NoDup l.*1.
Proof.
  induction 1 as [|p l _ IH Hp]; [constructor|]. constructor; [|done].
  intros (q & Eq & Hq)%list_elem_of_fmap. pose proof (proj1 (Forall_forall _ _) Hp q Hq) as Hlt.
  simpl in Hlt. rewrite Eq in Hlt. by rewrite bytes_ltb_irrefl in Hlt.
Qed.

Lemma scanned_pairs (l : list (bytes * value)) m start end_ :
  key_sorted fst l -> list_to_map l = m -> bucket_keys m ->
  exists bvs, scanned start end_ l = raw bvs /\ typed bvs /\
    Forall (fun p => in_bounds start end_ (bk_bytes p.1) = true /\ m !! bk_bytes p.1 = Some p.2) bvs.
Proof.
  intros Hs Hm Hk.
  assert (Forall (fun p => exists bk, p.1 = bk_bytes bk /\ rev_ok (bk_Revision bk) /\
                    in_bounds start end_ p.1 = true /\ m !! p.1 = Some p.2) (scanned start end_ l)) as Hall.
  { apply Forall_forall. intros [k v] [Hin Hl]%list_elem_of_filter. simpl in *.
    assert (m !! k = Some v) as Hv.
    { subst m. apply elem_of_list_to_map; [|done]. by apply keys_NoDup. }
    destruct (Hk k v Hv) as (bk & -> & Hok). eauto. }
  induction Hall as [|[k v] sc (bk & Ek & Hok & Hin & Hv) _ (bvs & E & Ht & HF)].
  { exists []. split_and!; [done|constructor..]. }
  simpl in *. subst k. exists ((bk, v) :: bvs). split_and!; [by rewrite E|by constructor..].
Qed.

(** Deletes only: what is left in the kv bucket and in the others. *)
Lemma delete_batch_run (batch : list bytes) (b : be) :
  in_tx b -> BucketKV ∈ dom (be_view b) -> BucketKV ∈ dom (pending b) -> Forall (fun k => k <> []) batch ->
  exists b', delete_batch batch b = (b', Ok tt) /\ in_tx b' /\ be_store b' = be_store b /\
    others_kept (pending b) (pending b') /\
    forall k, kv_map (pending b') !! k = if bool_decide (k ∈ batch) then None else kv_map (pending b) !! k.
Proof.
  intros Htx Hkv Hpk Hb. revert b Htx Hkv Hpk. induction Hb as [|k batch Hne _ IH]; intros b Htx Hkv Hpk.
  { by exists b. }
  destruct (UnsafeDelete_spec BucketKV k b Htx Hkv Hne) as (b1 & E1 & Htx1 & Hst1 & Hp1).
  assert (be_view b1 = be_view b) as Hv1 by (unfold be_view; by rewrite Hst1).
  assert (dom (pending b1) = dom (pending b)) as Hd1 by (rewrite Hp1; apply dom_alter_L).
  destruct (IH b1 Htx1) as (b' & E & Htx' & Hst' & Ho & Hk); [by rewrite Hv1|by rewrite Hd1|].
  exists b'. cbn [delete_batch]. unfold mbind, M_bind, try. rewrite E1, E. split_and!; [done|done|congruence|..].
  - eapply others_kept_trans; [|exact Ho]. split; [done|]. intros c Hc _. rewrite Hp1. by apply lookup_alter_ne.
  - intros k'. rewrite Hk. apply elem_of_dom in Hpk as [m Hm].
    assert (kv_map (pending b1) = delete k (kv_map (pending b))) as ->.
    { rewrite Hp1. unfold kv_map, c_del. by rewrite lookup_alter_eq, Hm. }
    destruct (decide (k' = k)) as [->|Hne'].
    + rewrite lookup_delete_eq, (bool_decide_eq_true_2 (k ∈ k :: batch)) by left. by case_bool_decide.
    + rewrite lookup_delete_ne by done. by rewrite (bool_decide_ext (k' ∈ k :: batch) (k' ∈ batch)) by (rewrite elem_of_cons; tauto).
Qed.

(** Of the kv bucket [m] the part [m'] is left: only dead revisions up to the target are
    gone. *)
Definition trimmed (target : Z) (retain : gset Revision) (m m' : gmap bytes value) : Prop :=
  forall bk, rev_ok (bk_Revision bk) ->
    m' !! bk_bytes bk = m !! bk_bytes bk \/
    (m' !! bk_bytes bk = None /\ (bk_Revision bk ∉ retain) /\ Main (bk_Revision bk) <= target).

Definition only_kept (m m' : gmap bytes value) : Prop := forall k v, m' !! k = Some v -> m !! k = Some v.

Lemma trimmed_trans t r m1 m2 m3 : trimmed t r m1 m2 -> only_kept m2 m3 -> trimmed t r m2 m3 -> trimmed t r m1 m3.
Proof.
  intros H1 Hs H2 bk Hok. destruct (H2 bk Hok) as [E|?]; [|by right]. rewrite E. by apply H1.
Qed.

(** The state of the backend between turns. *)
Record be_between (c0 : contents) (b : be) : Prop := {
  bb_ok : be_ok b; bb_batch : be_batch b = None; bb_others : others_kept c0 (be_view b) }.

(** The backend never fails a commit. *)
Definition commits_succeed : Prop := forall b : be, in_tx b -> exists b' i, Commit b = (b', Ok i).

(** The part of a turn after the scan. *)
Lemma turn_tail_run target batch (d : bool) (last' : Revision) c0 (b : be) :
  commits_succeed -> in_tx b -> pending b = be_view b -> others_kept c0 (be_view b) ->
  BucketKV ∈ dom c0 -> BucketMeta ∈ dom c0 -> Forall (fun k => k <> []) batch ->
  exists b', (delete_batch batch ≫= fun _ =>
      (if d then
         lift (EncodeRevisionAsBucketKey (mkRev target 0) NewRevBytes) ≫= fun revBytes =>
         try (UnsafePut BucketMeta KeyFinishedCompactedRev (Some revBytes)) ≫= fun _ => mret tt
       else mret tt) ≫= fun _ =>
      try Commit ≫= fun r =>
      match r with inr e => Rollback ≫= fun _ => fail e | inl _ => mret (d, last') end) b = (b', Ok (d, last')) /\
    be_between c0 b' /\
    forall k, kv_map (be_view b') !! k = if bool_decide (k ∈ batch) then None else kv_map (be_view b) !! k.
Proof.
  intros Hcs Htx Hp [Hdom Hoth] Hkv Hme Hne. rewrite <-Hdom in Hkv, Hme.
  destruct (delete_batch_run batch b Htx Hkv) as (b2 & E2 & Htx2 & Hst2 & Ho2 & Hk2); [by rewrite Hp|done|].
  assert (be_view b2 = be_view b) as Hv2 by (unfold be_view; by rewrite Hst2).
  rewrite (M_bind_Ok _ _ _ _ _ E2).
  assert (exists b3, (if d then
         lift (EncodeRevisionAsBucketKey (mkRev target 0) NewRevBytes) ≫= fun revBytes =>
         try (UnsafePut BucketMeta KeyFinishedCompactedRev (Some revBytes)) ≫= fun _ => mret tt
       else mret tt) b2 = (b3, Ok tt) /\ in_tx b3 /\ be_store b3 = be_store b2 /\
    others_kept (pending b2) (pending b3) /\ kv_map (pending b3) = kv_map (pending b2)) as (b3 & E3 & Htx3 & Hst3 & Ho3 & Hk3).
  { destruct d; [|by exists b2].
    destruct (UnsafePut_spec BucketMeta KeyFinishedCompactedRev (Some (rev_bytes (mkRev target 0))) b2)
      as (b3 & E3 & Htx3 & Hst3 & Hp3); [done|by rewrite Hv2|done|].
    exists b3. unfold mbind, M_bind, lift, try. rewrite EncodeRevision_new, E3. split_and!; [done..| |].
    - rewrite Hp3. apply others_kept_put. by right.
    - rewrite Hp3. apply kv_map_meta. }
  rewrite (M_bind_Ok _ _ _ _ _ E3). destruct (Hcs b3 Htx3) as (b4 & i & E4).
  pose proof (Commit_spec b3 Htx3) as HC. rewrite E4 in HC. destruct HC as (Hok4 & Hba4 & Hv4).
  exists b4. unfold mbind, M_bind, try. rewrite E4. split; [done|]. split.
  - split; [done..|]. rewrite Hv4. eapply others_kept_trans; [split; [exact Hdom|exact Hoth]|]. rewrite <-Hp.
    by eapply others_kept_trans.
  - intros k. rewrite Hv4, Hk3, Hk2, Hp. done.
Qed.

Lemma dead_elem retain l k : k ∈ dead retain l -> exists p, p ∈ l /\ k = bk_bytes p.1 /\ (bk_Revision p.1 ∉ retain).
Proof. intros (p & -> & [Hr Hp]%list_elem_of_filter)%list_elem_of_fmap. eauto. Qed.

Lemma compact_turn_run target retain r1 done_ last0 c0 (b : be) :
  commits_succeed -> be_between c0 b -> BucketKV ∈ dom c0 -> BucketMeta ∈ dom c0 ->
  bucket_keys (kv_map (be_view b)) -> rev_ok r1 -> 0 <= target < MaxInt64 ->
  exists b' done' last', compact_turn target retain (rev_bytes r1) (rev_bytes (mkRev (target + 1) 0)) done_ last0 b =
      (b', Ok (done', last')) /\ be_between c0 b' /\
    trimmed target retain (kv_map (be_view b)) (kv_map (be_view b')) /\
    only_kept (kv_map (be_view b)) (kv_map (be_view b')) /\
    (done' = false -> Main r1 <= Main last' <= target /\ rev_ok last').
Proof.
  intros Hcs [Hok Hba [Hdom Hoth]] Hkv Hme Hkeys Hr1 Ht. unfold compact_turn.
  destruct (Lock_spec b Hok) as (b1 & E1 & Htx1 & Hst1 & Hp1). rewrite (M_bind_Ok _ _ _ _ _ E1).
  rewrite (M_bind_Ok _ _ _ _ _ (eq_refl : get_st b1 = (b1, Ok b1))).
  assert (be_view b1 = be_view b) as Hv1 by (unfold be_view; by rewrite Hst1).
  assert (be_view b !! BucketKV = Some (kv_map (be_view b))) as Hm.
  { rewrite <-Hdom in Hkv. apply elem_of_dom in Hkv as [m Hm]. unfold kv_map. by rewrite Hm. }
  set (m := kv_map (be_view b)) in *. set (end_ := rev_bytes (mkRev (target + 1) 0)) in *.
  destruct (UnsafeScan_spec BucketKV (Some (rev_bytes r1)) (Some end_) (compact_scan_step retain) b1 m)
    as (l & Hsl & Hlm & Hscan); [apply Htx1|by rewrite Hv1|].
  destruct (scanned_pairs l m (Some (rev_bytes r1)) (Some end_) Hsl Hlm Hkeys) as (bvs & Hraw & Hty & Hbvs).
  assert (forall p, p ∈ bvs -> Main r1 <= Main (bk_Revision p.1) <= target /\ rev_ok (bk_Revision p.1)) as Hrange.
  { intros p Hp. pose proof (proj1 (Forall_forall _ _) Hbvs p Hp) as [Hin _].
    pose proof (proj1 (Forall_forall _ _) Hty p Hp) as Hpok. split; [|done].
    apply in_bounds_main in Hin; [simpl in Hin; lia|done| |done|done]. unfold rev_ok, MaxInt64 in *. simpl. lia. }
  destruct (scan_run retain bvs [] last0 Hty) as (l1 & l2 & El & Hlen & Hrun); [simpl; lia|].
  simpl in Hlen, Hrun. set (batch := dead retain l1) in *.
  assert (forall k, k ∈ batch -> exists p, p ∈ bvs /\ k = bk_bytes p.1 /\ (bk_Revision p.1 ∉ retain)) as Hbatch.
  { intros k (p & Hp & ? & ?)%dead_elem. exists p. split_and!; [|done..]. rewrite El. apply elem_of_app. by left. }
  assert (exists sr : res unit, UnsafeScan BucketKV (Some (rev_bytes r1)) (Some end_) (compact_scan_step retain) b1 ([], last0)
      = ((batch, visited last0 l1), sr) /\ sr <> Panicked /\ (sr <> Ok tt -> length batch = MAX_COMPACTION_BATCH_SIZE))
    as (sr & Hsr & Hnp & Hfull).
  { rewrite Hscan, Hraw. destruct Hrun as [[_ ->]|(e & Hf & ->)]; by eexists. }
  rewrite Hsr. set (d := done_ || _ || _).
  destruct (turn_tail_run target batch d (visited last0 l1) c0 b1) as (b' & E & Hb' & Hk).
  { done. } { done. } { by rewrite Hp1, Hv1. } { by rewrite Hv1. } { done. } { done. }
  { apply Forall_forall. intros k (p & _ & -> & _)%Hbatch. apply bk_bytes_nonempty. }
  exists b', d, (visited last0 l1). split; [destruct sr; done || exact E|]. rewrite Hv1 in Hk. fold m in Hk.
  split_and!; [done| | |].
  - intros bk Hbk. rewrite Hk. case_bool_decide as Hin; [|by left]. right. split; [done|].
    destruct (Hbatch _ Hin) as (p & Hp & Eb & Hr). destruct (Hrange p Hp) as [? Hpok].
    apply bk_bytes_inj in Eb; [|by apply rev_ok_typed..]. subst bk. split; [done|lia].
  - intros k v Hv. rewrite Hk in Hv. by case_bool_decide.
  - intros Hd. apply orb_false_iff in Hd as [[_ Hsr0]%orb_false_iff Hlt%Nat.ltb_ge].
    assert (length batch = MAX_COMPACTION_BATCH_SIZE) as Hf by (apply Hfull; by intros ->).
    unfold visited. destruct (last l1) as [p|] eqn:Elast.
    + simpl. apply last_Some_elem_of in Elast. destruct (Hrange p); [|done].
      rewrite El. apply elem_of_app. by left.
    + apply last_None in Elast. subst l1. unfold batch, dead in Hf. by vm_compute in Hf.
Qed.

Lemma only_kept_keys m m' : only_kept m m' -> bucket_keys m -> bucket_keys m'.
Proof. intros Hk Hb k v Hv. by eapply Hb, Hk. Qed.

(** Enough fuel: every turn that is not the last moves the start beyond the last main
    revision it has visited. *)
Lemma compact_loop_run fuel target retain r1 done_ last0 c0 (b : be) :
  commits_succeed -> be_between c0 b -> BucketKV ∈ dom c0 -> BucketMeta ∈ dom c0 ->
  bucket_keys (kv_map (be_view b)) -> rev_ok r1 -> 0 <= target < MaxInt64 ->
  target + 2 - Main r1 <= Z.of_nat fuel -> (0 < fuel)%nat ->
  exists b', compact_loop fuel target retain (rev_bytes r1) (rev_bytes (mkRev (target + 1) 0)) done_ last0 b = (b', Ok tt) /\
    be_between c0 b' /\ trimmed target retain (kv_map (be_view b)) (kv_map (be_view b')) /\
    only_kept (kv_map (be_view b)) (kv_map (be_view b')).
Proof.
  intros Hcs Hb Hkv Hme Hkeys Hr1 Ht. revert r1 done_ last0 b Hb Hkeys Hr1.
  induction fuel as [|fuel IH]; intros r1 done_ last0 b Hb Hkeys Hr1 Hfuel Hpos; [lia|].
  destruct (compact_turn_run target retain r1 done_ last0 c0 b Hcs Hb Hkv Hme Hkeys Hr1 Ht)
    as (b1 & d & last' & E & Hb1 & Htr & Hok & Hnext).
  cbn [compact_loop]. rewrite (M_bind_Ok _ _ _ _ _ E). cbn [fst snd]. destruct d; [by exists b1|].
  destruct (Hnext eq_refl) as [Hm Hl]. unfold nextMainRevOverflowing. rewrite (proj2 (Z.ltb_ge _ _)) by lia.
  unfold mbind, M_bind, lift. rewrite EncodeRevision_new.
  destruct (IH (mkRev (Main last' + 1) (Sub last')) false last' b1) as (b2 & E2 & Hb2 & Htr2 & Hok2); simpl; try lia.
  - done.
  - by eapply only_kept_keys.
  - unfold rev_ok in *. simpl. lia.
  - exists b2. rewrite E2. split_and!; [done..| |].
    + by eapply trimmed_trans.
    + intros k v Hv. by apply Hok, Hok2.
Qed.

(** Every event the compacted index keeps is still stored. *)
Lemma trimmed_coherent target retain (idx idx' : T) m m' :
  coherent idx m -> ti_wf idx -> (forall k e, e ∈ hist idx k -> rev_ok (ke_rev e)) ->
  trimmed target retain m m' -> (forall k, compacted target (hist idx k) (hist idx' k) retain) ->
  (forall k, clean (hist idx k)) ->
  forall k e, e ∈ hist idx' k -> e ∈ hist idx k /\ m' !! bk_of e = m !! bk_of e.
Proof.
  intros Hc Hwf Hok Htr Hcomp Hcl k e He.
  assert (e ∈ hist idx k) as Hin.
  { destruct (Hcomp k) as (P & av & av' & E & _). rewrite E. apply elem_of_app. by right. }
  split; [done|]. destruct (Htr (mkBK (ke_rev e) (ke_tomb e)) (Hok k e Hin)) as [E|(_ & Hnr & Hle)]; [done|].
  simpl in *. destruct (compacted_retained _ _ _ _ e (Hcomp k) (Hcl k) (hist_sorted _ k Hwf) He); [lia|done].
Qed.

(** ** The hypotheses on the store are kept by transactions *)

Lemma one_step_keys (w w' : writer T St B) :
  w_inv w -> one_step w w' -> bucket_keys (kv_map (pending (kv_backend (w_store w)))) ->
  bucket_keys (kv_map (pending (kv_backend (w_store w')))).
Proof.
  intros Hw (k & e & ent & Hst & _) Hk. rewrite (ws_pending _ _ _ _ _ Hst), kv_map_put by apply Hw.
  assert (rev_ok (ke_rev e)) as Hok.
  { destruct (ws_hist _ _ _ _ _ Hst) as (_ & Hh & _).
    apply (wi_bound w' (ws_inv _ _ _ _ _ Hst) k e). rewrite Hh. apply elem_of_app. right. left. }
  intros k' v [[<- _]|[_ Hv]]%lookup_insert_Some; [|by eapply Hk]. by exists (mkBK (ke_rev e) (ke_tomb e)).
Qed.

Lemma steps_keys (w w' : writer T St B) :
  w_inv w -> rtc one_step w w' -> bucket_keys (kv_map (pending (kv_backend (w_store w)))) ->
  bucket_keys (kv_map (pending (kv_backend (w_store w')))).
Proof.
  intros Hw Hr Ha. induction Hr as [|a b c Hab _ IH]; [done|].
  assert (w_inv b) as Hb by (destruct Hab as (k & e & ent & Hst & _); apply Hst).
  apply IH; [done|]. by apply (one_step_keys a b).
Qed.

Lemma ops_keys (w w' : writer T St B) :
  w_inv w -> rtc w_op w w' -> bucket_keys (kv_map (pending (kv_backend (w_store w)))) ->
  w_inv w' /\ bucket_keys (kv_map (pending (kv_backend (w_store w')))).
Proof.
  intros Hw Hr Ha. induction Hr as [|a b c Hab _ IH]; [done|].
  pose proof (w_op_steps a b Hw Hab) as Hst. apply IH; [|by apply (steps_keys a b)].
  clear -Hw Hst. induction Hst as [|x y z (k & e & ent & Hxy & _) _ IH]; [done|]. apply IH, Hxy.
Qed.

Lemma commit_bucket_keys (s : kvs) w0 w w' :
  kv_inv s -> Main (currentRev s) < MaxInt64 -> NewWriter s = Ok w0 -> rtc w_op w0 w -> End_ w = (w', Ok tt) ->
  bucket_keys (kv_map (be_view (kv_backend s))) -> bucket_keys (kv_map (be_view (kv_backend (w_store w')))).
Proof.
  intros Hs Hm Hn Hr He Hk. pose proof (session_ops _ _ _ (session_new s w0 Hs Hm Hn) Hr) as Hse.
  pose proof (End_spec s w Hs Hse Hm) as Hend. rewrite He in Hend. destruct Hend as (_ & _ & _ & _ & -> & _).
  destruct (NewWriter_spec s Hs Hm) as (w2 & Hn2 & Hinv & _ & _ & _ & _ & Hp & _).
  rewrite Hn in Hn2. injection Hn2 as <-. eapply ops_keys; [done..|]. by rewrite Hp.
Qed.

(** ** A compaction that runs to its end *)

(** The live entries are those before. *)
Lemma compacted_live target retain (idx idx' : T) m m' lm r :
  target <= r -> (forall k, Forall (upto r) (hist idx k)) -> (forall k, compacted target (hist idx k) (hist idx' k) retain) ->
  (forall k e, e ∈ hist idx' k -> e ∈ hist idx k /\ m' !! bk_of e = m !! bk_of e) ->
  live_map idx m lm -> live_map idx' m' lm.
Proof.
  intros Hr Hup Hcomp Hsub Hl k. specialize (Hl k). pose proof (compacted_lookup _ _ _ _ r (Hcomp k) Hr) as El.
  rewrite !lookup_at_last in El by (done || (eapply Forall_forall; intros e [He _]%Hsub; by eapply Forall_forall in He; [|apply Hup])).
  destruct (last (hist idx' k)) as [e'|] eqn:E'; [destruct (ke_tomb e') eqn:Et'|];
    (destruct (last (hist idx k)) as [e|]; [destruct (ke_tomb e) eqn:Et|]); simplify_eq; try done.
  destruct (Hsub k e) as [_ ->]; [by apply last_Some_elem_of|done].
Qed.

Lemma doCompact_run (s : kvs) target :
  kv_inv s -> bucket_keys (kv_map (be_view (kv_backend s))) -> commits_succeed ->
  (forall k, clean (hist (kvIndex s) k)) ->
  0 <= compactedMainRev s < target -> target <= Main (currentRev s) < MaxInt64 ->
  exists s', doCompact target (compactedMainRev s) s = (s', Ok tt) /\ kv_inv s' /\
    compactedMainRev s' = target /\ currentRev s' = currentRev s /\ applyIndex s' = applyIndex s /\
    (forall lm, live_map (kvIndex s) (kv_map (be_view (kv_backend s))) lm ->
       live_map (kvIndex s') (kv_map (be_view (kv_backend s'))) lm) /\
    forall r k ent, target <= r -> visible s' r k ent <-> visible s r k ent.
Proof.
  intros Hs Hkeys Hcs Hcl Hcr Htr. pose proof Hs as [Hbe Hba Hkv Hme Hidx Hcur Hbd Hcoh Hcmp].
  destruct (Compact_hist target (kvIndex s) Hidx) as (idx' & retain & Hrun & Hwf' & Hcomp & _).
  assert (forall k e, e ∈ hist (kvIndex s) k -> rev_ok (ke_rev e)) as Hrok by (intros k e He; by apply (Hbd k e)).
  unfold doCompact, on_index. rewrite Hrun, !EncodeRevision_new. unfold mbind, M_bind, lift, on_backend, modify.
  kvsimpl. rewrite (i64_id (target + 1)) by (unfold in_i64, MinInt64, MaxInt64 in *; lia).
  destruct (compact_loop_run (compact_fuel target (compactedMainRev s)) target retain (mkRev (compactedMainRev s) 0)
    false rev0 (be_view (kv_backend s)) (kv_backend s)) as (b' & E & [Hb1 Hb2 [Hd Ho]] & Hm & Hk); try done.
  { unfold rev_ok, MaxInt64 in *. simpl. lia. }
  { lia. }
  { unfold compact_fuel. simpl. lia. }
  { unfold compact_fuel. lia. }
  rewrite E. eexists. split; [done|].
  assert (forall k e, e ∈ hist idx' k -> e ∈ hist (kvIndex s) k /\
    kv_map (be_view b') !! bk_of e = kv_map (be_view (kv_backend s)) !! bk_of e) as Hsub by by eapply trimmed_coherent.
  split_and!; [|done|done|done| |].
  - split; kvsimpl; try done; [by rewrite Hd|by rewrite Hd| | |lia].
    + intros k e [He _]%Hsub. exact (Hbd k e He).
    + intros k e He. destruct (Hsub k e He) as [He0 Em]. destruct (Hcoh k e He0) as (ent & Hl & Heo).
      exists ent. by rewrite Em.
  - intros lm. kvsimpl. apply (compacted_live target retain _ _ _ _ _ (Main (currentRev s))); [lia| |done..].
    intros k. apply Forall_forall. intros e He. unfold upto. destruct (Hbd k e He) as [[? ?] Hlt]. unfold rev_lt in Hlt. simpl in Hlt. lia.
  - intros r k ent Hr. unfold visible. kvsimpl. rewrite (compacted_lookup _ _ _ _ r (Hcomp k) Hr).
    split; intros (e & Hl & e0 & Hl0 & Hrest); exists e; (split; [done|]); exists e0; (split; [|done]); simpl in *.
    + by apply Hk.
    + assert (lookup_at (hist idx' k) r = Some e) as Hl' by by rewrite (compacted_lookup _ _ _ _ r (Hcomp k) Hr).
      apply lookup_at_elem in Hl' as (He' & Ht & _). destruct (Hsub k e He') as [_ Em].
      unfold bk_of in Em. rewrite Ht, <-rev_bytes_bk in Em. by rewrite Em.
Qed.

(** ** Properties *)

(** C10: Compaction at a target between the compacted and the current revision terminates:
    the batched loop ends before its bound on the number of turns, whatever the number of
    revisions. Afterwards the store is consistent, its compacted revision is the target,
    and a reader at any revision from the target on sees exactly what it saw before. (No
    key is deleted and re-created within one transaction; commits succeed.) *)
Theorem compaction_preserves_reads (s : kvs) target :
  kv_inv s -> bucket_keys (kv_map (be_view (kv_backend s))) -> commits_succeed ->
  (forall k, clean (hist (kvIndex s) k)) ->
  0 <= compactedMainRev s < target -> target <= Main (currentRev s) < MaxInt64 ->
  exists s', doCompact target (compactedMainRev s) s = (s', Ok tt) /\ kv_inv s' /\
    compactedMainRev s' = target /\ currentRev s' = currentRev s /\
    forall r k ent, target <= r -> visible s' r k ent <-> visible s r k ent.
Proof.
  intros Hs Hkeys Hcs Hcl Hcr Htr.
  destruct (doCompact_run s target Hs Hkeys Hcs Hcl Hcr Htr) as (s' & H1 & H2 & H3 & H4 & _ & _ & H5). by exists s'.
Qed.

End Compaction.

(** ** Some concrete stores *)

(** The store after a transaction that runs [m]. *)
Definition commit_with (m : M inmem_wr unit) (s : inmem_kvs) : inmem_kvs :=
  w_store (End_ (m (writer_of (NewWriter s))).1).1.

(** A store with its invariants. *)
Definition good (s : inmem_kvs) : Prop := kv_inv s /\ bucket_keys (kv_map (be_view (kv_backend s))).

Lemma commit_with_good m s :
  good s -> Main (currentRev s) < MaxInt64 ->
  let w0 := writer_of (NewWriter s) in
  NewWriter s = Ok w0 -> w_op w0 (m w0).1 -> (End_ (m w0).1).2 = Ok tt -> good (commit_with m s).
Proof.
  intros [Hs Hk] Hm w0 Hn Hop He. unfold commit_with. fold w0.
  assert (End_ (m w0).1 = ((End_ (m w0).1).1, Ok tt)) as Hend by (rewrite <-He; apply surjective_pairing).
  split; [|by eapply commit_bucket_keys; [..|apply rtc_once|exact Hend|]].
  assert (session s (m w0).1) as Hse by (eapply session_ops; [by eapply session_new|by apply rtc_once]).
  pose proof (End_spec s _ Hs Hse Hm) as Hspec. rewrite Hend in Hspec. apply Hspec.
Qed.

Lemma key_args k v : (length k <? 100)%nat = true -> put_args_ok k (Some [v]) 0.
Proof. intros H%Nat.ltb_lt. split; [lia|]. split; [simpl; lia|]. by apply (bool_decide_unpack _). Qed.

Definition put_commit (k : bytes) (v : byte) : inmem_kvs -> inmem_kvs := commit_with (Mvcc.Put k (Some [v]) 0).

Lemma put_commit_good k v s :
  good s -> (Main (currentRev s) <? MaxInt64) = true -> (length k <? 100)%nat = true ->
  let w0 := writer_of (NewWriter s) in
  NewWriter s = Ok w0 -> roomy w0 -> (Mvcc.Put k (Some [v]) 0 w0).2 = Ok tt ->
  (End_ (Mvcc.Put k (Some [v]) 0 w0).1).2 = Ok tt -> good (put_commit k v s).
Proof.
  intros Hs Hm Hk w0 Hn Hro Hp He. apply commit_with_good; try done; [by apply Z.ltb_lt|]. fold w0.
  eapply MvccInv.op_Put; [by apply key_args|done|]. rewrite <-Hp. apply surjective_pairing.
Qed.

(** Key a at revisions 1, 2 and 3. *)
Definition kv1 : inmem_kvs := put_commit k_a Byte.x01 kv0.
Definition kv2 : inmem_kvs := put_commit k_a Byte.x02 kv1.
Definition kv3 : inmem_kvs := put_commit k_a Byte.x03 kv2.

Ltac next_store := apply put_commit_good; [|vm_compute; reflexivity|vm_compute; reflexivity|vm_compute; reflexivity|
  unfold roomy; vm_compute; discriminate|vm_compute; reflexivity..].
Lemma kv0_good : good kv0.
Proof.
  split; [apply kv0_inv|]. assert (kv_map (be_view (kv_backend kv0)) = ∅) as -> by (vm_compute; reflexivity).
  intros k v. by rewrite lookup_empty.
Qed.
Lemma kv1_good : good kv1.
Proof. next_store. apply kv0_good. Qed.
Lemma kv2_good : good kv2.
Proof. next_store. apply kv1_good. Qed.
Lemma kv3_good : good kv3.
Proof. next_store. apply kv2_good. Qed.

Lemma inmem_commits_succeed :
  @commits_succeed (InmemStore (list Item)) inmemBatch _.
Proof.
  intros b (Hok & ba & Eb & Ho & Hsub). unfold Backend.Commit. rewrite Eb.
  destruct (Commit_in_view (all_deletes (wc ba)) (all_puts (wc ba)) ba (be_store b) Hok Ho Hsub) as (s' & info & E & _).
  { done. } { done. }
  unfold ba_Commit. simpl. unfold Inmem.Commit. rewrite E. eauto.
Qed.

Lemma clean_live (h : list kevent) : Forall (fun e => ke_tomb e = false) h -> clean h.
Proof.
  intros Hl h1 t x h2 -> Ht. apply Forall_app in Hl as [_ Hl]. inversion Hl. congruence.
Qed.
Lemma kv3_clean k : clean (hist (kvIndex kv3) k).
Proof.
  apply clean_live. unfold hist. destruct (find_key key k (bt_Items (kvIndex kv3))) as [ki|] eqn:E; [|constructor].
  apply find_key_Some in E as [E _]. match type of E with _ ∈ ?l =>
    assert (forallb (fun ki => forallb (fun e => negb (ke_tomb e)) (abs ki)) l = true) as Hall by (vm_compute; reflexivity) end.
  rewrite forallb_forall in Hall. apply list_elem_of_In in E. specialize (Hall ki E). rewrite forallb_forall in Hall.
  apply Forall_forall. intros e He. apply negb_true_iff, Hall. by apply list_elem_of_In.
Qed.

Lemma compaction_preserves_reads_witness :
  exists s', doCompact 2 (compactedMainRev kv3) kv3 = (s', Ok tt) /\ compactedMainRev s' = 2 /\
    forall k ent, visible s' 2 k ent <-> visible kv3 2 k ent.
Proof.
  destruct (compaction_preserves_reads kv3 2) as (s' & H1 & _ & H2 & _ & H3).
  - apply kv3_good.
  - apply kv3_good.
  - exact inmem_commits_succeed.
  - exact kv3_clean.
  - vm_compute. split; [discriminate|reflexivity].
  - vm_compute. split; [discriminate|reflexivity].
  - exists s'. split; [exact H1|]. split; [exact H2|]. intros k ent. apply H3. lia.
Defined.
