(* ===== verification/Recovery.v ===== *)
(** Recovery of the store: Restore of internal/mvcc/kvstore.go ([Mvcc.Restore]) rebuilds the
    index from the kv bucket. For a store that was never compacted the rebuilt index has the
    histories of the one that wrote the bucket, so a node that restarts or installs a
    snapshot answers every read as before. *)

From S2P Require Import Prelude OrdTree KvTypes KeyIndex TreeIndex Storage Inmem Backend Mvcc MvccInv Compaction.
From Stdlib Require Import ZArith Lia.
From stdpp Require Import base gmap sets list strings sorting.
Open Scope Z_scope.

Section Recovery.
Context {T St B : Type} {BT : BTree Less T} {BS : ByteStore St B}.
Abbreviation kvs := (KvStore T St B).
Abbreviation wr := (writer T St B).

(** ** Stores that were only written to *)

(** Every event of the index is what the index would record itself after the ones before it,
    and the kv bucket holds nothing but the index's events. *)
Record replayable (idx : T) (m : gmap bytes value) : Prop := {
  rp_follows : forall k p e q, hist idx k = p ++ e :: q -> event_follows p e;
  rp_pos : forall k e, e ∈ hist idx k -> 0 < Main (ke_rev e);
  rp_only : forall kb v, m !! kb = Some v -> exists k e, e ∈ hist idx k /\ kb = bk_of e }.

Definition newest (idx : T) (cur : Z) : Prop :=
  (exists k e, e ∈ hist idx k /\ Main (ke_rev e) = cur) \/ (cur = 0 /\ forall k, hist idx k = []).

Lemma replayable_step (w w' : wr) k e ent : w_inv w -> w_step w w' k e ent ->
  replayable (kvIndex (w_store w)) (kv_map (pending (kv_backend (w_store w)))) ->
  replayable (kvIndex (w_store w')) (kv_map (pending (kv_backend (w_store w')))).
Proof.
  intros Hw [_ _ _ (_ & Hk & Ho) _ Hp _ Hr _ Hfol] [Hf Hpos Honly]. rewrite Hp, kv_map_put by apply Hw. split.
  - intros k' p e' q E. destruct (decide (k' = k)) as [->|Hne]; [|rewrite Ho in E by done; by eapply Hf].
    rewrite Hk in E. destruct (list_snoc_cases q) as [->|(q' & x & ->)].
    + apply app_inj_tail in E as [<- <-]. exact Hfol.
    + rewrite app_comm_cons, app_assoc in E. apply app_inj_tail in E as [E _]. by eapply Hf.
  - intros k' e' Hin. destruct (decide (k' = k)) as [->|Hne]; [|rewrite Ho in Hin by done; by eapply Hpos].
    rewrite Hk in Hin. apply elem_of_app in Hin as [Hin|Hin%list_elem_of_singleton]; [by eapply Hpos|subst e'].
    rewrite Hr. unfold next_rev. simpl. pose proof (wi_start w Hw). lia.
  - intros kb v Hl. apply lookup_insert_Some in Hl as [[<- _]|[_ Hl]].
    + exists k, e. split; [|done]. rewrite Hk. apply elem_of_app. right. left.
    + destruct (Honly kb v Hl) as (k' & e' & Hin & ->). exists k', e'. split; [|done].
      destruct (decide (k' = k)) as [->|Hne]; [rewrite Hk; apply elem_of_app; by left|by rewrite Ho].
Qed.

Lemma replayable_steps (w w' : wr) : w_inv w -> rtc one_step w w' ->
  replayable (kvIndex (w_store w)) (kv_map (pending (kv_backend (w_store w)))) ->
  replayable (kvIndex (w_store w')) (kv_map (pending (kv_backend (w_store w')))).
Proof.
  intros Hw H. revert Hw. induction H as [|w1 w2 w3 (k & e & ent & Hs & _) _ IH]; [done|]. intros Hw Hr.
  apply IH; [apply Hs|]. by eapply replayable_step.
Qed.

Lemma replayable_ops (w w' : wr) : w_inv w -> rtc w_op w w' ->
  replayable (kvIndex (w_store w)) (kv_map (pending (kv_backend (w_store w)))) ->
  w_inv w' /\ replayable (kvIndex (w_store w')) (kv_map (pending (kv_backend (w_store w')))).
Proof.
  intros Hw H. revert Hw. induction H as [|w1 w2 w3 Hop _ IH]; [done|]. intros Hw Hr.
  pose proof (w_op_steps w1 w2 Hw Hop) as Hst. apply IH; [|by eapply replayable_steps].
  clear -Hw Hst. induction Hst as [|? ? ? (k & e & ent & Hs & _) _ IH]; [done|]. apply IH, Hs.
Qed.

Lemma replayable_hist_eq idx idx' m : (forall k, hist idx' k = hist idx k) -> replayable idx m -> replayable idx' m.
Proof.
  intros H [Hf Hp Ho]. split.
  - intros k p e q. rewrite H. apply Hf.
  - intros k e. rewrite H. apply Hp.
  - intros kb v Hl. destruct (Ho kb v Hl) as (k & e & ? & ?). exists k, e. by rewrite H.
Qed.

(** Stores reached from a new one by committed and aborted transactions, with writes to the
    other buckets in between. *)
Inductive grown : kvs -> Prop :=
  | grown_new b : be_ok b -> be_batch b = None -> BucketMeta ∈ dom (be_view b) ->
      be_view b !! BucketKV = Some ∅ -> grown (NewKvStore b)
  | grown_meta s i t : grown s -> grown (UpdateInmemRaftMeta i t s)
  | grown_other s b : grown s -> be_ok b -> be_batch b = None ->
      kv_map (be_view b) = kv_map (be_view (kv_backend s)) -> dom (be_view b) = dom (be_view (kv_backend s)) ->
      grown (set_backend b s)
  | grown_commit s w w' : grown s -> Main (currentRev s) < MaxInt64 ->
      session s w -> End_ w = (w', Ok tt) -> grown (w_store w')
  | grown_abort s w w' : grown s -> Main (currentRev s) < MaxInt64 ->
      session s w -> Abort w = (w', Ok tt) -> grown (w_store w').

Record grown_inv (s : kvs) : Prop := {
  gi_inv : kv_inv s;
  gi_replay : replayable (kvIndex s) (kv_map (be_view (kv_backend s)));
  gi_newest : newest (kvIndex s) (Main (currentRev s)) }.

Lemma extends_newest h0 m cs h : extends h0 m cs h -> cs <> [] ->
  exists k e, e ∈ h k /\ Main (ke_rev e) = m.
Proof.
  destruct 1 as [|cs c e h1 h _ Hr Hk _]; [done|]. intros _. exists (Key c), e. split; [|by rewrite Hr].
  rewrite Hk. apply elem_of_app. right. left.
Qed.

Lemma grown_commit_inv s w w' : grown_inv s -> Main (currentRev s) < MaxInt64 ->
  session s w -> End_ w = (w', Ok tt) -> grown_inv (w_store w').
Proof.
  intros [Hs Hr Hnew] Hm Hse Hend. destruct (se_steps s w Hse) as (w0 & Hn & Hops).
  destruct (NewWriter_spec s Hs Hm) as (w1 & Hn1 & Hw0 & _ & _ & Hidx & _ & Hp & _).
  rewrite Hn in Hn1. injection Hn1 as <-.
  pose proof (End_spec s w Hs Hse Hm) as HE. rewrite Hend in HE. cbv zeta in HE.
  destruct HE as (Hinv & Hcur & _ & Hh & Hkv & _).
  pose proof (replayable_steps w0 w Hw0 Hops) as Hrw. rewrite Hidx, Hp in Hrw. specialize (Hrw Hr).
  split; [done| |].
  - rewrite Hkv. by eapply replayable_hist_eq.
  - rewrite Hcur, (end_rev_main s) by done. destruct Hse as [_ _ _ Hext _ _ _].
    destruct (w_changes w) as [|c cs] eqn:Ec; cbn [length Nat.eqb Main].
    + inversion Hext as [h Hh0|cs' ? ? ? ? ? ? ? ? E]; [|by destruct cs'].
      destruct Hnew as [(k & e & Hin & E)|[E Hno]]; [left|right].
      * exists k, e. by rewrite Hh, Hh0.
      * split; [done|]. intros k. by rewrite Hh, Hh0.
    + left. destruct (extends_newest _ _ _ _ Hext) as (k & e & Hin & E); [done|]. exists k, e. by rewrite Hh.
Qed.

Lemma grown_grown_inv s : grown s -> grown_inv s.
Proof.
  induction 1 as [b Hok Hba Hme Hkv|s i t _ IH|s b _ [Hs Hr Hnew] Hok Hba Hkv Hdom|s w w' _ IH Hm Hse Hend|s w w' _ IH Hm Hse Hab].
  - destruct NewTreeIndex_wf as [_ Hh]. split.
    + apply NewKvStore_inv; try done. apply elem_of_dom. by rewrite Hkv.
    + unfold NewKvStore. kvsimpl. unfold kv_map. rewrite Hkv. split.
      * intros k p e q. rewrite Hh. by destruct p.
      * intros k e. rewrite Hh. by intros ?%not_elem_of_nil.
      * intros kb v Hl. exfalso. exact (lookup_empty_Some _ _ Hl).
    + right. by split.
  - destruct IH as [[] ? ?]. by split; [split|..].
  - destruct Hs as [H1 H2 H3 H4 H5 H6 H7 H8 H9]. split; [split; kvsimpl; rewrite ?Hkv, ?Hdom; done| |done].
    kvsimpl. by rewrite Hkv.
  - by eapply grown_commit_inv.
  - destruct IH as [Hs Hr Hnew].
    destruct (Abort_spec s w Hs Hse) as (w1 & Hrun & Hinv & Hv & Hh & Hcur). rewrite Hab in Hrun.
    injection Hrun as <-. split; [done| |].
    + rewrite Hv. by eapply replayable_hist_eq.
    + rewrite Hcur. destruct Hnew as [(k & e & Hin & E)|[E Hno]]; [left; exists k, e; by rewrite Hh|right].
      split; [done|]. intros k. by rewrite Hh.
Qed.

(** ** Replaying the bucket *)

Lemma bk_of_lt e e' : rev_ok (ke_rev e) -> rev_ok (ke_rev e') -> rev_lt (ke_rev e) (ke_rev e') ->
  bytes_ltb (bk_of e) (bk_of e') = true.
Proof.
  intros H1 H2 Hlt. unfold bytes_ltb, bk_of. rewrite bk_bytes_compare by done. unfold bk_compare. simpl.
  destruct Hlt as [Hlt|[E Hlt]].
  - by rewrite (proj2 (Z.compare_lt_iff _ _) Hlt).
  - rewrite E, Z.compare_refl. by rewrite (proj2 (Z.compare_lt_iff _ _) Hlt).
Qed.

Lemma sorted_before {A} (key : A -> bytes) (l1 l2 : list A) (x y : A) : key_sorted key (l1 ++ x :: l2) -> y ∈ l1 ++ x :: l2 ->
  bytes_ltb (key y) (key x) = true -> y ∈ l1.
Proof.
  intros Hs Hy Hlt. apply elem_of_app in Hy as [Hy|Hy]; [done|exfalso].
  unfold key_sorted in Hs. apply StronglySorted_app_1_r in Hs. inversion Hs as [|? ? _ Hx]; subst.
  apply elem_of_cons in Hy as [->|Hy]; [by rewrite bytes_ltb_irrefl in Hlt|].
  eapply (proj1 (Forall_forall _ _)) in Hx; [|exact Hy]. simpl in Hx.
  pose proof (bytes_ltb_trans _ _ _ Hlt Hx) as E. by rewrite bytes_ltb_irrefl in E.
Qed.

Lemma sorted_not_before {A} (key : A -> bytes) (l1 l2 : list A) (x y : A) : key_sorted key (l1 ++ x :: l2) -> y ∈ l1 ->
  bytes_ltb (key y) (key x) = true.
Proof.
  intros Hs Hy. unfold key_sorted in Hs.
  refine (StronglySorted_app_1_elem_of _ _ _ y x Hs Hy _). left.
Qed.

Section Replay.
Context (idx0 : T) (m : gmap bytes value) (Hwf0 : ti_wf idx0) (Hcoh : coherent idx0 m) (Hrep : replayable idx0 m)
  (bound : Revision) (Hbound : bounded idx0 bound) (l : list (bytes * value)) (Hsort : key_sorted fst l)
  (Hmap : list_to_map l = m).

Definition part (l1 : list (bytes * value)) (k : bytes) : list kevent :=
  filter (fun e => bk_of e ∈ l1.*1) (hist idx0 k).

Lemma replay_elem kb v : (kb, v) ∈ l <-> m !! kb = Some v.
Proof using All. rewrite <-Hmap. apply elem_of_list_to_map. by apply keys_NoDup. Qed.

(** The pair at the border of what has been replayed. *)
Lemma border l1 l2 kb v : l = l1 ++ (kb, v) :: l2 ->
  exists k e ent q, hist idx0 k = part l1 k ++ e :: q /\ kb = bk_of e /\ v = Some (entry_bytes ent) /\
    entry_of k e ent /\ part (l1 ++ [(kb, v)]) k = part l1 k ++ [e] /\
    forall k', k' <> k -> part (l1 ++ [(kb, v)]) k' = part l1 k'.
Proof using All.
  intros El. assert ((kb, v) ∈ l) as Hin by (rewrite El; apply elem_of_app; right; left).
  apply replay_elem in Hin. destruct (rp_only _ _ Hrep kb v Hin) as (k & e & He & ->).
  destruct (Hcoh k e He) as (ent & Hent & Heo). rewrite Hin in Hent. assert (v = Some (entry_bytes ent)) as -> by congruence.
  destruct (list_elem_of_split _ _ He) as (p & q & Ek).
  pose proof (hist_sorted idx0 k Hwf0) as Hs. rewrite Ek, fmap_app, fmap_cons in Hs.
  assert (forall e', e' ∈ hist idx0 k -> rev_ok (ke_rev e')) as Hok by (intros e' H; by apply Hbound in H as [? _]).
  assert (bk_of e ∉ l1.*1) as Hnot.
  { intros ([kb' v'] & Ekb & Hx)%list_elem_of_fmap. simpl in Ekb. subst kb'.
    rewrite El in Hsort. pose proof (sorted_not_before fst l1 l2 _ _ Hsort Hx) as E. simpl in E.
    by rewrite bytes_ltb_irrefl in E. }
  assert (Forall (fun e' => bk_of e' ∈ l1.*1) p) as Hp.
  { apply Forall_forall. intros e' He'. assert (e' ∈ hist idx0 k) as Hin' by (rewrite Ek; apply elem_of_app; by left).
    destruct (Hcoh k e' Hin') as (ent' & Hl' & _). apply replay_elem in Hl'. rewrite El in Hl', Hsort.
    apply (sorted_before fst) in Hl'; [by apply (list_elem_of_fmap_2 fst) in Hl'|done|]. simpl.
    apply bk_of_lt; [by apply Hok..|].
    refine (StronglySorted_app_1_elem_of _ _ _ _ _ Hs _ _); [by apply list_elem_of_fmap_2|left]. }
  assert (Forall (fun e' => bk_of e' ∉ l1.*1) q /\ Forall (fun e' => bk_of e' <> bk_of e) q) as [Hq Hqe].
  { split; apply Forall_forall; intros e' He'.
    all: assert (e' ∈ hist idx0 k) as Hin' by (rewrite Ek; apply elem_of_app; right; by right).
    all: assert (bytes_ltb (bk_of e) (bk_of e') = true) as Hlt.
    1,3: apply bk_of_lt; [by apply Hok..|]; apply StronglySorted_app_1_r in Hs; inversion Hs as [|? ? _ Hf]; subst;
      rewrite Forall_forall in Hf; by apply Hf, list_elem_of_fmap_2.
    - intros ([kb' v'] & Ekb & Hx)%list_elem_of_fmap. simpl in Ekb. subst kb'. rewrite El in Hsort.
      pose proof (sorted_not_before fst l1 l2 _ _ Hsort Hx) as E. simpl in E.
      pose proof (bytes_ltb_trans _ _ _ E Hlt) as E'. by rewrite bytes_ltb_irrefl in E'.
    - intros E. rewrite E in Hlt. by rewrite bytes_ltb_irrefl in Hlt. }
  assert (part l1 k = p) as Epart.
  { unfold part. rewrite Ek, filter_app, filter_cons_False by done.
    rewrite filter_all by done. rewrite filter_none by done. by rewrite app_nil_r. }
  exists k, e, ent, q. rewrite Epart. split_and!; [done..| |].
  - unfold part. rewrite fmap_app, Ek, filter_app. cbn [fmap list_fmap fst].
    rewrite filter_cons_True by (apply elem_of_app; right; left).
    rewrite filter_all by (eapply Forall_impl; [exact Hp|]; intros x Hx; apply elem_of_app; by left).
    rewrite filter_none; [done|]. apply Forall_forall. intros e' He' [H|H%list_elem_of_singleton]%elem_of_app.
    + rewrite Forall_forall in Hq. by apply (Hq e').
    + rewrite Forall_forall in Hqe. by apply (Hqe e').
  - intros k' Hne. apply list_filter_ext_in. intros e' He'. rewrite fmap_app, elem_of_app. cbn [fmap list_fmap fst].
    split; [|by left]. intros [H|H%list_elem_of_singleton]; [done|]. exfalso. apply Hne.
    destruct (Hcoh k' e' He') as (ent' & Hl' & Heo'). rewrite H, Hin in Hl'.
    assert (entry_bytes ent = entry_bytes ent') as E by congruence.
    assert (stored ent = stored ent') as Es by (eapply entry_bytes_stored; [apply Heo|apply Heo'|done]).
    destruct Heo as [<- _ _ _], Heo' as [<- _ _ _]. by apply (f_equal Key) in Es.
Qed.

Lemma restore_step_run l1 l2 kb v idx lr n : l = l1 ++ (kb, v) :: l2 ->
  ti_wf idx -> (forall k, hist idx k = part l1 k) ->
  exists idx' k e, restore_step kb v (idx, lr, n) = ((idx', ke_rev e, n + 1), Ok tt) /\ ti_wf idx' /\
    (forall k, hist idx' k = part (l1 ++ [(kb, v)]) k) /\ e ∈ hist idx0 k /\ kb = bk_of e.
Proof using All.
  intros El Hwf Hh. destruct (border l1 l2 kb v El) as (k & e & ent & q & Ek & -> & -> & Heo & Ep & Eo).
  assert (e ∈ hist idx0 k) as He by (rewrite Ek; apply elem_of_app; right; left).
  destruct (Hbound k e He) as [Hok _]. pose proof (rp_follows _ _ Hrep k _ e q Ek) as Hfol.
  assert (rev_lt (last_rev (hist idx k)) (ke_rev e)) as Hlt.
  { rewrite Hh. unfold last_rev. destruct (list_snoc_cases (part l1 k)) as [->|(p & x & E)].
    - simpl. left. simpl. by apply (rp_pos _ _ Hrep k).
    - rewrite E in *. rewrite fmap_app. change (ke_rev <$> [x]) with [ke_rev x]. rewrite last_snoc. simpl. pose proof (hist_sorted idx0 k Hwf0) as Hs.
      rewrite Ek, fmap_app in Hs. refine (StronglySorted_app_1_elem_of _ _ _ _ _ Hs _ _).
      + apply list_elem_of_fmap_2, elem_of_app. right. left.
      + left. }
  assert (exists idx', (if ke_tomb e then TreeIndex.Tombstone k (ke_rev e) else TreeIndex.Put k (ke_rev e)) idx = (idx', Ok tt) /\
    hist_upd idx k (hist idx k ++ [e]) idx') as (idx' & Hrun & Hwf' & Hk' & Ho').
  { destruct Hfol as [Hfol|[Hfol Hlive]]; rewrite <-Hh in Hfol.
    - assert (ke_tomb e = false) as -> by (rewrite Hfol; apply put_event_rev).
      destruct (Put_hist idx k (ke_rev e) Hwf Hlt) as (idx' & ? & ?). exists idx'. rewrite Hfol at 2. done.
    - assert (ke_tomb e = true) as -> by (by rewrite Hfol).
      destruct (Tombstone_hist idx k (ke_rev e) Hwf Hlt) as (idx' & ? & ?); [by rewrite Hh|].
      exists idx'. rewrite Hfol at 2. done. }
  exists idx', k, e. unfold restore_step. unfold bk_of at 1. rewrite DecodeKvBucketKey_bytes by (simpl; by apply rev_ok_typed).
  rewrite DecodeEntry_stored by apply Heo. cbn [Key stored bk_Tombstone bk_Revision]. rewrite (eo_key _ _ _ Heo), Hrun.
  split_and!; try done. intros k'. destruct (decide (k' = k)) as [->|Hne]; [by rewrite Hk', Hh, Ep|].
  by rewrite Ho', Hh, Eo.
Qed.

Lemma replay_run l2 l1 idx lr n : l = l1 ++ l2 -> ti_wf idx -> (forall k, hist idx k = part l1 k) ->
  exists idx' lr', scan_all restore_step l2 (idx, lr, n) = ((idx', lr', n + Z.of_nat (length l2)), Ok tt) /\
    ti_wf idx' /\ (forall k, hist idx' k = part l k) /\
    match last l2 with
    | None => lr' = lr
    | Some p => exists k e, e ∈ hist idx0 k /\ p.1 = bk_of e /\ lr' = ke_rev e
    end.
Proof using All.
  revert l1 idx lr n. induction l2 as [|[kb v] l2 IH]; intros l1 idx lr n El Hwf Hh.
  { rewrite app_nil_r in El. exists idx, lr. split; [by rewrite Z.add_0_r|]. split; [done|]. split; [|done].
    intros k. by rewrite Hh, El. }
  destruct (restore_step_run l1 l2 kb v idx lr n El Hwf Hh) as (idx1 & k & e & Hrun & Hwf1 & Hh1 & He & Ekb).
  destruct (IH (l1 ++ [(kb, v)]) idx1 (ke_rev e) (n + 1)) as (idx' & lr' & Hrun' & Hwf' & Hh' & Hlast);
    [by rewrite <-app_assoc|done|done|].
  exists idx', lr'. cbn [scan_all]. unfold mbind, M_bind. rewrite Hrun, Hrun'. split_and!; try done.
  - do 2 f_equal. cbn [length]. lia.
  - destruct l2 as [|p l2]; [|rewrite last_cons_cons; destruct (last (p :: l2)) eqn:E; [done|by apply last_None in E]].
    simpl in *. subst lr'. eauto.
Qed.

Lemma part_all k : part l k = hist idx0 k.
Proof using All.
  unfold part. apply filter_all, Forall_forall. intros e He. destruct (Hcoh k e He) as (ent & Hl & _).
  apply replay_elem in Hl. by apply (list_elem_of_fmap_2 fst) in Hl.
Qed.

(** The last pair of the bucket carries the newest revision. *)
Lemma replay_last k e p : e ∈ hist idx0 k -> last l = Some p ->
  forall k' e', e' ∈ hist idx0 k' -> p.1 = bk_of e' -> Main (ke_rev e) <= Main (ke_rev e').
Proof using All.
  intros He Hlast k' e' He' Ep. destruct (Hcoh k e He) as (ent & Hl & _). apply replay_elem in Hl.
  destruct (list_snoc_cases l) as [E|(l' & x & E)]; [by rewrite E in Hlast|].
  rewrite E in *. rewrite last_snoc in Hlast. injection Hlast as ->.
  apply elem_of_app in Hl as [Hl|Hl%list_elem_of_singleton].
  - pose proof (StronglySorted_app_1_elem_of _ _ _ _ p Hsort Hl) as Hlt. simpl in Hlt. specialize (Hlt ltac:(left)).
    rewrite Ep in Hlt. unfold bytes_ltb, bk_of in Hlt. rewrite bk_bytes_compare in Hlt by (simpl; by apply Hbound in He as [??], He' as [??]).
    unfold bk_compare in Hlt. simpl in Hlt. destruct (Z.compare_spec (Main (ke_rev e)) (Main (ke_rev e'))); [lia|lia|done].
  - subst p. simpl in Ep. unfold bk_of in Ep.
    apply bk_bytes_inj in Ep; [|simpl; apply rev_ok_typed; by apply Hbound in He as [??], He' as [??]..].
    injection Ep as -> _. lia.
Qed.
End Replay.

(** ** Restore *)

Lemma scanned_all (l : list (bytes * value)) (idx : T) (m : gmap bytes value) (cur : Z) : key_sorted fst l -> list_to_map l = m ->
  replayable idx m -> bounded idx (mkRev (cur + 1) 0) -> cur < MaxInt64 ->
  scanned (Some (rev_bytes (mkRev 0 0))) (Some (rev_bytes (mkRev MaxInt64 MaxInt64))) l = l.
Proof.
  intros Hs Hm Hrep Hb Hcur. apply filter_all, Forall_forall. intros [kb v] Hin. cbn [fst].
  assert (m !! kb = Some v) as Hl by (rewrite <-Hm; apply elem_of_list_to_map; [by apply keys_NoDup|done]).
  destruct (rp_only _ _ Hrep kb v Hl) as (k & e & He & ->). destruct (Hb k e He) as [Hok Hlt].
  unfold in_bounds, bk_of. rewrite !rev_bytes_bk. unfold bytes_leb, bytes_ltb.
  assert (rev_ok (mkRev 0 0) /\ rev_ok (mkRev MaxInt64 MaxInt64)) as [H0 H1] by (unfold rev_ok, MaxInt64; simpl; lia).
  rewrite !bk_bytes_compare by done. unfold bk_compare. cbn [Main Sub bk_Revision bk_Tombstone]. pose proof (rp_pos _ _ Hrep k e He) as Hpos.
  assert (Main (ke_rev e) < MaxInt64) as Hlt' by (destruct Hlt as [Hlt|[? Hlt]]; simpl in *; [lia|destruct Hok; lia]).
  rewrite (proj2 (Z.compare_lt_iff _ _) Hlt'). by rewrite (proj2 (Z.compare_lt_iff _ _) Hpos).
Qed.

(** Restore on any store [s2] whose kv bucket is that of [s]: the index of [s2] does not matter. *)
Lemma Restore_from (s s2 : kvs) :
  grown s -> Main (currentRev s) < MaxInt64 ->
  be_ok (kv_backend s2) -> be_batch (kv_backend s2) = None ->
  kv_map (be_view (kv_backend s2)) = kv_map (be_view (kv_backend s)) ->
  dom (be_view (kv_backend s2)) = dom (be_view (kv_backend s)) ->
  UnsafeGet BucketMeta KeyFinishedCompactedRev (kv_backend s2) = Ok None ->
  UnsafeGet BucketMeta KeyScheduledCompactedRev (kv_backend s2) = Ok None ->
  exists s', Restore s2 = (s', Ok None) /\ kv_inv s' /\ kv_backend s' = kv_backend s2 /\
    (forall k, hist (kvIndex s') k = hist (kvIndex s) k) /\
    Main (currentRev s') = Main (currentRev s) /\ compactedMainRev s' = 0 /\
    applyIndex s' = decode_or_zero (UnsafeGet BucketMeta KeyRaftApplyIndex (kv_backend s2)) DecodeUint64.
Proof.
  intros Hg Hmax Hok2 Hba2 Hkv2 Hdom2 Hfin Hsch. destruct (grown_grown_inv s Hg) as [Hs Hrep Hnew].
  assert (be_view (kv_backend s2) !! BucketKV = Some (kv_map (be_view (kv_backend s)))) as Hb2.
  { assert (is_Some (be_view (kv_backend s2) !! BucketKV)) as [m Em].
    { apply elem_of_dom. rewrite Hdom2. apply elem_of_dom. rewrite (kv_inv_bucket s Hs). by eexists. }
    rewrite Em, <-Hkv2. unfold kv_map. by rewrite Em. }
  destruct (UnsafeScan_spec BucketKV (Some (rev_bytes (mkRev 0 0))) (Some (rev_bytes (mkRev MaxInt64 MaxInt64)))
    restore_step (kv_backend s2) _ Hok2 Hb2) as (l & Hsort & Hmap & Hscan).
  rewrite (scanned_all l (kvIndex s) _ (Main (currentRev s)) Hsort Hmap Hrep (ki_bound s Hs) Hmax) in Hscan.
  destruct NewTreeIndex_wf as [Hwf0 Hh0].
  destruct (replay_run (kvIndex s) _ (ki_idx s Hs) (ki_coh s Hs) Hrep _ (ki_bound s Hs) l Hsort Hmap
    l [] (Clear (kvIndex s2)) (mkRev 0 0) 0) as (idx' & lr & Hrun & Hwf' & Hh' & Hlast); [done|done| |].
  { intros k. change (Clear (kvIndex s2)) with (NewTreeIndex : T). rewrite Hh0. symmetry.
    apply filter_none, Forall_forall. intros e _. apply not_elem_of_nil. }
  assert (forall k, hist idx' k = hist (kvIndex s) k) as Hhist.
  { intros k. rewrite Hh'. eapply (part_all (kvIndex s) _ (ki_idx s Hs) (ki_coh s Hs) Hrep _ (ki_bound s Hs) l Hsort Hmap). }
  assert (Main lr = Main (currentRev s)) as Hlr.
  { destruct (last l) as [p|] eqn:El.
    - destruct Hlast as (k & e & He & Ep & ->). destruct Hnew as [(k0 & e0 & He0 & E0)|[_ Hno]].
      2:{ rewrite Hno in He. by apply not_elem_of_nil in He. }
      apply Z.le_antisymm; [|rewrite <-E0].
      + destruct (ki_bound s Hs k e He) as [[_ ?] [Hlt|[? Hlt]]]; simpl in *; lia.
      + eapply (replay_last (kvIndex s) _ (ki_idx s Hs) (ki_coh s Hs) Hrep _ (ki_bound s Hs) l Hsort Hmap); done.
    - subst lr. simpl. apply last_None in El. destruct Hnew as [(k0 & e0 & He0 & _)|[-> _]]; [|done].
      exfalso. destruct (ki_coh s Hs k0 e0 He0) as (ent & Hl & _). rewrite <-Hmap, El in Hl. exact (lookup_empty_Some _ _ Hl). }
  unfold Restore. rewrite !EncodeRevision_new. rewrite Hscan, Hrun. cbv zeta. rewrite Hfin, Hsch. cbn [decode_or_zero default].
  change (0 <? 0) with false. cbv iota. eexists. split; [done|].
  destruct Hs as [H1 H2 H3 H4 H5 H6 H7 H8 H9]. split_and!; try done.
  split; kvsimpl; try done; rewrite ?Hlr, ?Hkv2, ?Hdom2; try done.
  - eapply bounded_hist_eq; [exact Hhist|done].
  - eapply coherent_hist_eq; [exact Hhist|done].
Qed.

(** C12: Restarting does not change what a store answers: for every store reached from a new
    one by committed and aborted transactions and with no compaction recorded, Restore
    rebuilds from the stored entries alone an index with the same history for every key, the
    same current main revision and the same visible entries at every revision, keeps the
    invariant of the store, and resumes no compaction. *)
Theorem restore_rebuilds (s : kvs) :
  grown s -> Main (currentRev s) < MaxInt64 ->
  UnsafeGet BucketMeta KeyFinishedCompactedRev (kv_backend s) = Ok None ->
  UnsafeGet BucketMeta KeyScheduledCompactedRev (kv_backend s) = Ok None ->
  exists s', Restore s = (s', Ok None) /\ kv_inv s' /\ kv_backend s' = kv_backend s /\
    (forall k, hist (kvIndex s') k = hist (kvIndex s) k) /\
    Main (currentRev s') = Main (currentRev s) /\ compactedMainRev s' = 0 /\
    forall r k ent, visible s' r k ent <-> visible s r k ent.
Proof.
  intros Hg Hmax Hfin Hsch. pose proof (gi_inv s (grown_grown_inv s Hg)) as Hs.
  destruct (Restore_from s s Hg Hmax (ki_be s Hs) (ki_batch s Hs) eq_refl eq_refl Hfin Hsch)
    as (s' & Hrun & Hinv & Hbe & Hhist & Hcur & Hco & _). exists s'. split_and!; try done.
  intros r k ent. unfold visible. by rewrite Hhist, Hbe.
Qed.
End Recovery.

(** ** Concrete stores *)

Lemma kv0_grown : grown kv0.
Proof.
  apply (grown_new (New empty_store)); [exact empty_store_ok|reflexivity| |vm_compute; reflexivity].
  apply elem_of_dom. vm_compute. eauto.
Qed.

Lemma kv1_grown : grown kv1.
Proof.
  apply (grown_commit kv0 kv0_w1 kv0_w2 kv0_grown kv0_room); [|exact kv0_end].
  exact (session_ops _ _ _ (session_new kv0 kv0_w0 kv0_inv kv0_room kv0_new) kv0_op).
Qed.

Lemma restore_rebuilds_witness :
  exists s', Restore kv1 = (s', Ok None) /\ kv_inv s' /\ Main (currentRev s') = 1.
Proof.
  destruct (restore_rebuilds kv1 kv1_grown) as (s' & H1 & H2 & _ & _ & H3 & _);
    [vm_compute; reflexivity|vm_compute; reflexivity|vm_compute; reflexivity|].
  exists s'. split; [exact H1|]. split; [exact H2|]. rewrite H3. vm_compute. reflexivity.
Defined.

(** After a compaction the kv bucket no longer holds the first revisions of a key, and Restore
    takes the oldest one left for its creation: the restored index gives the key another
    creation revision and another version, so the next put on this replica differs from the
    same put on a replica that did not restart. *)
Lemma restore_after_compaction_diverges :
  let s := (doCompact 2 0 kv3).1 in
  TreeIndex.Get k_a 3 (kvIndex s) = Ok (mkRev 1 0, mkRev 3 0, 3) /\
  TreeIndex.Get k_a 3 (kvIndex (Restore s).1) = Ok (mkRev 2 0, mkRev 3 0, 2) /\
  KeyCount s = 1 /\ KeyCount (Restore s).1 = 2.
Proof. vm_compute. repeat split. Qed.
