(* ===== verification/Api.v ===== *)
(** Requests, comparisons, commands and results: [internal/types/api] (kv_api.go,
    comparison.go, lease_api.go, ot_api.go, header.go) and [internal/command]. The
    kinds, operators and fields are strings, as in the code, so that unknown ones are
    values too; nil pointers are [None]. *)

From S2P Require Import Prelude KvTypes Storage.
From Stdlib Require Import ZArith Lia.
From stdpp Require Import base gmap list strings.
Open Scope Z_scope.

(** The first error of a list of checks. *)
Fixpoint first_error {A} (check : A -> option error) (l : list A) : option error :=
  match l with
  | [] => None
  | x :: rest => match check x with Some e => Some e | None => first_error check rest end
  end.

Lemma first_error_None {A} (check : A -> option error) l :
  first_error check l = None <-> Forall (fun x => check x = None) l.
Proof.
  induction l as [|x l IH]; simpl; [done|]. rewrite Forall_cons, <-IH. by destruct (check x); naive_solver.
Qed.

(** ** kv_api.go *)

Record RangeRequest := mkRange {
  rr_Key : bytes; rr_End : option bytes; rr_Limit : Z; rr_Serializable : bool;
  rr_Revision : Z; rr_CountOnly : bool; rr_Prefix : bool }.

Definition RangeRequest_Check (r : RangeRequest) : option error :=
  if (length (rr_Key r) =? 0)%nat && negb (rr_Prefix r) then Some (errMsg "key is required")
  else if rr_Limit r <? 0 then Some (errMsg "limit cannot be negative")
  else if rr_Revision r <? 0 then Some (errMsg "revision cannot be negative")
  else None.

Record RangeResponseNoHeader := mkRangeRes { rres_Entries : list Entry; rres_Count : Z }.

Record PutRequest := mkPut {
  pr_Key : bytes; pr_Value : value; pr_LeaseID : Z;
  pr_PrevEntry : bool; pr_IgnoreValue : bool; pr_IgnoreLease : bool }.

Definition PutRequest_Check (r : PutRequest) : option error :=
  if (length (pr_Key r) =? 0)%nat then Some (errMsg "key is required")
  else if (length (default [] (pr_Value r)) =? 0)%nat && negb (pr_IgnoreValue r)
       then Some (errMsg "value is required")
  else if (pr_LeaseID r <? 0) && negb (pr_IgnoreLease r)
       then Some (errMsg "lease id cannot be negative")
  else None.

Record PutResponseNoHeader := mkPutRes { pres_PrevEntry : option Entry }.

Record DeleteRequest := mkDelete { dr_Key : bytes; dr_End : option bytes; dr_PrevEntries : bool }.

Definition DeleteRequest_Check (r : DeleteRequest) : option error :=
  if (length (dr_Key r) =? 0)%nat then Some (errMsg "key is required") else None.

Record DeleteResponseNoHeader := mkDeleteRes { dres_NumDeleted : Z; dres_PrevEntries : list Entry }.

Abbreviation TxnOpType := string (only parsing).
Definition TxnOpPut : TxnOpType := "PUT".
Definition TxnOpDelete : TxnOpType := "DEL".
Definition TxnOpRange : TxnOpType := "RANGE".

Record TxnOp := mkOp {
  op_Type : TxnOpType; op_Put : option PutRequest;
  op_Delete : option DeleteRequest; op_Range : option RangeRequest }.

(** fmt.Errorf with %w keeps the causes. *)
Definition TxnOp_Check (op : TxnOp) : option error :=
  if bool_decide (op_Type op = TxnOpPut) then
    match op_Put op with
    | None => Some (errMsg "txn_put: put request is required")
    | Some p => PutRequest_Check p
    end
  else if bool_decide (op_Type op = TxnOpDelete) then
    match op_Delete op with
    | None => Some (errMsg "txn_delete: delete request is required")
    | Some d => DeleteRequest_Check d
    end
  else if bool_decide (op_Type op = TxnOpRange) then
    match op_Range op with
    | None => Some (errMsg "txn_range: range request is required")
    | Some r => RangeRequest_Check r
    end
  else Some (errMsg "invalid txn_operation type").

Record TxnOpResult := mkOpRes {
  or_Put : option PutResponseNoHeader;
  or_Delete : option DeleteResponseNoHeader;
  or_Range : option RangeResponseNoHeader }.

(** ** comparison.go *)

Abbreviation ComparisonOperator := string (only parsing).
Definition OperatorEqual : ComparisonOperator := "=".
Definition OperatorGreaterThan : ComparisonOperator := ">".
Definition OperatorGreaterEqual : ComparisonOperator := ">=".
Definition OperatorLessThan : ComparisonOperator := "<".
Definition OperatorLessEqual : ComparisonOperator := "<=".
Definition OperatorNotEqual : ComparisonOperator := "!=".

Abbreviation CompareTargetField := string (only parsing).
Definition FieldValue : CompareTargetField := "VALUE".
Definition FieldCreateRev : CompareTargetField := "CREATE".
Definition FieldMod : CompareTargetField := "MOD".
Definition FieldVersion : CompareTargetField := "VERSION".

Record CompareTargetUnion := mkUnion {
  u_Value : value; u_CreateRevision : Z; u_ModRevision : Z; u_Version : Z }.

Record Comparison := mkCmp {
  c_Key : bytes; c_Operator : ComparisonOperator;
  c_TargetField : CompareTargetField; c_TargetValue : CompareTargetUnion }.

Definition operators : list string :=
  [OperatorEqual; OperatorGreaterThan; OperatorGreaterEqual; OperatorLessThan; OperatorLessEqual;
   OperatorNotEqual].
Definition fields : list string := [FieldValue; FieldCreateRev; FieldMod; FieldVersion].

Definition Comparison_Check (c : Comparison) : option error :=
  if (length (c_Key c) =? 0)%nat then Some (errMsg "comparison key is required")
  else if negb (bool_decide (c_Operator c ∈ operators)) then Some (errMsg "invalid comparison operator")
  else if negb (bool_decide (c_TargetField c ∈ fields)) then Some (errMsg "invalid comparison target field")
  else None.

(** bytes.Equal and bytes.Compare read nil as the empty slice. *)
Definition val_bytes (v : value) : bytes := default [] v.

Definition eq (target : CompareTargetField) (a b : CompareTargetUnion) : bool :=
  if bool_decide (target = FieldValue) then bool_decide (val_bytes (u_Value a) = val_bytes (u_Value b))
  else if bool_decide (target = FieldCreateRev) then u_CreateRevision a =? u_CreateRevision b
  else if bool_decide (target = FieldMod) then u_ModRevision a =? u_ModRevision b
  else if bool_decide (target = FieldVersion) then u_Version a =? u_Version b
  else false.

Definition gt (target : CompareTargetField) (a b : CompareTargetUnion) : bool :=
  if bool_decide (target = FieldValue) then bytes_ltb (val_bytes (u_Value b)) (val_bytes (u_Value a))
  else if bool_decide (target = FieldCreateRev) then u_CreateRevision b <? u_CreateRevision a
  else if bool_decide (target = FieldMod) then u_ModRevision b <? u_ModRevision a
  else if bool_decide (target = FieldVersion) then u_Version b <? u_Version a
  else false.

Definition lt (target : CompareTargetField) (a b : CompareTargetUnion) : bool :=
  if bool_decide (target = FieldValue) then bytes_ltb (val_bytes (u_Value a)) (val_bytes (u_Value b))
  else if bool_decide (target = FieldCreateRev) then u_CreateRevision a <? u_CreateRevision b
  else if bool_decide (target = FieldMod) then u_ModRevision a <? u_ModRevision b
  else if bool_decide (target = FieldVersion) then u_Version a <? u_Version b
  else false.

Definition eval (op : ComparisonOperator) (field : CompareTargetField) (a b : CompareTargetUnion) : bool :=
  if bool_decide (op = OperatorEqual) then eq field a b
  else if bool_decide (op = OperatorGreaterThan) then gt field a b
  else if bool_decide (op = OperatorGreaterEqual) then gt field a b || eq field a b
  else if bool_decide (op = OperatorLessThan) then lt field a b
  else if bool_decide (op = OperatorLessEqual) then lt field a b || eq field a b
  else if bool_decide (op = OperatorNotEqual) then negb (eq field a b)
  else false.

Definition zero_entry : Entry := mkEntry [] None 0 0 0 0.

Definition Eval (c : Comparison) (target : option Entry) : bool :=
  let target := default zero_entry target in
  let t :=
    if bool_decide (c_TargetField c = FieldVersion) then mkUnion None 0 0 (Version target)
    else if bool_decide (c_TargetField c = FieldCreateRev) then mkUnion None (CreateRev target) 0 0
    else if bool_decide (c_TargetField c = FieldMod) then mkUnion None 0 (ModRev target) 0
    else if bool_decide (c_TargetField c = FieldValue) then mkUnion (Value target) 0 0 0
    else mkUnion None 0 0 0 in
  eval (c_Operator c) (c_TargetField c) t (c_TargetValue c).

(** ** kv_api.go: transactions *)

Record TxnRequest := mkTxn {
  tx_Comparisons : list Comparison; tx_Success : list TxnOp; tx_Failure : list TxnOp }.

Definition TxnRequest_Check (r : TxnRequest) : option error :=
  match first_error Comparison_Check (tx_Comparisons r) with
  | Some e => Some e
  | None =>
      match first_error TxnOp_Check (tx_Success r) with
      | Some e => Some e
      | None => first_error TxnOp_Check (tx_Failure r)
      end
  end.

Record TxnResultNoHeader := mkTxnRes { tr_Success : bool; tr_Results : list TxnOpResult }.

(** ** lease_api.go, ot_api.go, header.go, command *)

Record ResponseHeader := mkHeader {
  h_Revision : Z; h_CompactedRev : Z; h_RaftTerm : Z; h_RaftIndex : Z; h_NodeID : string }.

Record LeaseGrantRequest := mkGrant { lg_TTL : Z; lg_LeaseID : Z }.
Record LeaseGrantResult := mkGrantRes { lgr_TTL : Z; lgr_LeaseID : Z }.
Record LeaseRevokeRequest := mkRevoke { lr_LeaseID : Z }.
Record LeaseRevokeResult := mkRevokeRes { lrr_Found : bool; lrr_Revoked : bool }.
Record LeaseKeepAliveRequest := mkKeepAlive { lk_LeaseID : Z }.
Record LeaseKeepAliveResult := mkKeepAliveRes { lkr_TTL : Z; lkr_LeaseID : Z }.
Record LeaseLookupRequest := mkLookup { ll_LeaseID : Z }.
Record LeaseLookupResult := mkLookupRes { llr_LeaseID : Z; llr_OriginalTTL : Z; llr_RemainingTTL : Z }.
Record Checkpoint := mkCheckpoint { ck_LeaseID : Z; ck_RemainingTTL : Z }.
Record CmdLeaseCheckpoint := mkLeaseCheckpoint { Checkpoints : list Checkpoint }.
Record CmdLeaseExpire := mkLeaseExpire { ExpiredIDs : list Z }.
Record ResultLeaseExpire := mkLeaseExpireRes { RemovedLeaseCount : Z; RemovedKeyCount : Z }.
Record CompactionRequest := mkCompaction { cr_TargetRev : Z }.
Record CompactionResult := mkCompactionRes { cres_Error : option error }.
Record OTWriteAllRequest := mkOTWriteAll { Blob : value }.
Record CmdOTGenerateClusterKey := mkOTKey { otk_Key : value }.

Abbreviation CmdKind := string (only parsing).
Definition KindPut : CmdKind := "KV_PUT".
Definition KindDelete : CmdKind := "KV_DEL".
Definition KindTxn : CmdKind := "KV_TXN".
Definition KindLeaseGrant : CmdKind := "LEASE_GRANT".
Definition KindLeaseRevoke : CmdKind := "LEASE_REVOKE".
Definition KindLeaseKeepAlive : CmdKind := "LEASE_KEEP_ALIVE".
Definition KindLeaseLookup : CmdKind := "LEASE_LOOKUP".
Definition KindLeaseCheckpoint : CmdKind := "LEASE_CHECKPOINT".
Definition KindLeaseExpire : CmdKind := "LEASE_EXPIRE".
Definition KindCompaction : CmdKind := "COMPACTION".
Definition KindOTWriteAll : CmdKind := "OT_WRITE_ALL".
Definition KindOTGenerateClusterKey : CmdKind := "OT_GENERATE_CLUSTER_KEY".

Record Command := mkCommand {
  Kind : CmdKind;
  cmd_Put : option PutRequest;
  cmd_Delete : option DeleteRequest;
  cmd_Txn : option TxnRequest;
  cmd_LeaseGrant : option LeaseGrantRequest;
  cmd_LeaseRevoke : option LeaseRevokeRequest;
  cmd_LeaseKeepAlive : option LeaseKeepAliveRequest;
  cmd_LeaseLookup : option LeaseLookupRequest;
  cmd_LeaseCheckpoint : option CmdLeaseCheckpoint;
  cmd_LeaseExpired : option CmdLeaseExpire;
  cmd_Compaction : option CompactionRequest;
  cmd_OTWriteAll : option OTWriteAllRequest;
  cmd_OTGenerateClusterKey : option CmdOTGenerateClusterKey }.

(** The payload field that each kind needs is not nil. *)
Definition payload_kinds (cmd : Command) : list (CmdKind * bool) :=
  [(KindPut, bool_decide (is_Some (cmd_Put cmd)));
   (KindDelete, bool_decide (is_Some (cmd_Delete cmd)));
   (KindTxn, bool_decide (is_Some (cmd_Txn cmd)));
   (KindLeaseGrant, bool_decide (is_Some (cmd_LeaseGrant cmd)));
   (KindLeaseRevoke, bool_decide (is_Some (cmd_LeaseRevoke cmd)));
   (KindLeaseKeepAlive, bool_decide (is_Some (cmd_LeaseKeepAlive cmd)));
   (KindLeaseLookup, bool_decide (is_Some (cmd_LeaseLookup cmd)));
   (KindLeaseCheckpoint, bool_decide (is_Some (cmd_LeaseCheckpoint cmd)));
   (KindLeaseExpire, bool_decide (is_Some (cmd_LeaseExpired cmd)));
   (KindCompaction, bool_decide (is_Some (cmd_Compaction cmd)));
   (KindOTWriteAll, bool_decide (is_Some (cmd_OTWriteAll cmd)));
   (KindOTGenerateClusterKey, bool_decide (is_Some (cmd_OTGenerateClusterKey cmd)))].

Definition Command_Check (cmd : Command) : option error :=
  match list_find (fun p => p.1 = Kind cmd) (payload_kinds cmd) with
  | Some (_, (_, false)) => Some (errMsg "command error: invalid or nil payload or command kind")
  | _ => None
  end.

(** result.go *)
Record Result := mkResult {
  r_Header : ResponseHeader;
  r_Error : option error;
  r_Put : option PutResponseNoHeader;
  r_Delete : option DeleteResponseNoHeader;
  r_Txn : option TxnResultNoHeader;
  r_Range : option RangeResponseNoHeader;
  r_LeaseGrant : option LeaseGrantResult;
  r_LeaseRevoke : option LeaseRevokeResult;
  r_LeaseKeepAlive : option LeaseKeepAliveResult;
  r_LeaseLookup : option LeaseLookupResult;
  r_LeaseExpire : option ResultLeaseExpire;
  r_Compaction : option CompactionResult;
  r_OtWriteAll : option unit }.

Definition empty_header : ResponseHeader := mkHeader 0 0 0 0 "".
Definition empty_result : Result :=
  mkResult empty_header None None None None None None None None None None None None.

Definition set_Revision (rev : Z) (r : Result) : Result :=
  mkResult (mkHeader rev (h_CompactedRev (r_Header r)) (h_RaftTerm (r_Header r)) (h_RaftIndex (r_Header r))
              (h_NodeID (r_Header r)))
    (r_Error r) (r_Put r) (r_Delete r) (r_Txn r) (r_Range r) (r_LeaseGrant r) (r_LeaseRevoke r)
    (r_LeaseKeepAlive r) (r_LeaseLookup r) (r_LeaseExpire r) (r_Compaction r) (r_OtWriteAll r).

(** ** What a checked comparison means *)

(** The order of the selected fields. *)
Definition field_compare (field : CompareTargetField) (e : Entry) (b : CompareTargetUnion) : comparison :=
  if bool_decide (field = FieldValue) then bytes_compare (val_bytes (Value e)) (val_bytes (u_Value b))
  else if bool_decide (field = FieldCreateRev) then CreateRev e ?= u_CreateRevision b
  else if bool_decide (field = FieldMod) then ModRev e ?= u_ModRevision b
  else Version e ?= u_Version b.

(** The relation an operator stands for. *)
Definition op_holds (op : ComparisonOperator) (c : comparison) : Prop :=
  (op = OperatorEqual /\ c = Eq) \/ (op = OperatorNotEqual /\ c <> Eq) \/
  (op = OperatorGreaterThan /\ c = Gt) \/ (op = OperatorGreaterEqual /\ c <> Lt) \/
  (op = OperatorLessThan /\ c = Lt) \/ (op = OperatorLessEqual /\ c <> Gt).

Lemma ltb_compare a b : (a <? b) = match a ?= b with Lt => true | _ => false end.
Proof. unfold Z.ltb. by destruct (a ?= b). Qed.

Lemma gtb_compare a b : (b <? a) = match a ?= b with Gt => true | _ => false end.
Proof. unfold Z.ltb. rewrite Z.compare_antisym. by destruct (a ?= b). Qed.

Lemma eqb_compare a b : (a =? b) = match a ?= b with Eq => true | _ => false end.
Proof. by rewrite Z.eqb_compare. Qed.

Lemma bytes_eq_compare a b : bool_decide (a = b) = match bytes_compare a b with Eq => true | _ => false end.
Proof.
  destruct (bytes_compare a b) eqn:E; [apply bytes_compare_eq in E; by apply bool_decide_eq_true_2| |];
    apply bool_decide_eq_false_2; intros ->; by rewrite bytes_compare_refl in E.
Qed.

Lemma bytes_gt_compare a b : bytes_ltb b a = match bytes_compare a b with Gt => true | _ => false end.
Proof. unfold bytes_ltb. rewrite bytes_compare_antisym. by destruct (bytes_compare a b). Qed.

Lemma field_tests field (a : CompareTargetUnion) e b :
  field ∈ fields ->
  (field = FieldValue -> u_Value a = Value e) -> (field = FieldCreateRev -> u_CreateRevision a = CreateRev e) ->
  (field = FieldMod -> u_ModRevision a = ModRev e) -> (field = FieldVersion -> u_Version a = Version e) ->
  eq field a b = match field_compare field e b with Eq => true | _ => false end /\
  lt field a b = match field_compare field e b with Lt => true | _ => false end /\
  gt field a b = match field_compare field e b with Gt => true | _ => false end.
Proof.
  intros Hf H1 H2 H3 H4. unfold eq, lt, gt, field_compare.
  unfold fields in Hf. rewrite !elem_of_cons in Hf.
  destruct Hf as [->|[->|[->|[->|[]%not_elem_of_nil]]]]; simpl.
  - rewrite H1 by done. split_and!; [apply bytes_eq_compare|done|apply bytes_gt_compare].
  - rewrite H2 by done. split_and!; [apply eqb_compare|apply ltb_compare|apply gtb_compare].
  - rewrite H3 by done. split_and!; [apply eqb_compare|apply ltb_compare|apply gtb_compare].
  - rewrite H4 by done. split_and!; [apply eqb_compare|apply ltb_compare|apply gtb_compare].
Qed.

(** A comparison that passes Check evaluates to the relation its operator names
    between the chosen field of the entry (all fields zero when the key is absent) and
    the target value: numbers by value, values by byte order. *)
Theorem comparison_eval c target :
  Comparison_Check c = None ->
  Eval c target = true <->
  op_holds (c_Operator c) (field_compare (c_TargetField c) (default zero_entry target) (c_TargetValue c)).
Proof.
  intros Hc. unfold Comparison_Check in Hc.
  destruct (length (c_Key c) =? 0)%nat; [done|]. destruct (bool_decide (c_Operator c ∈ operators)) eqn:Ho; [|done].
  destruct (bool_decide (c_TargetField c ∈ fields)) eqn:Hf; [|done]. clear Hc. simpl in Ho, Hf.
  apply bool_decide_eq_true in Ho, Hf. unfold Eval. set (e := default zero_entry target).
  match goal with |- eval _ _ ?t _ = _ <-> _ => set (a := t) end.
  destruct (field_tests (c_TargetField c) a e (c_TargetValue c) Hf) as (He & Hl & Hg);
    [by intros H; unfold a; rewrite H..|].
  unfold eval. rewrite He, Hl, Hg. unfold op_holds. set (x := field_compare _ _ _).
  unfold operators in Ho. rewrite !elem_of_cons in Ho.
  destruct Ho as [->|[->|[->|[->|[->|[->|[]%not_elem_of_nil]]]]]]; destruct x; simpl;
    (split; [intros Hx; try discriminate Hx; naive_solver|naive_solver]).
Qed.

Lemma comparison_eval_witness :
  let c := mkCmp [Byte.x61] OperatorEqual FieldVersion (mkUnion None 0 0 0) in
  op_holds (c_Operator c) (field_compare (c_TargetField c) (default zero_entry None) (c_TargetValue c)).
Proof.
  cbv zeta. apply (comparison_eval (mkCmp [Byte.x61] OperatorEqual FieldVersion (mkUnion None 0 0 0)) None).
  - vm_compute. reflexivity.
  - vm_compute. reflexivity.
Defined.
