(* ===== verification/Engine.v ===== *)
(** The write engine: [internal/mvcc/engine.go]. It runs one put, delete or
    transaction command in one writer, keeps the leases informed of the keys that
    change hands and hands the committed changes to the observers. The lease manager
    and the observers are interfaces here, as in the code. *)

From S2P Require Import Prelude OrdTree KvTypes KeyIndex TreeIndex Storage Inmem Backend Mvcc MvccInv Api.
From Stdlib Require Import ZArith Lia.
From stdpp Require Import base gmap sets list strings sorting.
Open Scope Z_scope.

(** engine.go:10-17 *)
Class LeaseAttacher (A : Type) := {
  AttachKey : Z -> bytes -> A -> A;
  DetachKey : Z -> bytes -> A -> A }.

Class CommitObserver (O : Type) := { OnCommit : list Entry -> O -> O }.

Record Engine (T St B A O : Type) := mkEngine {
  e_store : KvStore T St B; e_attacher : A; e_obs : list O }.
Arguments mkEngine {T St B A O} _ _ _.
Arguments e_store {T St B A O} _.
Arguments e_attacher {T St B A O} _.
Arguments e_obs {T St B A O} _.

Section Engine.
Context {T St B A O : Type} {BT : BTree Less T} {BS : ByteStore St B}.
Context {LA : LeaseAttacher A} {CO : CommitObserver O}.
Abbreviation kvs := (KvStore T St B).
Abbreviation wr := (writer T St B).
Abbreviation eng := (Engine T St B A O).

(** The engine while a command runs: the writer and the attacher. *)
Definition on_writer {X} (m : M wr X) : M (wr * A) X := fun st =>
  let '(w, r) := m st.1 in ((w, st.2), r).
Definition on_attacher (f : A -> A) : M (wr * A) unit := fun st => ((st.1, f st.2), Ok tt).
(** A read of the writer. *)
Definition read_writer {X} (f : wr -> res X) : M (wr * A) X := fun st => (st, f st.1).

Definition applyPut (cmd : PutRequest) : M (wr * A) PutResponseNoHeader :=
  read_writer (writer_Get (pr_Key cmd) 0) ≫= fun prev =>
  if bool_decide (prev = None) && (pr_IgnoreLease cmd || pr_IgnoreValue cmd) then fail [ErrKeyNotFound]
  else
    let value := if pr_IgnoreValue cmd then prev ≫= Value else pr_Value cmd in
    let leaseID := if pr_IgnoreLease cmd then from_option LeaseID 0 prev else pr_LeaseID cmd in
    on_writer (Put (pr_Key cmd) value leaseID) ≫= fun _ =>
    (match prev with
     | Some p => if negb (LeaseID p =? 0) && negb (LeaseID p =? leaseID)
                 then on_attacher (DetachKey (LeaseID p) (pr_Key cmd)) else mret tt
     | None => mret tt
     end) ≫= fun _ =>
    (if negb (leaseID =? 0) then on_attacher (AttachKey (pr_LeaseID cmd) (pr_Key cmd)) else mret tt) ≫= fun _ =>
    mret (mkPutRes (if pr_PrevEntry cmd then prev else None)).

(** The previous entries, when they are asked for. *)
Definition prev_entries (k : bytes) (end_ : option bytes) (wanted : bool) : M (wr * A) (list Entry) :=
  if wanted then read_writer (writer_Range k end_ 0 0) ≫= fun r => mret r.1.1 else mret [].

Fixpoint detach_all (prevs : list Entry) : M (wr * A) unit :=
  match prevs with
  | [] => mret tt
  | entry :: rest =>
      (if negb (LeaseID entry =? 0) then on_attacher (DetachKey (LeaseID entry) (Key entry)) else mret tt)
        ≫= fun _ => detach_all rest
  end.

(** The number of changes of the writer so far. *)
Definition num_changes : M (wr * A) Z :=
  read_writer (fun w => Ok (Z.of_nat (length (UnsafeExpectedChanges w).2))).

Definition applyDelete (cmd : DeleteRequest) : M (wr * A) DeleteResponseNoHeader :=
  prev_entries (dr_Key cmd) (dr_End cmd) (dr_PrevEntries cmd) ≫= fun prevs =>
  on_writer (DeleteRange (dr_Key cmd) (dr_End cmd)) ≫= fun _ =>
  detach_all prevs ≫= fun _ =>
  num_changes ≫= fun n => mret (mkDeleteRes n prevs).

Fixpoint evalCondition (cmps : list Comparison) : M (wr * A) bool :=
  match cmps with
  | [] => mret true
  | cmp :: rest =>
      read_writer (writer_Get (c_Key cmp) 0) ≫= fun entry =>
      if Eval cmp entry then evalCondition rest else mret false
  end.

Definition txn_put (put : PutRequest) : M (wr * A) TxnOpResult :=
  (if pr_PrevEntry put then read_writer (writer_Get (pr_Key put) 0) else mret None) ≫= fun prev =>
  on_writer (Put (pr_Key put) (pr_Value put) (pr_LeaseID put)) ≫= fun _ =>
  mret (mkOpRes (Some (mkPutRes prev)) None None).

Definition txn_delete (del : DeleteRequest) : M (wr * A) TxnOpResult :=
  prev_entries (dr_Key del) (dr_End del) (dr_PrevEntries del) ≫= fun prevs =>
  on_writer (DeleteRange (dr_Key del) (dr_End del)) ≫= fun _ =>
  num_changes ≫= fun n => mret (mkOpRes None (Some (mkDeleteRes n prevs)) None).

Definition txn_range (rng : RangeRequest) : M (wr * A) TxnOpResult :=
  let end_ := if rr_Prefix rng then PrefixEnd (rr_Key rng) else rr_End rng in
  read_writer (writer_Range (rr_Key rng) end_ (rr_Revision rng) (rr_Limit rng)) ≫= fun r =>
  mret (mkOpRes None None (Some (mkRangeRes r.1.1 r.1.2))).

(** The body of a case, with the pointer it dereferences. *)
Definition deref {St X Y} (p : option X) (f : X -> M St Y) : M St Y :=
  match p with Some x => f x | None => lift Panicked end.

(** One turn of the loop of applyTxnOps; an unknown type is refused by Check. *)
Definition applyTxnOp (op : TxnOp) : M (wr * A) TxnOpResult :=
  match TxnOp_Check op with
  | Some e => fail e
  | None =>
      if bool_decide (op_Type op = TxnOpPut) then deref (op_Put op) txn_put
      else if bool_decide (op_Type op = TxnOpDelete) then deref (op_Delete op) txn_delete
      else deref (op_Range op) txn_range
  end.

Fixpoint applyTxnOps (ops : list TxnOp) (acc : list TxnOpResult) : M (wr * A) (list TxnOpResult) :=
  match ops with
  | [] => mret acc
  | op :: rest => applyTxnOp op ≫= fun r => applyTxnOps rest (acc ++ [r])
  end.

Definition applyTxn (cmd : TxnRequest) : M (wr * A) TxnResultNoHeader :=
  evalCondition (tx_Comparisons cmd) ≫= fun cond =>
  applyTxnOps (if cond then tx_Success cmd else tx_Failure cmd) [] ≫= fun r =>
  mret (mkTxnRes cond r).

Definition result_put (r : PutResponseNoHeader) : Result :=
  mkResult empty_header None (Some r) None None None None None None None None None None.
Definition result_delete (r : DeleteResponseNoHeader) : Result :=
  mkResult empty_header None None (Some r) None None None None None None None None None.
Definition result_txn (r : TxnResultNoHeader) : Result :=
  mkResult empty_header None None None (Some r) None None None None None None None None.

(** The switch of ApplyWrite. *)
Definition apply_cmd (cmd : Command) : M (wr * A) Result :=
  if bool_decide (Kind cmd = KindPut) then
    deref (cmd_Put cmd) (fun c => applyPut c ≫= fun r => mret (result_put r))
  else if bool_decide (Kind cmd = KindDelete) then
    deref (cmd_Delete cmd) (fun c => applyDelete c ≫= fun r => mret (result_delete r))
  else if bool_decide (Kind cmd = KindTxn) then
    deref (cmd_Txn cmd) (fun c => applyTxn c ≫= fun r => mret (result_txn r))
  else on_writer Abort ≫= fun _ => lift Panicked.

Definition ApplyWrite (cmd : Command) : M eng Result := fun e =>
  match NewWriter (e_store e) with
  | Ok w =>
      match apply_cmd cmd (w, e_attacher e) with
      | ((w, a), Ok r) =>
          match End_ w with
          | (w, Ok _) =>
              let '(finalRev, changes) := UnsafeExpectedChanges w in
              (mkEngine (w_store w) a (OnCommit changes <$> e_obs e),
               Ok (set_Revision (if negb (length changes =? 0)%nat then finalRev
                                 else Main (StartRevision w)) r))
          | (w, Err err) => (mkEngine (w_store w) a (e_obs e), Err err)
          | (w, Panicked) => (mkEngine (w_store w) a (e_obs e), Panicked)
          end
      | ((w, a), Err err) =>
          let '(w, r) := Abort w in
          (mkEngine (w_store w) a (e_obs e), match r with Panicked => Panicked | _ => Err err end)
      | ((w, a), Panicked) => (mkEngine (w_store w) a (e_obs e), Panicked)
      end
  | Err err => (e, Err err)
  | Panicked => (e, Panicked)
  end.

(** ** The abstract store: a map from live keys to entries *)

Abbreviation live := (gmap bytes Entry).

(** The entry a put stores over [m] at revision [rev]. *)
Definition spec_entry (m : live) (rev : Z) (k : bytes) (v : value) (leaseID : Z) : Entry :=
  match m !! k with
  | Some old => mkEntry k v (CreateRev old) rev (i64 (Version old + 1)) leaseID
  | None => mkEntry k v rev rev 1 leaseID
  end.

Definition spec_put (m : live) (rev : Z) (k : bytes) (v : value) (leaseID : Z) : live :=
  <[k := stored (spec_entry m rev k v leaseID)]> m.

Definition spec_delete (m : live) (k : bytes) (end_ : option bytes) : live :=
  filter (fun p => range_selects k end_ p.1 = false) m.

(** The state of a transaction: the map, and whether it has changed anything. *)
Abbreviation astate := (live * bool)%type.

Definition abs_put (st : astate) (rev : Z) (k : bytes) (v : value) (leaseID : Z) : astate :=
  (spec_put st.1 rev k v leaseID, true).
Definition abs_delete (st : astate) (k : bytes) (end_ : option bytes) : astate :=
  (spec_delete st.1 k end_, st.2 || bool_decide (spec_delete st.1 k end_ <> st.1)).

(** One operation of a transaction; [None] is an error. *)
Definition spec_op (rev compacted : Z) (op : TxnOp) (st : astate) : option astate :=
  match TxnOp_Check op with
  | Some _ => None
  | None =>
      if bool_decide (op_Type op = TxnOpPut) then
        p ← op_Put op; Some (abs_put st rev (pr_Key p) (pr_Value p) (pr_LeaseID p))
      else if bool_decide (op_Type op = TxnOpDelete) then
        d ← op_Delete op; Some (abs_delete st (dr_Key d) (dr_End d))
      else
        r ← op_Range op;
        if (rr_Revision r <? rev) && ((rr_Revision r <=? 0) || (compacted <=? rr_Revision r)) then Some st else None
  end.

Fixpoint spec_ops (rev compacted : Z) (ops : list TxnOp) (st : astate) : option astate :=
  match ops with
  | [] => Some st
  | op :: rest => st' ← spec_op rev compacted op st; spec_ops rev compacted rest st'
  end.

Definition spec_condition (m : live) (cmps : list Comparison) : bool :=
  forallb (fun c => Eval c (m !! c_Key c)) cmps.

(** A whole command at the next revision [rev]: the new map and whether the command made a
    change, and with it a revision. *)
Definition spec_cmd (rev compacted : Z) (cmd : Command) (m : live) : option astate :=
  if bool_decide (Kind cmd = KindPut) then
    p ← cmd_Put cmd;
    if bool_decide (m !! pr_Key p = None) && (pr_IgnoreLease p || pr_IgnoreValue p) then None
    else Some (abs_put (m, false) rev (pr_Key p)
                 (if pr_IgnoreValue p then m !! pr_Key p ≫= Value else pr_Value p)
                 (if pr_IgnoreLease p then from_option LeaseID 0 (m !! pr_Key p) else pr_LeaseID p))
  else if bool_decide (Kind cmd = KindDelete) then
    d ← cmd_Delete cmd; Some (abs_delete (m, false) (dr_Key d) (dr_End d))
  else
    t ← cmd_Txn cmd;
    spec_ops rev compacted (if spec_condition m (tx_Comparisons t) then tx_Success t else tx_Failure t) (m, false).

(** ** Reads of an open writer *)

Lemma range_entries_total (b : backend St B) m rps buf acc lastRev :
  be_ok b -> be_view b !! BucketKV = Some m -> length buf = 16%nat ->
  exists r, range_entries b rps buf acc lastRev = Ok r.
Proof.
  intros Hok Hm. revert buf acc lastRev. induction rps as [|rp rps IH]; intros buf acc lastRev Hbuf; cbn [range_entries]; [eauto|].
  rewrite EncodeRevision_buf, (UnsafeGet_spec _ _ _ _ Hok Hm) by done.
  destruct (mjoin (m !! rev_bytes rp)) as [eb|]; [|apply IH, length_rev_bytes].
  destruct (DecodeEntry (Some eb)) as [[ent|] [err|]]; apply IH, length_rev_bytes.
Qed.

(** doRange only fails on its revision checks. *)
Lemma doRange_total idx (b : backend St B) currRev compactedRev targetRev k end_ limit :
  ti_wf idx -> be_ok b -> BucketKV ∈ dom (be_view b) ->
  exists x, doRange idx b currRev compactedRev targetRev k end_ limit =
    (if currRev <? targetRev then Err (errMsg "future revision requested")
     else if (if targetRev <=? 0 then currRev else targetRev) <? compactedRev then Err [ErrCompacted]
     else Ok x).
Proof.
  intros Hidx Hok [m Hm]%elem_of_dom. unfold doRange.
  destruct (currRev <? targetRev); [exists ([], 0, 0); done|].
  set (r := if targetRev <=? 0 then currRev else targetRev).
  destruct (r <? compactedRev); [exists ([], 0, 0); done|].
  set (all := bool_decide (k = [Byte.x00]) && bool_decide (end_ = Some [Byte.x00])).
  destruct (Revisions_hist (if all then [] else k) (if all then None else end_) r limit idx Hidx)
    as (out & _ & ->).
  case_match; [eauto|]. match goal with |- context [range_entries b ?rps NewRevBytes [] 0] =>
    destruct (range_entries_total b m rps NewRevBytes [] 0 Hok Hm eq_refl) as [[ents lr] ->] end. eauto.
Qed.

Definition next_main (w : wr) : Z := Main (w_startRev w) + 1.

(** Whether the writer accepts a read at a revision. *)
Definition readable (w : wr) (rev : Z) : bool :=
  (rev <? next_main w) && ((rev <=? 0) || (compactedMainRev (w_store w) <=? rev)).

Lemma w_be_ok w : w_inv w -> be_ok (kv_backend (w_store w)).
Proof. intros H. destruct (wi_tx w H) as [? _]. done. Qed.

Lemma writer_Range_total s w k end_ rev limit :
  kv_inv s -> session s w ->
  exists x e, writer_Range k end_ rev limit w = if readable w rev then Ok x else Err e.
Proof.
  intros Hs Hse. pose proof (se_inv s w Hse) as Hw. pose proof (ki_comp s Hs) as Hc.
  unfold writer_Range, Revisions, readable, next_main.
  rewrite (next_i64 w Hw). cbn [next_rev Main]. rewrite (wi_cur w Hw), (se_comp s w Hse).
  pose proof (wi_start w Hw). pose proof (se_start s w Hse) as Hst. rewrite <-Hst in Hc.
  destruct (Z.leb_spec rev 0).
  - destruct (doRange_total (kvIndex (w_store w)) (kv_backend (w_store w)) (Main (w_startRev w) + 1)
      (compactedMainRev s) (Main (w_startRev w) + 1) k end_ limit (wi_idx w Hw) (w_be_ok w Hw) (wi_kv w Hw)) as [x ->].
    rewrite Z.ltb_irrefl, (proj2 (Z.leb_gt (Main (w_startRev w) + 1) 0)), (proj2 (Z.ltb_ge _ _)) by lia.
    rewrite (proj2 (Z.ltb_lt rev _)) by lia. by exists x, [].
  - destruct (doRange_total (kvIndex (w_store w)) (kv_backend (w_store w)) (Main (w_startRev w))
      (compactedMainRev s) rev k end_ limit (wi_idx w Hw) (w_be_ok w Hw) (wi_kv w Hw)) as [x ->].
    rewrite (proj2 (Z.leb_gt rev 0)) by lia. cbn [orb].
    destruct (Z.ltb_spec (Main (w_startRev w)) rev), (Z.ltb_spec rev (Main (w_startRev w) + 1)); try lia; cbn [andb].
    + by exists x, (errMsg "future revision requested").
    + destruct (Z.ltb_spec rev (compactedMainRev s)), (Z.leb_spec (compactedMainRev s) rev); try lia.
      * by exists x, [ErrCompacted].
      * by exists x, [].
Qed.

Lemma readable_now w : w_inv w -> readable w 0 = true.
Proof. intros Hw. pose proof (wi_start w Hw). unfold readable, next_main. rewrite (proj2 (Z.ltb_lt _ _)) by lia. done. Qed.

Lemma writer_Get_total s w k : kv_inv s -> session s w -> exists p, writer_Get k 0 w = Ok p.
Proof.
  intros Hs Hse. unfold writer_Get. destruct (if 0 <=? 0 then _ else _) as [ent|]; [destruct (Value ent); eauto|].
  destruct (writer_Range_total s w k None 0 1 Hs Hse) as ([[ents n] lr] & e & ->).
  rewrite readable_now by apply Hse. eauto.
Qed.

(** A writer that has changed nothing yet reads the live map of the store. *)
Definition fresh (s : kvs) (w : wr) : Prop :=
  session s w /\ w_changes w = [] /\ kvIndex (w_store w) = kvIndex s /\
  pending (kv_backend (w_store w)) = be_view (kv_backend s).

Definition kv_live (s : kvs) (m : live) : Prop :=
  live_map (kvIndex s) (kv_map (be_view (kv_backend s))) m.

Lemma range_query_one k : k <> [] -> range_query k None = fun x => bool_decide (x = k).
Proof.
  intros Hk. unfold range_query, selects. rewrite (bool_decide_eq_false_2 (None = _)), andb_false_r by done.
  by destruct k.
Qed.

(** The live map is what is visible at a revision no event is newer than. *)
Lemma live_lookup (idx : T) (M : gmap bytes value) (m : live) (k : bytes) (r : Z) :
  live_map idx M m -> Forall (upto r) (hist idx k) ->
  match m !! k with
  | Some ent => exists e, lookup_at (hist idx k) r = Some e /\ entry_at M (k, e) ent
  | None => lookup_at (hist idx k) r = None
  end.
Proof.
  intros Hl Hup. specialize (Hl k). rewrite (lookup_at_last _ _ Hup).
  destruct (last (hist idx k)) as [e|]; [destruct (ke_tomb e) eqn:Et|]; [by rewrite Hl| |by rewrite Hl].
  destruct Hl as (ent & Hb & He & ->). exists e. split; [done|]. exists ent. split; [|done].
  unfold bk_of, bk_bytes in Hb. cbn [bk_Tombstone bk_Revision] in Hb. by rewrite Et, app_nil_r in Hb.
Qed.

Lemma fresh_Get (s : kvs) (w : wr) (m : live) (k : bytes) :
  kv_inv s -> fresh s w -> kv_live s m -> k <> [] -> writer_Get k 0 w = Ok (m !! k).
Proof.
  intros Hs (Hse & Hch & Hidx & Hp) Hl Hk. pose proof (se_inv s w Hse) as Hw. pose proof (ki_comp s Hs) as Hc.
  pose proof (wi_start w Hw). pose proof (se_start s w Hse) as Hst. rewrite <-Hst in Hc.
  unfold writer_Get, find_change. rewrite Hch. simpl. unfold writer_Range, Revisions.
  rewrite (next_i64 w Hw), Hidx, (se_comp s w Hse). cbn [next_rev Main].
  assert (be_view (kv_backend (w_store w)) = be_view (kv_backend s)) as Hv
    by (unfold be_view; by rewrite (se_store s w Hse)).
  destruct (doRange_spec (kvIndex s) (kv_backend (w_store w)) (kv_map (be_view (kv_backend s)))
    (Main (w_startRev w) + 1) (compactedMainRev s) (Main (w_startRev w) + 1) k None 1
    (ki_idx s Hs) (w_be_ok w Hw)) as (out & ents & Hans & HF & Hrun); [by rewrite Hv, kv_inv_bucket|apply Hs|lia| |].
  { rewrite (proj2 (Z.leb_gt _ _)) by lia. lia. }
  cbn [Z.leb]. simpl. etransitivity; [by rewrite Hrun|]. clear Hrun.
  rewrite (proj2 (Z.leb_gt (Main (w_startRev w) + 1) 0)) in Hans by lia. rewrite range_query_one in Hans by done.
  assert (Forall (upto (Main (w_startRev w) + 1)) (hist (kvIndex s) k)) as Hup.
  { pose proof (bounded_upto (kvIndex s) k _ (ki_bound s Hs)) as Hb. cbn [Main] in Hb. by rewrite Hst. }
  pose proof (live_lookup _ _ m k _ Hl Hup) as Hmk.
  destruct (m !! k) as [ent|].
  - destruct Hmk as (e & He & Hea). apply (answers_one k _ _ out e) in Hans as ->; [|done].
    unfold capped in HF. simpl in HF. inversion HF as [|? ent' ? ? Hea' HF']; subst. inversion HF'; subst. simpl.
    destruct Hea as (e1 & Hl1 & Ho1 & ->), Hea' as (e2 & Hl2 & Ho2 & ->). do 2 f_equal.
    apply entry_bytes_stored; [apply Ho2|apply Ho1|congruence].
  - destruct out as [|[x e] out].
    { unfold capped in HF. simpl in HF. by inversion HF. }
    assert ((x, e) ∈ (x, e) :: out) as Hin by left. apply Hans in Hin as [Hx%bool_decide_eq_true He]. subst.
    congruence.
Qed.

(** ** The operations against the abstract store *)

Lemma new_entry_spec (w : wr) (m : live) (k : bytes) (v : value) (leaseID : Z) :
  w_live w m ->
  new_entry (hist (kvIndex (w_store w)) k) k v leaseID (next_rev w) = spec_entry m (next_main w) k v leaseID.
Proof.
  intros Hl. specialize (Hl k). unfold new_entry, put_event, spec_entry.
  destruct (last (hist (kvIndex (w_store w)) k)) as [e|]; [destruct (ke_tomb e) eqn:Et|]; [by rewrite Hl| |by rewrite Hl].
  destruct Hl as (ent & _ & [_ _ _ Hlive] & ->). destruct (Hlive Et) as [Hc Hv]. simpl. by rewrite Hc, Hv.
Qed.

(** Room for [n] more operations: [K] holds every key the index has seen. *)
Definition room (n : nat) (w : wr) : Prop :=
  exists K : gset bytes, (forall k, hist (kvIndex (w_store w)) k <> [] -> k ∈ K) /\
    Z.of_nat (length (w_changes w)) + Z.of_nat n * (Z.of_nat (size K) + Z.of_nat n) <= MaxInt64.

Lemma Put_live (s : kvs) (w : wr) (m : live) (k : bytes) (v : value) (leaseID : Z) (n : nat) :
  session s w -> w_live w m -> put_args_ok k v leaseID -> room (S n) w ->
  exists w', Put k v leaseID w = (w', Ok tt) /\ session s w' /\ room n w' /\
    w_live w' (spec_put m (next_main w) k v leaseID) /\ w_changes w' <> [].
Proof.
  intros Hse Hl Hargs (K & HK & Hroom). pose proof (se_inv s w Hse) as Hw.
  destruct (put_step w k v leaseID Hw Hargs) as (w' & Hrun & Hstep); [nia|]. cbv zeta in Hstep.
  exists w'. split; [exact Hrun|]. split; [|split; [|split]].
  - eapply session_step; [exact Hse|]. do 3 eexists. split; [exact Hstep|]. split; [apply put_event_rev|done].
  - exists ({[k]} ∪ K). destruct Hstep as [_ Hch _ (_ & Hk & Ho) _ _ _ _ _]. split.
    + intros x. destruct (decide (x = k)) as [->|Hne]; [set_solver|]. rewrite Ho by done.
      intros Hx%HK. set_solver.
    + rewrite Hch, length_app. simpl. pose proof (size_union_alt {[k]} K) as Hsz.
      rewrite size_singleton in Hsz. pose proof (subseteq_size (K ∖ {[k]}) K). 
      assert (size (K ∖ {[k]}) <= size K)%nat by (apply subseteq_size; set_solver). nia.
  - pose proof (w_step_live w w' k _ _ m Hw Hstep Hl) as Hl'.
    rewrite (proj2 (put_event_rev _ _)), (new_entry_spec w m) in Hl' by done. exact Hl'.
  - rewrite (ws_changes _ _ _ _ _ Hstep). by destruct (w_changes w).
Qed.

(** Deleting a list of keys one by one is filtering them out. *)
Lemma delete_keys_spec (m : live) (k : bytes) (end_ : option bytes) (ks : list bytes) :
  (forall x, x ∈ ks <-> range_selects k end_ x = true /\ is_Some (m !! x)) ->
  foldl (fun lm x => delete x lm) m ks = spec_delete m k end_.
Proof.
  intros Hks. unfold spec_delete. apply map_eq. intros x.
  assert (forall l (m' : live), foldl (fun lm y => delete y lm) m' l !! x
    = if bool_decide (x ∈ l) then None else m' !! x) as Hf.
  { induction l as [|y l IH]; intros m'; cbn [foldl]; [by rewrite bool_decide_eq_false_2 by apply not_elem_of_nil|].
    rewrite IH. destruct (decide (x = y)) as [->|Hne].
    - rewrite (bool_decide_eq_true_2 (y ∈ y :: l)) by left. by rewrite lookup_delete_eq; case_match.
    - rewrite lookup_delete_ne by done. by rewrite (bool_decide_ext (x ∈ y :: l) (x ∈ l)) by (rewrite elem_of_cons; tauto). }
  rewrite Hf. specialize (Hks x). destruct (m !! x) as [ent|] eqn:E.
  - destruct (range_selects k end_ x) eqn:Es.
    + rewrite bool_decide_eq_true_2 by (apply Hks; eauto). symmetry. apply map_lookup_filter_None. right.
      intros ? _. simpl. congruence.
    + rewrite bool_decide_eq_false_2 by (intros [? _]%Hks; done). symmetry. by apply map_lookup_filter_Some.
  - rewrite bool_decide_eq_false_2 by (intros [_ [? ?]]%Hks; done). symmetry. apply map_lookup_filter_None. by left.
Qed.

Lemma DeleteRange_live (s : kvs) (w : wr) (m : live) (k : bytes) (end_ : option bytes) (n : nat) :
  session s w -> w_live w m -> room (S n) w ->
  exists w', DeleteRange k end_ w = (w', Ok tt) /\ session s w' /\ room n w' /\
    w_live w' (spec_delete m k end_) /\
    (w_changes w' = [] <-> w_changes w = [] /\ spec_delete m k end_ = m).
Proof.
  intros Hse Hl (K & HK & Hroom). pose proof (se_inv s w Hse) as Hw.
  destruct (deleteRange_spec w k end_ Hw) as (ks & Hnd & Hks & Hdel).
  assert (length ks <= size K)%nat as Hlen.
  { rewrite <-(size_list_to_set (C := gset bytes) ks) by done. apply subseteq_size. intros x Hx.
    apply elem_of_list_to_set in Hx. apply HK. apply Hks in Hx as (_ & e & He & _). intros En. by rewrite En in He. }
  destruct Hdel as (w' & Hrun & Hw' & Hrtc & Hall & Hch & Hlive); [nia|].
  exists w'. split; [exact Hrun|]. split; [by eapply session_steps|]. split.
  - exists K. split; [|rewrite Hch, Nat2Z.inj_add; nia].
    intros x Hx. specialize (Hall x). case_bool_decide as Hin.
    + apply HK. apply Hks in Hin as (_ & e & He & _). intros En. by rewrite En in He.
    + apply HK. by rewrite <-Hall.
  - assert (forall x, x ∈ ks <-> range_selects k end_ x = true /\ is_Some (m !! x)) as Hksm.
    { intros x. rewrite Hks. by rewrite (live_map_live _ _ m x Hl). }
    rewrite <-(delete_keys_spec m k end_ ks) by done. split; [by apply Hlive|].
    rewrite <-!length_zero_iff_nil, Hch. split.
    + intros E. assert (ks = []) as -> by (apply length_zero_iff_nil; lia). split; [lia|done].
    + intros [E Em]. rewrite E. destruct ks as [|x ks]; [done|exfalso].
      assert (x ∈ x :: ks) as Hx by left. apply Hksm in Hx as [Hx1 [ent Hx2]].
      rewrite (delete_keys_spec m k end_ (x :: ks)) in Em by done.
      rewrite <-Em in Hx2. apply map_lookup_filter_Some in Hx2 as [_ Hx2]. simpl in Hx2. congruence.
Qed.

Lemma prev_entries_run (s : kvs) (w : wr) (a : A) k end_ wanted :
  kv_inv s -> session s w -> exists ps, prev_entries k end_ wanted (w, a) = ((w, a), Ok ps).
Proof.
  intros Hs Hse. unfold prev_entries. destruct wanted; [|by eexists].
  unfold mbind, M_bind, read_writer. cbn [fst].
  destruct (writer_Range_total s w k end_ 0 0 Hs Hse) as (x & e & ->). rewrite readable_now by apply Hse. by eexists.
Qed.

(** The writer's view of the live keys, and whether it has changed anything. *)
Definition w_abs (w : wr) (st : astate) : Prop :=
  w_live w st.1 /\ st.2 = negb (length (w_changes w) =? 0)%nat.

(** What an operation does to the writer and the attacher, against its specification. *)
Definition op_result {X : Type} (s : kvs) (n : nat) (spec : option astate) (out : (wr * A) * res X) : Prop :=
  exists w' a' r, out = ((w', a'), r) /\ session s w' /\
    match spec with
    | Some st' => (exists x, r = Ok x) /\ room n w' /\ w_abs w' st' /\ next_main w' = Main (currentRev s) + 1
    | None => exists e, r = Err e
    end.

Lemma session_next s w : session s w -> next_main w = Main (currentRev s) + 1.
Proof. intros H. unfold next_main. by rewrite (se_start s w H). Qed.

Lemma op_result_Ok {X : Type} (s : kvs) (n : nat) (m : astate) (w : wr) (a : A) (x : X) :
  session s w -> room n w -> w_abs w m -> op_result s n (Some m) ((w, a), Ok x).
Proof. intros Hse Hr Hl. exists w, a, (Ok x). split_and!; try done; [by exists x|by apply session_next]. Qed.

Lemma op_result_Err {X : Type} (s : kvs) (n : nat) (w : wr) (a : A) (e : error) :
  session s w -> op_result (X := X) s n None ((w, a), Err e).
Proof. intros Hse. exists w, a, (Err e). split_and!; try done. by exists e. Qed.

Lemma op_result_bind {X Y : Type} (s : kvs) (n n' : nat) (m' : astate) (spec : option astate)
    (mm : M (wr * A) X) (f : X -> M (wr * A) Y) (st : wr * A) :
  op_result s n (Some m') (mm st) ->
  (forall w' a' x, session s w' -> room n w' -> w_abs w' m' -> op_result s n' spec (f x (w', a'))) ->
  op_result s n' spec ((mm ≫= f) st).
Proof.
  intros (w' & a' & r & Hm & Hse & (x & ->) & Hroom & Hl & _) Hf.
  unfold mbind, M_bind. rewrite Hm. by apply Hf.
Qed.

Lemma op_result_bind_None {X Y : Type} (s : kvs) (n n' : nat) (mm : M (wr * A) X) (f : X -> M (wr * A) Y) st :
  op_result s n None (mm st) -> op_result s n' None ((mm ≫= f) st).
Proof.
  intros (w' & a' & r & Hm & Hse & (e & ->)). unfold mbind, M_bind. rewrite Hm. by apply op_result_Err.
Qed.

Lemma on_writer_Put (s : kvs) (w : wr) (a : A) (m : astate) (n : nat) k v leaseID :
  session s w -> w_abs w m -> put_args_ok k v leaseID -> room (S n) w ->
  op_result s n (Some (abs_put m (Main (currentRev s) + 1) k v leaseID)) (on_writer (Put k v leaseID) (w, a)).
Proof.
  intros Hse [Hl _] Hargs Hr. destruct (Put_live s w m.1 k v leaseID n Hse Hl Hargs Hr) as (w' & Hrun & H1 & H2 & H3 & H4).
  unfold on_writer. cbn [fst snd]. rewrite Hrun. rewrite (session_next s w Hse) in H3. apply op_result_Ok; [done..|].
  split; [exact H3|]. simpl. by destruct (w_changes w').
Qed.

Lemma on_writer_Delete (s : kvs) (w : wr) (a : A) (m : astate) (n : nat) k end_ :
  session s w -> w_abs w m -> room (S n) w ->
  op_result s n (Some (abs_delete m k end_)) (on_writer (DeleteRange k end_) (w, a)).
Proof.
  intros Hse [Hl Ht] Hr. destruct (DeleteRange_live s w m.1 k end_ n Hse Hl Hr) as (w' & Hrun & H1 & H2 & H3 & H4).
  unfold on_writer. cbn [fst snd]. rewrite Hrun. apply op_result_Ok; [done..|]. split; [exact H3|].
  unfold abs_delete. cbn [snd]. rewrite Ht. destruct (w_changes w') as [|c' cs'], (w_changes w) as [|c cs]; simpl.
  - apply bool_decide_eq_false_2. intros Hn. apply Hn, (proj1 H4 eq_refl).
  - by destruct (proj1 H4 eq_refl) as [? _].
  - apply bool_decide_eq_true_2. intros E. by pose proof (proj2 H4 (conj eq_refl E)).
  - done.
Qed.

Lemma on_attacher_run (s : kvs) (w : wr) (a : A) (m : astate) (n : nat) (c : bool) f :
  session s w -> room n w -> w_abs w m ->
  op_result s n (Some m) ((if c then on_attacher f else mret tt) (w, a)).
Proof. intros. destruct c; by apply op_result_Ok. Qed.

Lemma prev_entries_result (s : kvs) (w : wr) (a : A) (m : astate) (n : nat) k end_ wanted :
  kv_inv s -> session s w -> room n w -> w_abs w m ->
  op_result s n (Some m) (prev_entries k end_ wanted (w, a)).
Proof. intros Hs Hse Hr Hl. destruct (prev_entries_run s w a k end_ wanted Hs Hse) as [ps ->]. by apply op_result_Ok. Qed.

Lemma detach_all_result (s : kvs) (w : wr) (a : A) (m : astate) (n : nat) prevs :
  session s w -> room n w -> w_abs w m -> op_result s n (Some m) (detach_all prevs (w, a)).
Proof.
  intros Hse Hr Hl. revert w a Hse Hr Hl. induction prevs as [|e prevs IH]; intros w a Hse Hr Hl; [by apply op_result_Ok|].
  cbn [detach_all]. eapply op_result_bind; [by apply on_attacher_run|]. intros. by apply IH.
Qed.

(** Arguments of the puts of a transaction that fit the entry codec. *)
Definition op_args_ok (op : TxnOp) : Prop :=
  forall p, op_Put op = Some p -> put_args_ok (pr_Key p) (pr_Value p) (pr_LeaseID p).

Lemma room_weaken n (w : wr) : room (S n) w -> room n w.
Proof. intros (K & HK & Hr). exists K. split; [done|nia]. Qed.

Lemma applyTxnOp_spec (s : kvs) (w : wr) (a : A) (m : astate) (n : nat) (op : TxnOp) :
  kv_inv s -> session s w -> room (S n) w -> w_abs w m -> op_args_ok op ->
  op_result s n (spec_op (Main (currentRev s) + 1) (compactedMainRev s) op m) (applyTxnOp op (w, a)).
Proof.
  intros Hs Hse Hr Hl Hargs. unfold applyTxnOp, spec_op.
  destruct (TxnOp_Check op) as [e|] eqn:Hchk; [by apply op_result_Err|]. unfold TxnOp_Check in Hchk.
  case_bool_decide; [|case_bool_decide].
  - destruct (op_Put op) as [p|] eqn:Ep; [|done]. cbn [deref mbind option_bind]. unfold txn_put.
    eapply op_result_bind; [|intros w1 a1 prev Hse1 Hr1 Hl1].
    { destruct (pr_PrevEntry p); [|apply op_result_Ok; [exact Hse|exact Hr|exact Hl]].
      unfold read_writer. cbn [fst]. destruct (writer_Get_total s w (pr_Key p) Hs Hse) as [x ->].
      apply op_result_Ok; [exact Hse|exact Hr|exact Hl]. }
    eapply op_result_bind; [apply on_writer_Put; [done|exact Hl1|by apply Hargs|exact Hr1]|].
    intros. by apply op_result_Ok.
  - destruct (op_Delete op) as [d|] eqn:Ed; [|done]. cbn [deref mbind option_bind]. unfold txn_delete.
    eapply op_result_bind; [apply prev_entries_result; [done|exact Hse|exact Hr|exact Hl]|intros w1 a1 ps Hse1 Hr1 Hl1].
    eapply op_result_bind; [apply on_writer_Delete; [done|exact Hl1|exact Hr1]|intros].
    unfold num_changes, read_writer, mbind, M_bind. by apply op_result_Ok.
  - case_bool_decide; [|done]. destruct (op_Range op) as [r|] eqn:Er; [|done].
    cbn [deref mbind option_bind]. unfold txn_range. unfold mbind, M_bind, read_writer. cbn [fst].
    destruct (writer_Range_total s w (rr_Key r) (if rr_Prefix r then PrefixEnd (rr_Key r) else rr_End r)
      (rr_Revision r) (rr_Limit r) Hs Hse) as (x & e & ->).
    unfold readable. rewrite (session_next s w Hse), (se_comp s w Hse).
    destruct ((rr_Revision r <? _) && _); [|by apply op_result_Err].
    apply op_result_Ok; [done|by apply room_weaken|done].
Qed.

Lemma applyTxnOps_spec (s : kvs) (ops : list TxnOp) (w : wr) (a : A) (m : astate) (n : nat) acc :
  kv_inv s -> session s w -> room (length ops + n) w -> w_abs w m -> Forall op_args_ok ops ->
  op_result s n (spec_ops (Main (currentRev s) + 1) (compactedMainRev s) ops m) (applyTxnOps ops acc (w, a)).
Proof.
  intros Hs. revert w a m acc. induction ops as [|op ops IH]; intros w a m acc Hse Hr Hl Hargs; [by apply op_result_Ok|].
  inversion Hargs as [|? ? Hop Hops]; subst. cbn [applyTxnOps spec_ops].
  pose proof (applyTxnOp_spec s w a m (length ops + n) op Hs Hse Hr Hl Hop) as Hone.
  destruct (spec_op _ _ op m) as [m'|]; cbn [mbind option_bind].
  - eapply op_result_bind; [exact Hone|]. intros. by apply IH.
  - by eapply op_result_bind_None.
Qed.

Lemma evalCondition_spec (s : kvs) (w : wr) (a : A) (m : live) cmps :
  kv_inv s -> fresh s w -> kv_live s m -> Forall (fun c => c_Key c <> []) cmps ->
  evalCondition cmps (w, a) = ((w, a), Ok (spec_condition m cmps)).
Proof.
  intros Hs Hf Hl. induction 1 as [|c cmps Hc _ IH]; [done|].
  cbn [evalCondition spec_condition forallb]. unfold mbind, M_bind, read_writer. cbn [fst].
  rewrite (fresh_Get s w m (c_Key c) Hs Hf Hl Hc). by destruct (Eval c (m !! c_Key c)).
Qed.

(** The commands the engine is called with: a KV kind with its payload, keys that are
    not empty and sizes that fit the codec (both are checked before a command is
    proposed). *)
Definition cmd_ok (cmd : Command) : Prop :=
  (Kind cmd = KindPut /\ exists p, cmd_Put cmd = Some p /\ pr_Key p <> [] /\
     put_args_ok (pr_Key p) (pr_Value p) (pr_LeaseID p)) \/
  (Kind cmd = KindDelete /\ is_Some (cmd_Delete cmd)) \/
  (Kind cmd = KindTxn /\ exists t, cmd_Txn cmd = Some t /\
     Forall (fun c => c_Key c <> []) (tx_Comparisons t) /\
     Forall op_args_ok (tx_Success t) /\ Forall op_args_ok (tx_Failure t)).

(** The number of operations a command can run. *)
Definition cmd_size (cmd : Command) : nat :=
  match cmd_Txn cmd with
  | Some t => S (length (tx_Success t) `max` length (tx_Failure t))
  | None => 1
  end.

Lemma live_entry_args (idx : T) (M : gmap bytes value) (m : live) k ent :
  live_map idx M m -> m !! k = Some ent ->
  Z.of_nat (length (default [] (Value ent))) < 2 ^ 32 /\ in_i64 (LeaseID ent).
Proof.
  intros Hl E. specialize (Hl k). rewrite E in Hl.
  destruct (last (hist idx k)) as [e|]; [|done]. destruct (ke_tomb e); [done|].
  destruct Hl as (e0 & _ & [_ _ Hok _] & [= ->]). destruct Hok as (_ & Hv & _ & _ & _ & Hid). done.
Qed.

Lemma room_le n n' (w : wr) : (n <= n')%nat -> room n' w -> room n w.
Proof. intros Hle (K & HK & Hr). exists K. split; [done|nia]. Qed.

Lemma applyPut_spec (s : kvs) (w : wr) (a : A) (m : live) (p : PutRequest) :
  kv_inv s -> fresh s w -> kv_live s m -> w_abs w (m, false) -> room 1 w ->
  pr_Key p <> [] -> put_args_ok (pr_Key p) (pr_Value p) (pr_LeaseID p) ->
  op_result s 0 (if bool_decide (m !! pr_Key p = None) && (pr_IgnoreLease p || pr_IgnoreValue p) then None
    else Some (abs_put (m, false) (Main (currentRev s) + 1) (pr_Key p)
                 (if pr_IgnoreValue p then m !! pr_Key p ≫= Value else pr_Value p)
                 (if pr_IgnoreLease p then from_option LeaseID 0 (m !! pr_Key p) else pr_LeaseID p)))
    (applyPut p (w, a)).
Proof.
  intros Hs Hf Hkl Hl Hr Hk (Ha1 & Ha2 & Ha3). pose proof Hf as (Hse & _).
  unfold applyPut. rewrite (M_bind_Ok _ _ (w, a) (w, a) (m !! pr_Key p))
    by (unfold read_writer; simpl; by rewrite (fresh_Get s w m (pr_Key p) Hs Hf Hkl Hk)).
  destruct (_ && _); [by apply op_result_Err|].
  eapply op_result_bind; [apply on_writer_Put; [exact Hse|exact Hl| |exact Hr]|intros w1 a1 _ Hse1 Hr1 Hl1].
  { split; [done|]. destruct (m !! pr_Key p) as [ent|] eqn:E.
    - destruct (live_entry_args _ _ m _ _ Hkl E) as [Hv Hid].
      split; [by destruct (pr_IgnoreValue p)|by destruct (pr_IgnoreLease p)].
    - split; [by destruct (pr_IgnoreValue p)|destruct (pr_IgnoreLease p); [|done]]. simpl.
      unfold in_i64, MinInt64, MaxInt64. lia. }
  match type of Hl1 with w_abs _ ?x => generalize dependent x end. intros m1 Hl1.
  eapply op_result_bind; [|intros w2 a2 _ Hse2 Hr2 Hl2].
  { destruct (m !! pr_Key p); [apply on_attacher_run; [exact Hse1|exact Hr1|exact Hl1]|].
    apply op_result_Ok; [exact Hse1|exact Hr1|exact Hl1]. }
  eapply op_result_bind; [apply on_attacher_run; [exact Hse2|exact Hr2|exact Hl2]|].
  intros. by apply op_result_Ok.
Qed.

Lemma apply_cmd_spec (s : kvs) (w : wr) (a : A) (m : live) (cmd : Command) :
  kv_inv s -> fresh s w -> kv_live s m -> w_abs w (m, false) -> room (cmd_size cmd) w -> cmd_ok cmd ->
  op_result s 0 (spec_cmd (Main (currentRev s) + 1) (compactedMainRev s) cmd m) (apply_cmd cmd (w, a)).
Proof.
  intros Hs Hf Hkl Hl Hr Hok. pose proof Hf as (Hse & _). unfold apply_cmd, spec_cmd.
  assert (room 1 w) as Hr1.
  { eapply room_le; [|exact Hr]. unfold cmd_size. destruct (cmd_Txn cmd); lia. }
  destruct Hok as [(-> & p & -> & Hk & Hargs)|[(-> & d & ->)|(-> & t & Ht & Hc & Hs1 & Hs2)]]; simpl.
  - pose proof (applyPut_spec s w a m p Hs Hf Hkl Hl Hr1 Hk Hargs) as Hp. destruct (_ && _).
    + by eapply op_result_bind_None.
    + eapply op_result_bind; [exact Hp|]. intros. by apply op_result_Ok.
  - unfold applyDelete. eapply op_result_bind; [|intros; by apply op_result_Ok].
    eapply op_result_bind; [apply prev_entries_result; [done|exact Hse|exact Hr1|exact Hl]|intros w1 a1 ps Hse1 Hr1' Hl1].
    eapply op_result_bind; [apply on_writer_Delete; [done|exact Hl1|exact Hr1']|intros w2 a2 [] Hse2 Hr2 Hl2].
    eapply op_result_bind; [apply detach_all_result; [exact Hse2|exact Hr2|exact Hl2]|intros w3 a3 [] Hse3 Hr3 Hl3].
    unfold num_changes, read_writer, mbind, M_bind. by apply op_result_Ok.
  - rewrite Ht. simpl. unfold applyTxn.
    assert (op_result s 0 (spec_ops (Main (currentRev s) + 1) (compactedMainRev s)
      (if spec_condition m (tx_Comparisons t) then tx_Success t else tx_Failure t) (m, false))
      (applyTxnOps (if spec_condition m (tx_Comparisons t) then tx_Success t else tx_Failure t) [] (w, a))) as Hops.
    { apply applyTxnOps_spec; [done|done| |done|by destruct (spec_condition _ _)].
      eapply room_le; [|exact Hr]. unfold cmd_size. rewrite Ht. destruct (spec_condition _ _); lia. }
    unfold mbind, M_bind. rewrite (evalCondition_spec s w a m _ Hs Hf Hkl Hc).
    destruct Hops as (w' & a' & r & -> & Hse' & Hres).
    destruct (spec_ops _ _ _ (m, false)) as [m'|].
    + destruct Hres as ((x & ->) & Hr' & Hl' & _). by apply op_result_Ok.
    + destruct Hres as (e & ->). by apply op_result_Err.
Qed.

Lemma NewWriter_fresh (s : kvs) (m : live) :
  kv_inv s -> Main (currentRev s) < MaxInt64 -> kv_live s m ->
  exists w, NewWriter s = Ok w /\ fresh s w /\ w_abs w (m, false).
Proof.
  intros Hs Hm Hl. destruct (NewWriter_spec s Hs Hm) as (w & Hn & Hw & Hch & Hst & Hidx & Hbe & Hp & _).
  exists w. split; [done|]. split; [split_and!; try done; by apply (session_new s)|].
  unfold w_abs, w_live. cbn [fst snd]. by rewrite Hidx, Hp, Hch.
Qed.

Lemma size_keys_le (l : list bytes) : (size (list_to_set l : gset bytes) <= length l)%nat.
Proof.
  induction l as [|x l IH]; [by rewrite list_to_set_nil, size_empty|]. rewrite list_to_set_cons, size_union_alt, size_singleton.
  assert (size ((list_to_set l : gset bytes) ∖ {[x]}) <= size (list_to_set l : gset bytes))%nat
    by (apply subseteq_size; set_solver). simpl. lia.
Qed.

Lemma fresh_room (s : kvs) (w : wr) (n : nat) :
  fresh s w -> Z.of_nat n * (Z.of_nat (length (bt_Items (kvIndex s))) + Z.of_nat n) <= MaxInt64 -> room n w.
Proof.
  intros (_ & Hch & Hidx & _) Hn. exists (list_to_set (key <$> bt_Items (kvIndex s))). rewrite Hch, Hidx. split.
  - intros k Hk. apply elem_of_list_to_set. unfold hist in Hk.
    destruct (find_key key k (bt_Items (kvIndex s))) as [ki|] eqn:E; [|done].
    apply find_key_Some in E as [E <-]. by apply list_elem_of_fmap_2.
  - pose proof (size_keys_le (key <$> bt_Items (kvIndex s))) as Hsz. rewrite length_fmap in Hsz. simpl. nia.
Qed.

Lemma kv_live_ext (s : kvs) (idx : T) (M : gmap bytes value) (m : live) :
  live_map idx M m -> (forall k, hist (kvIndex s) k = hist idx k) -> kv_map (be_view (kv_backend s)) = M ->
  kv_live s m.
Proof. intros Hl Hh HM k. rewrite Hh, HM. apply Hl. Qed.

(** Operations of a writer that touch its store only. *)
Definition keeps {X : Type} (f : M wr X) : Prop :=
  forall w, w_changes (f w).1 = w_changes w /\ w_startRev (f w).1 = w_startRev w.

Lemma keeps_bind {X Y : Type} (f : M wr X) (g : X -> M wr Y) : keeps f -> (forall x, keeps (g x)) -> keeps (f ≫= g).
Proof.
  intros Hf Hg w. unfold mbind, M_bind. specialize (Hf w). destruct (f w) as [w' [x|e|]]; [|done|done].
  destruct (Hg x w') as [-> ->]. done.
Qed.

Lemma keeps_ret {X : Type} (x : X) : keeps (mret x).
Proof. done. Qed.
Lemma keeps_get : keeps get_st.
Proof. done. Qed.
Lemma keeps_fail {X : Type} e : keeps (fail (A := X) e).
Proof. done. Qed.
Lemma keeps_store {X : Type} (f : M kvs X) : keeps (on_store f).
Proof. intros w. unfold on_store. by destruct (f (w_store w)). Qed.
Lemma keeps_try {X : Type} (f : M wr X) : keeps f -> keeps (try f).
Proof. intros Hf w. specialize (Hf w). unfold try. by destruct (f w) as [w' [x|e|]]. Qed.
Lemma keeps_set (f : wr -> kvs) : keeps (modify (fun w => set_store (f w) w)).
Proof. done. Qed.

Lemma End_keeps : keeps End_.
Proof.
  assert (forall k v, keeps (warn_put k v)) as Hwp.
  { intros. apply keeps_bind; [apply keeps_try, keeps_store|intros; apply keeps_ret]. }
  unfold End_. apply keeps_bind; [apply keeps_get|]. intros w0. apply keeps_bind.
  - destruct (negb _); [|apply keeps_ret]. apply keeps_bind; [apply (keeps_set _)|intros _].
    apply keeps_bind; [apply keeps_get|intros w]. apply keeps_bind; [apply Hwp|intros _].
    destruct (0 <? _); [|apply keeps_ret]. by apply keeps_bind.
  - intros _. apply keeps_bind; [apply keeps_try, keeps_store|]. intros [[]|err]; [apply (keeps_set _)|].
    apply keeps_bind; [|intros; apply keeps_fail]. destruct (negb _); [apply (keeps_set _)|apply keeps_ret].
Qed.

(** A command that is refused has not reached the leases. *)
Definition refused_keeps {X : Type} (m : M (wr * A) X) : Prop := forall st st' e, m st = (st', Err e) -> st'.2 = st.2.

Lemma preserves_on_writer {X : Type} (m : M wr X) : preserves snd (on_writer m).
Proof. intros st. unfold on_writer. by destruct (m st.1). Qed.
Lemma preserves_read_writer {X : Type} (f : wr -> res X) : preserves snd (read_writer f).
Proof. done. Qed.
Local Hint Resolve preserves_on_writer preserves_read_writer : preserve.

Lemma refused_preserves {X : Type} (m : M (wr * A) X) : preserves snd m -> refused_keeps m.
Proof. intros Hm st st' e E. specialize (Hm st). by rewrite E in Hm. Qed.
Lemma refused_bind {X Y : Type} (m : M (wr * A) X) (f : X -> M (wr * A) Y) :
  preserves snd m -> (forall x, refused_keeps (f x)) -> refused_keeps (m ≫= f).
Proof.
  intros Hm Hf st st' e. specialize (Hm st). unfold mbind, M_bind. destruct (m st) as [st1 [x|e1|]]; [|by intros [= <- _]|done].
  simpl in Hm. rewrite <-Hm. apply Hf.
Qed.
Lemma refused_never {X : Type} (m : M (wr * A) X) : (forall st e, (m st).2 <> Err e) -> refused_keeps m.
Proof. intros Hm st st' e E. destruct (Hm st e). by rewrite E. Qed.
Lemma detach_all_Ok prevs st : exists st', detach_all prevs st = (st', Ok tt).
Proof.
  revert st. induction prevs as [|p prevs IH]; intros st; [by exists st|]. cbn [detach_all]. unfold mbind, M_bind.
  destruct (negb _); apply IH.
Qed.
Lemma applyTxnOps_keeps ops acc : preserves snd (applyTxnOps ops acc).
Proof.
  revert acc. induction ops as [|op ops IH]; intros acc; [done|]. cbn [applyTxnOps]. apply preserves_bind; [|intros; apply IH].
  unfold applyTxnOp, deref, txn_put, txn_delete, txn_range, prev_entries, num_changes. preserve.
Qed.
Lemma evalCondition_keeps cmps : preserves snd (evalCondition cmps).
Proof. induction cmps as [|c cmps IH]; [done|]. cbn [evalCondition]. preserve. Qed.

Lemma applyPut_refused p : refused_keeps (applyPut p).
Proof.
  unfold applyPut. apply refused_bind; [done|]. intros prev. case_match; [by apply refused_preserves|]. cbv zeta.
  apply refused_bind; [preserve|]. intros _. apply refused_never. intros st e. unfold mbind, M_bind.
  destruct prev as [q|]; [destruct (negb (LeaseID q =? 0) && _)|]; by destruct (negb _).
Qed.
Lemma applyDelete_refused d : refused_keeps (applyDelete d).
Proof.
  unfold applyDelete, prev_entries. apply refused_bind; [preserve|]. intros prevs. apply refused_bind; [preserve|]. intros _.
  apply refused_never. intros st e. destruct (detach_all_Ok prevs st) as [st' E]. unfold mbind, M_bind. by rewrite E.
Qed.
Lemma refused_fmap {X Y : Type} (m : M (wr * A) X) (g : X -> Y) : refused_keeps m -> refused_keeps (m ≫= fun x => mret (g x)).
Proof.
  intros Hm st st' e. specialize (Hm st). unfold mbind, M_bind. destruct (m st) as [st1 [x|e1|]]; [done| |done].
  intros [= <- <-]. by eapply Hm.
Qed.
Lemma apply_cmd_refused cmd : refused_keeps (apply_cmd cmd).
Proof.
  unfold apply_cmd, deref. repeat case_bool_decide.
  - destruct (cmd_Put cmd) as [p|]; [|done]. apply refused_fmap, applyPut_refused.
  - destruct (cmd_Delete cmd) as [d|]; [|done]. apply refused_fmap, applyDelete_refused.
  - destruct (cmd_Txn cmd) as [t|]; [|done]. apply refused_preserves. unfold applyTxn.
    pose proof evalCondition_keeps. pose proof applyTxnOps_keeps. preserve.
  - apply refused_preserves. preserve.
Qed.

(** The engine against its specification, for its clients. *)
Lemma ApplyWrite_refines (cmd : Command) (e : eng) (m : live) :
  kv_inv (e_store e) -> Main (currentRev (e_store e)) < MaxInt64 -> kv_live (e_store e) m -> cmd_ok cmd ->
  Z.of_nat (cmd_size cmd) * (Z.of_nat (length (bt_Items (kvIndex (e_store e)))) + Z.of_nat (cmd_size cmd)) <= MaxInt64 ->
  exists e' r, ApplyWrite cmd e = (e', r) /\ kv_inv (e_store e') /\
    match spec_cmd (Main (currentRev (e_store e)) + 1) (compactedMainRev (e_store e)) cmd m with
    | None => (exists err, r = Err err) /\ kv_live (e_store e') m /\ e_obs e' = e_obs e /\
        currentRev (e_store e') = currentRev (e_store e) /\ e_attacher e' = e_attacher e
    | Some (m', changed) =>
        (exists changes res, r = Ok res /\ kv_live (e_store e') m' /\ e_obs e' = OnCommit changes <$> e_obs e /\
           changed = negb (length changes =? 0)%nat /\
           currentRev (e_store e') =
             (if changed then mkRev (Main (currentRev (e_store e)) + 1) 0 else currentRev (e_store e)) /\
           h_Revision (r_Header res) = Main (currentRev (e_store e'))) \/
        (exists w w' err, session (e_store e) w /\ End_ w = (w', Err err) /\ r = Err err /\ kv_live (e_store e') m /\ e_obs e' = e_obs e /\
           currentRev (e_store e') =
             (if changed then mkRev (Main (currentRev (e_store e)) + 1) 0 else currentRev (e_store e)) /\
           exists w0 x, NewWriter (e_store e) = Ok w0 /\ apply_cmd cmd (w0, e_attacher e) = ((w, e_attacher e'), Ok x))
    end.
Proof.
  intros Hs Hmax Hl Hok Hroom. set (s := e_store e) in *.
  destruct (NewWriter_fresh s m Hs Hmax Hl) as (w & Hn & Hf & Hwl).
  pose proof (fresh_room s w _ Hf Hroom) as Hr.
  destruct (apply_cmd_spec s w (e_attacher e) m cmd Hs Hf Hl Hwl Hr Hok) as (w1 & a1 & r & Hrun & Hse & Hres).
  unfold ApplyWrite. fold s. rewrite Hn, Hrun.
  destruct (spec_cmd _ _ cmd m) as [[m' changed]|].
  - destruct Hres as ((x & ->) & _ & [Hl1 Hch1] & _). cbn [fst snd] in Hl1, Hch1. subst changed. pose proof (End_spec s w1 Hs Hse Hmax) as HE.
    destruct (End_ w1) as [w2 [[]|err|]] eqn:Hend; [| |done]; cbv zeta in HE.
    + destruct HE as (Hinv & Hcur & _ & Hh & Hkv & _).
      destruct (End_keeps w1) as [Hch Hst]. rewrite Hend in Hch, Hst. cbn [fst] in Hch, Hst.
      rewrite (end_rev_main s) in Hcur by done.
      unfold UnsafeExpectedChanges, StartRevision. rewrite Hch, Hst.
      rewrite (next_i64 w1 (se_inv s w1 Hse)). cbn [next_rev Main]. rewrite (se_start s w1 Hse).
      do 2 eexists. split; [done|]. split; [exact Hinv|]. left. exists (w_changes w1). eexists. split; [done|].
      split; [eapply kv_live_ext; [exact Hl1|exact Hh|done]|]. split; [done|]. split; [done|].
      split; [cbn [e_store]; rewrite Hcur; by destruct (length (w_changes w1) =? 0)%nat|].
      cbn [e_store set_Revision r_Header h_Revision]. rewrite Hcur. by destruct (length (w_changes w1) =? 0)%nat.
    + destruct HE as (Hinv & Hcur & Hh & Hv). do 2 eexists. split; [done|]. split; [exact Hinv|]. right.
      exists w1, w2, err. split_and!; try done; [cbn [e_store]; eapply kv_live_ext; [exact Hl|exact Hh|by rewrite Hv]| |by exists w, x].
      cbn [e_store]. rewrite Hcur, (end_rev_main s) by done. by destruct (length (w_changes w1) =? 0)%nat.
  - destruct Hres as (err & ->). destruct (Abort_spec s w1 Hs Hse) as (w2 & -> & Hinv & Hv & Hh & Hcur).
    do 2 eexists. split; [done|]. split; [exact Hinv|]. split; [by eexists|]. apply apply_cmd_refused in Hrun. split_and!; try done.
    cbn [e_store]. eapply kv_live_ext; [exact Hl|exact Hh|by rewrite Hv].
Qed.

(** The store after a command is that of one finished writer session. *)
Lemma ApplyWrite_store (cmd : Command) (e : eng) (m : live) :
  kv_inv (e_store e) -> Main (currentRev (e_store e)) < MaxInt64 -> kv_live (e_store e) m -> cmd_ok cmd ->
  Z.of_nat (cmd_size cmd) * (Z.of_nat (length (bt_Items (kvIndex (e_store e)))) + Z.of_nat (cmd_size cmd)) <= MaxInt64 ->
  exists w w', session (e_store e) w /\ e_store (ApplyWrite cmd e).1 = w_store w' /\
    (End_ w = (w', Ok tt) \/ (exists err, End_ w = (w', Err err)) \/ Abort w = (w', Ok tt)).
Proof.
  intros Hs Hmax Hl Hok Hroom. set (s := e_store e) in *.
  destruct (NewWriter_fresh s m Hs Hmax Hl) as (w & Hn & Hf & Hwl).
  pose proof (fresh_room s w _ Hf Hroom) as Hr.
  destruct (apply_cmd_spec s w (e_attacher e) m cmd Hs Hf Hl Hwl Hr Hok) as (w1 & a1 & r & Hrun & Hse & Hres).
  unfold ApplyWrite. fold s. rewrite Hn, Hrun. exists w1. destruct (spec_cmd _ _ cmd m) as [[m' changed]|].
  - destruct Hres as ((x & ->) & _). pose proof (End_spec s w1 Hs Hse Hmax) as HE.
    destruct (End_ w1) as [w2 [[]|err|]] eqn:Hend; [| |done]; exists w2; split_and!; auto. right. left. by exists err.
  - destruct Hres as (err & ->). destruct (Abort_spec s w1 Hs Hse) as (w2 & -> & _). exists w2. auto.
Qed.

(** C1: ApplyWrite runs a put, delete or transaction as one atomic step of an abstract map from keys to entries.
    If the specification of the command rejects it (a put that keeps the value or lease of a missing key, an
    invalid operation or an unreadable revision anywhere in a transaction), an error is returned and the
    entries, the revision, the observers and the lease attachments are as before. Otherwise either the commit of
    this command's writer fails: an error is returned, the entries are as before and no observer is told, but
    the revision counter has moved on by one if the command made changes, and the lease attachments the command
    made stay; or the store holds exactly the specified new map, with a new revision exactly if the
    specification says something changes, every observer has been handed the same changes and the revision in
    the header is the store's. No command panics. *)
Theorem engine_refines (cmd : Command) (e : eng) (m : live) :
  kv_inv (e_store e) -> Main (currentRev (e_store e)) < MaxInt64 -> kv_live (e_store e) m -> cmd_ok cmd ->
  Z.of_nat (cmd_size cmd) * (Z.of_nat (length (bt_Items (kvIndex (e_store e)))) + Z.of_nat (cmd_size cmd)) <= MaxInt64 ->
  exists e' r, ApplyWrite cmd e = (e', r) /\ kv_inv (e_store e') /\
    match spec_cmd (Main (currentRev (e_store e)) + 1) (compactedMainRev (e_store e)) cmd m with
    | None => (exists err, r = Err err) /\ kv_live (e_store e') m /\ e_obs e' = e_obs e /\
        currentRev (e_store e') = currentRev (e_store e) /\ e_attacher e' = e_attacher e
    | Some (m', changed) =>
        (exists changes res, r = Ok res /\ kv_live (e_store e') m' /\ e_obs e' = OnCommit changes <$> e_obs e /\
           changed = negb (length changes =? 0)%nat /\
           currentRev (e_store e') =
             (if changed then mkRev (Main (currentRev (e_store e)) + 1) 0 else currentRev (e_store e)) /\
           h_Revision (r_Header res) = Main (currentRev (e_store e'))) \/
        (exists w w' err, session (e_store e) w /\ End_ w = (w', Err err) /\ r = Err err /\ kv_live (e_store e') m /\ e_obs e' = e_obs e /\
           currentRev (e_store e') =
             (if changed then mkRev (Main (currentRev (e_store e)) + 1) 0 else currentRev (e_store e)) /\
           exists w0 x, NewWriter (e_store e) = Ok w0 /\ apply_cmd cmd (w0, e_attacher e) = ((w, e_attacher e'), Ok x))
    end.
Proof. apply ApplyWrite_refines. Qed.

End Engine.

(** ** Concrete runs, on the in-memory store *)

(** A lease manager and an observer that log what they are told. *)
#[export] Instance log_attacher : LeaseAttacher (list (bool * Z * bytes)) := {
  AttachKey id k log := log ++ [(true, id, k)];
  DetachKey id k log := log ++ [(false, id, k)] }.
#[export] Instance log_observer : CommitObserver (list (list Entry)) := {
  OnCommit changes log := log ++ [changes] }.

Abbreviation log_engine :=
  (Engine (list keyIndex) (InmemStore (list Item)) inmemBatch (list (bool * Z * bytes)) (list (list Entry))).

Definition engine0 : log_engine := mkEngine kv0 [] [[]].

Definition put_cmd (p : PutRequest) : Command :=
  mkCommand KindPut (Some p) None None None None None None None None None None None.
Definition txn_cmd (t : TxnRequest) : Command :=
  mkCommand KindTxn None None (Some t) None None None None None None None None None.

Definition put_a (leaseID : Z) : PutRequest := mkPut k_a (Some [Byte.x01]) leaseID false false false.
Definition op_put (p : PutRequest) : TxnOp := mkOp TxnOpPut (Some p) None None.
Definition op_del (d : DeleteRequest) : TxnOp := mkOp TxnOpDelete None (Some d) None.
Definition op_range (r : RangeRequest) : TxnOp := mkOp TxnOpRange None None (Some r).

Lemma kv0_live : kv_live kv0 ∅.
Proof.
  intros k. assert (hist (kvIndex kv0) k = []) as -> by apply NewTreeIndex_wf. done.
Qed.

Lemma engine_refines_witness :
  exists e' r, ApplyWrite (put_cmd (put_a 0)) engine0 = (e', r) /\ kv_inv (e_store e').
Proof.
  destruct (engine_refines (put_cmd (put_a 0)) engine0 ∅) as (e' & r & H1 & H2 & _).
  - apply kv0_inv.
  - apply kv0_room.
  - apply kv0_live.
  - left. split; [reflexivity|]. exists (put_a 0). split; [reflexivity|]. split; [discriminate|].
    apply (k_a_args (Some [Byte.x01])). reflexivity.
  - vm_compute. discriminate.
  - exists e', r. split; [exact H1|exact H2].
Defined.

(** A transaction that puts two keys and then deletes one of them reports three
    deleted keys: the count is the number of all changes of the transaction so far. *)
Theorem txn_delete_count :
  let t := mkTxn [] [op_put (put_a 0); op_put (mkPut k_b (Some [Byte.x02]) 0 false false false);
                     op_del (mkDelete k_a None false)] [] in
  exists e' res tr, ApplyWrite (txn_cmd t) engine0 = (e', Ok res) /\ r_Txn res = Some tr /\
    tr_Results tr !! 2%nat = Some (mkOpRes None (Some (mkDeleteRes 3 [])) None).
Proof. do 3 eexists. split; [vm_compute; reflexivity|]. split; [reflexivity|]. vm_compute. reflexivity. Qed.

(** A range read inside a transaction does not see what the transaction has
    written: after a put of the key, the read of that key counts one match and returns
    no entry. *)
Theorem txn_range_misses_own_writes :
  let t := mkTxn [] [op_put (put_a 0); op_range (mkRange k_a None 0 false 0 false false)] [] in
  exists e' res tr, ApplyWrite (txn_cmd t) engine0 = (e', Ok res) /\ r_Txn res = Some tr /\
    tr_Results tr !! 1%nat = Some (mkOpRes None None (Some (mkRangeRes [] 1))).
Proof. do 3 eexists. split; [vm_compute; reflexivity|]. split; [reflexivity|]. vm_compute. reflexivity. Qed.

(** A put that keeps the lease of its key attaches the key to the lease id of the
    request, 0, and not to the lease the entry keeps; a put inside a transaction
    attaches its key to no lease at all. *)
Theorem put_lease_attach :
  let e1 := (ApplyWrite (put_cmd (put_a 7)) engine0).1 in
  let e2 := (ApplyWrite (put_cmd (mkPut k_a (Some [Byte.x02]) 0 false false true)) e1).1 in
  let e3 := (ApplyWrite (txn_cmd (mkTxn [] [op_put (put_a 7)] [])) engine0).1 in
  e_attacher e2 = [(true, 7, k_a); (true, 0, k_a)] /\
  (LeaseID <$> match reader_Get k_a 0 (e_store e2) with Ok o => o | _ => None end) = Some 7 /\
  e_attacher e3 = [] /\
  (LeaseID <$> match reader_Get k_a 0 (e_store e3) with Ok o => o | _ => None end) = Some 7.
Proof. vm_compute. split; [reflexivity|]. split; [reflexivity|]. split; reflexivity. Qed.
