(* ===== verification/Heap.v ===== *)
(** The expiry queue: [internal/lease/heap.go] on top of the standard library's
    container/heap. The items are shared objects (the lease manager keeps pointers to
    them), so the heap is an array of references into a table of items, and Swap writes
    the index fields through the references. *)

From S2P Require Import Prelude.
From Stdlib Require Import ZArith Lia Zify ZifyNat ZifyClasses.
From stdpp Require Import base gmap sets list sorting.
Open Scope Z_scope.
Ltac Zify.zify_post_hook ::= Z.to_euclidean_division_equations.

(** ** container/heap over heap.Interface *)

Definition parent (i : nat) : nat := ((i - 1) / 2)%nat.

(** Exchanging two elements of an array. *)
Definition swap_list {A} `{Inhabited A} (i j : nat) (l : list A) : list A :=
  <[i := l !!! j]> (<[j := l !!! i]> l).

(** heap.Interface, with the priorities it compares. *)
Class HeapInterface (H : Type) := {
  h_Len : H -> nat;
  h_Less : nat -> nat -> H -> bool;
  h_Swap : nat -> nat -> H -> H;
  h_keys : H -> list Z;
  h_Len_keys h : h_Len h = length (h_keys h);
  h_Less_keys h i j : (i < h_Len h)%nat -> (j < h_Len h)%nat ->
    h_Less i j h = (h_keys h !!! i <? h_keys h !!! j);
  h_Swap_keys h i j : (i < h_Len h)%nat -> (j < h_Len h)%nat ->
    h_keys (h_Swap i j h) = swap_list i j (h_keys h) }.

Section Container.
Context {H : Type} {HI : HeapInterface H}.

(** The loops carry fuel: [up] halves its position, [down] increases it below [n]. *)
Fixpoint up_loop (fuel : nat) (j : nat) (h : H) : H :=
  match fuel with
  | O => h
  | S fuel' =>
      let i := parent j in
      if (i =? j)%nat || negb (h_Less j i h) then h else up_loop fuel' i (h_Swap i j h)
  end.
Definition up (j : nat) (h : H) : H := up_loop (S j) j h.

Fixpoint down_loop (fuel : nat) (i n : nat) (h : H) : H * nat :=
  match fuel with
  | O => (h, i)
  | S fuel' =>
      let j1 := (2 * i + 1)%nat in
      if (n <=? j1)%nat then (h, i)
      else
        let j2 := (j1 + 1)%nat in
        let j := if (j2 <? n)%nat && h_Less j2 j1 h then j2 else j1 in
        if negb (h_Less j i h) then (h, i) else down_loop fuel' j n (h_Swap i j h)
  end.
(** The flag tells whether the element moved. *)
Definition down (i0 n : nat) (h : H) : H * bool :=
  let '(h', i) := down_loop (S n) i0 n h in (h', (i0 <? i)%nat).

(** ** Correctness of the loops *)

Definition ordered_but (n i : nat) (l : list Z) : Prop :=
  forall a, (0 < a < n)%nat -> a <> i -> l !!! parent a <= l !!! a.
Definition heap_order (n : nat) (l : list Z) : Prop :=
  forall a, (0 < a < n)%nat -> l !!! parent a <= l !!! a.
(** The children of [i] are not below its parent. *)
Definition bridged (n i : nat) (l : list Z) : Prop :=
  (0 < i)%nat -> forall c, (0 < c < n)%nat -> parent c = i -> l !!! parent i <= l !!! c.

Lemma length_swap {A} `{Inhabited A} i j (l : list A) : length (swap_list i j l) = length l.
Proof. unfold swap_list. by rewrite !length_insert. Qed.

Lemma swap_at {A} `{Inhabited A} i j k (l : list A) :
  (i < length l)%nat -> (j < length l)%nat ->
  swap_list i j l !!! k = if decide (k = i) then l !!! j else if decide (k = j) then l !!! i else l !!! k.
Proof.
  intros Hi Hj. unfold swap_list. destruct (decide (k = i)) as [->|Hki].
  - by rewrite list_lookup_total_insert_eq by (by rewrite length_insert).
  - rewrite list_lookup_total_insert_ne by done. destruct (decide (k = j)) as [->|Hkj].
    + by rewrite list_lookup_total_insert_eq.
    + by rewrite list_lookup_total_insert_ne.
Qed.

Lemma Len_Swap i j h : (i < h_Len h)%nat -> (j < h_Len h)%nat -> h_Len (h_Swap i j h) = h_Len h.
Proof. intros Hi Hj. by rewrite !h_Len_keys, h_Swap_keys, length_swap. Qed.

Lemma parent_lt j : (0 < j)%nat -> (parent j < j)%nat.
Proof. unfold parent. lia. Qed.

Lemma parent_children i c : (0 < c)%nat -> parent c = i <-> (c = 2 * i + 1 \/ c = 2 * i + 2)%nat.
Proof. unfold parent. lia. Qed.

(** Whatever the exchanges below [m] preserve, the loops preserve. *)
Definition swap_closed (m : nat) (P : H -> Prop) : Prop :=
  forall i k h, (m <= h_Len h)%nat -> (i < m)%nat -> (k < m)%nat -> P h -> P (h_Swap i k h).

Lemma up_loop_ind (P : H -> Prop) m fuel j h :
  swap_closed m P -> (m <= h_Len h)%nat -> (j < m)%nat -> P h -> P (up_loop fuel j h).
Proof.
  intros HS. revert j h. induction fuel as [|fuel IH]; intros j h Hn Hj Hp; [done|]. cbn [up_loop].
  destruct (Nat.eqb_spec (parent j) j) as [E|E]; [done|]. destruct (negb _); [done|]. cbn [orb].
  assert (parent j < m)%nat by (unfold parent in *; lia).
  apply IH; [by rewrite Len_Swap by lia|done|]. by apply HS.
Qed.

Lemma down_loop_ind (P : H -> Prop) m fuel i h :
  swap_closed m P -> (m <= h_Len h)%nat -> P h -> P (down_loop fuel i m h).1.
Proof.
  intros HS. revert i h. induction fuel as [|fuel IH]; intros i h Hm Hp; [done|]. cbn [down_loop].
  destruct (Nat.leb_spec m (2 * i + 1)) as [E|E]; [done|].
  set (j := if _ && _ then _ else _).
  assert (i < m /\ j < m)%nat as [? ?].
  { subst j. destruct (Nat.ltb_spec (2 * i + 1 + 1) m), (h_Less _ _ h); simpl; lia. }
  destruct (negb _); [done|]. apply IH; [by rewrite Len_Swap by lia|]. by apply HS.
Qed.

(** [down] and, when the element did not move, [up]: the body of Fix and of Remove. *)
Definition settle (i m : nat) (h : H) : H :=
  let '(h', moved) := down i m h in if moved then h' else up i h'.

Lemma settle_ind (P : H -> Prop) i m h :
  swap_closed m P -> (m <= h_Len h)%nat -> (i < m)%nat -> P h -> P (settle i m h).
Proof.
  intros HS Hm Hi Hp. unfold settle, down.
  pose proof (down_loop_ind (fun h' => P h' /\ (m <= h_Len h')%nat) m (S m) i h) as HD.
  destruct (down_loop (S m) i m h) as [h' i']. cbn [fst] in HD. destruct HD as [Hp' Hm']; [|done|done|].
  - intros a k h1 H1 Ha Hk [H2 H3]. split; [by apply HS|]. by rewrite Len_Swap by lia.
  - destruct (i <? i')%nat; [done|]. unfold up. by apply (up_loop_ind P m).
Qed.

(** One exchange of [up] moves the defect to the parent. *)
Lemma up_step n j p (l : list Z) :
  (n <= length l)%nat -> (0 < j < n)%nat -> parent j = p -> l !!! j < l !!! p ->
  ordered_but n j l -> bridged n j l -> ordered_but n p (swap_list p j l) /\ bridged n p (swap_list p j l).
Proof.
  intros Hl Hj Hp Hlt Ho Hb. pose proof (parent_lt j ltac:(lia)) as Hpj. split.
  - intros a Ha Hne. rewrite !swap_at by lia. rewrite (decide_False (P := a = p)) by done.
    destruct (decide (a = j)) as [->|Haj]; [rewrite decide_True by done; lia|].
    pose proof (Ho a Ha Haj) as Hoa. destruct (decide (parent a = p)) as [E|E]; [rewrite E in Hoa; lia|].
    destruct (decide (parent a = j)) as [E'|E']; [|done].
    specialize (Hb ltac:(lia) a Ha E'). by rewrite Hp in Hb.
  - intros Hp0 c Hc Hpc. pose proof (parent_lt p Hp0). rewrite !swap_at by lia.
    rewrite (decide_False (P := parent p = p)), (decide_False (P := parent p = j)) by lia.
    assert (c <> p) by (intros ->; lia). rewrite (decide_False (P := c = p)) by done.
    pose proof (Ho p ltac:(lia) ltac:(lia)) as Hpp. destruct (decide (c = j)) as [->|Hcj]; [done|].
    specialize (Ho c Hc Hcj). rewrite Hpc in Ho. lia.
Qed.

Lemma up_order fuel n j h :
  (n <= h_Len h)%nat -> (j < n)%nat -> (j < fuel)%nat ->
  ordered_but n j (h_keys h) -> bridged n j (h_keys h) -> heap_order n (h_keys (up_loop fuel j h)).
Proof.
  revert j h. induction fuel as [|fuel IH]; intros j h Hn Hj Hf Ho Hb; [lia|]. cbn [up_loop].
  assert (n <= length (h_keys h))%nat as Hl by (by rewrite <-h_Len_keys).
  destruct (Nat.eqb_spec (parent j) j) as [E|E].
  { cbn [orb]. intros a Ha. apply Ho; [done|]. unfold parent in *. lia. }
  assert (0 < j)%nat as Hj0 by (unfold parent in *; lia). pose proof (parent_lt j Hj0) as Hp.
  rewrite h_Less_keys by lia. cbn [orb]. destruct (Z.ltb_spec (h_keys h !!! j) (h_keys h !!! parent j)) as [Hlt|Hge].
  2:{ cbn [negb]. intros a Ha. destruct (decide (a = j)) as [->|]; [done|by apply Ho]. }
  cbn [negb]. destruct (up_step n j (parent j) (h_keys h)) as [Ho' Hb']; try done.
  rewrite <-h_Swap_keys in Ho', Hb' by lia. apply IH; [by rewrite Len_Swap by lia|lia|lia|done|done].
Qed.

(** The state of [down] at position [i]: the only defects are at [i] and below it. *)
Record sinking (n i0 i : nat) (l : list Z) : Prop := {
  sk_other : forall a, (0 < a < n)%nat -> parent a <> i -> a <> i -> l !!! parent a <= l !!! a;
  sk_bridged : bridged n i l;
  sk_moved : i <> i0 -> (0 < i)%nat -> l !!! parent i <= l !!! i }.

Lemma down_step n i0 i j (l : list Z) :
  (n <= length l)%nat -> (i0 <= i)%nat -> (0 < j < n)%nat -> parent j = i -> l !!! j < l !!! i ->
  (forall c, (0 < c < n)%nat -> parent c = i -> l !!! j <= l !!! c) ->
  sinking n i0 i l -> sinking n i0 j (swap_list i j l).
Proof.
  intros Hl Hi0 Hj Hp Hlt Hmin [Ho Hb _]. pose proof (parent_lt j ltac:(lia)) as Hij. rewrite Hp in Hij. split.
  - intros a Ha Hpa Haj. rewrite !swap_at by lia. rewrite (decide_False (P := a = j)) by done.
    rewrite (decide_False (P := parent a = j)) by done.
    destruct (decide (a = i)) as [->|Hai].
    + pose proof (parent_lt i ltac:(lia)). rewrite (decide_False (P := parent i = i)) by lia. apply Hb; [lia|lia|done].
    + destruct (decide (parent a = i)) as [E|E]; [by apply Hmin|by apply Ho].
  - intros _ c Hc Hpc. pose proof (parent_lt c ltac:(lia)) as Hlc. rewrite Hpc in Hlc.
    rewrite !swap_at by lia. rewrite Hp, decide_True by done.
    rewrite (decide_False (P := c = i)), (decide_False (P := c = j)) by lia.
    specialize (Ho c Hc ltac:(lia) ltac:(lia)). by rewrite Hpc in Ho.
  - intros _ _. rewrite !swap_at by lia. rewrite Hp, decide_True by done.
    rewrite (decide_False (P := j = i)), decide_True by lia. lia.
Qed.

Lemma down_order fuel n i0 i h :
  (n <= h_Len h)%nat -> (i0 <= i)%nat -> (n < fuel + i)%nat -> sinking n i0 i (h_keys h) ->
  let '(h', i') := down_loop fuel i n h in
  (i <= i')%nat /\ sinking n i0 i' (h_keys h') /\
  (forall c, (0 < c < n)%nat -> parent c = i' -> h_keys h' !!! i' <= h_keys h' !!! c) /\
  (i' = i -> h' = h).
Proof.
  revert i h. induction fuel as [|fuel IH]; intros i h Hn Hi0 Hf Hs.
  { simpl. split_and!; try done. intros c Hc Hpc. apply parent_children in Hpc; lia. }
  cbn [down_loop]. destruct (Nat.leb_spec n (2 * i + 1)) as [Hle|Hgt].
  { split_and!; try done. intros c Hc Hpc. apply parent_children in Hpc; lia. }
  set (j := if _ && _ then _ else _).
  assert ((0 < j < n)%nat /\ parent j = i /\
    forall c, (0 < c < n)%nat -> parent c = i -> h_keys h !!! j <= h_keys h !!! c) as (Hj & Hp & Hmin).
  { subst j. destruct (Nat.ltb_spec (2 * i + 1 + 1) n) as [H2|H2]; cbn [andb].
    - rewrite h_Less_keys by lia. destruct (Z.ltb_spec (h_keys h !!! (2 * i + 1 + 1)%nat) (h_keys h !!! (2 * i + 1)%nat)).
      + split; [lia|]. split; [apply parent_children; lia|]. intros c Hc Hpc.
        apply parent_children in Hpc as [->| ->]; [lia| |lia]. by replace (2 * i + 2)%nat with (2 * i + 1 + 1)%nat by lia.
      + split; [lia|]. split; [apply parent_children; lia|]. intros c Hc Hpc.
        apply parent_children in Hpc as [->| ->]; [done| |lia]. by replace (2 * i + 2)%nat with (2 * i + 1 + 1)%nat by lia.
    - split; [lia|]. split; [apply parent_children; lia|]. intros c Hc Hpc.
      apply parent_children in Hpc as [->| ->]; [done|lia|lia]. }
  clearbody j. rewrite h_Less_keys by lia. pose proof (parent_lt j ltac:(lia)) as Hij.
  destruct (Z.ltb_spec (h_keys h !!! j) (h_keys h !!! i)) as [Hlt|Hge]; cbn [negb].
  - pose proof (down_step n i0 i j (h_keys h) ltac:(rewrite <-h_Len_keys; lia) Hi0 Hj Hp Hlt Hmin Hs) as Hs'.
    rewrite <-h_Swap_keys in Hs' by lia.
    specialize (IH j (h_Swap i j h)). rewrite Len_Swap in IH by lia. specialize (IH Hn ltac:(lia) ltac:(lia) Hs').
    destruct (down_loop fuel j n (h_Swap i j h)) as [h' i']. destruct IH as (H1 & H2 & H3 & _).
    split_and!; [lia|done|done|lia].
  - split_and!; try done. intros c Hc Hpc. specialize (Hmin c Hc Hpc). lia.
Qed.

(** The order is restored after the key at [i] has changed. *)
Lemma settle_order i n h :
  (i < n)%nat -> (n <= h_Len h)%nat ->
  (forall a, (0 < a < n)%nat -> parent a <> i -> a <> i -> h_keys h !!! parent a <= h_keys h !!! a) ->
  bridged n i (h_keys h) -> heap_order n (h_keys (settle i n h)).
Proof.
  intros Hi Hn Ho Hb. unfold settle, down.
  pose proof (down_order (S n) n i i h ltac:(done) ltac:(done) ltac:(lia)) as HD.
  destruct (down_loop (S n) i n h) as [h' i'].
  destruct HD as (Hle & [Ho' Hb' Hm] & Hc & Heq); [split; [exact Ho|done|done]|].
  assert (i' <> i -> heap_order n (h_keys h')) as Hdone.
  { intros Hne a Ha. destruct (decide (parent a = i')) as [<-|]; [by apply Hc|].
    destruct (decide (a = i')) as [->|]; [apply Hm; [done|lia]|by apply Ho']. }
  destruct (Nat.ltb_spec i i') as [Hlt|Hge]; [apply Hdone; lia|].
  assert (i' = i) as -> by lia. rewrite (Heq eq_refl) in *.
  apply up_order; [done|done|lia| |done]. intros a Ha Hne.
  destruct (decide (parent a = i)) as [E|]; [rewrite E; by apply Hc|by apply Ho'].
Qed.

(** The first element is the least. *)
Lemma heap_min n (l : list Z) i : heap_order n l -> (i < n)%nat -> l !!! 0%nat <= l !!! i.
Proof.
  intros Ho. induction i as [i IH] using lt_wf_ind. intros Hi. destruct (decide (i = 0%nat)) as [->|Hne]; [done|].
  pose proof (parent_lt i ltac:(lia)). transitivity (l !!! parent i); [apply IH; lia|apply Ho; lia].
Qed.

End Container.

(** ** heap.go *)

(** A heap item; the lease is known by its id, the only field read through the item. *)
Record heapItem := mkHI { hi_lease : Z; hi_expiry : Z; hi_index : Z }.

(** The slice of pointers and the items they point to. *)
Record leaseHeap := mkLH { arr : list nat; objs : gmap nat heapItem }.

Definition NewLeaseHeap : leaseHeap := mkLH [] ∅.

(** heap.go:15-25; [None] is the nil item. *)
Definition item_less (a : heapItem) (b : option heapItem) : Z :=
  match b with
  | None => 1
  | Some b => if hi_expiry a <? hi_expiry b then -1 else if hi_expiry b <? hi_expiry a then 1 else 0
  end.

Definition set_index (n : Z) (it : heapItem) : heapItem := mkHI (hi_lease it) (hi_expiry it) n.
Definition set_expiry (t : Z) (it : heapItem) : heapItem := mkHI (hi_lease it) t (hi_index it).

Definition Len (h : leaseHeap) : nat := length (arr h).

Definition item_at (i : nat) (h : leaseHeap) : option heapItem := l ← arr h !! i; objs h !! l.

(** The positions compared are always in range and their items present ([placed]). *)
Definition heap_Less (i j : nat) (h : leaseHeap) : bool :=
  item_less (default (mkHI 0 0 0) (item_at i h)) (Some (default (mkHI 0 0 0) (item_at j h))) <? 0.

Definition heap_Swap (i j : nat) (h : leaseHeap) : leaseHeap :=
  let a := swap_list i j (arr h) in
  mkLH a (alter (set_index (Z.of_nat j)) (a !!! j) (alter (set_index (Z.of_nat i)) (a !!! i) (objs h))).

Definition heap_push (x : nat) (h : leaseHeap) : leaseHeap :=
  mkLH (arr h ++ [x]) (alter (set_index (Z.of_nat (length (arr h)))) x (objs h)).

(** An empty heap is indexed out of range. *)
Definition heap_pop : M leaseHeap nat := fun h =>
  match last (arr h) with
  | Some x => (mkLH (take (length (arr h) - 1) (arr h)) (alter (set_index (-1)) x (objs h)), Ok x)
  | None => (h, Panicked)
  end.

Definition peekMin (h : leaseHeap) : option heapItem := item_at 0 h.

(** The expiry of a referenced item. *)
Definition expiry_of (o : gmap nat heapItem) (l : nat) : Z := from_option hi_expiry 0 (o !! l).

Definition keys_of (h : leaseHeap) : list Z := expiry_of (objs h) <$> arr h.

(** All items exist and know their place. *)
Definition placed (h : leaseHeap) : Prop :=
  NoDup (arr h) /\ forall i l, arr h !! i = Some l -> exists it, objs h !! l = Some it /\ hi_index it = Z.of_nat i.

Lemma expiry_alter_index n l o l' : expiry_of (alter (set_index n) l o) l' = expiry_of o l'.
Proof.
  unfold expiry_of. destruct (decide (l = l')) as [->|Hne].
  - rewrite lookup_alter_eq. by destruct (o !! l').
  - by rewrite lookup_alter_ne.
Qed.

Lemma swap_list_fmap {X Y} `{Inhabited X, Inhabited Y} (f : X -> Y) i j (l : list X) :
  (i < length l)%nat -> (j < length l)%nat -> f <$> swap_list i j l = swap_list i j (f <$> l).
Proof.
  intros Hi Hj. unfold swap_list. rewrite !list_fmap_insert.
  destruct (lookup_lt_is_Some_2 l i Hi) as [x Hx], (lookup_lt_is_Some_2 l j Hj) as [y Hy].
  rewrite (list_lookup_total_correct _ _ _ Hx), (list_lookup_total_correct _ _ _ Hy).
  rewrite (list_lookup_total_correct (f <$> l) i (f x)), (list_lookup_total_correct (f <$> l) j (f y)); [done|..];
    rewrite list_lookup_fmap; [by rewrite Hy|by rewrite Hx].
Qed.

Lemma keys_at i h :
  (i < Len h)%nat -> keys_of h !!! i = hi_expiry (default (mkHI 0 0 0) (item_at i h)).
Proof.
  intros Hi. unfold keys_of, item_at, expiry_of. rewrite list_lookup_total_alt, list_lookup_fmap.
  destruct (lookup_lt_is_Some_2 (arr h) i Hi) as [l ->]. simpl. by destruct (objs h !! l).
Qed.

#[export] Program Instance lease_heap_interface : HeapInterface leaseHeap := {|
  h_Len := Len; h_Less := heap_Less; h_Swap := heap_Swap; h_keys := keys_of |}.
Next Obligation. intros h. unfold Len, keys_of. by rewrite length_fmap. Qed.
Next Obligation.
  intros h i j Hi Hj. rewrite !keys_at by done. unfold heap_Less, item_less.
  destruct (Z.ltb_spec (hi_expiry (default (mkHI 0 0 0) (item_at i h))) (hi_expiry (default (mkHI 0 0 0) (item_at j h)))); [done|].
  by destruct (hi_expiry _ <? hi_expiry _).
Qed.
Next Obligation.
  intros h i j Hi Hj. unfold Len in Hi, Hj. unfold keys_of, heap_Swap. cbn [arr objs].
  rewrite <-(swap_list_fmap (expiry_of (objs h))) by assumption. apply list_fmap_ext. intros _ l _. by rewrite !expiry_alter_index.
Qed.

(** container/heap on the lease heap. The index handed to Fix and Remove is the index
    field of an item; outside the array Go panics, except for Fix at -1, which does
    nothing. *)
Definition heap_Init (h : leaseHeap) : leaseHeap :=
  foldl (fun h i => (down i (Len h) h).1) h (reverse (seq 0 (Len h / 2)%nat)).

Definition heap_Push (x : nat) (h : leaseHeap) : leaseHeap := up (length (arr h)) (heap_push x h).

Definition heap_Pop : M leaseHeap nat := fun h =>
  if (Len h =? 0)%nat then (h, Panicked)
  else let n := (Len h - 1)%nat in heap_pop (down 0 n (heap_Swap 0 n h)).1.

Definition heap_Remove (i : Z) : M leaseHeap nat := fun h =>
  if (i <? 0) || (Z.of_nat (Len h) <=? i) then (h, Panicked)
  else
    let i := Z.to_nat i in
    let n := (Len h - 1)%nat in
    heap_pop (if (n =? i)%nat then h else settle i n (heap_Swap i n h)).

Definition heap_Fix (i : Z) : M leaseHeap unit := fun h =>
  if i =? -1 then (h, Ok tt)
  else if (i <? 0) || (Z.of_nat (Len h) <=? i) then (h, Panicked)
  else (settle (Z.to_nat i) (Len h) h, Ok tt).

(** ** What the operations preserve *)

(** The contents of an item that do not depend on its place. *)
Definition item_data (o : gmap nat heapItem) (l : nat) : option (Z * Z) :=
  (fun it => (hi_lease it, hi_expiry it)) <$> o !! l.

(** The same items, possibly at other places. *)
Definition same_items (h h' : leaseHeap) : Prop :=
  arr h' ≡ₚ arr h /\ forall l, item_data (objs h') l = item_data (objs h) l.

Lemma data_alter_index n l o l' : item_data (alter (set_index n) l o) l' = item_data o l'.
Proof.
  unfold item_data. destruct (decide (l = l')) as [->|Hne].
  - rewrite lookup_alter_eq. by destruct (o !! l').
  - by rewrite lookup_alter_ne.
Qed.

Lemma swap_perm {X} `{Inhabited X} i j (l : list X) :
  (i < length l)%nat -> (j < length l)%nat -> swap_list i j l ≡ₚ l.
Proof.
  intros Hi Hj. unfold swap_list. 
  destruct (lookup_lt_is_Some_2 l i Hi) as [x Hx], (lookup_lt_is_Some_2 l j Hj) as [y Hy].
  rewrite (list_lookup_total_correct _ _ _ Hx), (list_lookup_total_correct _ _ _ Hy).
  by apply (Permutation_insert_swap l j i y x).
Qed.

Lemma swap_lookup {X} `{Inhabited X} i j k (l : list X) :
  (i < length l)%nat -> (j < length l)%nat -> (k < length l)%nat ->
  swap_list i j l !! k = Some (if decide (k = i) then l !!! j else if decide (k = j) then l !!! i else l !!! k).
Proof.
  intros Hi Hj Hk. rewrite <-(swap_at i j k l Hi Hj). apply list_lookup_lookup_total_lt. by rewrite length_swap.
Qed.

Lemma same_items_refl h : same_items h h.
Proof. done. Qed.

Lemma same_items_trans h1 h2 h3 : same_items h1 h2 -> same_items h2 h3 -> same_items h1 h3.
Proof. intros [P1 D1] [P2 D2]. split; [by rewrite P2|]. intros l. by rewrite D2. Qed.

Lemma Swap_same i j h : (i < Len h)%nat -> (j < Len h)%nat -> same_items h (heap_Swap i j h).
Proof. intros Hi Hj. split; [by apply swap_perm|]. intros l. unfold heap_Swap. cbn [objs]. by rewrite !data_alter_index. Qed.

Lemma Swap_placed i j h : (i < Len h)%nat -> (j < Len h)%nat -> placed h -> placed (heap_Swap i j h).
Proof.
  intros Hi Hj [Hnd Hp]. unfold Len in *. split; [unfold heap_Swap; cbn [arr]; by rewrite (swap_perm i j)|].
  intros k l Hk. unfold heap_Swap in *. cbn [arr objs] in *.
  assert (k < length (arr h))%nat as Hkl by (apply lookup_lt_Some in Hk; by rewrite length_swap in Hk).
  assert (forall a b, (a < length (arr h))%nat -> (b < length (arr h))%nat -> arr h !!! a = arr h !!! b -> a = b) as Hinj.
  { intros a b Ha Hb E. apply (NoDup_lookup _ a b (arr h !!! a) Hnd); [by apply list_lookup_lookup_total_lt|].
    rewrite E. by apply list_lookup_lookup_total_lt. }
  rewrite swap_lookup in Hk by done. injection Hk as <-. rewrite !swap_at by done.
  rewrite (decide_True (P := i = i)), (decide_True (P := j = j)) by done.
  set (y := if decide (j = i) then arr h !!! j else arr h !!! i).
  assert (y = arr h !!! i) as -> by (unfold y; destruct (decide (j = i)) as [->|]; done).
  assert (forall a, (a < length (arr h))%nat -> is_Some (objs h !! (arr h !!! a))) as Hin.
  { intros a Ha. destruct (Hp a (arr h !!! a)) as (it & -> & _); [by apply list_lookup_lookup_total_lt|eauto]. }
  destruct (decide (k = i)) as [->|Hki]; [|destruct (decide (k = j)) as [->|Hkj]].
  - destruct (decide (i = j)) as [->|Hij].
    + destruct (Hin j Hj) as [it E]. rewrite !lookup_alter_eq, E. by eexists.
    + rewrite lookup_alter_ne by (intros E; by apply Hij, Hinj). destruct (Hin j Hj) as [it E].
      rewrite lookup_alter_eq, E. by eexists.
  - rewrite lookup_alter_eq. destruct (decide (i = j)) as [->|Hij]; [done|].
    rewrite lookup_alter_ne by (intros E; by apply Hij, Hinj). destruct (Hin i Hi) as [it ->]. by eexists.
  - rewrite !lookup_alter_ne by (intros E; apply Hinj in E; lia).
    apply Hp. by apply list_lookup_lookup_total_lt.
Qed.

(** The heap invariant: every item knows its place and expiries never decrease downwards. *)
Definition heap_ok (h : leaseHeap) : Prop := placed h /\ heap_order (Len h) (keys_of h).

Lemma rearranged_closed m h0 : swap_closed m (fun h => placed h /\ same_items h0 h).
Proof.
  intros i k h Hm Hi Hk [Hp Hs]. simpl in Hm. split; [apply Swap_placed; [lia|lia|done]|].
  eapply same_items_trans; [exact Hs|]. apply Swap_same; lia.
Qed.

Lemma same_items_Len h h' : same_items h h' -> Len h' = Len h.
Proof. intros [P _]. unfold Len. by rewrite P. Qed.

Lemma NewLeaseHeap_ok : heap_ok NewLeaseHeap.
Proof.
  split; [split; [apply NoDup_nil_2|]|]; [intros i l; unfold NewLeaseHeap; cbn [arr]; by rewrite lookup_nil|].
  intros a Ha. unfold Len in Ha. simpl in Ha. lia.
Qed.

Lemma Push_ok x h it :
  heap_ok h -> x ∉ arr h -> objs h !! x = Some it ->
  heap_ok (heap_Push x h) /\ same_items (mkLH (arr h ++ [x]) (objs h)) (heap_Push x h).
Proof.
  intros [[Hnd Hp] Ho] Hx Hit. set (h1 := heap_push x h).
  assert (placed h1) as Hp1.
  { split; [apply NoDup_app; split_and!; [done| |apply NoDup_singleton]; by intros y Hy ->%list_elem_of_singleton|].
    intros i l Hl. unfold h1, heap_push in *. cbn [arr objs] in *. apply lookup_app_Some in Hl as [Hl|[Hge Hl]].
    - rewrite lookup_alter_ne; [by apply Hp|]. intros <-. apply Hx. by apply list_elem_of_lookup_2 in Hl.
    - apply list_lookup_singleton_Some in Hl as [Hi <-]. rewrite lookup_alter_eq, Hit. eexists. split; [done|]. simpl. lia. }
  assert (same_items (mkLH (arr h ++ [x]) (objs h)) h1) as Hs1.
  { split; [done|]. intros l. unfold h1, heap_push. cbn [objs]. by rewrite data_alter_index. }
  assert (Len h1 = S (Len h)) as Hlen by (unfold h1, heap_push, Len; simpl; rewrite length_app; simpl; lia).
  assert (forall a, (a < Len h)%nat -> keys_of h1 !!! a = keys_of h !!! a) as Hkeys.
  { intros a Ha. rewrite !keys_at by lia. unfold item_at, h1, heap_push. cbn [arr objs].
    rewrite lookup_app_l by done. destruct (lookup_lt_is_Some_2 (arr h) a Ha) as [l Hl]. rewrite Hl. simpl.
    rewrite lookup_alter_ne; [done|]. intros <-. apply Hx. by apply list_elem_of_lookup_2 in Hl. }
  unfold heap_Push, up. fold h1. change (length (arr h)) with (Len h).
  pose proof (up_loop_ind (fun h' => placed h' /\ same_items h1 h') (Len h1) (S (Len h)) (Len h) h1
    (rearranged_closed _ _) ltac:(done) ltac:(lia) (conj Hp1 (same_items_refl h1))) as [Hp' Hs'].
  split; [split|]; [done| |by eapply same_items_trans].
  rewrite (same_items_Len _ _ Hs').
  change (heap_order (Len h1) (h_keys (up_loop (S (Len h)) (Len h) h1))).
  apply up_order; [done|lia|lia| |]; change (h_keys h1) with (keys_of h1).
  - intros a Ha Hne. pose proof (parent_lt a ltac:(lia)). rewrite !Hkeys by lia. apply Ho. lia.
  - intros _ c Hc Hpc. pose proof (parent_lt c ltac:(lia)). lia.
Qed.

(** Dropping the last element of a heap that is ordered below it. *)
Lemma pop_ok n h x :
  placed h -> Len h = S n -> heap_order n (keys_of h) -> arr h !! n = Some x ->
  exists h', heap_pop h = (h', Ok x) /\ heap_ok h' /\ arr h ≡ₚ x :: arr h' /\
    forall l, item_data (objs h') l = item_data (objs h) l.
Proof.
  intros [Hnd Hp] Hn Ho Hx. unfold Len in Hn.
  assert (arr h = take n (arr h) ++ [x]) as Harr.
  { rewrite <-(take_drop n (arr h)) at 1. f_equal. rewrite (drop_S _ x n Hx). by rewrite drop_ge by lia. }
  assert (last (arr h) = Some x) as Hl by (rewrite Harr; apply last_snoc).
  unfold heap_pop. rewrite Hl. replace (length (arr h) - 1)%nat with n by lia.
  eexists. split; [done|]. rewrite Harr in Hnd. apply NoDup_app in Hnd as (Hnd & Hni & _).
  assert (forall l, l ∈ take n (arr h) -> l <> x) as Hne.
  { intros l Hl' ->. apply (Hni x Hl'). by left. }
  split; [split|split].
  - split; [done|]. cbn [arr objs]. intros i l Hi. assert (l <> x) by (apply Hne; by apply list_elem_of_lookup_2 in Hi).
    rewrite lookup_alter_ne by done. apply lookup_take_Some in Hi as [Hi _]. by apply Hp.
  - cbn [arr]. unfold Len. cbn [arr]. rewrite length_take. intros a Ha. pose proof (parent_lt a ltac:(lia)).
    assert (forall b, (b < n)%nat -> keys_of (mkLH (take n (arr h)) (alter (set_index (-1)) x (objs h))) !!! b
      = keys_of h !!! b) as Hk.
    { intros b Hb. unfold keys_of. cbn [arr objs]. rewrite !list_lookup_total_alt, !list_lookup_fmap.
      rewrite lookup_take_lt by done. destruct (arr h !! b); [|done]. simpl. by rewrite expiry_alter_index. }
    rewrite !Hk by lia. apply Ho. lia.
  - cbn [arr]. rewrite Harr at 1. by rewrite Permutation_app_comm.
  - intros l. cbn [objs]. apply data_alter_index.
Qed.

(** Exchanges below [n] leave position [n] alone. *)
Lemma untouched_closed n h0 :
  swap_closed n (fun h => (placed h /\ same_items h0 h) /\ arr h !! n = arr h0 !! n /\ Len h = Len h0).
Proof.
  intros i k h Hm Hi Hk (HP & Hn & HL). simpl in Hm. change (h_Swap i k h) with (heap_Swap i k h).
  split; [by apply (rearranged_closed n)|].
  unfold Len in *. split; [|unfold heap_Swap; cbn [arr]; by rewrite length_swap]. unfold heap_Swap. cbn [arr].
  rewrite <-Hn. unfold swap_list. by rewrite !list_lookup_insert_ne by lia.
Qed.

Lemma swap_keys i j h : (i < Len h)%nat -> (j < Len h)%nat -> keys_of (heap_Swap i j h) = swap_list i j (keys_of h).
Proof. intros Hi Hj. exact (h_Swap_keys h i j Hi Hj). Qed.

Lemma length_keys h : length (keys_of h) = Len h.
Proof. unfold keys_of. by rewrite length_fmap. Qed.

(** The keys of a heap without position [i], with the last one in its place. *)
Lemma removed_order i n h :
  heap_order (S n) (keys_of h) -> Len h = S n -> (i < n)%nat ->
  let l := keys_of (heap_Swap i n h) in
  (forall a, (0 < a < n)%nat -> parent a <> i -> a <> i -> l !!! parent a <= l !!! a) /\ bridged n i l.
Proof.
  intros Ho Hn Hi. cbv zeta. rewrite swap_keys by lia. pose proof (length_keys h) as Hl. split.
  - intros a Ha Hpa Hai. pose proof (parent_lt a ltac:(lia)). rewrite !swap_at by lia.
    rewrite !decide_False by lia. apply Ho. lia.
  - intros Hi0 c Hc Hpc. pose proof (parent_lt c ltac:(lia)). pose proof (parent_lt i ltac:(lia)).
    rewrite !swap_at by lia. rewrite !decide_False by lia.
    transitivity (keys_of h !!! i); [apply Ho; lia|]. rewrite <-Hpc. apply Ho. lia.
Qed.

Lemma Pop_ok h :
  heap_ok h -> arr h <> [] ->
  exists x h', heap_Pop h = (h', Ok x) /\ heap_ok h' /\ arr h ≡ₚ x :: arr h' /\
    (forall l, item_data (objs h') l = item_data (objs h) l) /\ arr h !! 0%nat = Some x.
Proof.
  intros [Hp Ho] Hne. assert (exists n, Len h = S n) as [n Hn].
  { unfold Len. destruct (arr h); [done|]. by eexists. }
  destruct (lookup_lt_is_Some_2 (arr h) 0%nat) as [x Hx]; [unfold Len in Hn; lia|].
  unfold heap_Pop. rewrite Hn. cbn [Nat.eqb]. replace (S n - 1)%nat with n by lia.
  set (h1 := heap_Swap 0 n h).
  assert (Len h1 = S n) as Hn1 by (unfold h1, heap_Swap, Len in *; simpl; by rewrite length_swap).
  assert (arr h1 !! n = Some x) as Hx1.
  { unfold h1, heap_Swap, Len in *. cbn [arr]. rewrite swap_lookup by lia. f_equal.
    rewrite (list_lookup_total_correct _ _ _ Hx). destruct (decide (n = 0%nat)) as [->|]; [by apply list_lookup_total_correct|].
    by rewrite decide_True. }
  pose proof (down_loop_ind _ n (S n) 0 h1 (untouched_closed n h1) ltac:(simpl; lia)
    (conj (conj (Swap_placed 0 n h ltac:(lia) ltac:(lia) Hp) (same_items_refl h1)) (conj eq_refl eq_refl)))
    as ((Hp2 & Hs2) & Hx2 & Hn2).
  assert (n <= h_Len h1)%nat as HnL by (change (h_Len h1) with (Len h1); lia).
  unfold down. pose proof (down_order (S n) n 0 0 h1 HnL ltac:(done) ltac:(lia)) as HD.
  destruct (down_loop (S n) 0 n h1) as [h2 i2]. cbn [fst] in *.
  destruct HD as (_ & [Ho' _ Hm] & Hc & _).
  { split; [|intros ?; lia|done]. change (h_keys h1) with (keys_of h1). intros a Ha Hpa Hai.
    pose proof (parent_lt a ltac:(lia)). unfold h1. rewrite swap_keys, !swap_at by (rewrite ?length_keys; lia).
    rewrite !decide_False by lia. apply Ho. lia. }
  assert (heap_order n (keys_of h2)) as Ho2.
  { intros a Ha. destruct (decide (parent a = i2)) as [<-|Hpa]; [exact (Hc a Ha eq_refl)|].
    destruct (decide (a = i2)) as [->|Hai]; [exact (Hm ltac:(lia) ltac:(lia))|exact (Ho' a Ha Hpa Hai)]. }
  destruct (pop_ok n h2 x Hp2) as (h3 & Hpop & Hok & Hperm & Hdata); [lia|done|by rewrite Hx2|].
  exists x, h3. split; [exact Hpop|]. split; [done|]. pose proof (Swap_same 0 n h ltac:(lia) ltac:(lia)) as [Q1 Q2].
  destruct Hs2 as [P1 P2]. split_and!; [|intros l; by rewrite Hdata, P2, Q2|done].
  rewrite <-Hperm, P1. unfold h1. by rewrite Q1.
Qed.

Lemma Remove_ok i x h :
  heap_ok h -> arr h !! i = Some x ->
  exists h', heap_Remove (Z.of_nat i) h = (h', Ok x) /\ heap_ok h' /\ arr h ≡ₚ x :: arr h' /\
    forall l, item_data (objs h') l = item_data (objs h) l.
Proof.
  intros [Hp Ho] Hx. pose proof (lookup_lt_Some _ _ _ Hx) as Hi. fold (Len h) in Hi.
  assert (exists n, Len h = S n) as [n Hn] by (exists (pred (Len h)); lia).
  unfold heap_Remove. rewrite (proj2 (Z.ltb_ge _ _)), (proj2 (Z.leb_gt _ _)) by lia. cbn [orb].
  rewrite Nat2Z.id, Hn. replace (S n - 1)%nat with n by lia. rewrite Hn in Ho.
  destruct (Nat.eqb_spec n i) as [->|Hne].
  - destruct (pop_ok i h x Hp Hn) as (h' & Hrun & H1 & H2 & H3); [intros a Ha; apply Ho; lia|done|]. by exists h'.
  - assert (i < n)%nat as Hin by lia. set (h1 := heap_Swap i n h).
    assert (Len h1 = S n) as Hn1 by (unfold h1, heap_Swap, Len in *; simpl; by rewrite length_swap).
    assert (arr h1 !! n = Some x) as Hx1.
    { unfold h1, heap_Swap, Len in *. cbn [arr]. rewrite swap_lookup by lia. f_equal.
      rewrite decide_False, decide_True by lia. by apply list_lookup_total_correct. }
    pose proof (settle_ind _ i n h1 (untouched_closed n h1) ltac:(simpl; lia) Hin
      (conj (conj (Swap_placed i n h ltac:(lia) ltac:(lia) Hp) (same_items_refl h1)) (conj eq_refl eq_refl)))
      as ((Hp2 & Hs2) & Hx2 & Hn2).
    destruct (removed_order i n h Ho Hn Hin) as [Ho1 Hb1]. fold h1 in Ho1, Hb1.
    assert (n <= h_Len h1)%nat as HnL by (change (h_Len h1) with (Len h1); lia).
    pose proof (settle_order i n h1 Hin HnL Ho1 Hb1) as Ho2.
    destruct (pop_ok n (settle i n h1) x Hp2) as (h3 & Hpop & Hok & Hperm & Hdata); [lia|exact Ho2|by rewrite Hx2|].
    exists h3. split; [exact Hpop|]. split; [done|]. pose proof (Swap_same i n h ltac:(lia) ltac:(lia)) as [Q1 Q2].
    destruct Hs2 as [P1 P2]. split; [|intros l; by rewrite Hdata, P2, Q2]. rewrite <-Hperm, P1. unfold h1. by rewrite Q1.
Qed.

(** Changing the expiry of an item and calling Fix at its place. *)
Lemma Fix_ok i x t h :
  heap_ok h -> arr h !! i = Some x ->
  let h1 := mkLH (arr h) (alter (set_expiry t) x (objs h)) in
  exists h', heap_Fix (Z.of_nat i) h1 = (h', Ok tt) /\ heap_ok h' /\ same_items h1 h'.
Proof.
  intros [Hp Ho] Hx h1. pose proof (lookup_lt_Some _ _ _ Hx) as Hi. fold (Len h) in Hi.
  assert (Len h1 = Len h) as Hn1 by done. unfold heap_Fix.
  rewrite (proj2 (Z.eqb_neq _ _)), (proj2 (Z.ltb_ge _ _)), (proj2 (Z.leb_gt _ _)) by lia. cbn [orb].
  rewrite Nat2Z.id. eexists. split; [done|].
  assert (placed h1) as Hp1.
  { destruct Hp as [Hnd Hp]. split; [done|]. intros j l Hj. destruct (Hp j l Hj) as (it & Hit & Hidx).
    unfold h1. cbn [objs]. destruct (decide (l = x)) as [->|Hne].
    - rewrite lookup_alter_eq, Hit. by eexists.
    - rewrite lookup_alter_ne by done. eauto. }
  assert (forall a, (a < Len h)%nat -> a <> i -> keys_of h1 !!! a = keys_of h !!! a) as Hk.
  { intros a Ha Hne. unfold keys_of, h1. cbn [arr objs]. rewrite !list_lookup_total_alt, !list_lookup_fmap.
    destruct (arr h !! a) as [l|] eqn:El; [|done]. simpl. unfold expiry_of. rewrite lookup_alter_ne; [done|].
    intros <-. apply Hne. by apply (NoDup_lookup (arr h) a i x (proj1 Hp)). }
  pose proof (settle_ind _ i (Len h1) h1 (rearranged_closed _ h1) ltac:(done) Hi (conj Hp1 (same_items_refl h1)))
    as [Hp2 Hs2].
  split; [|done]. split; [done|]. rewrite (same_items_Len _ _ Hs2).
  refine (@settle_order leaseHeap lease_heap_interface i (Len h1) h1 Hi (le_n (Len h1)) _ _); change (h_keys h1) with (keys_of h1).
  - intros a Ha Hpa Hai. pose proof (parent_lt a ltac:(lia)). rewrite !Hk by lia. by apply Ho.
  - intros Hi0 c Hc Hpc. pose proof (parent_lt c ltac:(lia)). pose proof (parent_lt i ltac:(lia)). rewrite !Hk by lia.
    transitivity (keys_of h !!! i); [apply Ho; lia|]. rewrite <-Hpc. by apply Ho.
Qed.

(** The first item of the array has the least expiry. *)
Lemma peek_least h x l :
  heap_ok h -> arr h !! 0%nat = Some x -> l ∈ arr h -> expiry_of (objs h) x <= expiry_of (objs h) l.
Proof.
  intros [Hp Ho] Hx [i Hi]%list_elem_of_lookup. pose proof (lookup_lt_Some _ _ _ Hi) as Hlt.
  pose proof (heap_min (Len h) (keys_of h) i Ho Hlt) as Hmin. unfold keys_of in Hmin.
  rewrite !list_lookup_total_alt, !list_lookup_fmap, Hx, Hi in Hmin. done.
Qed.
