(* ===== verification/Lease.v ===== *)
(** Leases and the lease manager: [internal/lease] (lease.go, bucket_key.go,
    lease_manager.go). Times are nanoseconds, durations 64-bit nanoseconds and TTLs
    seconds. The manager and the key-value store share one backend, so the operations
    act on the pair of both; every operation holds the manager's lock, hence is one
    step. Clock readings are arguments. The order in which Go visits a map is left to
    an instance of [MapOrder]. Metrics and logging are left out. *)

From S2P Require Import Prelude OrdTree KvTypes KeyIndex TreeIndex Storage Inmem Backend Mvcc MvccInv Api Heap Engine.
From Stdlib Require Import ZArith Lia.
From stdpp Require Import base gmap sets list strings sorting.
Open Scope Z_scope.

(** ** lease.go *)

Definition maxTTL : Z := 7889232.
Definition Second : Z := 1000000000.

Record Lease := mkLease {
  l_ID : Z; l_TTL : Z; remainingTTL : Z; expiry : Z; keySet : gset bytes }.

(** time.Duration arithmetic wraps, time.Time.Sub saturates. *)
Definition duration (sec : Z) : Z := i64 (Second * sec).
Definition sub_time (a b : Z) : Z := Z.max MinInt64 (Z.min MaxInt64 (a - b)).

(** int64(d.Seconds()): the float is exact enough to truncate like integer division for
    any duration up to maxTTL. *)
Definition seconds (d : Z) : Z := Z.quot d Second.

Definition newLease (id ttl now : Z) : Lease := mkLease id ttl ttl (now + duration ttl) ∅.
Definition RemainingTTL (l : Lease) : Z := remainingTTL l.
Definition RemainingSec (now : Z) (l : Lease) : Z := seconds (sub_time (expiry l) now).
Definition Update (remTTL exp : Z) (l : Lease) : Lease := mkLease (l_ID l) (l_TTL l) remTTL exp (keySet l).
Definition set_keys (ks : gset bytes) (l : Lease) : Lease :=
  mkLease (l_ID l) (l_TTL l) (remainingTTL l) (expiry l) ks.
Definition lease_AttachKey (k : bytes) (l : Lease) : Lease := set_keys ({[k]} ∪ keySet l) l.
Definition lease_DetachKey (k : bytes) (l : Lease) : Lease := set_keys (keySet l ∖ {[k]}) l.
Definition KeySet (l : Lease) : gset bytes := keySet l.

Definition EncodeLease (l : Lease) : bytes :=
  be_put 8 (u64 (l_ID l)) ++ be_put 8 (u64 (l_TTL l)) ++ be_put 8 (u64 (remainingTTL l)).

Definition DecodeLease (now : Z) (src : bytes) : res Lease :=
  if (length src <? 24)%nat then Err [ErrDecodingFailed]
  else
    let rem := i64 (be_get (take 8 (drop 16 src))) in
    Ok (mkLease (i64 (be_get (take 8 src))) (i64 (be_get (take 8 (drop 8 src)))) rem (now + duration rem) ∅).

(** bucket_key.go *)
Definition EncodeLeaseBucketKey (bk : Z) : bytes := be_put 8 (u64 bk).
Definition DecodeLeaseBucketKey (src : bytes) : res Z :=
  if (length src <? 8)%nat then Panicked else Ok (i64 (be_get (take 8 src))).

(** ** The state *)

Record LeaseManager := mkLM {
  leaseMap : gmap Z Lease;
  lm_heap : leaseHeap;
  heapMap : gmap Z nat;
  next_loc : nat }.  (* the allocator of heap items *)

Definition NewManager : LeaseManager := mkLM ∅ NewLeaseHeap ∅ 0.

Definition set_leaseMap (m : gmap Z Lease) (lm : LeaseManager) : LeaseManager :=
  mkLM m (lm_heap lm) (heapMap lm) (next_loc lm).
Definition set_heap (h : leaseHeap) (lm : LeaseManager) : LeaseManager :=
  mkLM (leaseMap lm) h (heapMap lm) (next_loc lm).
Definition set_heapMap (m : gmap Z nat) (lm : LeaseManager) : LeaseManager :=
  mkLM (leaseMap lm) (lm_heap lm) m (next_loc lm).

(** The order in which a range over a Go map visits it. *)
Class MapOrder := {
  keys_order : gset bytes -> list bytes;
  leases_order : gmap Z Lease -> list (Z * Lease);
  keys_order_perm s : keys_order s ≡ₚ elements s;
  leases_order_perm m : leases_order m ≡ₚ map_to_list m }.

#[export] Program Instance std_order : MapOrder := {|
  keys_order := elements; leases_order := map_to_list |}.
Solve Obligations with done.

Section Lease.
Context {T St B : Type} {BT : BTree Less T} {BS : ByteStore St B} {MO : MapOrder}.
Abbreviation kvs := (KvStore T St B).
Abbreviation wr := (writer T St B).
Abbreviation sys := (LeaseManager * KvStore T St B)%type.

Definition on_lm (f : LeaseManager -> LeaseManager) : M sys unit := fun st => ((f st.1, st.2), Ok tt).
Definition get_lm : M sys LeaseManager := fun st => (st, Ok st.1).
Definition on_kv {X} (m : M kvs X) : M sys X := fun st => let '(s, r) := m st.2 in ((st.1, s), r).
Definition on_heap {X} (m : M leaseHeap X) : M sys X := fun st =>
  let '(h, r) := m (lm_heap st.1) in ((set_heap h st.1, st.2), r).

(** Running a writer from NewWriter on; [k] ends with Abort or End. *)
Definition with_writer {X} (k : M wr X) : M sys X := fun st =>
  match NewWriter st.2 with
  | Ok w => let '(w', r) := k w in ((st.1, w_store w'), r)
  | Err e => (st, Err e)
  | Panicked => (st, Panicked)
  end.

(** ** Private helpers, lease_manager.go:556-714 *)

Definition unsafeSaveToLeaseMap (l : Lease) : M sys unit :=
  get_lm ≫= fun lm =>
  if bool_decide (is_Some (leaseMap lm !! l_ID l)) then fail [ErrLeaseIDConflict; ErrLease]
  else on_lm (set_leaseMap (<[l_ID l := l]> (leaseMap lm))).

Definition push_item (l : Lease) (lm : LeaseManager) : LeaseManager :=
  let x := next_loc lm in
  let h := mkLH (arr (lm_heap lm)) (<[x := mkHI (l_ID l) (expiry l) 0]> (objs (lm_heap lm))) in
  mkLM (leaseMap lm) (heap_Push x h) (<[l_ID l := x]> (heapMap lm)) (S x).

Definition unsafePushToHeap (l : Lease) : M sys unit := on_lm (push_item l).

(** The item behind a pointer of the heap map. *)
Definition item_of (x : nat) (lm : LeaseManager) : heapItem :=
  default (mkHI 0 0 0) (objs (lm_heap lm) !! x).

Definition unsafeRemoveFromHeap (id : Z) : M sys unit :=
  get_lm ≫= fun lm =>
  match heapMap lm !! id with
  | None => mret tt
  | Some x =>
      on_heap (heap_Remove (hi_index (item_of x lm))) ≫= fun _ =>
      on_lm (fun lm => set_heapMap (delete id (heapMap lm)) lm)
  end.

(** A write transaction of the backend with one write. The error branches roll back;
    after a failed commit there is no batch left to roll back. *)
Definition one_write (write : M (backend St B) unit) : M sys unit :=
  on_kv (on_backend Lock) ≫= fun _ =>
  try (on_kv (on_backend write)) ≫= fun r =>
  match r with
  | inr e => on_kv (on_backend Rollback) ≫= fun _ => fail e
  | inl _ =>
      try (on_kv (on_backend Commit)) ≫= fun r =>
      match r with
      | inr e => on_kv (on_backend Rollback) ≫= fun _ => fail e
      | inl _ => mret tt
      end
  end.

Definition unsafePersistToBackend (l : Lease) : M sys unit :=
  one_write (UnsafePut BucketLease (EncodeLeaseBucketKey (l_ID l)) (Some (EncodeLease l))).

Definition unsafeRemoveFromBackend (l : Lease) : M sys unit :=
  one_write (UnsafeDelete BucketLease (EncodeLeaseBucketKey (l_ID l))).

Definition unsafeRemoveFromLeaseMap (l : Lease) : M sys unit :=
  on_lm (fun lm => set_leaseMap (delete (l_ID l) (leaseMap lm)) lm).

Definition unsafeUpdateHeap (id t : Z) : M sys unit :=
  get_lm ≫= fun lm =>
  match heapMap lm !! id with
  | None => mret tt
  | Some x =>
      on_lm (fun lm => set_heap (mkLH (arr (lm_heap lm)) (alter (set_expiry t) x (objs (lm_heap lm)))) lm) ≫= fun _ =>
      on_heap (heap_Fix (hi_index (item_of x lm)))
  end.

Definition unsafeAttachKey (id : Z) (k : bytes) (lm : LeaseManager) : LeaseManager :=
  set_leaseMap (alter (lease_AttachKey k) id (leaseMap lm)) lm.

Definition unsafeRegrant (now id remainingTTLsec : Z) : M sys Lease :=
  if remainingTTLsec <=? 0 then fail [ErrLeaseInvalidTTL; ErrLease]
  else
    let ttl := if maxTTL <? remainingTTLsec then maxTTL else remainingTTLsec in
    if id =? 0 then fail (errMsg "tried to reegrant lease with ID = 0")
    else
      let l := newLease id ttl now in
      unsafeSaveToLeaseMap l ≫= fun _ =>
      unsafePushToHeap l ≫= fun _ =>
      unsafePersistToBackend l ≫= fun _ => mret l.

Definition nextFullRevisionOverflowing (r : Revision) : option Revision :=
  if Sub r <? MaxInt64 then Some (mkRev (Main r) (Sub r + 1))
  else if Main r <? MaxInt64 then Some (mkRev (Main r + 1) 0)
  else None.

(** ** Operations *)

Definition Grant (now id ttl : Z) : M sys Lease :=
  if id =? 0 then fail [ErrLeaseIdZero; ErrLease]
  else if ttl <=? 0 then fail [ErrLeaseInvalidTTL; ErrLease]
  else
    let ttl := if maxTTL <? ttl then maxTTL else ttl in
    let l := newLease id ttl now in
    unsafeSaveToLeaseMap l ≫= fun _ =>
    unsafePushToHeap l ≫= fun _ =>
    unsafePersistToBackend l ≫= fun _ => mret l.

(** Deleting keys in a writer: Abort on the first error. *)
Fixpoint delete_each (ks : list bytes) : M wr unit :=
  match ks with
  | [] => mret tt
  | k :: rest =>
      try (DeleteKey k) ≫= fun r =>
      match r with
      | inr e => Abort ≫= fun _ => fail e
      | inl _ => delete_each rest
      end
  end.

(** The result is (found, revoked); they are only read when there is no error. *)
Definition Revoke (id : Z) : M sys (bool * bool) :=
  get_lm ≫= fun lm =>
  match leaseMap lm !! id with
  | None => fail [ErrLeaseNotFound; ErrLease]
  | Some l =>
      let toDelete := keys_order (keySet l) in
      on_lm (fun lm => set_leaseMap (alter (set_keys ∅) id (leaseMap lm)) lm) ≫= fun _ =>
      (if (0 <? length toDelete)%nat then
         with_writer (delete_each toDelete ≫= fun _ =>
           try End_ ≫= fun r =>
           match r with
           | inr e => Abort ≫= fun _ => fail e
           | inl _ => mret tt
           end)
       else mret tt) ≫= fun _ =>
      unsafeRemoveFromLeaseMap l ≫= fun _ =>
      unsafeRemoveFromHeap (l_ID l) ≫= fun _ =>
      try (unsafeRemoveFromBackend l) ≫= fun _ =>
      mret (true, true)
  end.

(** The clock is read twice: at [now] for the expiry and at [now2] for the remainder. *)
Definition KeepAlive (now now2 id : Z) : M sys Z :=
  if id =? 0 then fail [ErrLeaseIdZero; ErrLease]
  else
    get_lm ≫= fun lm =>
    match leaseMap lm !! id with
    | None => fail [ErrLeaseNotFound; ErrLease]
    | Some l =>
        let newExpiry := now + duration (l_TTL l) in
        let remTTL := seconds (sub_time newExpiry now2) in
        let l' := Update remTTL newExpiry l in
        on_lm (fun lm => set_leaseMap (<[id := l']> (leaseMap lm)) lm) ≫= fun _ =>
        unsafeUpdateHeap id newExpiry ≫= fun _ =>
        try (unsafePersistToBackend l') ≫= fun _ =>
        mret remTTL
    end.

Definition lm_AttachKey (id : Z) (k : bytes) (lm : LeaseManager) : LeaseManager := unsafeAttachKey id k lm.
Definition lm_DetachKey (id : Z) (k : bytes) (lm : LeaseManager) : LeaseManager :=
  set_leaseMap (alter (lease_DetachKey k) id (leaseMap lm)) lm.

Definition Lookup (id : Z) (lm : LeaseManager) : res Lease :=
  match leaseMap lm !! id with None => Err [ErrLeaseNotFound; ErrLease] | Some l => Ok l end.

Definition lm_Checkpoint (now : Z) (lm : LeaseManager) : list Checkpoint :=
  omap (fun p => let rem := RemainingSec now p.2 in if rem <=? 0 then None else Some (mkCheckpoint p.1 rem))
    (leases_order (leaseMap lm)).

Fixpoint apply_checkpoints (cks : list Checkpoint) : M sys unit :=
  match cks with
  | [] => mret tt
  | ck :: rest =>
      get_lm ≫= fun lm =>
      (match leaseMap lm !! ck_LeaseID ck with
       | None => mret tt
       | Some l =>
           if ck_RemainingTTL ck <=? 0 then mret tt
           else
             let l' := Update (ck_RemainingTTL ck) (expiry l) l in
             on_lm (fun lm => set_leaseMap (<[ck_LeaseID ck := l']> (leaseMap lm)) lm) ≫= fun _ =>
             try (unsafePersistToBackend l') ≫= fun _ => mret tt
       end) ≫= fun _ => apply_checkpoints rest
  end.
Definition ApplyCheckpoint (cmd : CmdLeaseCheckpoint) : M sys unit := apply_checkpoints (Checkpoints cmd).

(** Every turn pops one item, so the length of the heap bounds the turns. *)
Fixpoint drain_loop (fuel : nat) (now : Z) (expired : list Z) : M sys (list Z) :=
  match fuel with
  | O => mret expired
  | S fuel' =>
      get_lm ≫= fun lm =>
      match peekMin (lm_heap lm) with
      | None => mret expired
      | Some min =>
          if hi_expiry min <? now then
            on_heap heap_Pop ≫= fun x =>
            get_lm ≫= fun lm =>
            let id := hi_lease (item_of x lm) in
            on_lm (fun lm => set_heapMap (delete id (heapMap lm)) lm) ≫= fun _ =>
            drain_loop fuel' now (expired ++ [id])
          else mret expired
      end
  end.
(** The leases are returned by their ids, which is all the caller reads. *)
Definition DrainExpiredLeases (now : Z) : M sys (list Z) :=
  get_lm ≫= fun lm => drain_loop (S (Len (lm_heap lm))) now [].

(** The first loop of ApplyExpired: (attached keys, lease count). *)
Fixpoint collect_expired (ids : list Z) (acc : list bytes * Z) : M sys (list bytes * Z) :=
  match ids with
  | [] => mret acc
  | id :: rest =>
      get_lm ≫= fun lm =>
      match leaseMap lm !! id with
      | None => collect_expired rest acc
      | Some l =>
          unsafeRemoveFromLeaseMap l ≫= fun _ =>
          collect_expired rest (acc.1 ++ keys_order (keySet l), acc.2 + 1)
      end
  end.

Fixpoint delete_leases (ids : list Z) : M (backend St B) unit :=
  match ids with
  | [] => mret tt
  | id :: rest => UnsafeDelete BucketLease (EncodeLeaseBucketKey id) ≫= fun _ => delete_leases rest
  end.

(** The error of End is dropped. *)
Definition ApplyExpired (cmd : CmdLeaseExpire) : M sys ResultLeaseExpire :=
  collect_expired (ExpiredIDs cmd) ([], 0) ≫= fun acc =>
  with_writer (delete_each acc.1 ≫= fun _ => try End_ ≫= fun _ => mret tt) ≫= fun _ =>
  one_write (delete_leases (ExpiredIDs cmd)) ≫= fun _ =>
  mret (mkLeaseExpireRes acc.2 (Z.of_nat (length acc.1))).

(** ** Restore, lease_manager.go:402-552 *)

Definition MAX_BATCH_SIZE : nat := 1.

(** The closure of the first scan: (leaseBatch, lastLeaseBucketKeyVisited). *)
Definition lease_scan_step (now : Z) (k : bytes) (v : value) : M (list (Z * Z) * Z) unit := fun st =>
  let '(batch, _) := st in
  if (length batch =? MAX_BATCH_SIZE)%nat then (st, Err (errMsg "batch size limit exceeded"))
  else
    match DecodeLeaseBucketKey k with
    | Ok visited =>
        match DecodeLease now (default [] v) with
        | Ok l => ((if remainingTTL l <=? 0 then batch else batch ++ [(l_ID l, remainingTTL l)], visited), Ok tt)
        | _ => ((batch, visited), Ok tt)
        end
    | _ => (st, Panicked)
    end.

(** Errors of the re-grants are only logged. *)
Fixpoint regrant_all (now : Z) (batch : list (Z * Z)) : M sys unit :=
  match batch with
  | [] => mret tt
  | (id, rem) :: rest => try (unsafeRegrant now id rem) ≫= fun _ => regrant_all now rest
  end.

Fixpoint restore_leases (fuel : nat) (now : Z) (start : option bytes) (visited : Z) : M sys unit :=
  match fuel with
  | O => fail (errMsg "out of fuel")
  | S fuel' => fun st =>
      match UnsafeScan BucketLease start None (lease_scan_step now) (kv_backend st.2) ([], visited) with
      | (_, Panicked) => (st, Panicked)
      | ((batch, visited), r) =>
          let done_ := match r with Ok _ => true | _ => visited =? MaxInt64 end in
          let start := if negb done_ && ((0 <? length batch)%nat || negb (visited =? MinInt64))
                       then Some (EncodeLeaseBucketKey (i64 (visited + 1))) else start in
          (regrant_all now batch ≫= fun _ =>
           if done_ then mret tt else restore_leases fuel' now start visited) st
      end
  end.

(** The closure of the second scan: (keysVisited, keyBatch, lastKvBucketKeyVisited). *)
Definition key_scan_step (k : bytes) (v : value) : M (nat * list (Z * bytes) * Revision) unit := fun st =>
  let '(visited, batch, _) := st in
  if (visited =? MAX_BATCH_SIZE)%nat then (st, Err (errMsg "batch size limit exceeded"))
  else
    match DecodeKvBucketKey k with
    | Ok bk =>
        if bk_Tombstone bk then ((S visited, batch, bk_Revision bk), Ok tt)
        else
          match DecodeEntry v with
          | (Some entry, None) =>
              ((S visited, if negb (LeaseID entry =? 0) then batch ++ [(LeaseID entry, Key entry)] else batch,
                bk_Revision bk), Ok tt)
          | _ => ((S visited, batch, bk_Revision bk), Ok tt)
          end
    | _ => (st, Panicked)
    end.

Definition attach_all (batch : list (Z * bytes)) (lm : LeaseManager) : LeaseManager :=
  foldl (fun lm p => unsafeAttachKey p.1 p.2 lm) lm batch.

Fixpoint restore_keys (fuel : nat) (start : option bytes) (last_ : Revision) : M sys unit :=
  match fuel with
  | O => fail (errMsg "out of fuel")
  | S fuel' => fun st =>
      match UnsafeScan BucketKV start None key_scan_step (kv_backend st.2) (O, [], last_) with
      | (_, Panicked) => (st, Panicked)
      | ((_, batch, last_), r) =>
          let done_ := match r with Ok _ => true | _ => Main last_ =? MaxInt64 end in
          if done_ then on_lm (attach_all batch) st
          else
            match nextFullRevisionOverflowing last_ with
            | None => (st, Panicked)
            | Some nextRev =>
                (lift (EncodeRevisionAsBucketKey nextRev NewRevBytes) ≫= fun start' =>
                 on_lm (attach_all batch) ≫= fun _ =>
                 restore_keys fuel' (Some start') last_) st
            end
      end
  end.

(** Each turn of a loop consumes at least one pair of the bucket. *)
Definition bucket_fuel (bucket : Bucket) (s : kvs) : nat :=
  match bs_Scan bucket (be_store (kv_backend s)) with Ok l => S (S (length l)) | _ => 2 end.

Definition lm_Restore (now : Z) : M sys unit := fun st =>
  (on_lm (fun lm => mkLM ∅ NewLeaseHeap ∅ (next_loc lm)) ≫= fun _ =>
   restore_leases (bucket_fuel BucketLease st.2) now None MinInt64 ≫= fun _ =>
   restore_keys (bucket_fuel BucketKV st.2) None rev0) st.

End Lease.

(** The manager is the engine's LeaseAttacher. *)
#[export] Instance lease_manager_attacher : LeaseAttacher LeaseManager := {
  AttachKey := lm_AttachKey; DetachKey := lm_DetachKey }.
