(* ===== verification/LeaseInv.v ===== *)
(** What the lease manager keeps and does: the expiry queue stays a heap whose items
    the heap map finds, draining returns exactly the items that are due in the order of
    their expiry, and revoking or expiring a lease deletes its keys in one revision. *)

From S2P Require Import Prelude OrdTree KvTypes KeyIndex TreeIndex Storage Inmem Backend Mvcc MvccInv Api Heap Engine Lease.
From Stdlib Require Import ZArith Lia.
From stdpp Require Import base gmap sets list strings sorting.
Open Scope Z_scope.

(** ** The invariant of the manager *)

Record lm_inv (lm : LeaseManager) : Prop := {
  li_heap : heap_ok (lm_heap lm);
  li_locs : forall x, is_Some (objs (lm_heap lm) !! x) -> (x < next_loc lm)%nat;
  li_map : forall id x, heapMap lm !! id = Some x ->
    x ∈ arr (lm_heap lm) /\ hi_lease <$> objs (lm_heap lm) !! x = Some id;
  li_ids : forall id l, leaseMap lm !! id = Some l -> l_ID l = id;
  li_exp : forall id x l, heapMap lm !! id = Some x -> leaseMap lm !! id = Some l ->
    hi_expiry <$> objs (lm_heap lm) !! x = Some (expiry l) }.

Lemma data_lease o o' x : item_data o' x = item_data o x -> hi_lease <$> o' !! x = hi_lease <$> o !! x.
Proof. unfold item_data. destruct (o !! x), (o' !! x); simpl; intros [=]; congruence. Qed.
Lemma data_expiry o o' x : item_data o' x = item_data o x -> hi_expiry <$> o' !! x = hi_expiry <$> o !! x.
Proof. unfold item_data. destruct (o !! x), (o' !! x); simpl; intros [=]; congruence. Qed.
Lemma data_is_Some o o' x : item_data o' x = item_data o x -> is_Some (o' !! x) <-> is_Some (o !! x).
Proof.
  unfold item_data. destruct (o !! x), (o' !! x); simpl; intros [=]; split; intros [? ?]; by eexists.
Qed.

Lemma NewManager_inv : lm_inv NewManager.
Proof.
  split; [apply NewLeaseHeap_ok| | | |]; unfold NewManager, NewLeaseHeap; cbn [leaseMap lm_heap heapMap objs];
    intros *; rewrite !lookup_empty; try done.
Qed.

Lemma placed_obj h x : placed h -> x ∈ arr h -> is_Some (objs h !! x).
Proof. intros [_ Hp] [i Hi]%list_elem_of_lookup. destruct (Hp i x Hi) as (it & -> & _). eauto. Qed.

(** Only the keys of the leases change. *)
Lemma inv_leases lm m :
  lm_inv lm -> (forall id l, m !! id = Some l ->
    exists l0, leaseMap lm !! id = Some l0 /\ l_ID l = l_ID l0 /\ expiry l = expiry l0) ->
  lm_inv (set_leaseMap m lm).
Proof.
  intros [H1 H2 H3 H4 H5] Hm. split; simpl; try done.
  - intros id l (l0 & Hl0 & -> & _)%Hm. by apply H4.
  - intros id x l Hx (l0 & Hl0 & _ & ->)%Hm. by eapply H5.
Qed.

Lemma inv_alter lm id f :
  lm_inv lm -> (forall l, l_ID (f l) = l_ID l /\ expiry (f l) = expiry l) ->
  lm_inv (set_leaseMap (alter f id (leaseMap lm)) lm).
Proof.
  intros H Hf. apply inv_leases; [done|]. intros id' l. rewrite lookup_alter_Some.
  intros [(-> & l0 & Hl0 & ->)|[_ Hl]]; [exists l0|exists l]; split_and!; try done; apply Hf.
Qed.

Lemma inv_delete_lease lm id : lm_inv lm -> lm_inv (set_leaseMap (delete id (leaseMap lm)) lm).
Proof.
  intros H. apply inv_leases; [done|]. intros id' l [_ Hl]%lookup_delete_Some. by exists l.
Qed.

(** Recording a new lease and queueing it. *)
Lemma inv_push lm l :
  lm_inv lm -> lm_inv (push_item l (set_leaseMap (<[l_ID l := l]> (leaseMap lm)) lm)).
Proof.
  intros [H1 H2 H3 H4 H5]. unfold push_item. cbn [leaseMap lm_heap heapMap next_loc set_leaseMap].
  set (x := next_loc lm). set (it := mkHI (l_ID l) (expiry l) 0).
  set (h := mkLH (arr (lm_heap lm)) (<[x := it]> (objs (lm_heap lm)))).
  assert (objs (lm_heap lm) !! x = None) as Hfree.
  { destruct (objs (lm_heap lm) !! x) eqn:E; [|done]. specialize (H2 x ltac:(eauto)). unfold x in *. lia. }
  assert (x ∉ arr (lm_heap lm)) as Hx.
  { intros Hin. destruct (placed_obj _ _ (proj1 H1) Hin) as [? E]. by rewrite Hfree in E. }
  assert (heap_ok h) as Hok.
  { destruct H1 as [[Hnd Hp] Ho]. split; [split; [done|]|].
    - intros i y Hy. destruct (Hp i y Hy) as (it' & Hit' & Hi). exists it'. split; [|done].
      unfold h. cbn [objs]. rewrite lookup_insert_ne; [done|]. intros <-. by rewrite Hfree in Hit'.
    - assert (keys_of h = keys_of (lm_heap lm)) as ->; [|done]. unfold keys_of, h. cbn [arr objs].
      apply list_fmap_ext. intros i y Hy. unfold expiry_of. rewrite lookup_insert_ne; [done|].
      intros <-. apply Hx. by apply list_elem_of_lookup_2 in Hy. }
  destruct (Push_ok x h it Hok Hx) as [Hok' [Hperm Hdata]]; [unfold h; cbn [objs]; apply lookup_insert_eq|].
  cbn [arr objs] in Hperm, Hdata.
  split; cbn [leaseMap lm_heap heapMap next_loc].
  - done.
  - intros y Hy. apply (data_is_Some _ _ _ (Hdata y)) in Hy. unfold h in Hy. cbn [objs] in Hy.
    destruct (decide (y = x)) as [->|Hne]; [lia|]. rewrite lookup_insert_ne in Hy by done. specialize (H2 y Hy). unfold x. lia.
  - intros id y. rewrite (data_lease _ _ _ (Hdata y)), Hperm. unfold h. cbn [arr objs]. rewrite lookup_insert_Some.
    intros [[<- <-]|[Hne Hy]].
    + rewrite lookup_insert_eq. split; [|done]. rewrite elem_of_app. right. by left.
    + destruct (H3 id y Hy) as [Ha Hb]. rewrite lookup_insert_ne by (intros <-; done).
      split; [|done]. rewrite elem_of_app. by left.
  - intros id l'. rewrite lookup_insert_Some. intros [[<- <-]|[_ Hl]]; [done|by apply H4].
  - intros id y l'. rewrite (data_expiry _ _ _ (Hdata y)). unfold h. cbn [objs]. rewrite !lookup_insert_Some.
    intros [[<- <-]|[Hne Hy]] [[Hid <-]|[Hne' Hl]]; try done.
    + by rewrite lookup_insert_eq.
    + destruct (H3 id y Hy) as [Ha _]. rewrite lookup_insert_ne by (intros <-; done). by eapply H5.
Qed.

(** Taking an item out of the queue: its id leaves the heap map. *)
Lemma inv_unqueue lm h x id :
  lm_inv lm -> heap_ok h -> arr (lm_heap lm) ≡ₚ x :: arr h ->
  (forall y, item_data (objs h) y = item_data (objs (lm_heap lm)) y) ->
  hi_lease <$> objs (lm_heap lm) !! x = Some id ->
  lm_inv (set_heapMap (delete id (heapMap lm)) (set_heap h lm)).
Proof.
  intros [H1 H2 H3 H4 H5] Hok Hperm Hdata Hid.
  split; cbn [leaseMap lm_heap heapMap next_loc set_heapMap set_heap].
  - done.
  - intros y Hy. by apply H2, (data_is_Some _ _ _ (Hdata y)).
  - intros id' y [Hne Hy]%lookup_delete_Some. destruct (H3 id' y Hy) as [Ha Hb].
    rewrite (data_lease _ _ _ (Hdata y)). split; [|done]. rewrite Hperm, elem_of_cons in Ha.
    destruct Ha as [->|Ha]; [congruence|done].
  - done.
  - intros id' y l [_ Hy]%lookup_delete_Some Hl. rewrite (data_expiry _ _ _ (Hdata y)). by eapply H5.
Qed.

(** A new expiry for a lease that is in the queue. *)
Lemma inv_refresh lm id x l t h i :
  lm_inv lm -> heapMap lm !! id = Some x -> leaseMap lm !! id = Some l ->
  arr (lm_heap lm) !! i = Some x ->
  let h1 := mkLH (arr (lm_heap lm)) (alter (set_expiry t) x (objs (lm_heap lm))) in
  heap_ok h -> same_items h1 h -> forall l', l_ID l' = id -> expiry l' = t ->
  lm_inv (set_heap h (set_leaseMap (<[id := l']> (leaseMap lm)) lm)).
Proof.
  intros [H1 H2 H3 H4 H5] Hx Hl Hi h1 Hok [Hperm Hdata] l' Hid Ht.
  assert (forall y, hi_lease <$> objs h1 !! y = hi_lease <$> objs (lm_heap lm) !! y) as Hlease.
  { intros y. unfold h1. cbn [objs]. destruct (decide (y = x)) as [->|Hne].
    - rewrite lookup_alter_eq. by destruct (objs (lm_heap lm) !! x).
    - by rewrite lookup_alter_ne. }
  split; cbn [leaseMap lm_heap heapMap next_loc set_leaseMap set_heap].
  - done.
  - intros y Hy. apply (data_is_Some _ _ _ (Hdata y)) in Hy. apply H2. unfold h1 in Hy. cbn [objs] in Hy.
    by apply lookup_alter_is_Some in Hy.
  - intros id' y Hy. destruct (H3 id' y Hy) as [Ha Hb]. rewrite (data_lease _ _ _ (Hdata y)), Hlease, Hperm. done.
  - intros id' l0. rewrite lookup_insert_Some. intros [[<- <-]|[_ Hl0]]; [done|by apply H4].
  - intros id' y l0 Hy. rewrite (data_expiry _ _ _ (Hdata y)), lookup_insert_Some. unfold h1. cbn [objs].
    intros [[<- <-]|[Hne Hl0]].
    + assert (y = x) as -> by congruence. rewrite lookup_alter_eq.
      destruct (H3 id x Hx) as [Ha _]. destruct (placed_obj _ _ (proj1 H1) Ha) as [it ->]. simpl. by rewrite Ht.
    + rewrite lookup_alter_ne; [by eapply H5|]. intros <-.
      destruct (H3 id x Hx) as [_ E1], (H3 id' x Hy) as [_ E2]. congruence.
Qed.

Section LeaseInv.
Context {T St B : Type} {BT : BTree Less T} {BS : ByteStore St B} {MO : MapOrder}.
Abbreviation kvs := (KvStore T St B).
Abbreviation wr := (writer T St B).
Abbreviation sys := (LeaseManager * KvStore T St B)%type.

(** ** Operations that keep the invariant, whatever their result *)

Definition keeps_inv {X : Type} (m : M sys X) : Prop := forall st, lm_inv st.1 -> lm_inv (m st).1.1.

Lemma keeps_inv_bind {X Y : Type} (m : M sys X) (f : X -> M sys Y) :
  keeps_inv m -> (forall x, keeps_inv (f x)) -> keeps_inv (m ≫= f).
Proof.
  intros Hm Hf st H. unfold mbind, M_bind. specialize (Hm st H).
  destruct (m st) as [st' [x|e|]]; [by apply Hf|done|done].
Qed.

Lemma keeps_inv_try {X : Type} (m : M sys X) : keeps_inv m -> keeps_inv (try m).
Proof. intros Hm st H. specialize (Hm st H). unfold try. by destruct (m st) as [st' [x|e|]]. Qed.

(** Operations on the store leave the manager alone. *)
Lemma keeps_inv_kv {X : Type} (m : M kvs X) : keeps_inv (on_kv m).
Proof. intros st H. unfold on_kv. by destruct (m st.2). Qed.

Lemma keeps_inv_writer {X : Type} (k : M wr X) : keeps_inv (with_writer k).
Proof. intros st H. unfold with_writer. destruct (NewWriter st.2) as [w| |]; [by destruct (k w)|done|done]. Qed.

Lemma keeps_inv_lm f : (forall lm, lm_inv lm -> lm_inv (f lm)) -> keeps_inv (on_lm f).
Proof. intros Hf st H. by apply Hf. Qed.

Lemma keeps_inv_ret {X : Type} (x : X) : keeps_inv (mret x).
Proof. by intros st H. Qed.
Lemma keeps_inv_fail {X : Type} e : keeps_inv (fail (A := X) e).
Proof. by intros st H. Qed.
Lemma keeps_inv_get : keeps_inv get_lm.
Proof. by intros st H. Qed.

Create HintDb lease.
Hint Resolve keeps_inv_bind keeps_inv_try keeps_inv_kv keeps_inv_writer keeps_inv_ret keeps_inv_fail
  keeps_inv_get : lease.

Lemma keeps_one_write m : keeps_inv (one_write m).
Proof.
  apply keeps_inv_bind; [auto with lease|intros _]. apply keeps_inv_bind; [auto with lease|intros [[]|e]].
  - apply keeps_inv_bind; [auto with lease|intros [?|e]]; auto with lease.
  - auto with lease.
Qed.
Hint Resolve keeps_one_write : lease.

Lemma keeps_persist l : keeps_inv (unsafePersistToBackend l).
Proof. apply keeps_one_write. Qed.
Hint Resolve keeps_persist : lease.

Lemma keeps_save_push {X : Type} l (m : M sys X) :
  keeps_inv m ->
  keeps_inv (unsafeSaveToLeaseMap l ≫= fun _ => unsafePushToHeap l ≫= fun _ => m).
Proof.
  intros Hm st H. unfold unsafeSaveToLeaseMap, unsafePushToHeap, mbind, M_bind, get_lm, on_lm.
  case_bool_decide as Hc; [done|]. cbn [fst snd]. apply Hm. simpl. by apply inv_push.
Qed.

Lemma Grant_inv now id ttl : keeps_inv (Grant now id ttl).
Proof.
  unfold Grant. destruct (id =? 0); [auto with lease|]. destruct (ttl <=? 0); [auto with lease|].
  apply keeps_save_push. auto with lease.
Qed.

Lemma Regrant_inv now id ttl : keeps_inv (unsafeRegrant now id ttl).
Proof.
  unfold unsafeRegrant. destruct (ttl <=? 0); [auto with lease|]. destruct (id =? 0); [auto with lease|].
  apply keeps_save_push. auto with lease.
Qed.

(** The item of a queued lease is where its index says. *)
Lemma queued_at lm id x :
  lm_inv lm -> heapMap lm !! id = Some x ->
  exists i, arr (lm_heap lm) !! i = Some x /\ hi_index (item_of x lm) = Z.of_nat i.
Proof.
  intros H Hx. destruct (li_map lm H id x Hx) as [[i Hi]%list_elem_of_lookup _].
  destruct (proj2 (proj1 (li_heap lm H)) i x Hi) as (it & Hit & Hidx).
  exists i. split; [done|]. unfold item_of. by rewrite Hit.
Qed.

Lemma RemoveFromHeap_inv id : keeps_inv (unsafeRemoveFromHeap id).
Proof.
  intros [lm s] H. unfold unsafeRemoveFromHeap, mbind, M_bind, get_lm. cbn [fst] in *.
  destruct (heapMap lm !! id) as [x|] eqn:Hx; [|done].
  destruct (queued_at lm id x H Hx) as (i & Hi & ->).
  destruct (Remove_ok i x (lm_heap lm) (li_heap lm H) Hi) as (h & Hrun & Hok & Hperm & Hdata).
  unfold on_heap. cbn [fst snd]. rewrite Hrun. unfold on_lm. cbn [fst snd].
  apply (inv_unqueue lm h x id H Hok Hperm Hdata). by apply (li_map lm H).
Qed.

Lemma Revoke_inv id : keeps_inv (Revoke id).
Proof.
  unfold Revoke. apply keeps_inv_bind; [auto with lease|]. intros lm.
  destruct (leaseMap lm !! id) as [l|]; [|auto with lease].
  apply keeps_inv_bind; [apply keeps_inv_lm; intros; by apply inv_alter|intros _].
  apply keeps_inv_bind; [destruct (0 <? _)%nat; auto with lease|intros _].
  apply keeps_inv_bind; [apply keeps_inv_lm; intros; by apply inv_delete_lease|intros _].
  apply keeps_inv_bind; [apply RemoveFromHeap_inv|intros _].
  apply keeps_inv_bind; [apply keeps_inv_try, keeps_one_write|auto with lease].
Qed.

(** A lease outside the queue may get any expiry. *)
Lemma inv_unqueued lm id l' :
  lm_inv lm -> heapMap lm !! id = None -> l_ID l' = id ->
  lm_inv (set_leaseMap (<[id := l']> (leaseMap lm)) lm).
Proof.
  intros [H1 H2 H3 H4 H5] Hn Hid. split; simpl; try done.
  - intros id' l. rewrite lookup_insert_Some. intros [[<- <-]|[_ Hl]]; [done|by apply H4].
  - intros id' x l Hx. rewrite lookup_insert_Some. intros [[<- <-]|[_ Hl]]; [congruence|by eapply H5].
Qed.

(** Updating a lease and its place in the queue together. *)
Lemma refresh_inv {X : Type} lm s id l l' t (m : M sys X) :
  lm_inv lm -> leaseMap lm !! id = Some l -> l_ID l' = id -> expiry l' = t -> keeps_inv m ->
  lm_inv ((on_lm (fun lm => set_leaseMap (<[id := l']> (leaseMap lm)) lm) ≫= fun _ =>
           unsafeUpdateHeap id t ≫= fun _ => m) (lm, s)).1.1.
Proof.
  intros H Hl Hid Ht Hm. set (lm1 := set_leaseMap (<[id := l']> (leaseMap lm)) lm).
  rewrite (M_bind_Ok _ _ (lm, s) (lm1, s) tt) by done.
  assert (unsafeUpdateHeap id t (lm1, s) = match heapMap lm !! id with
    | None => ((lm1, s), Ok tt)
    | Some x => on_heap (heap_Fix (hi_index (item_of x lm)))
        (set_heap (mkLH (arr (lm_heap lm)) (alter (set_expiry t) x (objs (lm_heap lm)))) lm1, s) end) as E.
  { unfold unsafeUpdateHeap. rewrite (M_bind_Ok _ _ (lm1, s) (lm1, s) lm1) by done.
    change (heapMap lm1) with (heapMap lm). by destruct (heapMap lm !! id). }
  destruct (heapMap lm !! id) as [x|] eqn:Hx.
  - destruct (queued_at lm id x H Hx) as (i & Hi & Hidx).
    destruct (Fix_ok i x t (lm_heap lm) (li_heap lm H) Hi) as (h & Hrun & Hok & Hsame).
    rewrite Hidx in E. unfold on_heap in E. cbn [fst snd lm_heap set_heap] in E. rewrite Hrun in E.
    rewrite (M_bind_Ok _ _ _ _ _ E). apply Hm. cbn [fst].
    exact (inv_refresh lm id x l t h i H Hx Hl Hi Hok Hsame l' Hid Ht).
  - rewrite (M_bind_Ok _ _ _ _ _ E). apply Hm. cbn [fst]. by apply inv_unqueued.
Qed.

Lemma KeepAlive_inv now now2 id : keeps_inv (KeepAlive now now2 id).
Proof.
  unfold KeepAlive. destruct (id =? 0); [auto with lease|]. intros [lm s] H. cbn [fst] in H.
  rewrite (M_bind_Ok _ _ (lm, s) (lm, s) lm) by done.
  destruct (leaseMap lm !! id) as [l|] eqn:Hl; [|done]. apply (refresh_inv lm s id l); [done|done| |done|].
  - exact (li_ids lm H id l Hl).
  - apply keeps_inv_bind; [auto with lease|]. intros. apply keeps_inv_ret.
Qed.

Lemma ApplyCheckpoint_inv cmd : keeps_inv (ApplyCheckpoint cmd).
Proof.
  unfold ApplyCheckpoint. induction (Checkpoints cmd) as [|ck cks IH]; [apply keeps_inv_ret|].
  cbn [apply_checkpoints]. intros [lm s] H. cbn [fst] in H.
  rewrite (M_bind_Ok _ _ (lm, s) (lm, s) lm) by done.
  destruct (leaseMap lm !! ck_LeaseID ck) as [l|] eqn:Hl; [|by apply (keeps_inv_bind _ _ (keeps_inv_ret tt) (fun _ => IH))].
  destruct (ck_RemainingTTL ck <=? 0); [by apply (keeps_inv_bind _ _ (keeps_inv_ret tt) (fun _ => IH))|].
  cbv zeta. set (l' := Update _ _ l). unfold mbind at 1 2, M_bind, on_lm. cbn [fst snd].
  apply (keeps_inv_bind _ _ (keeps_inv_bind _ _ (keeps_inv_try _ (keeps_persist l')) (fun _ => keeps_inv_ret tt)) (fun _ => IH)).
  cbn [fst]. apply inv_leases; [done|]. intros id' l0. rewrite lookup_insert_Some.
  intros [[<- <-]|[_ Hl0]]; [by exists l|by exists l0].
Qed.

(** ** Draining *)

Definition lease_of (o : gmap nat heapItem) (x : nat) : Z := from_option hi_lease 0 (o !! x).

Lemma data_lease_of o o' x : item_data o' x = item_data o x -> lease_of o' x = lease_of o x.
Proof. intros E. apply data_lease in E. unfold lease_of. by destruct (o !! x), (o' !! x); simplify_eq/=. Qed.
Lemma data_expiry_of o o' x : item_data o' x = item_data o x -> expiry_of o' x = expiry_of o x.
Proof. intros E. apply data_expiry in E. unfold expiry_of. by destruct (o !! x), (o' !! x); simplify_eq/=. Qed.

(** What a drain does: [E] are the items it takes out of the queue. *)
Record drained (now : Z) (lm lm' : LeaseManager) (E : list nat) : Prop := {
  dr_inv : lm_inv lm';
  dr_split : arr (lm_heap lm) ≡ₚ E ++ arr (lm_heap lm');
  dr_data : forall y, item_data (objs (lm_heap lm')) y = item_data (objs (lm_heap lm)) y;
  dr_due : Forall (fun x => expiry_of (objs (lm_heap lm)) x < now) E;
  dr_rest : Forall (fun x => now <= expiry_of (objs (lm_heap lm)) x) (arr (lm_heap lm'));
  dr_sorted : StronglySorted (fun x y => expiry_of (objs (lm_heap lm)) x <= expiry_of (objs (lm_heap lm)) y) E;
  dr_leases : leaseMap lm' = leaseMap lm }.

(** Taking out the first item. *)
Lemma drain_pop lm (s : kvs) x :
  lm_inv lm -> arr (lm_heap lm) !! 0%nat = Some x ->
  exists h, on_heap heap_Pop (lm, s) = ((set_heap h lm, s), Ok x) /\ heap_ok h /\
    arr (lm_heap lm) ≡ₚ x :: arr h /\
    (forall y, item_data (objs h) y = item_data (objs (lm_heap lm)) y) /\
    hi_lease (item_of x (set_heap h lm)) = lease_of (objs (lm_heap lm)) x /\
    lm_inv (set_heapMap (delete (lease_of (objs (lm_heap lm)) x) (heapMap lm)) (set_heap h lm)).
Proof.
  intros H Hx. destruct (Pop_ok (lm_heap lm) (li_heap lm H)) as (x' & h & Hrun & Hok & Hperm & Hdata & Hx');
    [by intros E; rewrite E in Hx|].
  assert (x' = x) as -> by congruence. exists h. unfold on_heap. cbn [fst snd]. rewrite Hrun.
  assert (x ∈ arr (lm_heap lm)) as Hin by (by apply list_elem_of_lookup_2 in Hx).
  destruct (placed_obj _ _ (proj1 (li_heap lm H)) Hin) as [it Hit]. split_and!; try done.
  - unfold item_of. cbn [lm_heap set_heap]. pose proof (data_lease_of _ _ x (Hdata x)) as E. unfold lease_of in *.
    rewrite <-E. by destruct (objs h !! x).
  - apply (inv_unqueue lm h x); [done..|]. unfold lease_of. by rewrite Hit.
Qed.

Lemma drain_loop_spec fuel now acc lm (s : kvs) :
  lm_inv lm -> (Len (lm_heap lm) < fuel)%nat ->
  exists lm' E, drain_loop fuel now acc (lm, s) =
      ((lm', s), Ok (acc ++ (lease_of (objs (lm_heap lm)) <$> E))) /\ drained now lm lm' E.
Proof.
  revert acc lm. induction fuel as [|fuel IH]; intros acc lm H Hf; [lia|]. cbn [drain_loop].
  rewrite (M_bind_Ok _ _ (lm, s) (lm, s) lm) by done. unfold peekMin, item_at.
  destruct (arr (lm_heap lm) !! 0%nat) as [x|] eqn:Hx.
  2:{ exists lm, []. cbn [mbind option_bind]. rewrite app_nil_r. split; [done|].
      assert (arr (lm_heap lm) = []) as E by (by destruct (arr (lm_heap lm))).
      split; [done|done|done|constructor|rewrite E; constructor|constructor|done]. }
  assert (x ∈ arr (lm_heap lm)) as Hin by (by apply list_elem_of_lookup_2 in Hx).
  destruct (placed_obj _ _ (proj1 (li_heap lm H)) Hin) as [it Hit]. cbn [mbind option_bind]. rewrite Hit.
  assert (expiry_of (objs (lm_heap lm)) x = hi_expiry it) as Hexp by (unfold expiry_of; by rewrite Hit).
  destruct (Z.ltb_spec (hi_expiry it) now) as [Hlt|Hge].
  - destruct (drain_pop lm s x H Hx) as (h & Hrun & Hok & Hperm & Hdata & Hid & Hinv).
    rewrite (M_bind_Ok _ _ _ _ _ Hrun), (M_bind_Ok _ _ (set_heap h lm, s) (set_heap h lm, s) (set_heap h lm)) by done.
    cbv zeta. rewrite Hid. set (id := lease_of (objs (lm_heap lm)) x) in *.
    set (lm1 := set_heapMap (delete id (heapMap lm)) (set_heap h lm)) in *.
    rewrite (M_bind_Ok _ _ _ (lm1, s) tt) by done.
    destruct (IH (acc ++ [id]) lm1 Hinv) as (lm' & E & Hrun' & [D1 D2 D3 D4 D5 D6 D7]).
    { unfold lm1. cbn [lm_heap set_heapMap set_heap]. unfold Len in *. apply Permutation_length in Hperm. simpl in Hperm. lia. }
    unfold lm1 in *. cbn [lm_heap set_heapMap set_heap leaseMap] in *.
    assert (forall y, expiry_of (objs h) y = expiry_of (objs (lm_heap lm)) y) as He by (intros y; by apply data_expiry_of).
    exists lm', (x :: E). split.
    + rewrite Hrun'. rewrite <-app_assoc. simpl. fold id. do 3 f_equal. f_equal. apply list_fmap_ext.
      intros _ y _. by apply data_lease_of.
    + split; [done| | | | | |done].
      * by rewrite Hperm, D2.
      * intros y. by rewrite D3, Hdata.
      * constructor; [lia|]. eapply Forall_impl; [exact D4|]. intros y. cbv beta. by rewrite He.
      * eapply Forall_impl; [exact D5|]. intros y. cbv beta. by rewrite He.
      * constructor.
        -- clear -D6 He. induction D6 as [|y l _ IHl HF]; constructor; [done|].
           eapply Forall_impl; [exact HF|]. intros z. cbv beta. by rewrite !He.
        -- apply Forall_forall. intros y Hy. apply (peek_least (lm_heap lm)); [apply H|done|].
           rewrite Hperm, D2. rewrite elem_of_cons, elem_of_app. auto.
  - exists lm, []. rewrite app_nil_r. split; [done|]. split; [done|done|done|constructor| |constructor|done].
    apply Forall_forall. intros y Hy. pose proof (peek_least (lm_heap lm) x y (li_heap lm H) Hx Hy). lia.
Qed.

Lemma Drain_spec now lm (s : kvs) :
  lm_inv lm -> exists lm' E, DrainExpiredLeases now (lm, s) =
    ((lm', s), Ok (lease_of (objs (lm_heap lm)) <$> E)) /\ drained now lm lm' E.
Proof.
  intros H. unfold DrainExpiredLeases. rewrite (M_bind_Ok _ _ (lm, s) (lm, s) lm) by done.
  exact (drain_loop_spec (S (Len (lm_heap lm))) now [] lm s H (Nat.lt_succ_diag_r _)).
Qed.

Lemma Drain_inv now : keeps_inv (DrainExpiredLeases now).
Proof. intros [lm s] H. destruct (Drain_spec now lm s H) as (lm' & E & -> & HD). apply HD. Qed.

Lemma collect_inv ids acc : keeps_inv (collect_expired ids acc).
Proof.
  revert acc. induction ids as [|id ids IH]; intros acc; [apply keeps_inv_ret|]. cbn [collect_expired].
  apply keeps_inv_bind; [auto with lease|]. intros lm. destruct (leaseMap lm !! id); [|apply IH].
  apply keeps_inv_bind; [apply keeps_inv_lm; intros; by apply inv_delete_lease|intros _; apply IH].
Qed.

Lemma ApplyExpired_inv cmd : keeps_inv (ApplyExpired cmd).
Proof.
  unfold ApplyExpired. apply keeps_inv_bind; [apply collect_inv|intros acc].
  apply keeps_inv_bind; [auto with lease|intros _]. apply keeps_inv_bind; [auto with lease|intros _]. apply keeps_inv_ret.
Qed.

Lemma attach_inv id k lm : lm_inv lm -> lm_inv (unsafeAttachKey id k lm).
Proof. intros H. by apply inv_alter. Qed.

Lemma attach_all_inv batch : keeps_inv (on_lm (attach_all batch)).
Proof.
  apply keeps_inv_lm. unfold attach_all. induction batch as [|[id k] batch IH]; intros lm H; [done|].
  apply IH, attach_inv, H.
Qed.

Lemma regrant_all_inv now batch : keeps_inv (regrant_all now batch).
Proof.
  induction batch as [|[id rem] batch IH]; [apply keeps_inv_ret|]. cbn [regrant_all].
  apply keeps_inv_bind; [apply keeps_inv_try, Regrant_inv|intros _; apply IH].
Qed.

Lemma restore_leases_inv fuel now start visited : keeps_inv (restore_leases fuel now start visited).
Proof.
  revert start visited. induction fuel as [|fuel IH]; intros start visited; [apply keeps_inv_fail|].
  intros st H. cbn [restore_leases]. destruct (UnsafeScan _ _ _ _ _ _) as [[batch v] [[]|e|]]; [| |done].
  - apply (keeps_inv_bind _ _ (regrant_all_inv now batch)); [intros _; apply keeps_inv_ret|done].
  - apply (keeps_inv_bind _ _ (regrant_all_inv now batch)); [intros _|done]. destruct (v =? MaxInt64); [apply keeps_inv_ret|apply IH].
Qed.

Lemma restore_keys_inv fuel start last_ : keeps_inv (restore_keys fuel start last_).
Proof.
  revert start last_. induction fuel as [|fuel IH]; intros start last_; [apply keeps_inv_fail|].
  intros st H. cbn [restore_keys]. destruct (UnsafeScan _ _ _ _ _ _) as [[[n batch] r] [[]|e|]]; [| |done].
  - by apply attach_all_inv.
  - destruct (Main r =? MaxInt64); [by apply attach_all_inv|].
    destruct (nextFullRevisionOverflowing r) as [nr|]; [|done].
    apply (keeps_inv_bind (lift (EncodeRevisionAsBucketKey nr NewRevBytes))); [by intros st' H'| |done].
    intros start'. apply keeps_inv_bind; [apply attach_all_inv|intros _; apply IH].
Qed.

Lemma Restore_inv now : keeps_inv (lm_Restore now).
Proof.
  intros st H. unfold lm_Restore. apply (keeps_inv_bind (on_lm _)); [| |exact H].
  - apply keeps_inv_lm. intros lm Hlm. split; cbn [leaseMap lm_heap heapMap]; [apply NewLeaseHeap_ok|..]; intros *;
      unfold NewLeaseHeap; cbn [objs]; rewrite lookup_empty; done.
  - intros _. apply keeps_inv_bind; [apply restore_leases_inv|intros _; apply restore_keys_inv].
Qed.

(** One call of an operation, with any arguments and any result; the store may change
    in between. *)
Inductive lm_step : sys -> sys -> Prop :=
  | st_Grant now id ttl st : lm_step st (Grant now id ttl st).1
  | st_Revoke id st : lm_step st (Revoke id st).1
  | st_KeepAlive now now2 id st : lm_step st (KeepAlive now now2 id st).1
  | st_Attach id k lm s : lm_step (lm, s) (lm_AttachKey id k lm, s)
  | st_Detach id k lm s : lm_step (lm, s) (lm_DetachKey id k lm, s)
  | st_Checkpoint cmd st : lm_step st (ApplyCheckpoint cmd st).1
  | st_Drain now st : lm_step st (DrainExpiredLeases now st).1
  | st_Expire cmd st : lm_step st (ApplyExpired cmd st).1
  | st_Restore now st : lm_step st (lm_Restore now st).1
  | st_Store lm s s' : lm_step (lm, s) (lm, s').

Lemma lm_step_inv st st' : lm_step st st' -> lm_inv st.1 -> lm_inv st'.1.
Proof.
  intros Hstep H. destruct Hstep.
  - by apply Grant_inv.
  - by apply Revoke_inv.
  - by apply KeepAlive_inv.
  - by apply attach_inv.
  - by apply inv_alter.
  - by apply ApplyCheckpoint_inv.
  - by apply Drain_inv.
  - by apply ApplyExpired_inv.
  - by apply Restore_inv.
  - done.
Qed.

(** C15: After any sequence of grants, revocations, keep-alives, attachments,
    checkpoints, expirations, drains and restores, with whatever results and whatever
    the store does in between, the expiry queue is a heap in which every item knows its
    position, the heap map points to queued items of the right lease, and every queued
    lease is queued with its expiry. A drain then terminates without panicking,
    returns exactly the ids of the items that expire before now, in the order of their
    expiry, and leaves the others queued. *)
Theorem lease_queue_correct (s : kvs) st now :
  rtc lm_step (NewManager, s) st ->
  lm_inv st.1 /\
  exists lm' E, DrainExpiredLeases now st = ((lm', st.2), Ok (lease_of (objs (lm_heap st.1)) <$> E)) /\
    drained now st.1 lm' E.
Proof.
  intros Hrtc. assert (lm_inv st.1) as H.
  { assert (forall a b, rtc lm_step a b -> lm_inv a.1 -> lm_inv b.1) as Hall
      by (induction 1; eauto using lm_step_inv).
    by apply (Hall _ _ Hrtc), NewManager_inv. }
  split; [done|]. destruct st as [lm s']. by apply Drain_spec.
Qed.

(** ** Revoking and expiring *)

Abbreviation live := (gmap bytes Entry).

Lemma spec_delete_one (m : live) (k : bytes) : spec_delete m k None = delete k m.
Proof.
  unfold spec_delete, range_selects. apply map_eq. intros x. destruct (decide (x = k)) as [->|Hne].
  - rewrite lookup_delete_eq. apply map_lookup_filter_None. right. intros e _. simpl. by rewrite bool_decide_eq_true_2.
  - rewrite lookup_delete_ne by done. destruct (m !! x) as [e|] eqn:E.
    + apply map_lookup_filter_Some. simpl. by rewrite bool_decide_eq_false_2.
    + apply map_lookup_filter_None. by left.
Qed.

Lemma delete_each_live (s : kvs) (ks : list bytes) (w : wr) (m : live) :
  session s w -> w_live w m -> room (length ks) w ->
  exists w', delete_each ks w = (w', Ok tt) /\ session s w' /\ w_live w' (foldl (fun m k => delete k m) m ks).
Proof.
  revert w m. induction ks as [|k ks IH]; intros w m Hse Hl Hr; [by exists w|].
  destruct (DeleteRange_live s w m k None (length ks) Hse Hl Hr) as (w1 & Hrun & Hse1 & Hr1 & Hl1 & _).
  rewrite spec_delete_one in Hl1. destruct (IH w1 _ Hse1 Hl1 Hr1) as (w' & Hrun' & Hse' & Hl').
  exists w'. split; [|done]. cbn [delete_each]. rewrite (M_bind_Ok _ _ w w1 (inl tt)); [done|].
  unfold try, DeleteKey. by rewrite Hrun.
Qed.

Lemma foldl_delete_keys (m : live) (ks : list bytes) :
  foldl (fun m k => delete k m) m ks = filter (fun p => p.1 ∉ ks) m.
Proof.
  apply map_eq. intros x. revert m. induction ks as [|k ks IH]; intros m; cbn [foldl].
  - destruct (m !! x) as [e|] eqn:E; symmetry; [apply map_lookup_filter_Some|apply map_lookup_filter_None; by left].
    split; [done|apply not_elem_of_nil].
  - rewrite IH. destruct (m !! x) as [e|] eqn:E.
    + destruct (decide (x = k)) as [->|Hne].
      * transitivity (@None Entry); [apply map_lookup_filter_None; left; by rewrite lookup_delete_eq|].
        symmetry. apply map_lookup_filter_None. right. intros e' _ Hn. apply Hn. by left.
      * destruct (decide (x ∈ ks)) as [Hin|Hni].
        -- transitivity (@None Entry); [apply map_lookup_filter_None; right; by intros e' _ Hn|].
           symmetry. apply map_lookup_filter_None. right. intros e' _ Hn. apply Hn. by right.
        -- transitivity (Some e); [apply map_lookup_filter_Some; by rewrite lookup_delete_ne|].
           symmetry. apply map_lookup_filter_Some. split; [done|]. by rewrite elem_of_cons; intros [?|?].
    + transitivity (@None Entry); [apply map_lookup_filter_None; left|symmetry; apply map_lookup_filter_None; by left].
      destruct (decide (x = k)) as [->|]; [apply lookup_delete_eq|by rewrite lookup_delete_ne].
Qed.

(** The commit of a transaction with the one write [write] on this store fails. *)
Definition write_commit_fails (write : M (backend St B) unit) (s : kvs) : Prop :=
  exists b1 b2 b3 e, Lock (kv_backend s) = (b1, Ok tt) /\ write b1 = (b2, Ok tt) /\ Commit b2 = (b3, Err e).
(** A writer of this store that deletes [ks] fails to commit, or leaves the store [s1]. *)
Definition keys_commit_fails (ks : list bytes) (s : kvs) : Prop :=
  exists w w1 w2 e, NewWriter s = Ok w /\ delete_each ks w = (w1, Ok tt) /\ End_ w1 = (w2, Err e).
Definition keys_committed (ks : list bytes) (s s1 : kvs) : Prop :=
  ks = [] /\ s1 = s \/
  exists w w1 w2, NewWriter s = Ok w /\ delete_each ks w = (w1, Ok tt) /\ End_ w1 = (w2, Ok tt) /\ s1 = w_store w2.

(** Rolling back where no batch is open panics. *)
Lemma Abort_panics (w : wr) : be_batch (kv_backend (w_store w)) = None -> (Abort w).2 = Panicked.
Proof. intros E. unfold Abort, mbind, M_bind, modify, on_store, on_backend, Rollback. kvsimpl. by rewrite E. Qed.

(** A write to another bucket keeps the key-value store. *)
Lemma other_bucket_inv (s : kvs) (b' : backend St B) (m : live) :
  kv_inv s -> kv_live s m -> be_ok b' -> be_batch b' = None ->
  kv_map (be_view b') = kv_map (be_view (kv_backend s)) -> dom (be_view b') = dom (be_view (kv_backend s)) ->
  kv_inv (set_backend b' s) /\ kv_live (set_backend b' s) m.
Proof.
  intros [H1 H2 H3 H4 H5 H6 H7 H8 H9] Hl Hok Hb Hkv Hdom. split.
  - split; kvsimpl; rewrite ?Hdom, ?Hkv; done.
  - unfold kv_live. kvsimpl. by rewrite Hkv.
Qed.

Lemma one_write_spec (write : M (backend St B) unit) (f : contents -> contents) (lm : LeaseManager) (s : kvs) (m : live) :
  kv_inv s -> kv_live s m ->
  (forall b, in_tx b -> be_store b = be_store (kv_backend s) ->
     exists b', write b = (b', Ok tt) /\ in_tx b' /\ be_store b' = be_store b /\ pending b' = f (pending b)) ->
  (forall c, kv_map (f c) = kv_map c /\ dom (f c) = dom c) ->
  (exists s', one_write write (lm, s) = ((lm, s'), Ok tt) /\ kv_inv s' /\ kv_live s' m /\
     be_view (kv_backend s') = f (be_view (kv_backend s)) /\ currentRev s' = currentRev s) \/
  ((one_write write (lm, s)).2 = Panicked /\ write_commit_fails write s).
Proof.
  intros Hs Hl Hw Hf. destruct (Lock_spec (kv_backend s) (ki_be s Hs)) as (b1 & Hlock & Htx1 & Hst1 & Hp1).
  destruct (Hw b1 Htx1 Hst1) as (b2 & Hwr & Htx2 & Hst2 & Hp2). pose proof (Commit_spec b2 Htx2) as HC.
  unfold one_write, mbind, M_bind, try, on_kv, on_backend. cbn [fst snd]. rewrite Hlock.
  cbn [fst snd kv_backend set_backend]. rewrite Hwr. cbn [fst snd kv_backend set_backend].
  destruct (Commit b2) as [b3 [info|e|]] eqn:Ec; [| |done].
  - left. destruct HC as (Hok & Hba & Hv). eexists. split; [done|].
    destruct (Hf (be_view (kv_backend s))) as [F1 F2].
    destruct (other_bucket_inv s b3 m Hs Hl Hok Hba) as [K1 K2]; [by rewrite Hv, Hp2, Hp1..|].
    split; [exact K1|]. split; [exact K2|]. kvsimpl. by rewrite Hv, Hp2, Hp1.
  - right. destruct HC as (Hok & Hba & Hv). split; [|by exists b1, b2, b3, e].
    unfold Rollback. cbn [fst snd kv_backend set_backend]. by rewrite Hba.
Qed.

(** Deleting [ks] from the store in one writer. *)
Lemma delete_commit_spec (ks : list bytes) (lm : LeaseManager) (s : kvs) (m : live) :
  kv_inv s -> Main (currentRev s) < MaxInt64 -> kv_live s m ->
  Z.of_nat (length ks) * (Z.of_nat (length (bt_Items (kvIndex s))) + Z.of_nat (length ks)) <= MaxInt64 ->
  exists w w1, NewWriter s = Ok w /\ delete_each ks w = (w1, Ok tt) /\
    match End_ w1 with
    | (w2, Ok _) => kv_inv (w_store w2) /\ kv_live (w_store w2) (filter (fun p => p.1 ∉ ks) m) /\
        Main (currentRev s) <= Main (currentRev (w_store w2)) <= Main (currentRev s) + 1 /\
        others_kept (be_view (kv_backend s)) (be_view (kv_backend (w_store w2)))
    | (w2, Err _) => be_batch (kv_backend (w_store w2)) = None
    | (_, Panicked) => False
    end.
Proof.
  intros Hs Hmax Hl Hroom. destruct (NewWriter_fresh s m Hs Hmax Hl) as (w & Hn & Hf & Hwl & _).
  cbn [fst] in Hwl.
  assert (room (length ks) w) as Hr by (by apply (fresh_room s)). destruct Hf as (Hse & _).
  destruct (delete_each_live s ks w m Hse Hwl Hr) as (w1 & Hrun & Hse1 & Hl1). exists w, w1.
  split; [done|]. split; [done|]. rewrite foldl_delete_keys in Hl1.
  pose proof (End_spec s w1 Hs Hse1 Hmax) as HE. destruct (End_ w1) as [w2 [[]|e|]]; cbv zeta in HE.
  - destruct HE as (Hinv & Hcur & _ & Hh & Hkv & Hoth). split; [done|]. split; [eapply kv_live_ext; [exact Hl1|exact Hh|done]|].
    rewrite (end_rev_main s) in Hcur by done. rewrite Hcur. split; [destruct (_ =? 0)%nat; simpl; lia|done].
  - destruct HE as (Hinv & _). apply Hinv.
  - done.
Qed.

Lemma lease_key_nonempty id : EncodeLeaseBucketKey id <> [].
Proof. intros E. apply (f_equal length) in E. unfold EncodeLeaseBucketKey in E. by rewrite length_be_put in E. Qed.

Lemma lease_del_kept (k : bytes) (c : contents) : kv_map (c_del BucketLease k c) = kv_map c /\ dom (c_del BucketLease k c) = dom c.
Proof. unfold kv_map, c_del. by rewrite lookup_alter_ne, dom_alter_L by done. Qed.

(** Removing a lease record from the backend. *)
Lemma remove_record (l : Lease) (lm : LeaseManager) (s : kvs) (m : live) :
  kv_inv s -> kv_live s m -> BucketLease ∈ dom (be_view (kv_backend s)) ->
  (exists s', unsafeRemoveFromBackend l (lm, s) = ((lm, s'), Ok tt) /\ kv_inv s' /\ kv_live s' m /\
     be_view (kv_backend s') = c_del BucketLease (EncodeLeaseBucketKey (l_ID l)) (be_view (kv_backend s)) /\
     currentRev s' = currentRev s) \/
  ((unsafeRemoveFromBackend l (lm, s)).2 = Panicked /\
   write_commit_fails (UnsafeDelete BucketLease (EncodeLeaseBucketKey (l_ID l))) s).
Proof.
  intros Hs Hl Hd. apply one_write_spec; [done|done| |].
  - intros b Htx Hst. apply UnsafeDelete_spec; [done|unfold be_view; by rewrite Hst|apply lease_key_nonempty].
  - intros c. apply lease_del_kept.
Qed.

(** Taking a lease out of the queue. *)
Lemma RemoveFromHeap_run id lm (s : kvs) :
  lm_inv lm ->
  exists lm', unsafeRemoveFromHeap id (lm, s) = ((lm', s), Ok tt) /\ leaseMap lm' = leaseMap lm /\
    heapMap lm' = delete id (heapMap lm) /\ lm_inv lm' /\
    match heapMap lm !! id with
    | Some x => arr (lm_heap lm) ≡ₚ x :: arr (lm_heap lm')
    | None => arr (lm_heap lm') = arr (lm_heap lm)
    end.
Proof.
  intros H. pose proof (RemoveFromHeap_inv id (lm, s) H) as Hinv. revert Hinv. unfold unsafeRemoveFromHeap. rewrite (M_bind_Ok _ _ (lm, s) (lm, s) lm) by done.
  destruct (heapMap lm !! id) as [x|] eqn:Hx; [|intros _; exists lm; by rewrite delete_id].
  destruct (queued_at lm id x H Hx) as (i & Hi & ->).
  destruct (Remove_ok i x (lm_heap lm) (li_heap lm H) Hi) as (h & Hrun & _ & Hperm & _).
  unfold mbind, M_bind, on_heap. cbn [fst snd]. rewrite Hrun. intros Hinv. eexists. split; [done|].
  by split_and!.
Qed.

(** The middle part of Revoke: the keys are deleted in one writer. *)
Lemma revoke_keys (ks : list bytes) (lm : LeaseManager) (s : kvs) (m : live) :
  kv_inv s -> Main (currentRev s) < MaxInt64 -> kv_live s m ->
  Z.of_nat (length ks) * (Z.of_nat (length (bt_Items (kvIndex s))) + Z.of_nat (length ks)) <= MaxInt64 ->
  let del := if (0 <? length ks)%nat then
      with_writer (delete_each ks ≫= fun _ => try End_ ≫= fun r =>
        match r with inr e => Abort ≫= fun _ => fail e | inl _ => mret tt end) else mret tt in
  (exists s', del (lm, s) = ((lm, s'), Ok tt) /\ kv_inv s' /\ kv_live s' (filter (fun p => p.1 ∉ ks) m) /\
     Main (currentRev s) <= Main (currentRev s') <= Main (currentRev s) + 1 /\
     others_kept (be_view (kv_backend s)) (be_view (kv_backend s')) /\ keys_committed ks s s') \/
  ((del (lm, s)).2 = Panicked /\ keys_commit_fails ks s).
Proof.
  intros Hs Hmax Hl Hroom. cbv zeta. destruct (Nat.ltb_spec 0 (length ks)) as [Hlt|Hge].
  2:{ left. exists s. split; [done|]. split; [done|]. destruct ks; [|simpl in Hge; lia].
      split; [by rewrite <-foldl_delete_keys|]. split; [lia|]. split; [apply others_kept_refl|]. by left. }
  destruct (delete_commit_spec ks lm s m Hs Hmax Hl Hroom) as (w & w1 & Hn & Hrun & HE).
  unfold with_writer. cbn [fst snd]. rewrite Hn, (M_bind_Ok _ _ _ _ _ Hrun).
  destruct (End_ w1) as [w2 [[]|e|]] eqn:Hend; [| |done].
  - rewrite (M_bind_Ok _ _ w1 w2 (inl tt)) by (unfold try; by rewrite Hend).
    left. exists (w_store w2). destruct HE as (E1 & E2 & E3 & E4). do 4 (split; [done|]). split; [done|]. right. by exists w, w1, w2.
  - rewrite (M_bind_Ok _ _ w1 w2 (inr e)) by (unfold try; by rewrite Hend).
    right. split; [|by exists w, w1, w2, e]. pose proof (Abort_panics w2 HE) as HP.
    apply (M_bind_Panicked _ (fun _ => fail (A := unit) e)) in HP. by destruct ((Abort ≫= _) w2) as [w3 r].
Qed.

(** C24: Revoking a lease deletes exactly the keys attached to it, all in at most one new revision, and removes the
    lease from the lease map, its item from the expiry queue and the heap map, and its record from the backend; nothing else
    changes in the key-value store, the lease map or the queue. The only other outcome is a panic, when one of the two
    commits of this very call fails: that of the writer that deletes the keys, or, after it, that of
    the transaction that deletes the record. *)
Theorem revoke_deletes_keys (id : Z) (l : Lease) (lm : LeaseManager) (s : kvs) (m : live) :
  lm_inv lm -> kv_inv s -> BucketLease ∈ dom (be_view (kv_backend s)) -> Main (currentRev s) < MaxInt64 ->
  kv_live s m -> leaseMap lm !! id = Some l ->
  Z.of_nat (size (keySet l)) * (Z.of_nat (length (bt_Items (kvIndex s))) + Z.of_nat (size (keySet l))) <= MaxInt64 ->
  (exists lm' s', Revoke id (lm, s) = ((lm', s'), Ok (true, true)) /\
     leaseMap lm' = delete id (leaseMap lm) /\ heapMap lm' = delete id (heapMap lm) /\ lm_inv lm' /\
     match heapMap lm !! id with
     | Some x => arr (lm_heap lm) ≡ₚ x :: arr (lm_heap lm')
     | None => arr (lm_heap lm') = arr (lm_heap lm)
     end /\
     kv_inv s' /\ kv_live s' (filter (fun p => p.1 ∉ keySet l) m) /\
     Main (currentRev s) <= Main (currentRev s') <= Main (currentRev s) + 1 /\
     (be_view (kv_backend s') !! BucketLease ≫= fun recs => recs !! EncodeLeaseBucketKey id) = None) \/
  ((Revoke id (lm, s)).2 = Panicked /\
   (keys_commit_fails (keys_order (keySet l)) s \/
    exists s1, keys_committed (keys_order (keySet l)) s s1 /\
      write_commit_fails (UnsafeDelete BucketLease (EncodeLeaseBucketKey id)) s1)).
Proof.
  intros Hlm Hs Hd Hmax Hl Hid Hroom. pose proof (li_ids lm Hlm id l Hid) as Hlid.
  set (ks := keys_order (keySet l)). assert (length ks = size (keySet l)) as Hlen.
  { unfold ks. by rewrite keys_order_perm. }
  unfold Revoke. rewrite (M_bind_Ok _ _ (lm, s) (lm, s) lm), Hid by done. cbv zeta. fold ks.
  set (lm1 := set_leaseMap (alter (set_keys ∅) id (leaseMap lm)) lm).
  rewrite (M_bind_Ok _ _ (lm, s) (lm1, s) tt) by done.
  destruct (revoke_keys ks lm1 s m Hs Hmax Hl) as [(s1 & Hdel & Hs1 & Hl1 & Hrev & [Hdom Hoth] & Hkc)|[Hp Hcf]]; [by rewrite Hlen| |].
  2:{ right. split; [by apply M_bind_Panicked|by left]. }
  rewrite (M_bind_Ok _ _ _ _ _ Hdel). set (lm2 := set_leaseMap (delete id (leaseMap lm1)) lm1).
  assert (lm_inv lm2) as Hlm2 by (by apply inv_delete_lease, inv_alter).
  rewrite (M_bind_Ok _ _ (lm1, s1) (lm2, s1) tt) by (unfold unsafeRemoveFromLeaseMap, on_lm; by rewrite Hlid).
  rewrite Hlid. destruct (RemoveFromHeap_run id lm2 s1 Hlm2) as (lm3 & Hrun3 & Hm3 & Hh3 & Hinv3 & Hq3).
  rewrite (M_bind_Ok _ _ _ _ _ Hrun3).
  destruct (remove_record l lm3 s1 _ Hs1 Hl1) as [(s2 & Hrun4 & Hs2 & Hl2 & Hv2 & Hcur2)|[Hp Hcf]]; [by rewrite Hdom| |].
  - left. exists lm3, s2. split; [rewrite (M_bind_Ok _ _ (lm3, s1) (lm3, s2) (inl tt)); [done|unfold try; by rewrite Hrun4]|].
    split; [rewrite Hm3; unfold lm2, lm1; cbn [leaseMap set_leaseMap]; by rewrite delete_alter_eq|].
    do 4 (split; [done|]). split; [|split; [by rewrite Hcur2|]].
    + assert (filter (fun p : bytes * Entry => p.1 ∉ keySet l) m = filter (fun p : bytes * Entry => p.1 ∉ ks) m) as ->; [|done].
      apply map_filter_ext. intros k e _. simpl. unfold ks. by rewrite keys_order_perm, elem_of_elements.
    + rewrite Hv2, Hlid. unfold c_del. rewrite lookup_alter_eq. destruct (be_view (kv_backend s1) !! BucketLease); [|done].
      simpl. apply lookup_delete_eq.
  - right. split; [by apply M_bind_Panicked, try_Panicked|]. right. exists s1. rewrite <-Hlid at 1. by rewrite Hlid in Hcf |- *.
Qed.

(** ** The remaining time of a kept-alive lease *)

Lemma duration_small ttl : 0 < ttl <= maxTTL -> duration ttl = Second * ttl.
Proof. intros H. apply i64_id. unfold in_i64, MinInt64, MaxInt64, Second, maxTTL in *. lia. Qed.

Lemma seconds_left ttl d :
  0 < ttl <= maxTTL -> 0 <= d <= Second ->
  seconds (sub_time (Second * ttl) d) = if d =? 0 then ttl else ttl - 1.
Proof.
  intros Ht Hd. unfold seconds, sub_time. rewrite Z.min_r, Z.max_r by (unfold MinInt64, MaxInt64, Second, maxTTL in *; lia).
  rewrite Z.quot_div_nonneg by (unfold Second in *; lia). symmetry.
  destruct (Z.eqb_spec d 0) as [->|Hd0].
  - apply (Z.div_unique _ _ _ 0); unfold Second; lia.
  - apply (Z.div_unique _ _ _ (Second - d)); unfold Second in *; lia.
Qed.

(** KeepAlive returns (and stores) the full TTL of the lease only when no time
    passes between its two clock readings; after any delay of up to a second the TTL it
    grants is one second less than the lease's. *)
Theorem keepalive_ttl (now now2 id : Z) (l : Lease) (lm : LeaseManager) (s : kvs) :
  id <> 0 -> leaseMap lm !! id = Some l -> 0 < l_TTL l <= maxTTL -> 0 <= now2 - now <= Second ->
  (KeepAlive now now2 id (lm, s)).2 = Ok (if now2 =? now then l_TTL l else l_TTL l - 1) \/
  (KeepAlive now now2 id (lm, s)).2 = Panicked.
Proof.
  intros Hid Hl Ht Hd. unfold KeepAlive. rewrite (proj2 (Z.eqb_neq id 0)) by done.
  rewrite (M_bind_Ok _ _ (lm, s) (lm, s) lm), Hl by done. cbv zeta.
  rewrite duration_small by done.
  assert (sub_time (now + Second * l_TTL l) now2 = sub_time (Second * l_TTL l) (now2 - now)) as -> by (unfold sub_time; f_equal; f_equal; lia).
  rewrite seconds_left by done.
  assert ((now2 - now =? 0) = (now2 =? now)) as -> by (destruct (Z.eqb_spec (now2 - now) 0), (Z.eqb_spec now2 now); lia).
  set (rem := if now2 =? now then _ else _). clearbody rem.
  rewrite (M_bind_Ok _ _ (lm, s) (set_leaseMap (<[id := Update rem (now + Second * l_TTL l) l]> (leaseMap lm)) lm, s) tt) by done.
  set (st1 := (set_leaseMap _ lm, s)).
  destruct (unsafeUpdateHeap id (now + Second * l_TTL l) st1) as [st2 [[]|e|]] eqn:E2.
  - rewrite (M_bind_Ok _ _ _ _ _ E2). destruct (unsafePersistToBackend (Update rem (now + Second * l_TTL l) l) st2)
      as [st3 [[]|e|]] eqn:E3.
    + left. by rewrite (M_bind_Ok _ _ st2 st3 (inl tt)) by (unfold try; by rewrite E3).
    + left. by rewrite (M_bind_Ok _ _ st2 st3 (inr e)) by (unfold try; by rewrite E3).
    + right. apply M_bind_Panicked, try_Panicked. by rewrite E3.
  - exfalso. unfold unsafeUpdateHeap in E2. rewrite (M_bind_Ok _ _ st1 st1 st1.1) in E2 by done.
    destruct (heapMap st1.1 !! id); [|done]. unfold mbind, M_bind, on_lm, on_heap, heap_Fix in E2.
    cbn [fst snd] in E2. by repeat case_match; simplify_eq.
  - right. apply M_bind_Panicked. by rewrite E2.
Qed.

End LeaseInv.

(** ** Concrete runs, on the in-memory store *)

Abbreviation inmem_sys := (LeaseManager * KvStore (list keyIndex) (InmemStore (list Item)) inmemBatch)%type.

Definition sys0 : inmem_sys := (NewManager, kv0).
(** A lease of one second with id 5, granted at time 0. *)
Definition sys1 : inmem_sys := (Grant 0 5 1 sys0).1.

Lemma lease_queue_correct_witness :
  lm_inv sys1.1 /\ exists lm' E, DrainExpiredLeases (2 * Second) sys1 =
    ((lm', sys1.2), Ok (lease_of (objs (lm_heap sys1.1)) <$> E)).
Proof.
  destruct (lease_queue_correct kv0 sys1 (2 * Second)) as (H1 & lm' & E & H2 & _).
  - apply rtc_once. apply st_Grant.
  - split; [exact H1|]. exists lm', E. exact H2.
Defined.

Lemma sys1_lease : exists l, leaseMap sys1.1 !! 5 = Some l /\ l_TTL l = 1 /\ keySet l = ∅.
Proof. eexists. split; [vm_compute; reflexivity|]. split; reflexivity. Qed.

Lemma keepalive_ttl_witness : 
  (KeepAlive 0 1 5 sys1).2 = Ok 0 \/ (KeepAlive 0 1 5 sys1).2 = Panicked.
Proof.
  destruct (leaseMap sys1.1 !! 5) as [l|] eqn:E; [|vm_compute in E; discriminate E].
  assert (l_TTL l = 1) as Ht by (vm_compute in E; by injection E as <-).
  pose proof (keepalive_ttl 0 1 5 l sys1.1 sys1.2 ltac:(lia) E ltac:(rewrite Ht; vm_compute; split; congruence)
    ltac:(vm_compute; split; congruence)) as H.
  rewrite Ht in H. exact H.
Defined.

(** The store after a put of key a under lease 5, with the lease manager attached. *)
Abbreviation lease_engine :=
  (Engine (list keyIndex) (InmemStore (list Item)) inmemBatch LeaseManager (list (list Entry))).
Definition put_leased (ks : list bytes) (leaseID : Z) (st : inmem_sys) : inmem_sys :=
  let e := foldl (fun (e : lease_engine) k => (ApplyWrite (put_cmd (mkPut k (Some [Byte.x01]) leaseID false false false)) e).1)
             (mkEngine st.2 st.1 []) ks in
  (e_attacher e, e_store e).

Lemma kv0_lease_bucket : BucketLease ∈ dom (be_view (kv_backend kv0)).
Proof. by apply elem_of_dom. Qed.

Definition lm5 : LeaseManager := push_item (newLease 5 1 0) (set_leaseMap {[5 := newLease 5 1 0]} NewManager).
Definition lm5k : LeaseManager := lm_AttachKey 5 k_a lm5.

Lemma lm5k_inv : lm_inv lm5k.
Proof. apply attach_inv. exact (inv_push NewManager (newLease 5 1 0) NewManager_inv). Qed.

Lemma revoke_deletes_keys_witness :
  exists lm' s', Revoke 5 (lm5k, kv0) = ((lm', s'), Ok (true, true)) /\ leaseMap lm' = delete 5 (leaseMap lm5k) /\
    heapMap lm' = delete 5 (heapMap lm5k) /\ arr (lm_heap lm5k) ≡ₚ 0%nat :: arr (lm_heap lm').
Proof.
  destruct (leaseMap lm5k !! 5) as [l|] eqn:E; [|vm_compute in E; discriminate E].
  destruct (revoke_deletes_keys 5 l lm5k kv0 ∅ lm5k_inv kv0_inv kv0_lease_bucket kv0_room kv0_live E)
    as [(lm' & s' & H1 & H2 & H3 & _ & H4 & _)|[H _]].
  - vm_compute in E. injection E as <-. vm_compute. congruence.
  - exists lm', s'. split; [exact H1|]. split; [exact H2|]. split; [exact H3|exact H4].
  - vm_compute in H. discriminate H.
Defined.

(** A node that applies an expiration it did not drain itself (a follower) keeps
    the expired lease in its queue. When the id is granted again, the stale item makes
    the next drain report the new lease, here one that lives for another 99 seconds. *)
Theorem expired_item_stays_queued :
  let st2 := (ApplyExpired (mkLeaseExpire [5]) sys1).1 in
  let st3 := (Grant (10 * Second) 5 100 st2).1 in
  (DrainExpiredLeases (11 * Second) st3).2 = Ok [5] /\
  expiry <$> leaseMap st3.1 !! 5 = Some (110 * Second).
Proof. vm_compute. split; reflexivity. Qed.

(** Visiting the keys in the opposite order. *)
Program Definition reverse_order : MapOrder := {|
  keys_order s := reverse (elements s); leases_order m := reverse (map_to_list m) |}.
Next Obligation. intros s. apply reverse_Permutation. Qed.
Next Obligation. intros m. apply reverse_Permutation. Qed.

(** Replicas that apply the same revocation of a lease with two keys may store
    different tombstones: the sub-revision of a deleted key depends on the order in
    which Go visits the key set. *)
Theorem revoke_order_diverges :
  let st := put_leased [k_a; k_b] 5 sys1 in
  let s1 := (@Revoke _ _ _ _ _ std_order 5 st).1.2 in
  let s2 := (@Revoke _ _ _ _ _ reverse_order 5 st).1.2 in
  (@Revoke _ _ _ _ _ std_order 5 st).2 = Ok (true, true) /\
  (@Revoke _ _ _ _ _ reverse_order 5 st).2 = Ok (true, true) /\
  be_view (kv_backend s1) <> be_view (kv_backend s2).
Proof.
  cbv zeta. split; [vm_compute; reflexivity|]. split; [vm_compute; reflexivity|].
  intros E. apply (f_equal (fun c => kv_map c !! bk_bytes (mkBK (mkRev 3 0) true))) in E.
  vm_compute in E. discriminate E.
Qed.
