(* ===== verification/Ot.v ===== *)
(** Oblivious transfer: [internal/ot] (token_codec.go, ot_manager.go and the receiver of
    testutil.go). The elliptic-curve group, SHA-256 and AES-GCM are library code: they
    are the class [OTCrypto] with the laws the protocol relies on. Random scalars and
    nonces and clock readings are arguments. *)

From S2P Require Import Prelude OrdTree KvTypes Storage Inmem Backend.
From Stdlib Require Import ZArith Lia.
From stdpp Require Import base gmap sets list strings.
Open Scope Z_scope.

(** circl/group, crypto/sha256, crypto/aes with crypto/cipher. [g_Mul x a] is the point
    [x] times the scalar [a]. Keys of GCM are 32 bytes, nonces 12, tags 16. *)
Class OTCrypto (Sc El : Type) := {
  g_Gen : El;
  g_MulGen : Sc -> El;
  g_Mul : El -> Sc -> El;
  g_Add : El -> El -> El;
  g_Neg : El -> El;
  g_IsIdentity : El -> bool;
  g_SetUint64 : Z -> Sc;
  sc_MarshalBinary : Sc -> bytes;
  sc_UnmarshalBinary : bytes -> option Sc;
  el_MarshalBinary : El -> bytes;
  el_UnmarshalBinary : bytes -> option El;
  sha256 : bytes -> bytes;
  aead_Seal : bytes -> bytes -> bytes -> bytes;
  aead_Open : bytes -> bytes -> bytes -> option bytes;
  g_MulGen_Gen a : g_MulGen a = g_Mul g_Gen a;
  g_Mul_Add x y a : g_Mul (g_Add x y) a = g_Add (g_Mul x a) (g_Mul y a);
  g_Mul_comm x a b : g_Mul (g_Mul x a) b = g_Mul (g_Mul x b) a;
  g_Add_Neg x y : g_Add (g_Add x y) (g_Neg y) = x;
  sc_roundtrip a : sc_UnmarshalBinary (sc_MarshalBinary a) = Some a;
  sc_length a : length (sc_MarshalBinary a) = 32%nat;
  el_roundtrip x : el_UnmarshalBinary (el_MarshalBinary x) = Some x;
  sha256_length b : length (sha256 b) = 32%nat;
  aead_roundtrip key nonce p : length key = 32%nat -> length nonce = 12%nat ->
    aead_Open key nonce (aead_Seal key nonce p) = Some p;
  aead_length key nonce p : length (aead_Seal key nonce p) = (length p + 16)%nat }.

(** ** token_codec.go *)

Definition nonceSize : nat := 12.
Definition timestampSize : nat := 8.
Definition scalarSize : nat := 32.
Definition gcmTagSize : nat := 16.
Definition TokenSize : nat := nonceSize + scalarSize + timestampSize + gcmTagSize.
Definition ClusterKeySize : nat := 32.
Definition DefaultTokenTTL : Z := 30.
Definition MinTokenTTL : Z := 15.
Definition MaxTokenTTL : Z := 60.

(** The AEAD is determined by its key. *)
Record tokenCodec := mkCodec { tc_key : bytes; tc_maxTTL : Z }.

Definition nanos : Z := 1000000000.

Definition newTokenCodec (clusterKey : bytes) (ttl : Z) : res tokenCodec :=
  if negb (length clusterKey =? ClusterKeySize)%nat
  then Err (errMsg "token_codec error: invalid cluster key size")
  else
    let ttl := if (ttl <=? 0) || (MaxTokenTTL <? ttl) then DefaultTokenTTL else ttl in
    Ok (mkCodec clusterKey (i64 (ttl * nanos))).

Section Ot.
Context {Sc El : Type} {OC : OTCrypto Sc El}.

Definition seal (tc : tokenCodec) (now : Z) (nonce scalar : bytes) : res bytes :=
  if negb (length scalar =? scalarSize)%nat then Err (errMsg "token_codec error: invalid scalar size")
  else Ok (nonce ++ aead_Seal (tc_key tc) nonce (scalar ++ be_put 8 (u64 now))).

(** time.Since saturates. *)
Definition since (now ts : Z) : Z := Z.max MinInt64 (Z.min MaxInt64 (now - ts)).

Definition open (tc : tokenCodec) (now : Z) (token : bytes) : res bytes :=
  if negb (length token =? TokenSize)%nat then Err (errMsg "token_codec error: invalid token sized")
  else
    match aead_Open (tc_key tc) (take nonceSize token) (drop nonceSize token) with
    | None => Err (errMsg "token_codec error: decrypting token failed (tampered or wrong key)")
    | Some plaintext =>
        if negb (length plaintext =? scalarSize + timestampSize)%nat
        then Err (errMsg "token_codec error: decrypting token plaintext with unexpected size")
        else
          let unixNanos := i64 (be_get (drop scalarSize plaintext)) in
          if tc_maxTTL tc <? since now unixNanos then Err (errMsg "token_codec error: token has expired")
          else Ok (take scalarSize plaintext)
    end.

(** ** ot_manager.go *)

Record OTOptions := mkOTOpts { SlotCount : Z; SlotSize : Z; TokenTTL : Z }.

Definition MinSlotCount : Z := 16.
Definition MaxSlotCount : Z := 512.
Definition MinSlotSize : Z := 32.
Definition MaxSlotSize : Z := 4096.

Definition OTOptions_Check (o : OTOptions) : option error :=
  if (SlotCount o <? MinSlotCount) || (MaxSlotCount <? SlotCount o) then Some (errMsg "invalid slot count")
  else if (SlotSize o <? MinSlotSize) || (MaxSlotSize <? SlotSize o) then Some (errMsg "invalid slot size")
  else if (TokenTTL o <? MinTokenTTL) || (MaxTokenTTL <? TokenTTL o) then Some (errMsg "invalid token ttl")
  else None.

Record OTManager := mkOT { ot_opts : OTOptions; ot_codec : option tokenCodec }.

Definition NewOTManager (opts : OTOptions) : res OTManager :=
  match OTOptions_Check opts with Some e => Err e | None => Ok (mkOT opts None) end.

Definition CheckBlob (om : OTManager) (blob : value) : option error :=
  match blob with
  | None => Some (errMsg "blob is uninitialized (nil or all zeroes)")
  | Some b =>
      if negb (Z.of_nat (length b) =? SlotCount (ot_opts om) * SlotSize (ot_opts om))
      then Some (errMsg "blob size is malformed, expected SlotCount * SlotSize")
      else if forallb (fun x => byteZ x =? 0) b
      then Some (errMsg "blob is uninitialized (nil or all zeroes)")
      else None
  end.

Definition blobToSlots (om : OTManager) (blob : value) : res (list bytes) :=
  match CheckBlob om blob with
  | Some e => Err e
  | None =>
      let b := default [] blob in
      let sz := Z.to_nat (SlotSize (ot_opts om)) in
      Ok ((fun i => take sz (drop (i * sz) b)) <$> seq 0 (Z.to_nat (SlotCount (ot_opts om))))
  end.

(** The scalar [a] and the nonce are random. *)
Definition Init (om : OTManager) (a : Sc) (nonce : bytes) (now : Z) : res (bytes * bytes) :=
  match ot_codec om with
  | None => Err (errMsg "TokenCodec not initialized")
  | Some tc =>
      match seal tc now nonce (sc_MarshalBinary a) with
      | Ok token => Ok (el_MarshalBinary (g_MulGen a), token)
      | Err e => Err e
      | Panicked => Panicked
      end
  end.

Definition sub (a b : El) : El := g_Add a (g_Neg b).

Definition encryptSlot (om : OTManager) (nonce slot key : bytes) : res bytes :=
  if negb (Z.of_nat (length slot) =? SlotSize (ot_opts om)) then Panicked
  else if negb (length key =? 32)%nat then Err (errMsg "ot error: failed to create cipher block")
  else Ok (nonce ++ aead_Seal key nonce slot).

(** The loop over the slots; [nonces] gives the random nonce of each index. *)
Fixpoint encrypt_slots (om : OTManager) (nonces : nat -> bytes) (aB T : El) (e : nat)
    (slots : list bytes) : res (list bytes) :=
  match slots with
  | [] => Ok []
  | slot :: rest =>
      let eT := g_Mul T (g_SetUint64 (Z.of_nat e)) in
      match encryptSlot om (nonces e) slot (sha256 (el_MarshalBinary (sub aB eT))) with
      | Ok ct =>
          match encrypt_slots om nonces aB T (S e) rest with
          | Ok cts => Ok (ct :: cts)
          | r => r
          end
      | Err err => Err err
      | Panicked => Panicked
      end
  end.

Section Manager.
Context {St B : Type} {BS : ByteStore St B}.
Abbreviation be := (backend St B).

Definition Transfer (om : OTManager) (nonces : nat -> bytes) (now : Z) (token pointB : bytes) (b : be)
  : res (list bytes) :=
  match ot_codec om with
  | None => Err (errMsg "TokenCodec not initialized")
  | Some tc =>
      match el_UnmarshalBinary pointB with
      | None => Err (errMsg "ot error")
      | Some pB =>
          if g_IsIdentity pB then Err (errMsg "ot error: client point cannot be the identity of the group")
          else
            open tc now token ≫= fun aBytes =>
            match sc_UnmarshalBinary aBytes with
            | None => Err (errMsg "ot error")
            | Some a =>
                let pA := g_MulGen a in
                UnsafeGet BucketOT KeyOTBlob b ≫= fun blob =>
                blobToSlots om blob ≫= fun slots =>
                encrypt_slots om nonces (g_Mul pB a) (g_Mul pA a) 0 slots
            end
      end
  end.

Abbreviation st := (OTManager * backend St B)%type.
Definition on_be {X} (m : M be X) : M st X := fun s => let '(b, r) := m s.2 in ((s.1, b), r).
Definition get_om : M st OTManager := fun s => (s, Ok s.1).
Definition set_codec (tc : tokenCodec) : M st unit := fun s =>
  ((mkOT (ot_opts s.1) (Some tc), s.2), Ok tt).
Definition ot_get (k : bytes) : M st value := fun s => (s, UnsafeGet BucketOT k s.2).

(** fmt.Errorf with the error it wraps. *)
Definition wrapping {X} (cs : error) (m : M st X) : M st X := fun s =>
  match m s with (s', Err e) => (s', Err (cs ++ e)) | r => r end.
Lemma wrapping_state {X} cs (m : M st X) s : (wrapping cs m s).1 = (m s).1.
Proof. unfold wrapping. by destruct (m s) as [s' [x|e|]]. Qed.

Definition unsafeInitTokenCodec (key : bytes) : M st unit :=
  get_om ≫= fun om =>
  wrapping [ErrMsg "init ot.tokenCodec failed"] (lift (newTokenCodec key (TokenTTL (ot_opts om)))) ≫= set_codec.

Definition ErrClusterKeyGen : cause := ErrMsg "failed to generate cluter key".

(** Put and commit in an open transaction; the error branches roll back and wrap the error. *)
Definition put_commit (put_failed commit_failed : error) (k : bytes) (v : value) : M st unit :=
  try (on_be (UnsafePut BucketOT k v)) ≫= fun r =>
  match r with
  | inr e => on_be Rollback ≫= fun _ => fail (put_failed ++ e)
  | inl _ =>
      try (on_be Commit) ≫= fun r =>
      match r with
      | inr e => on_be Rollback ≫= fun _ => fail (commit_failed ++ e)
      | inl _ => mret tt
      end
  end.

Definition ApplyWriteAll (blob : value) : M st unit :=
  get_om ≫= fun om =>
  match ot_codec om with
  | None => fail (errMsg "TokenCodec not initialized")
  | Some _ =>
      match CheckBlob om blob with
      | Some e => fail e
      | None =>
          on_be Lock ≫= fun _ =>
          put_commit [ErrMsg "failed to write blob"] [ErrMsg "failed to commit blob write"] KeyOTBlob blob
      end
  end.

(** When the codec cannot be initialised for an existing key, the transaction is left
    open. *)
Definition ApplyGenerateClusterKey (key : bytes) : M st unit :=
  on_be Lock ≫= fun _ =>
  try (ot_get KeyOTClusterKey) ≫= fun existing =>
  match existing with
  | inr e =>
      on_be Rollback ≫= fun _ => fail (ErrClusterKeyGen :: ErrMsg "failed to read previous cluster key" :: e)
  | inl (Some _) =>
      wrapping [ErrClusterKeyGen; ErrMsg "init token codec error"] (unsafeInitTokenCodec key) ≫= fun _ =>
      on_be Rollback ≫= fun _ =>
      fail [ErrClusterKeyGen; ErrMsg "cluster key already exists"]
  | inl None =>
      put_commit [ErrClusterKeyGen] [ErrClusterKeyGen] KeyOTClusterKey (Some key) ≫= fun _ =>
      wrapping [ErrClusterKeyGen; ErrMsg "init token codec error"] (unsafeInitTokenCodec key)
  end.

Definition ot_Restore : M st unit := wrapping [ErrMsg "OT restore"] (
  get_om ≫= fun om =>
  ot_get KeyOTClusterKey ≫= fun key =>
  lift (newTokenCodec (default [] key) (TokenTTL (ot_opts om))) ≫= fun tc =>
  set_codec tc ≫= fun _ =>
  ot_get KeyOTBlob ≫= fun blob =>
  match CheckBlob om blob with
  | Some e => fail e
  | None => on_be Lock ≫= fun _ => put_commit [] [] KeyOTBlob blob
  end).

End Manager.

(** ** testutil.go: the receiver *)

Definition BlindedChoice (pointA : bytes) (choice : nat) (b : Sc) : option bytes :=
  pA ← el_UnmarshalBinary pointA;
  let cA := g_Mul pA (g_SetUint64 (Z.of_nat choice)) in
  Some (el_MarshalBinary (g_Add (g_MulGen b) cA)).

(** Slicing a ciphertext shorter than a nonce panics. *)
Definition TryDecrypt (pointA : bytes) (b : Sc) (ct : bytes) : res bytes :=
  match el_UnmarshalBinary pointA with
  | None => Err (errMsg "invalid point")
  | Some pA =>
      let hashedKey := sha256 (el_MarshalBinary (g_Mul pA b)) in
      if negb (length hashedKey =? 32)%nat then Err (errMsg "hashed key size mismatch")
      else if (length ct <? 12)%nat then Panicked
      else
        match aead_Open hashedKey (take 12 ct) (drop 12 ct) with
        | Some plaintext => Ok plaintext
        | None => Err (errMsg "decrypt failed")
        end
  end.

(** ** Lemmas *)

Lemma open_seal tc now now' nonce scalar :
  length (tc_key tc) = 32%nat -> length nonce = 12%nat -> length scalar = 32%nat -> in_i64 now ->
  exists token, seal tc now nonce scalar = Ok token /\ length token = TokenSize /\
    open tc now' token =
      (if tc_maxTTL tc <? since now' now then Err (errMsg "token_codec error: token has expired")
       else Ok scalar).
Proof.
  intros Hk Hn Hs Hnow. unfold seal, open. rewrite Hs. cbn [Nat.eqb scalarSize negb].
  eexists. split; [reflexivity|].
  rewrite length_app, aead_length, length_app, length_be_put, Hn, Hs.
  split; [reflexivity|]. cbn -[take drop be_put since].
  rewrite take_app_length', drop_app_length' by done. rewrite aead_roundtrip by done.
  rewrite length_app, length_be_put, Hs. cbn -[take drop be_put since].
  rewrite take_app_length', drop_app_length' by done.
  rewrite be_get_put. change (u64 now mod _) with (u64 (u64 now)).
  by rewrite !i64_u64, i64_id.
Qed.

Lemma encrypt_slots_spec om nonces aB T e slots :
  Forall (fun s => Z.of_nat (length s) = SlotSize (ot_opts om)) slots ->
  exists cts, encrypt_slots om nonces aB T e slots = Ok cts /\ length cts = length slots /\
    forall i slot, slots !! i = Some slot ->
      cts !! i = Some (nonces (e + i)%nat ++
        aead_Seal (sha256 (el_MarshalBinary (sub aB (g_Mul T (g_SetUint64 (Z.of_nat (e + i)))))))
          (nonces (e + i)%nat) slot).
Proof.
  intros H. revert e. induction H as [|s slots Hs _ IH]; intros e.
  - exists []. split_and!; [done..|]. intros i slot [=].
  - destruct (IH (S e)) as (cts & Hr & Hl & Hi). cbn [encrypt_slots]. unfold encryptSlot.
    rewrite Hs, Z.eqb_refl, sha256_length. cbn [negb Nat.eqb]. rewrite Hr.
    eexists. split; [reflexivity|]. split; [cbn [length]; by f_equal|].
    intros [|i] slot; cbn [lookup list_lookup].
    + intros [= <-]. by rewrite Nat.add_0_r.
    + intros Hsl. specialize (Hi i slot Hsl). replace (e + S i)%nat with (S e + i)%nat by lia. done.
Qed.

Lemma blobToSlots_spec om blob :
  OTOptions_Check (ot_opts om) = None -> CheckBlob om (Some blob) = None ->
  let sz := Z.to_nat (SlotSize (ot_opts om)) in
  exists slots, blobToSlots om (Some blob) = Ok slots /\
    length slots = Z.to_nat (SlotCount (ot_opts om)) /\
    Forall (fun s => Z.of_nat (length s) = SlotSize (ot_opts om)) slots /\
    forall c, (c < Z.to_nat (SlotCount (ot_opts om)))%nat ->
      slots !! c = Some (take sz (drop (c * sz) blob)).
Proof.
  intros Hopt Hck sz. unfold blobToSlots. rewrite Hck. eexists. split; [reflexivity|].
  unfold OTOptions_Check, MinSlotCount, MinSlotSize in Hopt.
  unfold CheckBlob in Hck.
  destruct (Z.eqb_spec (Z.of_nat (length blob)) (SlotCount (ot_opts om) * SlotSize (ot_opts om)))
    as [Elen|]; [|done]. clear Hck.
  destruct (SlotCount (ot_opts om) <? 16) eqn:E1; [done|].
  destruct (MaxSlotCount <? SlotCount (ot_opts om)); [done|].
  destruct (SlotSize (ot_opts om) <? 32) eqn:E2; [done|]. clear Hopt.
  split_and!.
  - by rewrite length_fmap, length_seq.
  - apply Forall_fmap, Forall_forall. intros i [_ Hi]%elem_of_seq. cbn [compose default].
    rewrite length_take, length_drop. fold sz.
    assert (i * sz + sz <= length blob)%nat.
    { assert (length blob = Z.to_nat (SlotCount (ot_opts om)) * sz)%nat as -> by (subst sz; lia). nia. }
    unfold id. lia.
  - intros c Hc. rewrite list_lookup_fmap, lookup_seq_lt by done. reflexivity.
Qed.

(** The key of the receiver is the key of the chosen slot. *)
Lemma chosen_key a b c :
  sub (g_Mul (g_Add (g_MulGen b) (g_Mul (g_MulGen a) c)) a) (g_Mul (g_Mul (g_MulGen a) a) c) =
  g_Mul (g_MulGen a) b.
Proof.
  unfold sub. rewrite g_Mul_Add, (g_Mul_comm (g_MulGen a) c a), g_Add_Neg, !g_MulGen_Gen.
  apply g_Mul_comm.
Qed.

(** ** Properties *)

Section Protocol.
Context {St B : Type} {BS : ByteStore St B}.

(** C27: The transfer is correct for the chosen slot: a receiver that takes the point and
    token of Init and blinds its choice [c] gets one ciphertext per slot, and
    decrypting the one at [c] yields slot [c] of the stored blob, as long as the token
    is not older than the codec's TTL; with an older token Transfer reports expiry. *)
Theorem ot_transfer_correct (om : OTManager) (tc : tokenCodec) (be : backend St B)
    (m : gmap bytes value) (blob nonce : bytes) (nonces : nat -> bytes)
    (a b : Sc) (t0 t1 : Z) (c : nat) :
  OTOptions_Check (ot_opts om) = None -> ot_codec om = Some tc -> length (tc_key tc) = 32%nat ->
  be_ok be -> be_view be !! BucketOT = Some m -> m !! KeyOTBlob = Some (Some blob) ->
  CheckBlob om (Some blob) = None ->
  length nonce = 12%nat -> (forall i, length (nonces i) = 12%nat) -> in_i64 t0 ->
  (c < Z.to_nat (SlotCount (ot_opts om)))%nat ->
  g_IsIdentity (g_Add (g_MulGen b) (g_Mul (g_MulGen a) (g_SetUint64 (Z.of_nat c)))) = false ->
  exists pointA token pointB,
    Init om a nonce t0 = Ok (pointA, token) /\ BlindedChoice pointA c b = Some pointB /\
    (tc_maxTTL tc < since t1 t0 ->
      Transfer om nonces t1 token pointB be = Err (errMsg "token_codec error: token has expired")) /\
    (since t1 t0 <= tc_maxTTL tc ->
      exists cts ct, Transfer om nonces t1 token pointB be = Ok cts /\
        Z.of_nat (length cts) = SlotCount (ot_opts om) /\ cts !! c = Some ct /\
        TryDecrypt pointA b ct =
          Ok (let sz := Z.to_nat (SlotSize (ot_opts om)) in take sz (drop (c * sz) blob))).
Proof.
  intros Hopt Hcodec Hkey Hok Hm Hblob Hck Hnonce Hnonces Ht0 Hc Hid.
  destruct (open_seal tc t0 t1 nonce (sc_MarshalBinary a)) as (token & Hseal & _ & Hopen);
    [done|done|apply sc_length|done|].
  exists (el_MarshalBinary (g_MulGen a)), token. eexists.
  unfold Init, BlindedChoice. rewrite Hcodec, Hseal, el_roundtrip. cbn [mbind option_bind].
  split; [done|]. split; [reflexivity|].
  unfold Transfer. rewrite Hcodec, el_roundtrip, Hid, Hopen. split.
  { intros Hlt. by rewrite (proj2 (Z.ltb_lt _ _) Hlt). }
  intros Hle. rewrite (proj2 (Z.ltb_ge _ _) Hle). cbn [mbind res_bind].
  rewrite sc_roundtrip, (UnsafeGet_spec _ _ _ m Hok Hm), Hblob. cbn [mjoin option_join mbind res_bind].
  destruct (blobToSlots_spec om blob Hopt Hck) as (slots & -> & Hlen & Hsz & Hslot).
  cbn [mbind res_bind].
  destruct (encrypt_slots_spec om nonces
    (g_Mul (g_Add (g_MulGen b) (g_Mul (g_MulGen a) (g_SetUint64 (Z.of_nat c)))) a)
    (g_Mul (g_MulGen a) a) 0 slots Hsz) as (cts & -> & Hlc & Hct).
  specialize (Hct c _ (Hslot c Hc)). cbn [Nat.add] in Hct. rewrite chosen_key in Hct.
  exists cts. eexists. split; [reflexivity|]. split; [lia|]. split; [exact Hct|].
  unfold TryDecrypt. rewrite el_roundtrip, sha256_length. cbn [Nat.eqb negb].
  rewrite length_app, Hnonces. cbn [Nat.ltb Nat.leb Nat.add].
  rewrite take_app_length', drop_app_length' by done.
  by rewrite aead_roundtrip by (done || apply sha256_length).
Qed.

(** When a cluster key is already stored, generating another one reports an error and
    leaves the stored key, yet the manager's codec now uses the new key: tokens sealed
    by members that hold the stored key no longer open here. *)
Theorem ot_second_key (om : OTManager) (be : backend St B) (m : gmap bytes value)
    (old new : bytes) :
  be_ok be -> be_view be !! BucketOT = Some m -> m !! KeyOTClusterKey = Some (Some old) ->
  length new = 32%nat ->
  exists om' be', ApplyGenerateClusterKey new (om, be) = ((om', be'),
      Err [ErrClusterKeyGen; ErrMsg "cluster key already exists"]) /\
    be_view be' = be_view be /\
    option_map tc_key (ot_codec om') = Some new.
Proof.
  intros Hok Hm Hold Hnew. unfold ApplyGenerateClusterKey.
  destruct (Lock_spec be Hok) as (b1 & HL & Htx & Hst & Hp).
  destruct (Rollback_spec b1 Htx) as (b2 & HR & Hst2 & _).
  assert (be_view b1 = be_view be) as Hv by (unfold be_view; by rewrite Hst).
  assert (UnsafeGet BucketOT KeyOTClusterKey b1 = Ok (Some old)) as HG.
  { rewrite (UnsafeGet_spec _ _ b1 m); [by rewrite Hold|unfold be_ok; by rewrite Hst|by rewrite Hv]. }
  unfold wrapping, unsafeInitTokenCodec, wrapping, newTokenCodec, mbind, M_bind, on_be, try, ot_get, get_om, lift,
    set_codec, fail.
  cbn [snd fst]. rewrite HL. cbn [snd fst]. rewrite HG. cbn [snd fst]. rewrite Hnew.
  cbn [Nat.eqb ClusterKeySize negb]. cbn [snd fst]. rewrite HR.
  eexists _, _. split; [reflexivity|]. split; [|done].
  unfold be_view. by rewrite Hst2, Hst.
Qed.

(** Restoring the OT manager fails on a store that holds no blob (whatever the
    cluster key): the error is the codec's or that the blob is uninitialised. *)
Theorem ot_restore_needs_blob (om : OTManager) (be : backend St B) (m : gmap bytes value) :
  be_ok be -> be_view be !! BucketOT = Some m -> m !! KeyOTBlob = None ->
  exists om', ot_Restore (om, be) = ((om', be), Err (ErrMsg "OT restore" :: errMsg "blob is uninitialized (nil or all zeroes)")) \/
    ot_Restore (om, be) = ((om', be), Err (ErrMsg "OT restore" :: errMsg "token_codec error: invalid cluster key size")).
Proof.
  intros Hok Hm Hb. unfold ot_Restore, wrapping, newTokenCodec, mbind, M_bind, get_om, ot_get, lift, set_codec, fail.
  cbn [fst snd]. rewrite (UnsafeGet_spec _ _ be m Hok Hm).
  destruct (negb (length (default [] (mjoin (m !! KeyOTClusterKey))) =? ClusterKeySize)%nat); [eauto|].
  cbn [fst snd]. rewrite (UnsafeGet_spec _ _ be m Hok Hm), Hb. simpl. eauto.
Qed.

End Protocol.
End Ot.

(** ** Witnesses *)

(** A toy instance of the laws: the two-element group, and a cipher that appends a tag. *)
Definition toy_unmarshal (b : bytes) : option bool :=
  match b with x :: _ => Some (bool_decide (x = Byte.x01)) | [] => None end.

#[local] Obligation Tactic := idtac.
#[export] Program Instance toy_crypto : OTCrypto bool bool := {|
  g_Gen := true;
  g_MulGen := fun a => a;
  g_Mul := andb;
  g_Add := xorb;
  g_Neg := fun x => x;
  g_IsIdentity := negb;
  g_SetUint64 := Z.odd;
  sc_MarshalBinary := fun a => (if a : bool then Byte.x01 else Byte.x00) :: replicate 31 Byte.x00;
  sc_UnmarshalBinary := toy_unmarshal;
  el_MarshalBinary := fun x => [if x : bool then Byte.x01 else Byte.x00];
  el_UnmarshalBinary := toy_unmarshal;
  sha256 := fun b => replicate 32 (default Byte.x00 (head b));
  aead_Seal := fun _ _ p => p ++ replicate 16 Byte.x00;
  aead_Open := fun _ _ c => Some (take (length c - 16) c) |}.
Next Obligation. by intros []. Qed.
Next Obligation. by intros [] [] []. Qed.
Next Obligation. by intros [] [] []. Qed.
Next Obligation. by intros [] []. Qed.
Next Obligation. by intros []. Qed.
Next Obligation. by intros []. Qed.
Next Obligation. by intros []. Qed.
Next Obligation. intros b. apply length_replicate. Qed.
Next Obligation.
  intros key nonce p _ _. cbn beta. f_equal. rewrite length_app, length_replicate.
  apply take_app_length'. lia.
Qed.
Next Obligation. intros key nonce p. cbn beta. by rewrite length_app, length_replicate. Qed.

Definition ot_blob : bytes := Byte.x07 :: replicate 511 Byte.x2a.
Definition ot_key (x : byte) : bytes := replicate 32 x.
Definition ot_store : InmemStore (list Item) :=
  mkStore {[ BucketOT := [mkItem KeyOTBlob (Some ot_blob); mkItem KeyOTClusterKey (Some (ot_key Byte.x05))] ]} 0.
Definition ot_backend : backend (InmemStore (list Item)) inmemBatch := New ot_store.
Definition ot_bucket : gmap bytes value :=
  <[KeyOTBlob := Some ot_blob]> (<[KeyOTClusterKey := Some (ot_key Byte.x05)]> ∅).
Definition ot1 : OTManager := mkOT (mkOTOpts 16 32 30) (Some (mkCodec (ot_key Byte.x05) (30 * nanos))).

Lemma ot_backend_ok : be_ok ot_backend.
Proof.
  intros b t H. change (buckets _) with (buckets ot_store) in H. unfold ot_store in H.
  cbn [buckets] in H. apply lookup_singleton_Some in H as [_ <-]. by repeat constructor.
Qed.

Lemma ot_backend_view : be_view ot_backend !! BucketOT = Some ot_bucket.
Proof.
  change (be_view ot_backend) with (store_view ot_store).
  rewrite lookup_store_view. unfold ot_store. cbn [buckets]. by rewrite lookup_singleton_eq.
Qed.

(** Slot 1 of the stored blob, received 30 seconds after Init. *)
Lemma ot_transfer_correct_witness :
  exists pointA token pointB cts ct,
    Init ot1 true (replicate 12 Byte.x00) 0 = Ok (pointA, token) /\
    Transfer ot1 (fun _ => replicate 12 Byte.x09) (30 * nanos) token pointB ot_backend = Ok cts /\
    cts !! 1%nat = Some ct /\ TryDecrypt pointA false ct = Ok (replicate 32 Byte.x2a).
Proof.
  assert (CheckBlob ot1 (Some ot_blob) = None) as Hck by (vm_compute; reflexivity).
  assert (in_i64 0) as H0 by (vm_compute; split; discriminate).
  assert (ot_bucket !! KeyOTBlob = Some (Some ot_blob)) as Hb by apply lookup_insert_eq.
  assert (1 < Z.to_nat (SlotCount (ot_opts ot1)))%nat as Hc by (vm_compute; lia).
  destruct (ot_transfer_correct (OC := toy_crypto) ot1 (mkCodec (ot_key Byte.x05) (30 * nanos)) ot_backend ot_bucket ot_blob
    (replicate 12 Byte.x00) (fun _ => replicate 12 Byte.x09) true false 0 (30 * nanos) 1
    eq_refl eq_refl eq_refl ot_backend_ok ot_backend_view Hb Hck eq_refl (fun _ => eq_refl) H0 Hc eq_refl)
    as (pointA & token & pointB & Hinit & _ & _ & Hrun).
  destruct Hrun as (cts & ct & HT & _ & Hct & HD); [vm_compute; discriminate|].
  exists pointA, token, pointB, cts, ct. split_and!; [exact Hinit|exact HT|exact Hct|].
  rewrite HD. vm_compute. reflexivity.
Defined.

Lemma ot_second_key_witness :
  exists om' be', ApplyGenerateClusterKey (ot_key Byte.x06) (ot1, ot_backend) = ((om', be'),
      Err [ErrClusterKeyGen; ErrMsg "cluster key already exists"]) /\
    be_view be' = be_view ot_backend /\ option_map tc_key (ot_codec om') = Some (ot_key Byte.x06).
Proof.
  assert (ot_bucket !! KeyOTClusterKey = Some (Some (ot_key Byte.x05))) as Hb
    by (unfold ot_bucket; rewrite lookup_insert_ne by done; apply lookup_insert_eq).
  exact (ot_second_key ot1 ot_backend ot_bucket (ot_key Byte.x05) (ot_key Byte.x06)
    ot_backend_ok ot_backend_view Hb eq_refl).
Defined.

Definition ot_empty_backend : backend (InmemStore (list Item)) inmemBatch := New empty_store.

Lemma ot_restore_needs_blob_witness :
  exists om', ot_Restore (ot1, ot_empty_backend) = ((om', ot_empty_backend), Err (ErrMsg "OT restore" :: errMsg "blob is uninitialized (nil or all zeroes)")) \/
    ot_Restore (ot1, ot_empty_backend) = ((om', ot_empty_backend), Err (ErrMsg "OT restore" :: errMsg "token_codec error: invalid cluster key size")).
Proof.
  exact (ot_restore_needs_blob ot1 ot_empty_backend ∅ empty_store_ok ltac:(vm_compute; reflexivity)
    ltac:(vm_compute; reflexivity)).
Defined.
