(* ===== verification/Loops.v ===== *)
(** The background loops of the leader: [internal/lease/expiry_loop.go],
    [internal/lease/checkpoint_scheduler.go] and [internal/compaction/scheduler.go].
    Each is a goroutine that selects on a leadership channel, a ticker and (compaction)
    a write-pressure channel; one turn of its select is one step here, and the caller
    chooses which ready case runs. Proposing a command through Raft is the parameter
    [propose]. Context cancellation ends a loop and is not a step. *)

From S2P Require Import Prelude OrdTree KvTypes KeyIndex TreeIndex Storage Inmem Backend Mvcc MvccInv Api Heap Engine Lease LeaseInv.
From Stdlib Require Import ZArith Lia.
From stdpp Require Import base gmap sets list strings sorting.
Open Scope Z_scope.

(** ** The leadership part that the three loops share *)

(** The channel has a buffer of one; [ticking] tells whether tickerC is not nil. *)
Record leadership := mkLead { leadershipC : option bool; ticking : bool }.

(** Drain, then send: the buffer is empty when the value is sent. *)
Definition drain_send (v : bool) (l : leadership) : leadership :=
  let drained := mkLead None (ticking l) in mkLead (Some v) (ticking drained).

(** Receiving from the channel; [leader] is what isLeader answers. *)
Definition receive (leader : bool) (l : leadership) : option leadership :=
  granted ← leadershipC l; Some (mkLead None (granted && leader)).

Definition lead_start (leader : bool) : leadership := mkLead None leader.

(** ** expiry_loop.go *)

Record ExpiryLoop := mkExpiryLoop { ex_lead : leadership; ex_running : bool }.

Definition ex_OnLeadershipGranted (ex : ExpiryLoop) : ExpiryLoop :=
  mkExpiryLoop (drain_send true (ex_lead ex)) (ex_running ex).
Definition ex_OnLeadershipLost (ex : ExpiryLoop) : ExpiryLoop :=
  mkExpiryLoop (drain_send false (ex_lead ex)) (ex_running ex).
(** Run and the prologue of run; [None] when it was already running. *)
Definition ex_Run (leader : bool) (ex : ExpiryLoop) : option ExpiryLoop :=
  if ex_running ex then None
  else Some (mkExpiryLoop (mkLead (leadershipC (ex_lead ex)) leader) true).
Definition ex_Stop (ex : ExpiryLoop) : ExpiryLoop := mkExpiryLoop (ex_lead ex) false.

Definition expire_cmd (ids : list Z) : Command :=
  mkCommand KindLeaseExpire None None None None None None None None (Some (mkLeaseExpire ids)) None None None.
Definition checkpoint_cmd (cps : list Checkpoint) : Command :=
  mkCommand KindLeaseCheckpoint None None None None None None None (Some (mkLeaseCheckpoint cps)) None None None None.
Definition compaction_cmd (rev : Z) : Command :=
  mkCommand KindCompaction None None None None None None None None None (Some (mkCompaction rev)) None None.

(** How a tick ends; the cases differ in what is logged. *)
Inductive tick_end : Type :=
  | Skipped
  | ProposeFailed (e : error)
  | ApplyFailed (e : error)
  | NilResult
  | Applied.

Section Loops.
Context {T St B : Type} {BT : BTree Less T} {BS : ByteStore St B} {MO : MapOrder}.
Abbreviation kvs := (KvStore T St B).
Abbreviation sys := (LeaseManager * KvStore T St B)%type.

(** util.ProposeFunc: whatever Raft and the state machines do with a command. *)
Variable propose : Command -> M sys Result.

Definition ex_tick (now : Z) : M sys tick_end :=
  DrainExpiredLeases now ≫= fun expired =>
  if (length expired =? 0)%nat then mret Skipped
  else
    try (propose (expire_cmd expired)) ≫= fun r =>
    match r with
    | inr e => mret (ProposeFailed e)
    | inl result =>
        match r_Error result, r_LeaseExpire result with
        | Some e, _ => mret (ApplyFailed e)
        | None, None => mret NilResult
        | None, Some _ => mret Applied
        end
    end.

(** ** checkpoint_scheduler.go *)

Definition minCheckpointInterval : Z := 30 * Second.

Record CheckpointScheduler := mkCkSched { ck_interval : Z; ck_lead : leadership; ck_running : bool }.

Definition NewCheckpointScheduler (interval : Z) : CheckpointScheduler :=
  mkCkSched (if interval <=? 0 then minCheckpointInterval else interval) (lead_start false) false.
Definition ck_OnLeadershipGranted (cs : CheckpointScheduler) : CheckpointScheduler :=
  mkCkSched (ck_interval cs) (drain_send true (ck_lead cs)) (ck_running cs).
Definition ck_OnLeadershipLost (cs : CheckpointScheduler) : CheckpointScheduler :=
  mkCkSched (ck_interval cs) (drain_send false (ck_lead cs)) (ck_running cs).
Definition ck_Run (leader : bool) (cs : CheckpointScheduler) : option CheckpointScheduler :=
  if ck_running cs then None
  else Some (mkCkSched (ck_interval cs) (mkLead (leadershipC (ck_lead cs)) leader) true).
Definition ck_Stop (cs : CheckpointScheduler) : CheckpointScheduler := mkCkSched (ck_interval cs) (ck_lead cs) false.

Definition ck_tick (leader : bool) (now : Z) : M sys tick_end :=
  if negb leader then mret Skipped
  else
    get_lm ≫= fun lm =>
    let cps := lm_Checkpoint now lm in
    if (length cps =? 0)%nat then mret Skipped
    else
      try (propose (checkpoint_cmd cps)) ≫= fun r =>
      match r with
      | inr e => mret (ProposeFailed e)
      | inl result => match r_Error result with Some e => mret (ApplyFailed e) | None => mret Applied end
      end.

(** ** compaction/scheduler.go *)

Record CompactionOptions := mkCompOpts { Threshold : Z; IntervalMin : Z; MaxRevGap : Z }.
Definition CompactionDefaultOptions : CompactionOptions := mkCompOpts 100 30 100.
Definition CompactionOptions_Check (o : CompactionOptions) : option error :=
  if Threshold o <=? 0 then Some (errMsg "compactor threshold must be positive")
  else if IntervalMin o <=? 0 then Some (errMsg "compactor interval_min must be positive")
  else if MaxRevGap o <=? 0 then Some (errMsg "compactor max_rev_gap must be positive")
  else None.

(** [writePressureC] holds at most one token. *)
Record CompactionScheduler := mkCompSched {
  cs_opts : CompactionOptions; candidateRev : Z; cs_lead : leadership; writePressureC : bool; cs_running : bool }.

Definition NewScheduler (opts : option CompactionOptions) : CompactionScheduler :=
  mkCompSched (default CompactionDefaultOptions opts) 0 (lead_start false) false false.
Definition set_cs_lead (l : leadership) (cs : CompactionScheduler) : CompactionScheduler :=
  mkCompSched (cs_opts cs) (candidateRev cs) l (writePressureC cs) (cs_running cs).
Definition cs_OnLeadershipGranted (cs : CompactionScheduler) : CompactionScheduler :=
  set_cs_lead (drain_send true (cs_lead cs)) cs.
Definition cs_OnLeadershipLost (cs : CompactionScheduler) : CompactionScheduler :=
  set_cs_lead (drain_send false (cs_lead cs)) cs.
(** A full channel drops the token. *)
Definition cs_OnWrite (rev : Z) (s : kvs) (cs : CompactionScheduler) : CompactionScheduler :=
  let '(_, compactRev) := Mvcc.Revisions s in
  if MaxRevGap (cs_opts cs) <=? i64 (rev - compactRev)
  then mkCompSched (cs_opts cs) (candidateRev cs) (cs_lead cs) true (cs_running cs)
  else cs.
Definition cs_Run (leader : bool) (cs : CompactionScheduler) : option CompactionScheduler :=
  if cs_running cs then None
  else Some (mkCompSched (cs_opts cs) (candidateRev cs) (mkLead (leadershipC (cs_lead cs)) leader)
               (writePressureC cs) true).
Definition cs_Stop (cs : CompactionScheduler) : CompactionScheduler :=
  mkCompSched (cs_opts cs) (candidateRev cs) (cs_lead cs) (writePressureC cs) false.

Abbreviation comp_sys := (CompactionScheduler * sys)%type.

(** The new candidate is set before anything else, and the old one is the target. *)
Definition cs_target (force : bool) (cs : CompactionScheduler) (s : kvs) : CompactionScheduler * option Z :=
  let '(currentRev, lastCompacted) := Mvcc.Revisions s in
  let prev := candidateRev cs in
  let cs' := mkCompSched (cs_opts cs) (Main currentRev) (cs_lead cs) (writePressureC cs) (cs_running cs) in
  if candidateRev cs' <? 0 then (cs', None)
  else if negb force && (i64 (Main currentRev - lastCompacted) <? Threshold (cs_opts cs)) then (cs', None)
  else (cs', Some prev).

(** Waiting for the compaction to finish does not change the state. *)
Definition cs_tick (force : bool) : M comp_sys tick_end := fun st =>
  match cs_target force st.1 st.2.2 with
  | (cs', None) => ((cs', st.2), Ok Skipped)
  | (cs', Some target) =>
      match try (propose (compaction_cmd target)) st.2 with
      | (sy, Ok (inr e)) => ((cs', sy), Ok (ProposeFailed e))
      | (sy, Ok (inl result)) =>
          ((cs', sy), Ok
            match r_Error result, r_Compaction result with
            | Some e, _ => ApplyFailed e
            | None, None => NilResult
            | None, Some c => match cres_Error c with Some e => ApplyFailed e | None => Applied end
            end)
      | (sy, Err e) => ((cs', sy), Err e)
      | (sy, Panicked) => ((cs', sy), Panicked)
      end
  end.

(** ** One turn of each select *)

Inductive loop_case : Type :=
  | CaseLeadership (leader : bool)
  | CasePressure
  | CaseTick (leader : bool) (now : Z).

Abbreviation ex_sys := (ExpiryLoop * sys)%type.
Definition ex_select (c : loop_case) (st : ex_sys) : option ex_sys :=
  match c with
  | CaseLeadership leader =>
      l ← receive leader (ex_lead st.1); Some (mkExpiryLoop l (ex_running st.1), st.2)
  | CaseTick _ now => if ticking (ex_lead st.1) then Some (st.1, (ex_tick now st.2).1) else None
  | CasePressure => None
  end.

Abbreviation ck_sys := (CheckpointScheduler * sys)%type.
Definition ck_select (c : loop_case) (st : ck_sys) : option ck_sys :=
  match c with
  | CaseLeadership leader =>
      l ← receive leader (ck_lead st.1); Some (mkCkSched (ck_interval st.1) l (ck_running st.1), st.2)
  | CaseTick leader now =>
      if ticking (ck_lead st.1) then Some (st.1, (ck_tick leader now st.2).1) else None
  | CasePressure => None
  end.

Definition cs_select (c : loop_case) (st : comp_sys) : option comp_sys :=
  match c with
  | CaseLeadership leader =>
      l ← receive leader (cs_lead st.1); Some (set_cs_lead l st.1, st.2)
  | CasePressure =>
      if writePressureC st.1 then
        let cs := mkCompSched (cs_opts st.1) (candidateRev st.1) (cs_lead st.1) false (cs_running st.1) in
        if ticking (cs_lead cs) then Some (cs_tick true (cs, st.2)).1 else Some (cs, st.2)
      else None
  | CaseTick _ _ => if ticking (cs_lead st.1) then Some (cs_tick false st).1 else None
  end.

(** ** Leadership *)

(** A run of the expiry loop: [hist] are the notices of the Raft observer so far, and
    the other steps are turns of the select and changes of the system by other parts. *)
Inductive ex_run (leader0 : bool) : list bool -> ex_sys -> Prop :=
  | ex_start s : ex_run leader0 [] (mkExpiryLoop (lead_start leader0) true, s)
  | ex_granted hist ex s : ex_run leader0 hist (ex, s) ->
      ex_run leader0 (hist ++ [true]) (ex_OnLeadershipGranted ex, s)
  | ex_lost hist ex s : ex_run leader0 hist (ex, s) ->
      ex_run leader0 (hist ++ [false]) (ex_OnLeadershipLost ex, s)
  | ex_turn hist c st st' : ex_run leader0 hist st -> ex_select c st = Some st' -> ex_run leader0 hist st'
  | ex_other hist ex s s' : ex_run leader0 hist (ex, s) -> ex_run leader0 hist (ex, s').

(** What the loop knows: a pending notice is the latest one, and without a pending
    notice the ticker runs only if the latest notice granted leadership. *)
Definition follows (leader0 : bool) (hist : list bool) (l : leadership) : Prop :=
  (forall v, leadershipC l = Some v -> last hist = Some v) /\
  (leadershipC l = None -> ticking l = true -> default leader0 (last hist) = true).

Lemma follows_send leader0 hist l v : follows leader0 (hist ++ [v]) (drain_send v l).
Proof. split; simpl; rewrite last_snoc; [by intros ? [= ->]|done]. Qed.

Lemma follows_receive leader0 hist l leader l' :
  follows leader0 hist l -> receive leader l = Some l' ->
  follows leader0 hist l' /\ ticking l' = (default leader0 (last hist) && leader)%bool.
Proof.
  intros [Hp Ht] Hr. unfold receive in Hr. destruct (leadershipC l) as [v|] eqn:E; [|done].
  injection Hr as <-. rewrite (Hp v eq_refl). split; [|done]. split; [done|]. simpl.
  intros _ [-> _]%andb_true_iff. by rewrite (Hp true eq_refl).
Qed.

Lemma ex_run_follows leader0 hist st : ex_run leader0 hist st -> follows leader0 hist (ex_lead st.1).
Proof.
  induction 1 as [s|hist ex s _ IH|hist ex s _ IH|hist c [ex s] st' _ IH Hc|hist ex s s' _ IH]; simpl in *.
  - by split.
  - apply follows_send.
  - apply follows_send.
  - destruct c as [leader| |leader now]; simpl in Hc; [|done|].
    + destruct (receive leader (ex_lead ex)) as [l|] eqn:E; [|done]. injection Hc as <-.
      by apply (follows_receive _ _ _ _ _ IH) in E as [? _].
    + destruct (ticking (ex_lead ex)); [|done]. by injection Hc as <-.
  - done.
Qed.

(** ** Properties *)

(** C30: The expiry loop acts on the latest leadership notice. A pending notice is always the latest one (older ones are
    drained), and receiving it starts the ticker exactly when it grants leadership and the node still is the leader,
    and stops it otherwise. A tick runs only if the latest notice (or the state at start) was leadership, or if the
    notice of its loss is still pending: the loop does not look at the channel first, so a deposed leader whose ticker
    runs can still tick until it receives that notice. *)
Theorem expiry_loop_leadership leader0 hist ex s :
  ex_run leader0 hist (ex, s) ->
  (forall leader now st', ex_select (CaseTick leader now) (ex, s) = Some st' ->
     default leader0 (last hist) = true \/ last hist = Some false /\ leadershipC (ex_lead ex) = Some false) /\
  (forall leader st', ex_select (CaseLeadership leader) (ex, s) = Some st' ->
     ticking (ex_lead st'.1) = (default leader0 (last hist) && leader)%bool /\
     leadershipC (ex_lead st'.1) = None) /\
  (forall v, leadershipC (ex_lead ex) = Some v -> last hist = Some v) /\
  (ticking (ex_lead ex) = true -> forall leader now,
     is_Some (ex_select (CaseTick leader now) (ex_OnLeadershipLost ex, s))).
Proof.
  intros Hrun. pose proof (ex_run_follows _ _ _ Hrun) as HF. simpl in HF. split_and!; [| |apply HF|].
  - intros leader now st'. simpl. destruct (ticking (ex_lead ex)) eqn:E; [|done]. intros _. destruct HF as [Hp Ht].
    destruct (leadershipC (ex_lead ex)) as [[]|] eqn:Ec; [left|right|left]; [by rewrite (Hp true eq_refl)|by rewrite (Hp false eq_refl)|by apply Ht].
  - intros leader st'. simpl. destruct (receive leader (ex_lead ex)) as [l|] eqn:E; [|done].
    intros [= <-]. simpl. split; [by eapply follows_receive|].
    unfold receive in E. destruct (leadershipC (ex_lead ex)); [|done]. by injection E as <-.
  - intros Ht leader now. simpl. rewrite Ht. eauto.
Qed.

(** The queue holds no other item of the lease than the one the heap map names. *)
Definition queued_once (id : Z) (lm : LeaseManager) : Prop :=
  forall y, y ∈ arr (lm_heap lm) -> lease_of (objs (lm_heap lm)) y = id -> heapMap lm !! id = Some y.

(** When proposing an expiration fails, the drained leases are lost to the loop: they
    stay in the lease map with their keys, but no later drain, at any time, reports
    them again. *)
Theorem expiry_lost_on_failed_propose (lm : LeaseManager) (s : kvs) (now id : Z) (l : Lease) (x : nat) (e : error) :
  lm_inv lm -> leaseMap lm !! id = Some l -> heapMap lm !! id = Some x -> queued_once id lm ->
  expiry l < now -> (forall cmd st, propose cmd st = (st, Err e)) ->
  exists lm', ex_tick now (lm, s) = ((lm', s), Ok (ProposeFailed e)) /\ leaseMap lm' !! id = Some l /\
    forall later, exists lm'' ids,
      DrainExpiredLeases later (lm', s) = ((lm'', s), Ok ids) /\ (id ∉ ids) /\ leaseMap lm'' !! id = Some l.
Proof.
  intros Hinv Hl Hx Hone Hexp Hfail.
  destruct (Drain_spec now lm s Hinv) as (lm' & E & Hrun & [D1 D2 D3 D4 D5 D6 D7]).
  destruct (li_map lm Hinv id x Hx) as [Hin Hlease].
  assert (expiry_of (objs (lm_heap lm)) x = expiry l) as Hex.
  { pose proof (li_exp lm Hinv id x l Hx Hl) as He. unfold expiry_of. by destruct (objs (lm_heap lm) !! x); simplify_eq/=. }
  assert (x ∉ arr (lm_heap lm')) as Hout.
  { intros Hin'. rewrite Forall_forall in D5. specialize (D5 x Hin'). simpl in D5. lia. }
  assert (x ∈ E) as HE by (rewrite D2 in Hin; apply elem_of_app in Hin as [?|?]; done).
  exists lm'. split; [|split; [by rewrite D7|]].
  - unfold ex_tick. rewrite (M_bind_Ok _ _ _ _ _ Hrun), length_fmap.
    destruct E as [|y E]; [by apply elem_of_nil in HE|]. cbn [length Nat.eqb].
    rewrite (M_bind_Ok _ _ (lm', s) (lm', s) (inr e)); [done|]. unfold try. by rewrite Hfail.
  - intros later. destruct (Drain_spec later lm' s D1) as (lm'' & E' & Hrun' & [F1 F2 F3 F4 F5 F6 F7]).
    exists lm'', (lease_of (objs (lm_heap lm')) <$> E'). split_and!; [done| |by rewrite F7, D7].
    intros (y & Hy & Hy')%list_elem_of_fmap. apply Hout.
    assert (y ∈ arr (lm_heap lm')) as Hyin by (rewrite F2; apply elem_of_app; by left).
    rewrite (data_lease_of _ _ y (D3 y)) in Hy.
    assert (y ∈ arr (lm_heap lm)) as Hyold by (rewrite D2; apply elem_of_app; by right).
    specialize (Hone y Hyold (eq_sym Hy)). rewrite Hx in Hone. injection Hone as <-. done.
Qed.

(** A run of the compaction scheduler: notices, turns of the select, writes announced by
    the state machine, and changes of the store that never lower its revision. *)
Inductive cs_run (opts : option CompactionOptions) : comp_sys -> Prop :=
  | cs_start lm s : 0 <= Main (currentRev s) -> cs_run opts (NewScheduler opts, (lm, s))
  | cs_started leader cs cs' s : cs_run opts (cs, s) -> cs_Run leader cs = Some cs' -> cs_run opts (cs', s)
  | cs_granted cs s : cs_run opts (cs, s) -> cs_run opts (cs_OnLeadershipGranted cs, s)
  | cs_lost cs s : cs_run opts (cs, s) -> cs_run opts (cs_OnLeadershipLost cs, s)
  | cs_write rev cs s : cs_run opts (cs, s) -> cs_run opts (cs_OnWrite rev s.2 cs, s)
  | cs_turn c st st' : cs_run opts st -> cs_select c st = Some st' -> cs_run opts st'
  | cs_other cs lm s lm' s' : cs_run opts (cs, (lm, s)) -> Main (currentRev s) <= Main (currentRev s') ->
      cs_run opts (cs, (lm', s')).

Definition rev_kept : Prop := forall cmd st,
  Main (currentRev st.2) <= Main (currentRev (propose cmd st).1.2).

Lemma cs_tick_candidate force cs (sy : sys) :
  rev_kept -> 0 <= candidateRev cs <= Main (currentRev sy.2) ->
  let st' := (cs_tick force (cs, sy)).1 in
  0 <= candidateRev st'.1 <= Main (currentRev st'.2.2).
Proof.
  intros Hk Hc. unfold cs_tick, cs_target. cbn [fst snd Mvcc.Revisions candidateRev]. 
  rewrite (proj2 (Z.ltb_ge (Main (currentRev sy.2)) 0)) by lia.
  destruct (negb force && _)%bool; [simpl; lia|]. unfold try.
  specialize (Hk (compaction_cmd (candidateRev cs)) sy).
  destruct (propose (compaction_cmd (candidateRev cs)) sy) as [sy' [result|e|]]; simpl in *; lia.
Qed.

(** The scheduler compacts one tick behind: whatever it is told and whenever it
    ticks, the revision it proposes is the one that was current at its previous tick, so
    it is never negative or ahead of the store, and everything written since the previous
    tick is newer than the target and stays readable. *)
Theorem compaction_target_lags (opts : option CompactionOptions) (cs cs' : CompactionScheduler)
    (lm : LeaseManager) (s : kvs) (force : bool) (target : Z) :
  rev_kept -> cs_run opts (cs, (lm, s)) -> cs_target force cs s = (cs', Some target) ->
  target = candidateRev cs /\ 0 <= target <= Main (currentRev s) /\
  candidateRev cs' = Main (currentRev s) /\
  (force = false -> Threshold (cs_opts cs) <= i64 (Main (currentRev s) - compactedMainRev s)).
Proof.
  intros Hk Hrun Ht.
  assert (forall st, cs_run opts st -> 0 <= candidateRev st.1 <= Main (currentRev st.2.2)) as Hall.
  { induction 1 as [lm0 s0 H0|leader c c' s0 _ IH Hr|c s0 _ IH|c s0 _ IH|rev c s0 _ IH|k [c s0] st' _ IH Hs
      |c lm0 s0 lm1 s1 _ IH Hle]; simpl in *; [lia| |lia|lia| | |lia].
    - unfold cs_Run in Hr. destruct (cs_running c); [done|]. by injection Hr as <-.
    - unfold cs_OnWrite. simpl. by destruct (_ <=? _).
    - destruct k as [leader| |leader now]; simpl in Hs.
      + destruct (receive leader (cs_lead c)) as [l|]; [|done]. by injection Hs as <-.
      + destruct (writePressureC c); [|done]. destruct (ticking (cs_lead c)); injection Hs as <-; [|done].
        by apply cs_tick_candidate.
      + destruct (ticking (cs_lead c)); [|done]. injection Hs as <-. by apply cs_tick_candidate. }
  specialize (Hall _ Hrun). simpl in Hall. unfold cs_target in Ht. cbn [Mvcc.Revisions candidateRev] in Ht.
  destruct (Main (currentRev s) <? 0); [done|].
  destruct (negb force && _)%bool eqn:E; [done|]. injection Ht as <- <-. split_and!; [done|lia|lia|done|].
  intros ->. simpl in E. apply Z.ltb_ge in E. lia.
Qed.

End Loops.

(** ** Witnesses *)

Definition failing (cmd : Command) : M inmem_sys Result := fail [ErrPropose].

Lemma expiry_loop_leadership_witness :
  exists ex, ex_run failing true [true; false] (ex, sys0) /\ leadershipC (ex_lead ex) = Some false /\
    forall leader st', ex_select failing (CaseLeadership leader) (ex, sys0) = Some st' ->
      ticking (ex_lead st'.1) = false.
Proof.
  assert (ex_run failing true [true; false]
    (ex_OnLeadershipLost (ex_OnLeadershipGranted (mkExpiryLoop (lead_start true) true)), sys0)) as Hrun.
  { apply (ex_lost failing true [true]). apply (ex_granted failing true []). apply ex_start. }
  eexists. split; [exact Hrun|]. split; [reflexivity|]. intros leader st' Hs.
  exact (proj1 (proj1 (proj2 (expiry_loop_leadership failing true [true; false] _ sys0 Hrun)) leader st' Hs)).
Defined.

Lemma lm5_once : queued_once 5 lm5.
Proof. intros y Hy _. vm_compute in Hy. apply list_elem_of_singleton in Hy as ->. by vm_compute. Qed.

Lemma expiry_lost_on_failed_propose_witness :
  exists lm', ex_tick failing (2 * Second) (lm5, kv0) = ((lm', kv0), Ok (ProposeFailed [ErrPropose])) /\
    is_Some (leaseMap lm' !! 5) /\
    forall later, exists lm'' ids, DrainExpiredLeases later (lm', kv0) = ((lm'', kv0), Ok ids) /\ 5 ∉ ids.
Proof.
  destruct (expiry_lost_on_failed_propose failing lm5 kv0 (2 * Second) 5 (newLease 5 1 0) 0 [ErrPropose])
    as (lm' & H1 & H2 & H3); [| |vm_compute; reflexivity|apply lm5_once|vm_compute; reflexivity|done|].
  - apply (inv_push NewManager (newLease 5 1 0)), NewManager_inv.
  - vm_compute. reflexivity.
  - exists lm'. split; [exact H1|]. split; [by eexists|]. intros later.
    destruct (H3 later) as (lm'' & ids & ? & ? & _). by exists lm'', ids.
Defined.

Lemma compaction_target_lags_witness :
  exists cs', cs_target true (NewScheduler None) kv0 = (cs', Some 0) /\ candidateRev cs' = 0.
Proof.
  eexists. split; [reflexivity|].
  exact (proj1 (proj2 (proj2 (compaction_target_lags failing None (NewScheduler None) _ NewManager kv0 true 0
    (fun cmd st => Z.le_refl _) (cs_start failing _ NewManager kv0 ltac:(vm_compute; discriminate)) eq_refl)))).
Defined.
