(* ===== verification/Fsm.v ===== *)
(** The replicated state machine: [internal/fsm/fsm.go]. One Apply runs one committed log
    entry against the engine, the lease manager, the store's compaction or the OT
    manager, which all share the backend of the key-value store. Decoding a command
    (encoding/gob) is the parameter [decode]; clock readings are arguments; the
    compactions that Compact and Restore leave to goroutines are collected in
    [f_background] and run by [run_background]. Metrics and logging are left out. *)

From S2P Require Import Prelude OrdTree KvTypes KeyIndex TreeIndex Storage Inmem Backend Mvcc MvccInv Api Engine Heap Lease LeaseInv Ot Loops.
From Stdlib Require Import ZArith Lia.
From stdpp Require Import base gmap sets list strings sorting.
Open Scope Z_scope.

(** An observer of successful writes may read the store. *)
Class WriteObserver (K W : Type) := { OnWrite : Z -> K -> W -> W }.

#[export] Instance scheduler_observer {T St B} : WriteObserver (KvStore T St B) CompactionScheduler := {
  OnWrite := cs_OnWrite }.

Record Fsm (T St B O W : Type) := mkFsm {
  f_me : string;
  f_store : KvStore T St B;
  f_lm : LeaseManager;
  f_om : OTManager;
  f_commit_obs : list O;
  f_writeObservers : list W;
  f_background : list (Z * Z) }.
Arguments mkFsm {T St B O W} _ _ _ _ _ _ _.
Arguments f_me {T St B O W} _.
Arguments f_store {T St B O W} _.
Arguments f_lm {T St B O W} _.
Arguments f_om {T St B O W} _.
Arguments f_commit_obs {T St B O W} _.
Arguments f_writeObservers {T St B O W} _.
Arguments f_background {T St B O W} _.

(** raft.Log *)
Record Log := mkLog { log_Index : Z; log_Term : Z; log_Data : bytes }.

(** A Result with one field set. *)
Definition error_result (e : error) : Result :=
  mkResult empty_header (Some e) None None None None None None None None None None None.
Definition grant_result (l : Lease) : Result :=
  mkResult empty_header None None None None None (Some (mkGrantRes (l_TTL l) (l_ID l))) None None None None None None.
Definition revoke_result (r : bool * bool) : Result :=
  mkResult empty_header None None None None None None (Some (mkRevokeRes r.1 r.2)) None None None None None.
Definition keepalive_result (id ttl : Z) : Result :=
  mkResult empty_header None None None None None None None (Some (mkKeepAliveRes ttl id)) None None None None.
Definition lookup_result (l : Lease) : Result :=
  mkResult empty_header None None None None None None None None
    (Some (mkLookupRes (l_ID l) (l_TTL l) (RemainingTTL l))) None None None.
Definition compaction_result (e : option error) : Result :=
  mkResult empty_header None None None None None None None None None None (Some (mkCompactionRes e)) None.
Definition write_all_result : Result :=
  mkResult empty_header None None None None None None None None None None None (Some tt).

Definition set_raft (term index : Z) (node : string) (r : Result) : Result :=
  mkResult (mkHeader (h_Revision (r_Header r)) (h_CompactedRev (r_Header r)) term index node)
    (r_Error r) (r_Put r) (r_Delete r) (r_Txn r) (r_Range r) (r_LeaseGrant r) (r_LeaseRevoke r)
    (r_LeaseKeepAlive r) (r_LeaseLookup r) (r_LeaseExpire r) (r_Compaction r) (r_OtWriteAll r).

Section Fsm.
Context {T St B O W Snap : Type} {BT : BTree Less T} {BS : ByteStore St B} {MO : MapOrder}.
Context {CO : CommitObserver O} {WO : WriteObserver (KvStore T St B) W} {SS : SnapshotStore St Snap}.
Abbreviation kvs := (KvStore T St B).
Abbreviation fsm := (Fsm T St B O W).

(** command.Decode *)
Variable decode : bytes -> res Command.

Definition set_f_store (s : kvs) (f : fsm) : fsm :=
  mkFsm (f_me f) s (f_lm f) (f_om f) (f_commit_obs f) (f_writeObservers f) (f_background f).

Definition on_f_store {X} (m : M kvs X) : M fsm X := fun f =>
  let '(s, r) := m (f_store f) in (set_f_store s f, r).
Definition on_f_lm {X} (m : M (LeaseManager * kvs) X) : M fsm X := fun f =>
  let '((lm, s), r) := m (f_lm f, f_store f) in
  (mkFsm (f_me f) s lm (f_om f) (f_commit_obs f) (f_writeObservers f) (f_background f), r).
Definition on_f_om {X} (m : M (OTManager * backend St B) X) : M fsm X := fun f =>
  let '((om, b), r) := m (f_om f, kv_backend (f_store f)) in
  (mkFsm (f_me f) (set_backend b (f_store f)) (f_lm f) om (f_commit_obs f) (f_writeObservers f)
     (f_background f), r).
Definition on_engine {X} (m : M (Engine T St B LeaseManager O) X) : M fsm X := fun f =>
  let '(e, r) := m (mkEngine (f_store f) (f_lm f) (f_commit_obs f)) in
  (mkFsm (f_me f) (e_store e) (e_attacher e) (f_om f) (e_obs e) (f_writeObservers f) (f_background f), r).
Definition spawn (job : Z * Z) : M fsm unit :=
  modify (fun f => mkFsm (f_me f) (f_store f) (f_lm f) (f_om f) (f_commit_obs f) (f_writeObservers f)
                     (f_background f ++ [job])).

(** An error of the handler goes into the Error field of the result. *)
Definition or_error {X} (m : M fsm X) (k : X -> Result) : M fsm Result :=
  try m ≫= fun r => mret match r with inl x => k x | inr e => error_result e end.

Definition applyKv (cmd : Command) : M fsm Result :=
  if bool_decide (Kind cmd ∈ [KindPut; KindDelete; KindTxn])
  then or_error (on_engine (ApplyWrite cmd)) (fun res => res)
  else lift Panicked.

(** On an expiration the sub-result is stored only in the error case, where it is nil. *)
Definition applyLease (now now2 : Z) (cmd : Command) : M fsm Result :=
  if bool_decide (Kind cmd = KindLeaseGrant) then
    deref (cmd_LeaseGrant cmd) (fun c => or_error (on_f_lm (Grant now (lg_LeaseID c) (lg_TTL c))) grant_result)
  else if bool_decide (Kind cmd = KindLeaseRevoke) then
    deref (cmd_LeaseRevoke cmd) (fun c => or_error (on_f_lm (Revoke (lr_LeaseID c))) revoke_result)
  else if bool_decide (Kind cmd = KindLeaseKeepAlive) then
    deref (cmd_LeaseKeepAlive cmd) (fun c =>
      or_error (on_f_lm (KeepAlive now now2 (lk_LeaseID c))) (keepalive_result (lk_LeaseID c)))
  else if bool_decide (Kind cmd = KindLeaseLookup) then
    deref (cmd_LeaseLookup cmd) (fun c =>
      or_error (get_st ≫= fun f : fsm => lift (Lease.Lookup (ll_LeaseID c) (f_lm f))) lookup_result)
  else if bool_decide (Kind cmd = KindLeaseCheckpoint) then
    deref (cmd_LeaseCheckpoint cmd) (fun c => or_error (on_f_lm (ApplyCheckpoint c)) (fun _ => empty_result))
  else if bool_decide (Kind cmd = KindLeaseExpire) then
    deref (cmd_LeaseExpired cmd) (fun c => or_error (on_f_lm (ApplyExpired c)) (fun _ => empty_result))
  else lift Panicked.

Definition applyCompaction (cmd : Command) : M fsm Result :=
  if bool_decide (Kind cmd = KindCompaction) then
    deref (cmd_Compaction cmd) (fun c =>
      try (on_f_store (Compact (cr_TargetRev c))) ≫= fun r =>
      match r with
      | inl job => spawn job ≫= fun _ => mret (compaction_result None)
      | inr e => mret (compaction_result (Some e))
      end)
  else lift Panicked.

Definition applyOT (cmd : Command) : M fsm Result :=
  if bool_decide (Kind cmd = KindOTGenerateClusterKey) then
    deref (cmd_OTGenerateClusterKey cmd) (fun c =>
      or_error (on_f_om (ApplyGenerateClusterKey (default [] (otk_Key c)))) (fun _ => empty_result))
  else if bool_decide (Kind cmd = KindOTWriteAll) then
    deref (cmd_OTWriteAll cmd) (fun c => or_error (on_f_om (ApplyWriteAll (Blob c))) (fun _ => write_all_result))
  else lift Panicked.

Definition lease_kinds : list CmdKind :=
  [KindLeaseGrant; KindLeaseRevoke; KindLeaseKeepAlive; KindLeaseLookup; KindLeaseCheckpoint; KindLeaseExpire].

(** The switch of Apply. *)
Definition dispatch (now now2 : Z) (cmd : Command) : M fsm Result :=
  if bool_decide (Kind cmd ∈ [KindPut; KindDelete; KindTxn]) then applyKv cmd
  else if bool_decide (Kind cmd ∈ lease_kinds) then applyLease now now2 cmd
  else if bool_decide (Kind cmd = KindCompaction) then applyCompaction cmd
  else if bool_decide (Kind cmd ∈ [KindOTWriteAll; KindOTGenerateClusterKey]) then applyOT cmd
  else lift Panicked.

Definition notify_write (rev : Z) : M fsm unit :=
  modify (fun f => mkFsm (f_me f) (f_store f) (f_lm f) (f_om f) (f_commit_obs f)
                     (OnWrite rev (f_store f) <$> f_writeObservers f) (f_background f)).

Definition Apply (now now2 : Z) (log : Log) : M fsm Result :=
  get_st ≫= fun f =>
  if log_Index log <=? (RaftMeta (f_store f)).1 then mret empty_result
  else
    match decode (log_Data log) with
    | Err e => mret (error_result e)
    | Panicked => lift Panicked
    | Ok cmd =>
        match Command_Check cmd with
        | Some e => mret (error_result e)
        | None =>
            modify (fun f => set_f_store (UpdateInmemRaftMeta (log_Index log) (log_Term log) (f_store f)) f) ≫= fun _ =>
            dispatch now now2 cmd ≫= fun res =>
            let res := set_raft (log_Term log) (log_Index log) (f_me f) res in
            match r_Error res with
            | None =>
                on_f_store PersistRaftMeta ≫= fun _ =>
                notify_write (h_Revision (r_Header res)) ≫= fun _ => mret res
            | Some _ => mret res
            end
        end
    end.

Definition fsm_Snapshot (f : fsm) : Snap := backend_Snapshot (kv_backend (f_store f)).

Definition fsm_Restore (now : Z) (sn : Snap) : M fsm unit :=
  on_f_store (on_backend backend_Close) ≫= fun _ =>
  on_f_store (on_backend (backend_Restore sn)) ≫= fun _ =>
  on_f_store Restore ≫= fun resume =>
  (match resume with Some job => spawn job | None => mret tt end) ≫= fun _ =>
  on_f_lm (lm_Restore now) ≫= fun _ =>
  on_f_om ot_Restore.

(** The goroutine of the oldest pending compaction. *)
Definition run_background : M fsm unit :=
  get_st ≫= fun f =>
  match f_background f with
  | [] => mret tt
  | (target, compacted) :: rest =>
      modify (fun f => mkFsm (f_me f) (f_store f) (f_lm f) (f_om f) (f_commit_obs f) (f_writeObservers f) rest) ≫= fun _ =>
      on_f_store (doCompact target compacted)
  end.

(** ** No handler touches the applied index *)

(** What they leave alone: the applied index and the compacted revision. *)
Definition ai (s : kvs) : Z * Z := (applyIndex s, compactedMainRev s).
Abbreviation wr := (writer T St B).
Definition ai_w (w : wr) : Z * Z := ai (w_store w).
Definition ai_e (st : wr * LeaseManager) : Z * Z := ai_w st.1.
Definition ai_l (st : LeaseManager * kvs) : Z * Z := ai st.2.

Lemma on_backend_ai {X} (m : M (backend St B) X) : preserves ai (on_backend m).
Proof. intros s. unfold on_backend. by destruct (m (kv_backend s)). Qed.
Lemma on_index_ai {X} (m : M T X) : preserves ai (on_index m).
Proof. intros s. unfold on_index. by destruct (m (kvIndex s)). Qed.
Lemma on_store_ai {X} (m : M kvs X) : preserves ai m -> preserves ai_w (on_store m).
Proof. intros Hm w. specialize (Hm (w_store w)). unfold on_store. by destruct (m (w_store w)). Qed.
Lemma flatten_ai {X} (m : M wr X) : preserves ai_w m -> preserves ai_w (flatten_err m).
Proof. intros Hm w. specialize (Hm w). unfold flatten_err. by destruct (m w) as [w' [x|e|]]. Qed.
Lemma on_writer_ai {X} (m : M wr X) : preserves ai_w m -> preserves ai_e (on_writer m).
Proof. intros Hm [w a]. specialize (Hm w). unfold on_writer. simpl. by destruct (m w). Qed.
Lemma read_writer_ai {X} (m : wr -> res X) : preserves ai_e (read_writer m).
Proof. done. Qed.
Lemma on_attacher_ai f : preserves ai_e (on_attacher f).
Proof. done. Qed.
Hint Resolve on_backend_ai on_index_ai on_store_ai flatten_ai on_writer_ai read_writer_ai on_attacher_ai : preserve.

Lemma put_ai k v l : preserves ai_w (put k v l).
Proof. unfold put. preserve. Qed.
Lemma deleteKey_ai k : preserves ai_w (deleteKey k).
Proof. unfold deleteKey. preserve. Qed.
Hint Resolve put_ai deleteKey_ai : preserve.
Lemma deleteKeys_ai ks : preserves ai_w (deleteKeys ks).
Proof. induction ks; cbn [deleteKeys]; preserve. Qed.
Hint Resolve deleteKeys_ai : preserve.
Lemma DeleteRange_ai k e : preserves ai_w (DeleteRange k e).
Proof. unfold DeleteRange, deleteRange. preserve. Qed.
Lemma Abort_ai : preserves ai_w Abort.
Proof. unfold Abort. preserve. Qed.
Lemma warn_put_ai k v : preserves ai_w (warn_put k v).
Proof. unfold warn_put. preserve. Qed.
Hint Resolve DeleteRange_ai Abort_ai warn_put_ai : preserve.
Lemma End_ai : preserves ai_w End_.
Proof. unfold End_. preserve. Qed.
Hint Resolve End_ai : preserve.

Lemma apply_cmd_ai cmd : preserves ai_e (apply_cmd cmd).
Proof.
  assert (forall prevs, preserves ai_e (detach_all prevs)) by (induction prevs; cbn [detach_all]; preserve).
  assert (forall cmps, preserves ai_e (evalCondition cmps)) by (induction cmps; cbn [evalCondition]; preserve).
  assert (forall k v l, preserves ai_e (on_writer (Put k v l))) by (intros; apply on_writer_ai, put_ai).
  assert (forall k e w, preserves ai_e (prev_entries k e w)) by (intros; unfold prev_entries; preserve).
  assert (preserves ai_e num_changes) by apply read_writer_ai.
  assert (forall op, preserves ai_e (applyTxnOp op))
    by (intros; unfold applyTxnOp, deref, txn_put, txn_delete, txn_range; preserve).
  assert (forall ops acc, preserves ai_e (applyTxnOps ops acc)) by (induction ops; cbn [applyTxnOps]; preserve).
  unfold apply_cmd, deref, applyPut, applyDelete, applyTxn. preserve.
Qed.

Lemma ApplyWrite_ai cmd (e : Engine T St B LeaseManager O) : ai (e_store (ApplyWrite cmd e).1) = ai (e_store e).
Proof.
  unfold ApplyWrite. destruct (NewWriter (e_store e)) as [w|er|] eqn:Hn; [|done..].
  assert (ai_w w = ai (e_store e)) as Hw.
  { unfold NewWriter in Hn. pose proof (on_backend_ai Lock (e_store e)) as HL.
    destruct (on_backend Lock (e_store e)) as [s' [[]|?|]]; [|discriminate..]. by injection Hn as <-. }
  pose proof (apply_cmd_ai cmd (w, e_attacher e)) as Hc. unfold ai_e in Hc. simpl in Hc.
  destruct (apply_cmd cmd (w, e_attacher e)) as [[w1 a1] [r|er|]]; simpl in *; [| |by rewrite <-Hw, <-Hc].
  - pose proof (End_ai w1) as He. destruct (End_ w1) as [w2 [[]|er|]]; simpl in *; rewrite <-Hw, <-Hc, <-He; done.
  - pose proof (Abort_ai w1) as Ha. destruct (Abort w1) as [w2 rr]; simpl in *. rewrite <-Hw, <-Hc, <-Ha. done.
Qed.

Lemma on_kv_ai {X} (m : M kvs X) : preserves ai m -> preserves ai_l (on_kv m).
Proof. intros Hm [lm s]. specialize (Hm s). unfold on_kv. simpl. by destruct (m s). Qed.
Lemma on_lm_ai f : preserves ai_l (on_lm (T := T) (St := St) (B := B) f).
Proof. done. Qed.
Lemma get_lm_ai : preserves ai_l (get_lm (T := T) (St := St) (B := B)).
Proof. done. Qed.
Lemma on_heap_ai {X} (m : M leaseHeap X) : preserves ai_l (on_heap (T := T) (St := St) (B := B) m).
Proof. intros [lm s]. unfold on_heap. simpl. by destruct (m (lm_heap lm)). Qed.
Lemma with_writer_ai {X} (k : M wr X) : preserves ai_w k -> preserves ai_l (with_writer k).
Proof.
  intros Hk [lm s]. unfold with_writer. cbn [snd fst]. destruct (NewWriter s) as [w|er|] eqn:Hn; [|done..].
  unfold NewWriter in Hn. pose proof (on_backend_ai Lock s) as HL.
  destruct (on_backend Lock s) as [s' [[]|?|]]; [|discriminate..]. injection Hn as <-. specialize (Hk (mkWriter s' (currentRev s) [] 0 0)).
  destruct (k _) as [w' r]. transitivity (ai s'); [exact Hk|exact HL].
Qed.
Hint Resolve on_kv_ai on_lm_ai get_lm_ai on_heap_ai with_writer_ai : preserve.

Lemma one_write_ai m : preserves ai_l (one_write m).
Proof. unfold one_write. preserve. Qed.
Lemma delete_each_ai ks : preserves ai_w (delete_each ks).
Proof. induction ks; cbn [delete_each]; unfold DeleteKey; preserve. Qed.
Hint Resolve one_write_ai delete_each_ai : preserve.
Lemma Grant_ai now id ttl : preserves ai_l (Grant now id ttl).
Proof. unfold Grant, unsafeSaveToLeaseMap, unsafePushToHeap, unsafePersistToBackend. preserve. Qed.
Lemma Revoke_ai id : preserves ai_l (Revoke id).
Proof.
  unfold Revoke, unsafeRemoveFromLeaseMap, unsafeRemoveFromHeap, unsafeRemoveFromBackend. preserve.
  apply with_writer_ai. preserve.
Qed.
Lemma KeepAlive_ai now now2 id : preserves ai_l (KeepAlive now now2 id).
Proof. unfold KeepAlive, unsafeUpdateHeap, unsafePersistToBackend. preserve. Qed.
Lemma ApplyCheckpoint_ai c : preserves ai_l (ApplyCheckpoint c).
Proof.
  unfold ApplyCheckpoint. generalize (Checkpoints c) as cks.
  induction cks; cbn [apply_checkpoints]; unfold unsafePersistToBackend; preserve.
Qed.
Lemma ApplyExpired_ai c : preserves ai_l (ApplyExpired c).
Proof.
  assert (forall ids acc, preserves ai_l (collect_expired ids acc))
    by (induction ids; cbn [collect_expired]; unfold unsafeRemoveFromLeaseMap; preserve).
  unfold ApplyExpired. preserve.
Qed.
Hint Resolve Grant_ai Revoke_ai KeepAlive_ai ApplyCheckpoint_ai ApplyExpired_ai : preserve.
Lemma Compact_ai rev : preserves ai (Compact rev).
Proof. unfold Compact. preserve. Qed.
Lemma PersistRaftMeta_ai : preserves ai PersistRaftMeta.
Proof. unfold PersistRaftMeta. preserve. Qed.
Hint Resolve Compact_ai PersistRaftMeta_ai : preserve.

Definition ai_f (f : fsm) : Z * Z := ai (f_store f).

Lemma on_f_store_ai {X} (m : M kvs X) : preserves ai m -> preserves ai_f (on_f_store m).
Proof. intros Hm f. specialize (Hm (f_store f)). unfold on_f_store. by destruct (m (f_store f)). Qed.
Lemma on_f_lm_ai {X} (m : M (LeaseManager * kvs) X) : preserves ai_l m -> preserves ai_f (on_f_lm m).
Proof.
  intros Hm f. specialize (Hm (f_lm f, f_store f)). unfold on_f_lm. by destruct (m (f_lm f, f_store f)) as [[]].
Qed.
Lemma on_f_om_ai {X} (m : M (OTManager * backend St B) X) : preserves ai_f (on_f_om m).
Proof. intros f. unfold on_f_om. by destruct (m (f_om f, kv_backend (f_store f))) as [[]]. Qed.
Lemma on_engine_ai cmd : preserves ai_f (on_engine (ApplyWrite cmd)).
Proof.
  intros f. unfold on_engine, ai_f. pose proof (ApplyWrite_ai cmd (mkEngine (f_store f) (f_lm f) (f_commit_obs f))) as H.
  by destruct (ApplyWrite cmd _).
Qed.
Hint Resolve on_f_store_ai on_f_lm_ai on_f_om_ai on_engine_ai : preserve.

Lemma dispatch_ai now now2 cmd : preserves ai_f (dispatch now now2 cmd).
Proof.
  unfold dispatch, applyKv, applyLease, applyCompaction, applyOT, deref, or_error, spawn. preserve.
Qed.
Hint Resolve dispatch_ai : preserve.

(** ** Applied once *)

(** Past its checks, Apply sets the index and leaves the compacted revision. *)
Lemma Apply_meta (now now2 : Z) (log : Log) (cmd : Command) (f f' : fsm) (res : Result) :
  applyIndex (f_store f) < log_Index log -> decode (log_Data log) = Ok cmd -> Command_Check cmd = None ->
  Apply now now2 log f = (f', Ok res) ->
  ai (f_store f') = (log_Index log, compactedMainRev (f_store f)) /\
  exists r0, res = set_raft (log_Term log) (log_Index log) (f_me f) r0.
Proof.
  intros Hi Hd Hc Hrun. unfold Apply in Hrun. rewrite (M_bind_Ok _ _ f f f) in Hrun by done.
  cbn [RaftMeta fst] in Hrun. rewrite (proj2 (Z.leb_gt _ _) Hi), Hd, Hc in Hrun.
  set (f1 := set_f_store (UpdateInmemRaftMeta (log_Index log) (log_Term log) (f_store f)) f) in *.
  rewrite (M_bind_Ok _ _ f f1 tt) in Hrun by done.
  pose proof (dispatch_ai now now2 cmd f1) as Hai. unfold mbind, M_bind at 1 in Hrun.
  destruct (dispatch now now2 cmd f1) as [f2 [r|e|]]; [|done..]. cbn [fst] in Hai. cbv zeta in Hrun.
  destruct (r_Error (set_raft _ _ _ r)).
  - injection Hrun as <- <-. split; [exact Hai|by eexists].
  - pose proof (on_f_store_ai _ PersistRaftMeta_ai f2) as Hp. unfold M_bind in Hrun.
    destruct (on_f_store PersistRaftMeta f2) as [f3 [[]|e|]]; [|done..]. cbn [fst] in Hp.
    injection Hrun as <- <-. split; [|by eexists]. transitivity (ai_f f3); [done|]. by rewrite Hp, Hai.
Qed.

(** C18: A log entry is applied at most once: after an entry that decodes and checks has
    been applied, the state machine's index is the entry's, the result carries the
    entry's index and term and this node's id, and applying this or any earlier entry
    again changes nothing and returns the empty result. *)
Theorem fsm_apply_once (now now2 : Z) (log : Log) (cmd : Command) (f f' : fsm) (res : Result) :
  applyIndex (f_store f) < log_Index log -> decode (log_Data log) = Ok cmd -> Command_Check cmd = None ->
  Apply now now2 log f = (f', Ok res) ->
  (RaftMeta (f_store f')).1 = log_Index log /\
  h_RaftIndex (r_Header res) = log_Index log /\ h_RaftTerm (r_Header res) = log_Term log /\
  h_NodeID (r_Header res) = f_me f /\
  forall n1 n2 log', log_Index log' <= log_Index log -> Apply n1 n2 log' f' = (f', Ok empty_result).
Proof.
  intros Hi Hd Hc Hrun. destruct (Apply_meta _ _ _ _ _ _ _ Hi Hd Hc Hrun) as [[= Hai _] (r0 & ->)].
  split_and!; [exact Hai|done..|].
  intros n1 n2 log' Hle. unfold Apply. rewrite (M_bind_Ok _ _ f' f' f') by done.
  cbn [RaftMeta fst]. by rewrite (proj2 (Z.leb_le _ _)) by lia.
Qed.

Lemma or_error_run {X} (m : M fsm X) (k : X -> Result) (f : fsm) :
  or_error m k f = let '(f', r) := m f in
    (f', match r with Ok x => Ok (k x) | Err e => Ok (error_result e) | Panicked => Panicked end).
Proof. unfold or_error, mbind, M_bind, try. by destruct (m f) as [f' [x|e|]]. Qed.

(** ** What results carry *)

(** Every value a handler returns satisfies [P]. *)
Definition returns {S X} (P : X -> Prop) (m : M S X) : Prop := forall s x, (m s).2 = Ok x -> P x.

Lemma returns_bind {S X Y} (P : Y -> Prop) (m : M S X) (k : X -> M S Y) :
  (forall x, returns P (k x)) -> returns P (m ≫= k).
Proof.
  intros Hk s y. unfold mbind, M_bind. destruct (m s) as [s' [x|e|]]; [apply Hk|done..].
Qed.
Lemma returns_ret {S X} (P : X -> Prop) (x : X) : P x -> returns P (mret (M := M S) x).
Proof. by intros ? s y [= <-]. Qed.
Lemma returns_panic {S X} (P : X -> Prop) : returns P (lift (St := S) (A := X) Panicked).
Proof. done. Qed.

Definition plain (r : Result) : Prop := r_Error r = None /\ r_LeaseExpire r = None.

Lemma ApplyWrite_plain cmd (e : Engine T St B LeaseManager O) res :
  (ApplyWrite cmd e).2 = Ok res -> plain res.
Proof.
  assert (returns plain (apply_cmd (T := T) (St := St) (B := B) (A := LeaseManager) cmd)) as Hc.
  { unfold apply_cmd, deref. repeat case_match;
      first [apply returns_panic | apply returns_bind; intros ?; first [by apply returns_ret | apply returns_panic]]. }
  unfold ApplyWrite. destruct (NewWriter (e_store e)) as [w|er|]; [|done..].
  specialize (Hc (w, e_attacher e)). destruct (apply_cmd cmd (w, e_attacher e)) as [[w1 a1] [r|er|]]; [| |done].
  - specialize (Hc r eq_refl). destruct (End_ w1) as [w2 [[]|er|]]; [|done..]. intros [= <-]. exact Hc.
  - destruct (Abort w1) as [w2 [[]|?|]]; done.
Qed.

(** ** Key-value commands *)

Abbreviation live := (gmap bytes Entry).

Lemma UpdateInmem_inv (i t : Z) (s : kvs) (m : live) :
  kv_inv s -> kv_live s m -> kv_inv (UpdateInmemRaftMeta i t s) /\ kv_live (UpdateInmemRaftMeta i t s) m.
Proof. intros [H1 H2 H3 H4 H5 H6 H7 H8 H9] Hl. split; [by split|exact Hl]. Qed.

(** Persisting the index never fails and does not touch the entries. *)
Lemma PersistRaftMeta_other (s : kvs) :
  kv_inv s ->
  exists b, PersistRaftMeta s = (set_backend b s, Ok tt) /\ be_ok b /\ be_batch b = None /\
    kv_map (be_view b) = kv_map (be_view (kv_backend s)) /\ dom (be_view b) = dom (be_view (kv_backend s)).
Proof.
  intros Hs. destruct (Lock_spec (kv_backend s) (ki_be s Hs)) as (b1 & Hlock & Htx1 & Hst1 & Hp1).
  assert (forall b, be_store b = be_store b1 -> BucketMeta ∈ dom (be_view b)) as Hmeta.
  { intros b E. unfold be_view. rewrite E, Hst1. apply Hs. }
  destruct (UnsafePut_spec BucketMeta KeyRaftApplyIndex (Some (EncodeUint64 (applyIndex s))) b1 Htx1)
    as (b2 & Hput2 & Htx2 & Hst2 & Hp2); [by apply Hmeta|done|].
  destruct (UnsafePut_spec BucketMeta KeyRaftTerm (Some (EncodeUint64 (raftTerm s))) b2 Htx2)
    as (b3 & Hput3 & Htx3 & Hst3 & Hp3); [by apply Hmeta|done|].
  pose proof (Commit_spec b3 Htx3) as HC.
  unfold PersistRaftMeta, mbind, M_bind, try, get_st, on_backend. rewrite Hlock.
  cbn [fst snd kv_backend set_backend]. rewrite Hput2. cbn [fst snd kv_backend set_backend]. rewrite Hput3.
  cbn [fst snd kv_backend set_backend].
  assert (forall c, kv_map (c_put BucketMeta KeyRaftTerm (Some (EncodeUint64 (raftTerm s)))
      (c_put BucketMeta KeyRaftApplyIndex (Some (EncodeUint64 (applyIndex s))) c)) = kv_map c /\
    dom (c_put BucketMeta KeyRaftTerm (Some (EncodeUint64 (raftTerm s)))
      (c_put BucketMeta KeyRaftApplyIndex (Some (EncodeUint64 (applyIndex s))) c)) = dom c) as Hkeep.
  { intros c. unfold c_put. split; [|by rewrite !dom_alter_L].
    unfold kv_map. by rewrite !lookup_alter_ne by done. }
  destruct (Hkeep (be_view (kv_backend s))) as [K3 K4].
  destruct (Commit b3) as [b4 [info|e|]]; [| |done]; destruct HC as (Hok & Hba & Hv).
  - exists b4. split; [done|]. by rewrite Hv, Hp3, Hp2, Hp1.
  - exists b4. split; [done|]. rewrite Hv. unfold be_view. by rewrite Hst3, Hst2, Hst1.
Qed.
Lemma PersistRaftMeta_spec (s : kvs) (m : live) :
  kv_inv s -> kv_live s m ->
  exists s', PersistRaftMeta s = (s', Ok tt) /\ kv_inv s' /\ kv_live s' m /\ currentRev s' = currentRev s.
Proof.
  intros Hs Hl. destruct (PersistRaftMeta_other s Hs) as (b & Hrun & Hok & Hba & Hkv & Hdom).
  destruct (other_bucket_inv s b m Hs Hl Hok Hba Hkv Hdom). by eexists.
Qed.

Lemma kv_cmd_checked cmd : cmd_ok cmd -> Kind cmd ∈ [KindPut; KindDelete; KindTxn] /\ Command_Check cmd = None.
Proof.
  destruct cmd as [kind cp cd ct c1 c2 c3 c4 c5 c6 c7 c8 c9]. unfold cmd_ok. cbn [Kind cmd_Put cmd_Delete cmd_Txn].
  intros [[-> (p & -> & _)]|[[-> [d ->]]|[-> (t & -> & _)]]]; (split; [set_solver|reflexivity]).
Qed.

(** The store a command works on: the entry's index and term are already recorded. *)
Definition set_meta (log : Log) (f : fsm) : kvs := UpdateInmemRaftMeta (log_Index log) (log_Term log) (f_store f).

(** Apply on key-value commands, for its clients. *)
Lemma Apply_kv_spec (now now2 : Z) (log : Log) (cmd : Command) (f : fsm) (m : live) :
  applyIndex (f_store f) < log_Index log -> decode (log_Data log) = Ok cmd -> cmd_ok cmd ->
  kv_inv (f_store f) -> Main (currentRev (f_store f)) < MaxInt64 -> kv_live (f_store f) m ->
  Z.of_nat (cmd_size cmd) *
    (Z.of_nat (length (bt_Items (kvIndex (f_store f)))) + Z.of_nat (cmd_size cmd)) <= MaxInt64 ->
  exists f' res, Apply now now2 log f = (f', Ok res) /\ kv_inv (f_store f') /\
    match spec_cmd (Main (currentRev (f_store f)) + 1) (compactedMainRev (f_store f)) cmd m with
    | None => is_Some (r_Error res) /\ kv_live (f_store f') m /\ currentRev (f_store f') = currentRev (f_store f)
    | Some (m', changed) =>
        (r_Error res = None /\ kv_live (f_store f') m' /\
           h_Revision (r_Header res) = Main (currentRev (f_store f')) /\
           Main (currentRev (f_store f')) = Main (currentRev (f_store f)) + (if changed then 1 else 0)) \/
        (is_Some (r_Error res) /\ kv_live (f_store f') m /\ exists (w w' : wr) err, session (set_meta log f) w /\ End_ w = (w', Err err))
    end.
Proof.
  intros Hi Hd Hok Hs Hmax Hl Hroom. destruct (kv_cmd_checked cmd Hok) as [HK Hc].
  unfold Apply. rewrite (M_bind_Ok _ _ f f f) by done. cbn [RaftMeta fst].
  rewrite (proj2 (Z.leb_gt _ _) Hi), Hd, Hc.
  set (f1 := set_f_store (UpdateInmemRaftMeta (log_Index log) (log_Term log) (f_store f)) f).
  rewrite (M_bind_Ok _ _ f f1 tt) by done.
  destruct (UpdateInmem_inv (log_Index log) (log_Term log) _ m Hs Hl) as [Hs1 Hl1].
  destruct (ApplyWrite_refines cmd (mkEngine (f_store f1) (f_lm f1) (f_commit_obs f1)) m Hs1 Hmax Hl1 Hok Hroom)
    as (e' & r & Hrun & Hinv & Hspec). cbn [e_store f_store f1 set_f_store] in Hspec.
  assert (dispatch now now2 cmd f1 = (mkFsm (f_me f1) (e_store e') (e_attacher e') (f_om f1) (e_obs e')
    (f_writeObservers f1) (f_background f1),
    match r with Ok x => Ok x | Err err => Ok (error_result err) | Panicked => Panicked end)) as Hdisp.
  { unfold dispatch, applyKv. rewrite !bool_decide_eq_true_2 by done. rewrite or_error_run. unfold on_engine.
    by rewrite Hrun. }
  unfold mbind, M_bind at 1. rewrite Hdisp. cbv zeta. clear Hdisp.
  cbn [currentRev UpdateInmemRaftMeta compactedMainRev] in Hspec.
  destruct (spec_cmd _ _ cmd m) as [[m' changed]|].
  - destruct Hspec as [(ch & res & -> & Hl' & _ & _ & Hcur & Hrev)|(w & w' & err & Hse & HE & -> & Hl' & _)].
    + destruct (ApplyWrite_plain cmd _ res (f_equal snd Hrun)) as [Herr _].
      cbn [r_Error set_raft]. rewrite Herr. unfold M_bind, on_f_store. cbn [f_store].
      destruct (PersistRaftMeta_spec _ _ Hinv Hl') as (s' & -> & Hinv' & Hl'' & Hcur').
      do 2 eexists. split; [reflexivity|]. split; [exact Hinv'|]. left.
      cbn [r_Error set_raft f_store set_f_store r_Header h_Revision]. rewrite Hcur'.
      split; [done|]. split; [exact Hl''|]. split; [exact Hrev|]. rewrite Hcur. destruct changed; simpl; lia.
    + do 2 eexists. split; [reflexivity|]. split; [exact Hinv|]. right.
      split; [by eexists|]. split; [exact Hl'|by exists w, w', err].
  - destruct Hspec as ((err & ->) & Hl' & _ & Hcur & _). do 2 eexists. split; [reflexivity|].
    split; [exact Hinv|]. split; [by eexists|]. split; [exact Hl'|exact Hcur].
Qed.

(** C4: Applying the log entry of a put, delete or transaction is one step of the abstract
    map of live entries. A command its specification rejects yields a result with an
    error and leaves the map; one it accepts installs the specified map, makes a new revision
    exactly if the specification says it changes something and answers with the store's
    revision, unless the commit of the store fails, which again leaves
    the map and reports the error. Apply does not panic. *)
Theorem fsm_kv_refines (now now2 : Z) (log : Log) (cmd : Command) (f : fsm) (m : live) :
  applyIndex (f_store f) < log_Index log -> decode (log_Data log) = Ok cmd -> cmd_ok cmd ->
  kv_inv (f_store f) -> Main (currentRev (f_store f)) < MaxInt64 -> kv_live (f_store f) m ->
  Z.of_nat (cmd_size cmd) *
    (Z.of_nat (length (bt_Items (kvIndex (f_store f)))) + Z.of_nat (cmd_size cmd)) <= MaxInt64 ->
  exists f' res, Apply now now2 log f = (f', Ok res) /\ kv_inv (f_store f') /\
    match spec_cmd (Main (currentRev (f_store f)) + 1) (compactedMainRev (f_store f)) cmd m with
    | None => is_Some (r_Error res) /\ kv_live (f_store f') m /\ currentRev (f_store f') = currentRev (f_store f)
    | Some (m', changed) =>
        (r_Error res = None /\ kv_live (f_store f') m' /\
           h_Revision (r_Header res) = Main (currentRev (f_store f')) /\
           Main (currentRev (f_store f')) = Main (currentRev (f_store f)) + (if changed then 1 else 0)) \/
        (is_Some (r_Error res) /\ kv_live (f_store f') m /\ exists (w w' : wr) err, session (set_meta log f) w /\ End_ w = (w', Err err))
    end.
Proof. apply Apply_kv_spec. Qed.

(** ** Expirations *)

Lemma returns_or_error {X} (P : Result -> Prop) (m : M fsm X) (k : X -> Result) :
  (forall f x, (m f).2 = Ok x -> P (k x)) -> (forall e, P (error_result e)) -> returns P (or_error m k).
Proof.
  intros Hk He f r. rewrite or_error_run. specialize (Hk f). destruct (m f) as [f' [x|e|]]; [| |done]; intros [= <-].
  - by apply Hk.
  - apply He.
Qed.

Lemma dispatch_no_expire now now2 cmd : returns (fun r => r_LeaseExpire r = None) (dispatch now now2 cmd).
Proof.
  unfold dispatch, applyKv, applyLease, applyCompaction, applyOT, deref.
  repeat case_match; try apply returns_panic;
    try (apply returns_or_error; [|done]; by intros ? ? _).
  - apply returns_or_error; [|done]. intros f x. unfold on_engine.
    pose proof (ApplyWrite_plain cmd (mkEngine (f_store f) (f_lm f) (f_commit_obs f)) x) as Hp.
    destruct (ApplyWrite cmd _) as [e' r]. intros Hr. by apply Hp.
  - apply returns_bind. intros [job|e]; [apply returns_bind; intros _|]; by apply returns_ret.
Qed.

Lemma Apply_no_expire now now2 log f f' res : Apply now now2 log f = (f', Ok res) -> r_LeaseExpire res = None.
Proof.
  intros Hrun. apply (f_equal snd) in Hrun. simpl in Hrun. revert f res Hrun. 
  change (returns (fun r => r_LeaseExpire r = None) (Apply now now2 log)).
  unfold Apply. apply returns_bind. intros f. case_match; [by apply returns_ret|].
  destruct (decode (log_Data log)) as [cmd|e|]; [|by apply returns_ret|apply returns_panic].
  destruct (Command_Check cmd); [by apply returns_ret|]. apply returns_bind. intros _.
  intros f1 x. unfold mbind, M_bind at 1. pose proof (dispatch_no_expire now now2 cmd f1) as Hd.
  destruct (dispatch now now2 cmd f1) as [f2 [r|e|]]; [|done..]. specialize (Hd r eq_refl). cbv zeta.
  revert f2 x. change (returns (fun r => r_LeaseExpire r = None)
    (match r_Error (set_raft (log_Term log) (log_Index log) (f_me f) r) with
     | Some _ => mret (set_raft (log_Term log) (log_Index log) (f_me f) r)
     | None => on_f_store PersistRaftMeta ≫= fun _ =>
         notify_write (h_Revision (r_Header (set_raft (log_Term log) (log_Index log) (f_me f) r))) ≫= fun _ =>
         mret (set_raft (log_Term log) (log_Index log) (f_me f) r)
     end)).
  case_match; [by apply returns_ret|]. do 2 (apply returns_bind; intros _). by apply returns_ret.
Qed.

(** The expiry loop never sees a successful expiration: the state machine keeps the
    sub-result only when the expiration failed, so whatever Apply answers to the loop's
    proposal, a tick ends with a skip, a failure or a nil result. *)
Theorem expiry_success_unreported (propose : Command -> M (LeaseManager * kvs) Result)
    (now : Z) (st : LeaseManager * kvs) :
  (forall cmd sy sy' res, propose cmd sy = (sy', Ok res) ->
     exists t t2 log f f', Apply t t2 log f = (f', Ok res)) ->
  (ex_tick propose now st).2 <> Ok Applied.
Proof.
  intros Hp Hrun. unfold ex_tick, mbind, M_bind at 1 in Hrun.
  destruct (DrainExpiredLeases now st) as [st1 [ids|e|]]; [|done..].
  destruct (length ids =? 0)%nat; [done|]. unfold M_bind, try in Hrun. specialize (Hp (expire_cmd ids) st1).
  destruct (propose (expire_cmd ids) st1) as [sy' [res|e|]]; [|done..].
  destruct (Hp _ _ eq_refl) as (t & t2 & log & f & f' & HA). rewrite (Apply_no_expire _ _ _ _ _ _ HA) in Hrun.
  by destruct (r_Error res).
Qed.

End Fsm.

(** ** Witnesses *)

Abbreviation inmem_fsm := (Fsm (list keyIndex) (InmemStore (list Item)) inmemBatch (list (list Entry)) CompactionScheduler).

Definition fsm0 : inmem_fsm := mkFsm "n1" kv0 NewManager ot1 [[]] [NewScheduler None] [].
Definition put_decode (data : bytes) : res Command := Ok (put_cmd (put_a 0)).
Definition log1 : Log := mkLog 1 1 [].

Lemma put_a_ok : cmd_ok (put_cmd (put_a 0)).
Proof.
  left. split; [reflexivity|]. exists (put_a 0). split; [reflexivity|]. split; [discriminate|].
  apply (k_a_args (Some [Byte.x01])). reflexivity.
Qed.

Lemma fsm_apply_once_witness :
  exists f' res, Apply put_decode 0 0 log1 fsm0 = (f', Ok res) /\
    (RaftMeta (f_store f')).1 = 1 /\ Apply put_decode 0 0 log1 f' = (f', Ok empty_result).
Proof.
  destruct (Apply put_decode 0 0 log1 fsm0) as [f' r] eqn:Hrun.
  assert (exists res, r = Ok res) as [res ->].
  { apply (f_equal snd) in Hrun. simpl in Hrun. rewrite <-Hrun. vm_compute. by eexists. }
  destruct (fsm_apply_once put_decode 0 0 log1 (put_cmd (put_a 0)) fsm0 f' res ltac:(vm_compute; reflexivity)
    eq_refl eq_refl Hrun) as (H1 & _ & _ & _ & H2).
  exists f', res. split; [done|]. split; [exact H1|]. apply H2. vm_compute. discriminate.
Defined.

Lemma fsm_kv_refines_witness :
  exists f' res, Apply put_decode 0 0 log1 fsm0 = (f', Ok res) /\ kv_inv (f_store f').
Proof.
  destruct (fsm_kv_refines put_decode 0 0 log1 (put_cmd (put_a 0)) fsm0 ∅ ltac:(vm_compute; reflexivity)
    eq_refl put_a_ok kv0_inv kv0_room kv0_live ltac:(vm_compute; discriminate)) as (f' & res & H1 & H2 & _).
  exists f', res. split; [exact H1|exact H2].
Defined.

(** Every proposal is answered with the result of applying an expiration of lease 5. *)
Definition expire_decode (data : bytes) : res Command := Ok (expire_cmd [5]).
Definition answer (cmd : Command) : M inmem_sys Result := fun st =>
  (st, (Apply expire_decode 0 0 log1 fsm0).2).

Lemma expiry_success_unreported_witness : (ex_tick answer (2 * Second) (lm5, kv0)).2 <> Ok Applied.
Proof.
  apply (expiry_success_unreported expire_decode answer). intros cmd sy sy' res Hrun.
  unfold answer in Hrun. destruct (Apply expire_decode 0 0 log1 fsm0) as [f' r] eqn:E.
  cbn [snd] in Hrun. injection Hrun as _ ->. exists 0, 0, log1, fsm0, f'. exact E.
Defined.
