(* ===== verification/Replicas.v ===== *)
(** Replicas: several state machines ([Fsm], internal/fsm/fsm.go) fed with one Raft log.
    Raft hands every replica the same committed entries in the same order; each replica has
    its own store, index and clock. The runs of key-value commands are compared through an
    abstract machine over (live entries, revision). *)

From S2P Require Import Prelude OrdTree KvTypes KeyIndex TreeIndex Storage Inmem Backend Mvcc MvccInv Compaction Api Engine Heap Lease LeaseInv Ot Loops Fsm.
From Stdlib Require Import ZArith Lia.
From stdpp Require Import base gmap sets list strings sorting.
Open Scope Z_scope.

Abbreviation live := (gmap bytes Entry).

(** ** The abstract machine *)

(** A command: the new state, and the revision it is answered with unless it is rejected. *)
Definition abs_apply (compacted : Z) (cmd : Command) (st : live * Z) : (live * Z) * option Z :=
  match spec_cmd (st.2 + 1) compacted cmd st.1 with
  | None => (st, None)
  | Some (m', changed) => let rev := st.2 + (if changed then 1 else 0) in ((m', rev), Some rev)
  end.

Fixpoint abs_run (compacted : Z) (cmds : list Command) (st : live * Z) : (live * Z) * list (option Z) :=
  match cmds with
  | [] => (st, [])
  | cmd :: rest =>
      let '(st1, out) := abs_apply compacted cmd st in
      let '(st2, outs) := abs_run compacted rest st1 in (st2, out :: outs)
  end.

(** What a client learns from a result: an error, or the revision of the write. *)
Definition outcome (res : Result) : option Z :=
  match r_Error res with Some _ => None | None => Some (h_Revision (r_Header res)) end.

(** Indices grow along a log that continues after index [i]. *)
Fixpoint after (i : Z) (logs : list Log) : Prop :=
  match logs with [] => True | l :: rest => i < log_Index l /\ after (log_Index l) rest end.

Section Replay.
Context {T St B O W Snap : Type} {BT : BTree Less T} {BS : ByteStore St B} {MO : MapOrder}.
Context {CO : CommitObserver O} {WO : WriteObserver (KvStore T St B) W} {SS : SnapshotStore St Snap}.
Abbreviation kvs := (KvStore T St B).
Abbreviation fsm := (Fsm T St B O W).
Variable decode : bytes -> res Command.
(** The clock readings of this replica while it applies an entry. *)
Variable clock : Log -> Z * Z.

(** Raft feeding committed entries to the state machine. *)
Fixpoint apply_log (logs : list Log) : M fsm (list Result) :=
  match logs with
  | [] => mret []
  | l :: rest =>
      Apply decode (clock l).1 (clock l).2 l ≫= fun r =>
      apply_log rest ≫= fun rs => mret (r :: rs)
  end.

(** The machine integers do not run out on the way. *)
Definition fits1 (cmd : Command) (s : kvs) : Prop :=
  Main (currentRev s) < MaxInt64 /\
  Z.of_nat (cmd_size cmd) * (Z.of_nat (length (bt_Items (kvIndex s))) + Z.of_nat (cmd_size cmd)) <= MaxInt64.
Fixpoint fits (logs : list Log) (cmds : list Command) (f : fsm) : Prop :=
  match logs, cmds with
  | l :: logs, cmd :: cmds =>
      fits1 cmd (f_store f) /\ fits logs cmds (Apply decode (clock l).1 (clock l).2 l f).1
  | _, _ => True
  end.

(** A replica at an abstract state. *)
Record at_state (f : fsm) (st : live * Z) : Prop := {
  as_inv : kv_inv (f_store f);
  as_live : kv_live (f_store f) st.1;
  as_rev : Main (currentRev (f_store f)) = st.2 }.

Lemma End_succeeds (s : kvs) (w w' : writer T St B) err :
  @commits_succeed St B _ -> session s w -> End_ w <> (w', Err err).
Proof.
  intros Hc Hse. pose proof (se_inv s w Hse) as Hinv.
  destruct (end_prepare_run w Hinv) as (b' & Hprep & Htx & _).
  unfold End_. rewrite (M_bind_Ok _ _ _ _ _ (eq_refl : get_st w = (w, Ok w))).
  fold (end_prepare w). rewrite (M_bind_Ok _ _ _ _ _ Hprep). cbv zeta.
  unfold mbind, M_bind, try, on_store, on_backend. cbn [w_store set_store kv_backend set_backend].
  destruct (Hc b' Htx) as (b2 & i & ->). done.
Qed.

Lemma Apply_refines (l : Log) (cmd : Command) (f : fsm) (st : live * Z) :
  @commits_succeed St B _ -> at_state f st -> applyIndex (f_store f) < log_Index l ->
  decode (log_Data l) = Ok cmd -> cmd_ok cmd -> fits1 cmd (f_store f) ->
  exists f' res, Apply decode (clock l).1 (clock l).2 l f = (f', Ok res) /\
    applyIndex (f_store f') = log_Index l /\ compactedMainRev (f_store f') = compactedMainRev (f_store f) /\
    let '(st', out) := abs_apply (compactedMainRev (f_store f)) cmd st in
    at_state f' st' /\ outcome res = out.
Proof.
  intros Hc [Hinv Hl Hr] Hi Hd Hok [Hmax Hroom]. destruct st as [m rev]. cbn [fst snd] in *.
  destruct (Apply_kv_spec decode (clock l).1 (clock l).2 l cmd f m Hi Hd Hok Hinv Hmax Hl Hroom)
    as (f' & res & Hrun & Hinv' & Hspec).
  destruct (Apply_meta decode _ _ _ _ _ _ _ Hi Hd (proj2 (kv_cmd_checked cmd Hok)) Hrun) as [[= Hai Hco] _].
  exists f', res. split; [done|]. split; [done|]. split; [done|]. unfold abs_apply. cbn [fst snd]. rewrite Hr in Hspec.
  destruct (spec_cmd _ _ cmd m) as [[m' ch]|].
  - destruct Hspec as [(He & Hl' & Hh & Hrev)|(_ & _ & w & w' & err & Hse & HE)].
    + split; [by split|]. unfold outcome. by rewrite He, Hh, Hrev.
    + by apply (End_succeeds _ _ _ _ Hc Hse) in HE.
  - destruct Hspec as ([err He] & Hl' & Hrev). split; [split; [done|done|by rewrite Hrev]|]. unfold outcome. by rewrite He.
Qed.

Lemma replay_refines (logs : list Log) (cmds : list Command) (f : fsm) (st : live * Z) :
  @commits_succeed St B _ -> at_state f st -> after (applyIndex (f_store f)) logs ->
  Forall2 (fun l cmd => decode (log_Data l) = Ok cmd /\ cmd_ok cmd) logs cmds -> fits logs cmds f ->
  exists f' rs, apply_log logs f = (f', Ok rs) /\
    let '(st', outs) := abs_run (compactedMainRev (f_store f)) cmds st in
    at_state f' st' /\ outcome <$> rs = outs.
Proof.
  intros Hc Hst Haft HF. revert f st Hst Haft.
  induction HF as [|l cmd logs cmds [Hd Hok] _ IH]; intros f st Hst Haft Hfit; [by exists f, []|].
  destruct Haft as [Hi Haft], Hfit as [Hf1 Hfit].
  destruct (Apply_refines l cmd f st Hc Hst Hi Hd Hok Hf1) as (f1 & r & Hrun & Hai & Hco & Habs).
  rewrite Hrun in Hfit. cbn [abs_run]. destruct (abs_apply _ cmd st) as [st1 out]. destruct Habs as [Hst1 Hout].
  destruct (IH f1 st1 Hst1) as (f2 & rs & Hrun2 & Habs2); [by rewrite Hai|done|]. rewrite Hco in Habs2.
  destruct (abs_run _ cmds st1) as [st2 outs]. destruct Habs2 as [Hst2 Houts].
  exists f2, (r :: rs). split; [|by rewrite fmap_cons, Hout, Houts].
  cbn [apply_log]. rewrite (M_bind_Ok _ _ _ _ _ Hrun), (M_bind_Ok _ _ _ _ _ Hrun2). done.
Qed.

End Replay.

(** A transaction that reads a compacted revision is refused, whatever its other operations. *)
Lemma spec_ops_compacted (rev compacted : Z) (ops : list TxnOp) (st : live * bool) (op : TxnOp) q :
  op ∈ ops -> op_Type op = TxnOpRange -> op_Range op = Some q -> 0 < rr_Revision q < compacted ->
  spec_ops rev compacted ops st = None.
Proof.
  intros Hin Ht Hq Hr. revert st. induction ops as [|o ops IH]; intros st; [by apply not_elem_of_nil in Hin|].
  cbn [spec_ops]. apply elem_of_cons in Hin as [<-|Hin].
  - assert (spec_op rev compacted op st = None) as ->; [|done]. unfold spec_op. destruct (TxnOp_Check op); [done|].
    rewrite Ht, Hq. simpl. rewrite (proj2 (Z.leb_gt (rr_Revision q) 0)), (proj2 (Z.leb_gt compacted _)) by lia.
    by rewrite andb_false_r.
  - destruct (spec_op rev compacted o st) as [st'|]; [|done]. by apply IH.
Qed.

Section Timing.
Context {T St B O W Snap : Type} {BT : BTree Less T} {BS : ByteStore St B} {MO : MapOrder}.
Context {CO : CommitObserver O} {WO : WriteObserver (KvStore T St B) W} {SS : SnapshotStore St Snap}.
Variable decode : bytes -> res Command.
Variable clock : Log -> Z * Z.

(** C37: Replicas can diverge once compactions run. Compact only schedules the work, and the
    goroutine that raises the compacted revision is not ordered with the log. Let a state
    machine have a compaction to [target] pending, and let the next entry of the log be a
    transaction that writes and whose executed branch reads a revision below [target] that
    was not compacted before. A replica on which the goroutine has finished refuses the
    transaction and keeps its entries and revision; one on which it is still pending
    commits it as a new revision. (No key is deleted and re-created in one transaction;
    commits succeed.) *)
Theorem compaction_timing_diverges (f : Fsm T St B O W) (l : Log) (cmd : Command) (t : TxnRequest)
    (op : TxnOp) (q : RangeRequest) (m m' : live) (rev target : Z) (rest : list (Z * Z)) :
  @commits_succeed St B _ -> at_state f (m, rev) ->
  bucket_keys (kv_map (be_view (kv_backend (f_store f)))) -> (forall k, clean (hist (kvIndex (f_store f)) k)) ->
  f_background f = (target, compactedMainRev (f_store f)) :: rest ->
  0 <= compactedMainRev (f_store f) < target -> target <= rev ->
  applyIndex (f_store f) < log_Index l -> decode (log_Data l) = Ok cmd -> cmd_ok cmd ->
  Kind cmd = KindTxn -> cmd_Txn cmd = Some t ->
  op ∈ (if spec_condition m (tx_Comparisons t) then tx_Success t else tx_Failure t) ->
  op_Type op = TxnOpRange -> op_Range op = Some q -> 0 < rr_Revision q < target ->
  spec_cmd (rev + 1) (compactedMainRev (f_store f)) cmd m = Some (m', true) ->
  let f1 := (run_background f).1 in
  fits1 cmd (f_store f) -> fits1 cmd (f_store f1) ->
  (exists g res, Apply decode (clock l).1 (clock l).2 l f1 = (g, Ok res) /\ outcome res = None /\ at_state g (m, rev)) /\
  (exists g res, Apply decode (clock l).1 (clock l).2 l f = (g, Ok res) /\ outcome res = Some (rev + 1) /\
     at_state g (m', rev + 1)).
Proof.
  intros Hc Hst Hkeys Hcl Hbg Hco Htr Hi Hd Hok Hk Ht Hin Hty Hq Hr Hspec f1 Hfit Hfit1.
  pose proof Hst as [Hinv Hl Hrev]. cbn [fst snd] in Hl, Hrev. pose proof Hfit as [Hmax _]. rewrite Hrev in Hmax.
  destruct (doCompact_run (f_store f) target Hinv Hkeys Hc Hcl Hco) as (s' & Hrun & Hinv' & Hco' & Hcur & Hai & Hlive & _).
  { by rewrite Hrev. }
  assert (f_store f1 = s') as Es.
  { unfold f1, run_background, mbind, M_bind, get_st, modify. rewrite Hbg. unfold on_f_store. cbn [f_store]. by rewrite Hrun. }
  split.
  - destruct (Apply_refines decode clock l cmd f1 (m, rev) Hc) as (g & res & HA & _ & _ & Habs); try done.
    { split; cbn [fst snd]; rewrite Es; [done|by apply Hlive|by rewrite Hcur]. }
    { by rewrite Es, Hai. }
    assert (abs_apply (compactedMainRev (f_store f1)) cmd (m, rev) = ((m, rev), None)) as Ea.
    { unfold abs_apply, spec_cmd. rewrite Hk, Ht, Es, Hco'. cbn [fst snd]. simpl.
      by rewrite (spec_ops_compacted _ _ _ _ op q). }
    rewrite Ea in Habs. destruct Habs. by exists g, res.
  - destruct (Apply_refines decode clock l cmd f (m, rev) Hc Hst Hi Hd Hok Hfit) as (g & res & HA & _ & _ & Habs).
    unfold abs_apply in Habs. cbn [fst snd] in Habs. rewrite Hspec in Habs. destruct Habs. by exists g, res.
Qed.
End Timing.

Section Agreement.
Context {T1 St1 B1 O1 W1 Snap1 : Type} {BT1 : BTree Less T1} {BS1 : ByteStore St1 B1} {MO1 : MapOrder}.
Context {CO1 : CommitObserver O1} {WO1 : WriteObserver (KvStore T1 St1 B1) W1} {SS1 : SnapshotStore St1 Snap1}.
Context {T2 St2 B2 O2 W2 Snap2 : Type} {BT2 : BTree Less T2} {BS2 : ByteStore St2 B2} {MO2 : MapOrder}.
Context {CO2 : CommitObserver O2} {WO2 : WriteObserver (KvStore T2 St2 B2) W2} {SS2 : SnapshotStore St2 Snap2}.
Variable decode : bytes -> res Command.

(** C3: Replicas agree. Two state machines, each with its own index, storage (in memory or
    on disk) and clock, that hold the same live entries at the same revision and have
    compacted up to the same revision stay in agreement on every log of puts, deletes and
    transactions: after it both hold the same live entries at the same revision, namely those the abstract
    machine computes, and they have answered every command alike, with an error on both or
    with the same revision on both, provided that their commits succeed. *)
Theorem replicas_agree (clock1 clock2 : Log -> Z * Z) (logs : list Log) (cmds : list Command)
    (f1 : Fsm T1 St1 B1 O1 W1) (f2 : Fsm T2 St2 B2 O2 W2) (st : live * Z) :
  @commits_succeed St1 B1 _ -> @commits_succeed St2 B2 _ ->
  at_state f1 st -> at_state f2 st ->
  compactedMainRev (f_store f1) = compactedMainRev (f_store f2) ->
  after (applyIndex (f_store f1)) logs -> after (applyIndex (f_store f2)) logs ->
  Forall2 (fun l cmd => decode (log_Data l) = Ok cmd /\ cmd_ok cmd) logs cmds ->
  fits decode clock1 logs cmds f1 -> fits decode clock2 logs cmds f2 ->
  exists f1' f2' rs1 rs2,
    apply_log decode clock1 logs f1 = (f1', Ok rs1) /\ apply_log decode clock2 logs f2 = (f2', Ok rs2) /\
    let '(st', outs) := abs_run (compactedMainRev (f_store f1)) cmds st in
    at_state f1' st' /\ at_state f2' st' /\ outcome <$> rs1 = outs /\ outcome <$> rs2 = outs.
Proof.
  intros Hc1 Hc2 Hs1 Hs2 Hco Ha1 Ha2 HF Hf1 Hf2.
  destruct (replay_refines decode clock1 logs cmds f1 st Hc1 Hs1 Ha1 HF Hf1) as (f1' & rs1 & Hr1 & H1).
  destruct (replay_refines decode clock2 logs cmds f2 st Hc2 Hs2 Ha2 HF Hf2) as (f2' & rs2 & Hr2 & H2).
  exists f1', f2', rs1, rs2. rewrite <-Hco in H2. destruct (abs_run _ cmds st) as [st' outs].
  destruct H1, H2. by split_and!.
Qed.
End Agreement.

(** ** Concrete runs *)

(** A replica without schedulers on another machine, at another time. *)
Definition fsm0' : inmem_fsm := mkFsm "n2" kv0 NewManager ot1 [] [] [].
Definition log2 : Log := mkLog 2 1 [].
Definition clock_at (t : Z) (l : Log) : Z * Z := (t, t + 1).

Lemma fsm0_at : at_state fsm0 (∅, 0) /\ at_state fsm0' (∅, 0).
Proof. split; (split; [exact kv0_inv|exact kv0_live|reflexivity]). Qed.

Lemma replicas_agree_witness :
  exists f1' f2' rs1 rs2,
    apply_log put_decode (clock_at 0) [log1; log2] fsm0 = (f1', Ok rs1) /\
    apply_log put_decode (clock_at 1000) [log1; log2] fsm0' = (f2', Ok rs2) /\
    Main (currentRev (f_store f1')) = Main (currentRev (f_store f2')) /\ outcome <$> rs1 = outcome <$> rs2.
Proof.
  destruct (replicas_agree put_decode (clock_at 0) (clock_at 1000) [log1; log2]
    [put_cmd (put_a 0); put_cmd (put_a 0)] fsm0 fsm0' (∅, 0)) as (f1' & f2' & rs1 & rs2 & H1 & H2 & H3).
  - exact inmem_commits_succeed.
  - exact inmem_commits_succeed.
  - apply fsm0_at.
  - apply fsm0_at.
  - reflexivity.
  - vm_compute. by split_and!.
  - vm_compute. by split_and!.
  - repeat (apply Forall2_cons_2; [split; [reflexivity|apply put_a_ok]|]). apply Forall2_nil_2.
  - vm_compute. by repeat split.
  - vm_compute. by repeat split.
  - exists f1', f2', rs1, rs2. split; [exact H1|]. split; [exact H2|].
    destruct (abs_run _ _ _) as [st' outs]. destruct H3 as (A1 & A2 & -> & ->).
    split; [|reflexivity]. by rewrite (as_rev _ _ A1), (as_rev _ _ A2).
Defined.

(** Key a at revisions 1 and 2, a compaction to revision 2 pending; a transaction that reads
    a at revision 1 and puts b. *)
Definition fsm_pending : inmem_fsm := mkFsm "n1" kv2 NewManager ot1 [] [] [(2, 0)].
Definition read_a1 : TxnOp := op_range (mkRange k_a None 0 true 1 false false).
Definition put_b : PutRequest := mkPut k_b (Some [Byte.x02]) 0 false false false.
Definition read_then_put : Command := txn_cmd (mkTxn [] [read_a1; op_put put_b] []).
Definition txn_decode (data : bytes) : res Command := Ok read_then_put.

Definition kv2_entry : Entry := stored (mkEntry k_a (Some [Byte.x02]) 1 2 2 0).

(** The only key of the store is a. *)
Lemma kv2_hist k : k <> k_a -> hist (kvIndex kv2) k = [].
Proof.
  intros Hk. unfold hist. destruct (find_key key k (bt_Items (kvIndex kv2))) as [ki|] eqn:E; [|done].
  apply find_key_Some in E as [Hin <-].
  match type of Hin with _ ∈ ?l =>
    assert (forallb (fun ki => bool_decide (key ki = k_a)) l = true) as Hall by (vm_compute; reflexivity) end.
  rewrite forallb_forall in Hall. apply list_elem_of_In, Hall, bool_decide_eq_true in Hin. done.
Qed.
Lemma kv2_live : kv_live kv2 {[k_a := kv2_entry]}.
Proof.
  intros k. destruct (decide (k = k_a)) as [->|Hne]; [|rewrite kv2_hist by done; by apply lookup_singleton_ne].
  destruct (last (hist (kvIndex kv2) k_a)) as [e|] eqn:E; vm_compute in E; [injection E as <-|discriminate].
  cbn [ke_tomb]. exists (mkEntry k_a (Some [Byte.x02]) 1 2 2 0). split; [vm_compute; reflexivity|].
  split; [|vm_compute; reflexivity]. split; [reflexivity|reflexivity| |split; reflexivity].
  by apply (bool_decide_unpack _).
Qed.
Lemma kv2_clean k : clean (hist (kvIndex kv2) k).
Proof.
  destruct (decide (k = k_a)) as [->|Hne]; [|rewrite kv2_hist by done; apply clean_live; constructor].
  apply clean_live. destruct (hist (kvIndex kv2) k_a) as [|? l] eqn:E; [constructor|]. vm_compute in E. injection E as <- <-.
  repeat constructor.
Qed.
Lemma read_then_put_ok : cmd_ok read_then_put.
Proof.
  right. right. split; [reflexivity|]. eexists. split; [reflexivity|]. split; [constructor|]. split; [|constructor].
  constructor; [by intros p|]. constructor; [|constructor]. intros p [= <-]. by apply key_args.
Qed.

Lemma compaction_timing_diverges_witness :
  (exists g res, Apply txn_decode (clock_at 0 log1).1 (clock_at 0 log1).2 log1 (run_background fsm_pending).1 = (g, Ok res) /\ outcome res = None) /\
  (exists g res, Apply txn_decode (clock_at 0 log1).1 (clock_at 0 log1).2 log1 fsm_pending = (g, Ok res) /\ outcome res = Some 3).
Proof.
  destruct (spec_cmd 3 0 read_then_put {[k_a := kv2_entry]}) as [[m' ch]|] eqn:Hspec;
    [|apply (f_equal (fmap snd)) in Hspec; vm_compute in Hspec; discriminate].
  assert (Some ch = Some true) as [= ->] by (apply (f_equal (fmap snd)) in Hspec; symmetry; vm_compute in Hspec; exact Hspec).
  destruct (compaction_timing_diverges txn_decode (clock_at 0) fsm_pending log1 read_then_put
    (mkTxn [] [read_a1; op_put put_b] []) read_a1 (mkRange k_a None 0 true 1 false false)
    {[k_a := kv2_entry]} m' 2 2 []) as [(g & res & H1 & H2 & _) (g' & res' & H3 & H4 & _)].
  - exact inmem_commits_succeed.
  - split; [apply kv2_good|exact kv2_live|reflexivity].
  - apply kv2_good.
  - exact kv2_clean.
  - reflexivity.
  - vm_compute. split; [discriminate|reflexivity].
  - lia.
  - vm_compute. reflexivity.
  - reflexivity.
  - exact read_then_put_ok.
  - reflexivity.
  - reflexivity.
  - left.
  - reflexivity.
  - reflexivity.
  - simpl. lia.
  - exact Hspec.
  - vm_compute. split; [reflexivity|discriminate].
  - vm_compute. split; [reflexivity|discriminate].
  - split; [exists g, res; split; [exact H1|exact H2]|exists g', res'; split; [exact H3|exact H4]].
Defined.
