(* ===== verification/Snapshots.v ===== *)
(** Snapshots between replicas: fsm_Snapshot and fsm_Restore of internal/fsm/fsm.go. A
    replica that installs the snapshot of another one continues from the same abstract
    state ([Replicas]). *)

From S2P Require Import Prelude OrdTree KvTypes KeyIndex TreeIndex Storage Inmem Backend Mvcc MvccInv Compaction Recovery Api Engine Heap Lease LeaseInv Ot Loops Fsm Replicas.
From Stdlib Require Import ZArith Lia.
From stdpp Require Import base gmap sets list strings sorting.
Open Scope Z_scope.

(** What restoring a snapshot into a closed store gives back. *)
Class SnapshotLaws (St B Snap : Type) `{ByteStore St B} `{SnapshotStore St Snap} := {
  snapshot_ok : St -> Prop;
  snapshot_roundtrip (s s0 : St) : bs_ok s -> snapshot_ok s ->
    exists s', ss_ReadFrom (ss_WriteTo s) (ss_Close s0) = (s', Ok tt) /\ bs_ok s' /\ bs_view s' = bs_view s }.

Section Snapshots.
Context {T St B O W Snap : Type} {BT : BTree Less T} {BS : ByteStore St B} {MO : MapOrder}.
Context {CO : CommitObserver O} {WO : WriteObserver (KvStore T St B) W} {SS : SnapshotStore St Snap}.
Context {SL : SnapshotLaws St B Snap}.
Abbreviation kvs := (KvStore T St B).
Abbreviation fsm := (Fsm T St B O W).
Abbreviation be := (backend St B).

(** ** Writes to the other buckets *)

(** A backend with the kv bucket and the buckets of [b0], between transactions. *)
Record beside (b0 b : be) : Prop := {
  bd_ok : be_ok b; bd_batch : be_batch b = None;
  bd_kv : kv_map (be_view b) = kv_map (be_view b0); bd_dom : dom (be_view b) = dom (be_view b0) }.

Lemma other_put_kept (bucket : Bucket) (k : bytes) (v : value) (c : contents) : bucket <> BucketKV ->
  kv_map (c_put bucket k v c) = kv_map c /\ dom (c_put bucket k v c) = dom c.
Proof. intros Hb. unfold kv_map, c_put. by rewrite lookup_alter_ne, dom_alter_L by done. Qed.

(** A transaction with one put into another bucket, when commits succeed. *)
Lemma beside_put (b0 b : be) (bucket : Bucket) (k : bytes) (v : value) :
  @commits_succeed St B _ -> bucket <> BucketKV -> bucket ∈ dom (be_view b0) -> k <> [] -> beside b0 b ->
  exists b1 b2 b3 i, Lock b = (b1, Ok tt) /\ UnsafePut bucket k v b1 = (b2, Ok tt) /\ Commit b2 = (b3, Ok i) /\ beside b0 b3.
Proof.
  intros Hc Hne Hd Hk [Hok Hba Hkv Hdom].
  destruct (Lock_spec b Hok) as (b1 & Hlock & Htx1 & Hst1 & Hp1).
  destruct (UnsafePut_spec bucket k v b1 Htx1) as (b2 & Hput & Htx2 & Hst2 & Hp2);
    [unfold be_view; rewrite Hst1; fold (be_view b); by rewrite Hdom|done|].
  destruct (Hc b2 Htx2) as (b3 & i & Hcm). exists b1, b2, b3, i. split_and!; [done..|].
  pose proof (Commit_spec b2 Htx2) as HC. rewrite Hcm in HC. destruct HC as (Hok3 & Hba3 & Hv3).
  destruct (other_put_kept bucket k v (be_view b) Hne) as [K1 K2].
  rewrite Hp2, Hp1 in Hv3. split; [done|done|by rewrite Hv3, K1|by rewrite Hv3, K2].
Qed.

Section Managers.
Variable s0 : kvs.
Hypothesis commits : @commits_succeed St B _.
Hypothesis has_lease : BucketLease ∈ dom (be_view (kv_backend s0)).
Hypothesis has_ot : BucketOT ∈ dom (be_view (kv_backend s0)).

(** The store of [s0] over another backend. *)
Definition side (s : kvs) : Prop := s = set_backend (kv_backend s) s0 /\ beside (kv_backend s0) (kv_backend s).
Definition side_l (st : LeaseManager * kvs) : Prop := side st.2.

Lemma on_lm_side f : stable side_l (on_lm f).
Proof. by intros [lm s] Hs. Qed.
Lemma get_lm_side : stable side_l get_lm.
Proof. by intros [lm s] Hs. Qed.
Lemma on_heap_side {X} (m : M leaseHeap X) : stable side_l (on_heap m).
Proof. intros [lm s] Hs. unfold on_heap. cbn [fst snd]. by destruct (m (lm_heap lm)). Qed.

Lemma persist_side l : stable side_l (unsafePersistToBackend l).
Proof using commits has_lease.
  intros [lm s] [Hs Hb]. cbn [snd] in Hs, Hb. unfold unsafePersistToBackend.
  destruct (beside_put (kv_backend s0) (kv_backend s) BucketLease (EncodeLeaseBucketKey (l_ID l)) (Some (EncodeLease l)))
    as (b1 & b2 & b3 & i & E1 & E2 & E3 & Hb3); [done|done|done|apply lease_key_nonempty|done|].
  unfold one_write, mbind, M_bind, try, on_kv, on_backend. cbn [fst snd]. rewrite E1.
  cbn [fst snd kv_backend set_backend]. rewrite E2. cbn [fst snd kv_backend set_backend]. rewrite E3.
  split; cbn [fst snd kv_backend set_backend]; [|done]. rewrite Hs. done.
Qed.
Hint Resolve on_lm_side get_lm_side on_heap_side persist_side : stable.

Lemma regrant_side now id ttl : stable side_l (unsafeRegrant now id ttl).
Proof using commits has_lease. unfold unsafeRegrant, unsafeSaveToLeaseMap, unsafePushToHeap. stable. Qed.
Hint Resolve regrant_side : stable.
Lemma regrant_all_side now batch : stable side_l (regrant_all now batch).
Proof using commits has_lease. induction batch as [|[i r] batch IH]; cbn [regrant_all]; stable. Qed.

Lemma restore_leases_side fuel now start visited : stable side_l (restore_leases fuel now start visited).
Proof using commits has_lease.
  revert start visited. induction fuel as [|fuel IH]; intros start visited; cbn [restore_leases]; [stable|].
  assert (forall batch (d : bool) start' v, stable side_l (regrant_all now batch ≫= fun _ =>
    if d then mret tt else restore_leases fuel now start' v)) as Hk.
  { intros batch d start' v. apply stable_bind; [apply regrant_all_side|intros _]. destruct d; stable. }
  intros st Hst. destruct (UnsafeScan _ _ _ _ _ _) as [[batch v] [[]|e|]]; [|exact (Hk batch _ _ _ st Hst)|done].
  exact (Hk batch true None v st Hst).
Qed.
Lemma restore_keys_side fuel start last_ : stable side_l (restore_keys fuel start last_).
Proof using Type.
  revert start last_. induction fuel as [|fuel IH]; intros start last_; cbn [restore_keys]; [stable|].
  assert (forall batch r lr, stable side_l (lift (EncodeRevisionAsBucketKey r NewRevBytes) ≫= fun start' =>
    on_lm (attach_all batch) ≫= fun _ => restore_keys fuel (Some start') lr)) as Hk by stable.
  intros st Hst. destruct (UnsafeScan _ _ _ _ _ _) as [[[n batch] lr] [[]|e|]]; [exact (on_lm_side _ st Hst)| |done].
  cbv zeta. destruct (_ =? _); [exact (on_lm_side _ st Hst)|].
  destruct (nextFullRevisionOverflowing lr); [exact (Hk _ _ _ st Hst)|done].
Qed.
Lemma lm_Restore_side now : stable side_l (lm_Restore now).
Proof using commits has_lease.
  intros st Hst. unfold lm_Restore. revert st Hst.
  assert (forall f1 f2, stable side_l (on_lm (fun lm => mkLM ∅ NewLeaseHeap ∅ (next_loc lm)) ≫= fun _ =>
    restore_leases f1 now None MinInt64 ≫= fun _ => restore_keys f2 None rev0)) as Hr.
  { intros f1 f2. apply stable_bind; [stable|intros _]. apply stable_bind; [apply restore_leases_side|intros _].
    apply restore_keys_side. }
  intros st Hst. by apply Hr.
Qed.

Definition side_o (st : OTManager * be) : Prop := beside (kv_backend s0) st.2.
Lemma ot_Restore_side : stable side_o ot_Restore.
Proof using commits has_ot.
  assert (forall om blob b, beside (kv_backend s0) b ->
    side_o ((on_be Lock ≫= fun _ => put_commit [] [] KeyOTBlob blob) (om, b)).1) as Hput.
  { intros om blob b Hb.
    destruct (beside_put (kv_backend s0) b BucketOT KeyOTBlob blob) as (b1 & b2 & b3 & i & E1 & E2 & E3 & Hb3); try done.
    unfold put_commit, mbind, M_bind, try, on_be. cbn [fst snd]. rewrite E1. cbn [fst snd]. rewrite E2. cbn [fst snd].
    by rewrite E3. }
  intros [om b] Hb. unfold ot_Restore. rewrite wrapping_state. unfold ot_get, get_om, set_codec, mbind, M_bind, lift. cbn [fst snd].
  destruct (UnsafeGet BucketOT KeyOTClusterKey b); [|done..]. cbn [fst snd].
  destruct (newTokenCodec _ _); [|done..]. cbn [fst snd]. destruct (UnsafeGet BucketOT KeyOTBlob b); [|done..]. cbn [fst snd].
  destruct (CheckBlob om a1); [done|]. by apply (Hput _ a1 b).
Qed.
End Managers.

(** ** Replaying keeps the store restorable *)

Variable decode : bytes -> res Command.
Variable clock : Log -> Z * Z.

Lemma Apply_grown (l : Log) (cmd : Command) (f : fsm) (st : live * Z) :
  @commits_succeed St B _ -> grown (f_store f) -> at_state f st -> applyIndex (f_store f) < log_Index l ->
  decode (log_Data l) = Ok cmd -> cmd_ok cmd -> fits1 cmd (f_store f) ->
  grown (f_store (Apply decode (clock l).1 (clock l).2 l f).1).
Proof.
  intros Hc Hg [Hinv Hl _] Hi Hd Hok [Hmax Hroom]. destruct (kv_cmd_checked cmd Hok) as [HK Hcheck].
  destruct (UpdateInmem_inv (log_Index l) (log_Term l) _ _ Hinv Hl) as [Hs1 Hl1].
  pose proof (grown_meta _ (log_Index l) (log_Term l) Hg) as Hg1.
  set (s1 := UpdateInmemRaftMeta (log_Index l) (log_Term l) (f_store f)) in *.
  set (e := mkEngine s1 (f_lm f) (f_commit_obs f)).
  assert (grown (e_store (ApplyWrite cmd e).1)) as Hg2.
  { destruct (ApplyWrite_store cmd e _ Hs1 Hmax Hl1 Hok Hroom) as (w & w' & Hse & -> & [HE|[[err HE]|HA]]).
    - by apply (grown_commit s1 w w').
    - by apply (End_succeeds _ _ _ _ Hc Hse) in HE.
    - by apply (grown_abort s1 w w'). }
  unfold Apply. rewrite (M_bind_Ok _ _ f f f) by done. cbn [RaftMeta fst].
  rewrite (proj2 (Z.leb_gt _ _) Hi), Hd, Hcheck. rewrite (M_bind_Ok _ _ f (set_f_store s1 f) tt) by done.
  unfold dispatch, applyKv. rewrite !bool_decide_eq_true_2 by done.
  unfold mbind, M_bind at 1. rewrite or_error_run. unfold on_engine. cbn [f_store f_lm f_commit_obs set_f_store].
  fold e. destruct (ApplyWrite cmd e) as [e' r]. cbn [fst] in Hg2. cbv zeta.
  assert (forall f2 r, f_store f2 = e_store e' -> grown (f_store (match r_Error r with
    | None => on_f_store PersistRaftMeta ≫= fun _ => notify_write (h_Revision (r_Header r)) ≫= fun _ => mret r
    | Some _ => mret r end f2 : fsm * res Result).1)) as Hend.
  { intros f2 r' E. destruct (r_Error r'); cbn [fst mret M_ret]; [by rewrite E|].
    destruct (PersistRaftMeta_other (f_store f2)) as (b & Hrun & Hok' & Hba & Hkv & Hdom);
      [rewrite E; by apply grown_grown_inv|].
    unfold mbind, M_bind, on_f_store. rewrite Hrun. cbn. rewrite E in *. by apply grown_other. }
  destruct r as [res|er|]; [by apply Hend|by apply Hend|exact Hg2].
Qed.

Lemma replay_grown (logs : list Log) (cmds : list Command) (f : fsm) (st : live * Z) :
  @commits_succeed St B _ -> grown (f_store f) -> at_state f st -> after (applyIndex (f_store f)) logs ->
  Forall2 (fun l cmd => decode (log_Data l) = Ok cmd /\ cmd_ok cmd) logs cmds -> fits decode clock logs cmds f ->
  grown (f_store (apply_log decode clock logs f).1).
Proof.
  intros Hc Hg Hst Haft HF. revert f st Hg Hst Haft.
  induction HF as [|l cmd logs cmds [Hd Hok] _ IH]; intros f st Hg Hst Haft Hfit; [done|].
  destruct Haft as [Hi Haft], Hfit as [Hf1 Hfit].
  pose proof (Apply_grown l cmd f st Hc Hg Hst Hi Hd Hok Hf1) as Hg1.
  destruct (Apply_refines decode clock l cmd f st Hc Hst Hi Hd Hok Hf1) as (f1 & r & Hrun & Hai & Hco & Habs).
  rewrite Hrun in Hfit, Hg1. destruct (abs_apply _ cmd st) as [st1 out]. destruct Habs as [Hst1 _].
  assert (after (applyIndex (f_store f1)) logs) as Haft1 by (by rewrite Hai).
  specialize (IH f1 st1 Hg1 Hst1 Haft1 Hfit). cbn [apply_log]. rewrite (M_bind_Ok _ _ _ _ _ Hrun).
  unfold mbind, M_bind. destruct (apply_log decode clock logs f1) as [f2 [rs|e|]]; exact IH.
Qed.

(** ** Installing a snapshot *)

(** The index the last committed command recorded. *)
Definition stored_index (f : fsm) : Z :=
  decode_or_zero (UnsafeGet BucketMeta KeyRaftApplyIndex (kv_backend (f_store f))) DecodeUint64.
Definition never_compacted (f : fsm) : Prop :=
  UnsafeGet BucketMeta KeyFinishedCompactedRev (kv_backend (f_store f)) = Ok None /\
  UnsafeGet BucketMeta KeyScheduledCompactedRev (kv_backend (f_store f)) = Ok None.

Lemma UnsafeGet_view (bucket : Bucket) (k : bytes) (b b' : be) : be_ok b -> be_ok b' -> be_view b = be_view b' ->
  bucket ∈ dom (be_view b) -> UnsafeGet bucket k b = UnsafeGet bucket k b'.
Proof.
  intros Hb Hb' E [m Hm]%elem_of_dom. rewrite (UnsafeGet_spec bucket k b m) by done.
  rewrite E in Hm. by rewrite (UnsafeGet_spec bucket k b' m).
Qed.

(** The managers that are restored after the store leave it at its state. *)
Definition f_side (s0 : kvs) (f : fsm) : Prop := side s0 (f_store f).

Lemma f_lm_side (s0 : kvs) (now : Z) : @commits_succeed St B _ -> BucketLease ∈ dom (be_view (kv_backend s0)) ->
  stable (f_side s0) (on_f_lm (lm_Restore now)).
Proof.
  intros Hc Hle f Hf. pose proof (lm_Restore_side s0 Hc Hle now (f_lm f, f_store f) Hf) as H1.
  unfold on_f_lm. by destruct (lm_Restore now (f_lm f, f_store f)) as [[lm s1] r].
Qed.
Lemma f_om_side (s0 : kvs) : @commits_succeed St B _ -> BucketOT ∈ dom (be_view (kv_backend s0)) ->
  stable (f_side s0) (on_f_om ot_Restore).
Proof.
  intros Hc Hot f [E Hb]. pose proof (ot_Restore_side s0 Hc Hot (f_om f, kv_backend (f_store f)) Hb) as H2.
  unfold on_f_om. destruct (ot_Restore (f_om f, kv_backend (f_store f))) as [[om b] r].
  split; [|exact H2]. cbn [f_store kv_backend set_backend fst]. by rewrite E.
Qed.

Lemma f_side_keeps (f0 f : fsm) (st : live * Z) :
  at_state f0 st -> f_side (f_store f0) f -> at_state f st /\ ai (f_store f) = ai (f_store f0).
Proof.
  intros [Hinv Hl Hr] [E [Hok Hba Hkv Hdom]].
  destruct (other_bucket_inv (f_store f0) _ _ Hinv Hl Hok Hba Hkv Hdom) as [K1 K2].
  rewrite <-E in K1, K2. split; [split; [done|done|by rewrite E]|by rewrite E].
Qed.
Lemma f_side_refl (f : fsm) : kv_inv (f_store f) -> f_side (f_store f) f.
Proof. intros Hinv. split; [by destruct (f_store f)|by split; [apply Hinv|apply Hinv|..]]. Qed.

Lemma managers_keep (now : Z) (f : fsm) (st : live * Z) :
  @commits_succeed St B _ -> at_state f st ->
  BucketLease ∈ dom (be_view (kv_backend (f_store f))) -> BucketOT ∈ dom (be_view (kv_backend (f_store f))) ->
  let f' := ((on_f_lm (lm_Restore now) ≫= fun _ => on_f_om ot_Restore) f).1 in
  at_state f' st /\ ai (f_store f') = ai (f_store f).
Proof.
  intros Hc Hst Hle Hot. apply f_side_keeps; [done|].
  apply (stable_bind (f_side (f_store f))); [by apply f_lm_side|intros _; by apply f_om_side|apply f_side_refl, Hst].
Qed.

Lemma install_spec (now : Z) (f1 f2 : fsm) (st : live * Z) :
  @commits_succeed St B _ -> grown (f_store f1) -> at_state f1 st -> st.2 < MaxInt64 -> never_compacted f1 ->
  snapshot_ok (be_store (kv_backend (f_store f1))) ->
  BucketLease ∈ dom (be_view (kv_backend (f_store f1))) -> BucketOT ∈ dom (be_view (kv_backend (f_store f1))) ->
  let f2' := (fsm_Restore now (fsm_Snapshot f1) f2).1 in
  at_state f2' st /\ ai (f_store f2') = (stored_index f1, 0).
Proof using SL.
  intros Hc Hg [Hinv Hl Hr] Hmax [Hfin Hsch] Hsn Hle Hot. unfold fsm_Restore, fsm_Snapshot, backend_Snapshot.
  destruct (snapshot_roundtrip (be_store (kv_backend (f_store f1))) (be_store (kv_backend (f_store f2))) (ki_be _ Hinv) Hsn)
    as (t & Hread & Hok & Hv).
  assert (be_view (mkBackend t None : be) = be_view (kv_backend (f_store f1))) as Hv' by done.
  assert (forall k, UnsafeGet BucketMeta k (mkBackend t None) = UnsafeGet BucketMeta k (kv_backend (f_store f1))) as Hget.
  { intros k. apply UnsafeGet_view; [done|apply Hinv|done|]. rewrite Hv'. apply Hinv. }
  set (s2 := set_backend (mkBackend t None) (f_store f2)).
  destruct (Restore_from (f_store f1) s2 Hg) as (s' & Hrun & Hinv' & Hbe & Hh & Hcur & Hco & Hai);
    [by rewrite Hr|done|done|cbn; by rewrite Hv'..|by rewrite Hget|by rewrite Hget|].
  set (f3 := set_f_store s' f2).
  assert (at_state f3 st) as H3.
  { split; [done| |by rewrite <-Hr]. eapply kv_live_ext; [exact Hl|exact Hh|]. cbn. rewrite Hbe. cbn. by rewrite Hv'. }
  destruct (managers_keep now f3 st Hc H3) as [K1 K2]; [cbn; rewrite Hbe; cbn; by rewrite Hv'..|].
  set (fA := set_f_store (set_backend (mkBackend (ss_Close (be_store (kv_backend (f_store f2)))) None) (f_store f2)) f2).
  assert (on_f_store (on_backend (backend_Restore (ss_WriteTo (be_store (kv_backend (f_store f1)))))) fA
    = (set_f_store s2 f2, Ok tt)) as Eb.
  { unfold on_f_store, on_backend, backend_Restore. cbn [fA f_store set_f_store kv_backend set_backend be_store be_batch].
    by rewrite Hread. }
  assert (on_f_store Restore (set_f_store s2 f2) = (f3, Ok None)) as Er.
  { unfold on_f_store. cbn [f_store set_f_store]. by rewrite Hrun. }
  rewrite (M_bind_Ok _ _ f2 fA tt) by done. rewrite (M_bind_Ok _ _ _ _ _ Eb), (M_bind_Ok _ _ _ _ _ Er).
  rewrite (M_bind_Ok _ _ f3 f3 tt) by done. split; [exact K1|]. rewrite K2. unfold ai. cbn [f_store f3 set_f_store].
  by rewrite Hco, Hai, Hget.
Qed.

(** ** Restarting *)

(** node.go: initStorage, over the backend the node finds; a restoration that fails is only
    logged. The watch hub and its loop start empty. *)
Definition initStorage (me : string) (now : Z) (b : be) (otOpts : OTOptions) : res (fsm * res unit) :=
  match NewOTManager otOpts with
  | Err e => Err e
  | Panicked => Panicked
  | Ok om =>
      Ok ((try (on_f_store Restore) ≫= fun r =>
           (match r with inl (Some job) => spawn job | _ => mret tt end) ≫= fun _ =>
           try (on_f_lm (lm_Restore now)) ≫= fun _ =>
           try (on_f_om ot_Restore) ≫= fun _ => mret tt)
          (mkFsm me (NewKvStore b) NewManager om [] [] []))
  end.

Lemma managers_keep_try (now : Z) (f : fsm) (st : live * Z) :
  @commits_succeed St B _ -> at_state f st ->
  BucketLease ∈ dom (be_view (kv_backend (f_store f))) -> BucketOT ∈ dom (be_view (kv_backend (f_store f))) ->
  let f' := ((try (on_f_lm (lm_Restore now)) ≫= fun _ => try (on_f_om ot_Restore) ≫= fun _ => mret tt) f).1 in
  at_state f' st /\ ai (f_store f') = ai (f_store f).
Proof.
  intros Hc Hst Hle Hot. apply f_side_keeps; [done|].
  pose proof (f_lm_side (f_store f) now Hc Hle). pose proof (f_om_side (f_store f) Hc Hot).
  assert (stable (f_side (f_store f)) (try (on_f_lm (lm_Restore now)) ≫= fun _ => try (on_f_om ot_Restore) ≫= fun _ => mret tt))
    as Hs by stable. apply Hs, f_side_refl, Hst.
Qed.

(** C9: A node that restarts on its own storage resumes where it stopped. After a state machine has
    applied a log of puts, deletes and transactions to a store grown from a new one, building the
    components again from its backend alone gives a state machine with the same live entries at
    the same revision, namely those the abstract machine computes for the log, and with the
    applied index the last committed command recorded, however the
    restoration of the leases and of the oblivious-transfer state ends
    (commits succeeding, no compaction recorded). *)
Theorem restart_resumes (me : string) (now : Z) (otOpts : OTOptions) (logs : list Log) (cmds : list Command)
    (f0 f1 f2 : fsm) (r : res unit) (st0 st : live * Z) :
  @commits_succeed St B _ -> grown (f_store f0) -> at_state f0 st0 -> after (applyIndex (f_store f0)) logs ->
  Forall2 (fun l cmd => decode (log_Data l) = Ok cmd /\ cmd_ok cmd) logs cmds -> fits decode clock logs cmds f0 ->
  f1 = (apply_log decode clock logs f0).1 -> st = (abs_run (compactedMainRev (f_store f0)) cmds st0).1 ->
  st.2 < MaxInt64 -> never_compacted f1 ->
  BucketLease ∈ dom (be_view (kv_backend (f_store f1))) -> BucketOT ∈ dom (be_view (kv_backend (f_store f1))) ->
  initStorage me now (kv_backend (f_store f1)) otOpts = Ok (f2, r) ->
  at_state f1 st /\ at_state f2 st /\ applyIndex (f_store f2) = stored_index f1 /\ compactedMainRev (f_store f2) = 0.
Proof using Type.
  intros Hc Hg Hst Haft HF Hfit -> -> Hmax [Hfin Hsch] Hle Hot Hinit.
  pose proof (replay_grown logs cmds f0 st0 Hc Hg Hst Haft HF Hfit) as Hg1.
  destruct (replay_refines decode clock logs cmds f0 st0 Hc Hst Haft HF Hfit) as (f1 & rs & Hrun & Habs).
  rewrite Hrun in *. cbn [fst] in *. destruct (abs_run _ cmds st0) as [st outs]. destruct Habs as [Hst1 _].
  unfold initStorage in Hinit. destruct (NewOTManager otOpts) as [om|e|]; [|done..]. injection Hinit as Hinit.
  destruct Hst1 as [Hinv1 Hl1 Hr1]. cbn [fst snd] in *.
  destruct (Restore_from (f_store f1) (NewKvStore (kv_backend (f_store f1))) Hg1) as (s' & Hres & Hinv' & Hbe & Hh & Hcur & Hco & Hai);
    [by rewrite Hr1|apply Hinv1|apply Hinv1|done|done|done|done|].
  set (fn := mkFsm me (NewKvStore (kv_backend (f_store f1))) NewManager om [] [] [] : fsm) in *.
  set (f3 := set_f_store s' fn).
  assert (try (on_f_store Restore) fn = (f3, Ok (inl None))) as Er.
  { unfold try, on_f_store. cbn [f_store fn]. by rewrite Hres. }
  rewrite (M_bind_Ok _ _ _ _ _ Er), (M_bind_Ok _ _ f3 f3 tt) in Hinit by done.
  assert (at_state f3 (st.1, st.2)) as H3.
  { split; [done| |by rewrite <-Hr1]. eapply kv_live_ext; [exact Hl1|exact Hh|]. cbn. by rewrite Hbe. }
  destruct (managers_keep_try now f3 _ Hc H3) as [K1 K2]; [cbn; by rewrite Hbe..|].
  rewrite Hinit in K1, K2. cbn [fst] in K1, K2. rewrite <-surjective_pairing in K1. injection K2 as K2 K3.
  split; [by split|]. split; [done|]. rewrite K2, K3. by split.
Qed.

(** C8: A replica can catch up by a snapshot. Take a state machine that has applied a log of
    puts, deletes and transactions to a store grown from a new one, write its snapshot, and
    install it on any other replica, whatever that one held: however the restoration of the
    leases and of the oblivious-transfer state ends, both replicas then hold the live entries and the
    revision the abstract machine computes for the log, and the installed replica has the applied
    index the snapshot recorded (commits succeeding, no compaction recorded, and no empty stored value, which the
    in-memory encoding turns into nil). *)
Theorem snapshot_catch_up (now : Z) (logs : list Log) (cmds : list Command) (f0 f1 f2 f2' : fsm) (st0 st : live * Z) :
  @commits_succeed St B _ -> grown (f_store f0) -> at_state f0 st0 -> after (applyIndex (f_store f0)) logs ->
  Forall2 (fun l cmd => decode (log_Data l) = Ok cmd /\ cmd_ok cmd) logs cmds -> fits decode clock logs cmds f0 ->
  f1 = (apply_log decode clock logs f0).1 -> st = (abs_run (compactedMainRev (f_store f0)) cmds st0).1 ->
  st.2 < MaxInt64 -> never_compacted f1 -> snapshot_ok (be_store (kv_backend (f_store f1))) ->
  BucketLease ∈ dom (be_view (kv_backend (f_store f1))) -> BucketOT ∈ dom (be_view (kv_backend (f_store f1))) ->
  f2' = (fsm_Restore now (fsm_Snapshot f1) f2).1 ->
  at_state f1 st /\ at_state f2' st /\ applyIndex (f_store f2') = stored_index f1 /\ compactedMainRev (f_store f2') = 0.
Proof using SL.
  intros Hc Hg Hst Haft HF Hfit -> -> Hmax Hnc Hsn Hle Hot ->.
  pose proof (replay_grown logs cmds f0 st0 Hc Hg Hst Haft HF Hfit) as Hg1.
  destruct (replay_refines decode clock logs cmds f0 st0 Hc Hst Haft HF Hfit) as (f1 & rs & Hrun & Habs).
  rewrite Hrun in *. cbn [fst] in *. destruct (abs_run _ cmds st0) as [st outs]. destruct Habs as [Hst1 _].
  destruct (install_spec now f1 f2 st Hc Hg1 Hst1 Hmax Hnc Hsn Hle Hot) as [H2 [= Hi Hco]]. by split_and!.
Qed.
End Snapshots.

(** ** The in-memory store *)

#[export] Program Instance inmem_snapshot_laws {T} {BT : BTree Inmem.item_less T} :
  SnapshotLaws (InmemStore T) inmemBatch (list token) := {| snapshot_ok := no_empty_values |}.
Next Obligation. intros T BT s s0 Hs Hne. by apply ReadFrom_encoded. Qed.

Definition nonempty_value (i : Item) : bool := match it_Value i with Some [] => false | _ => true end.
Lemma no_empty_values_check (s : InmemStore (list Item)) :
  forallb (fun p => forallb nonempty_value p.2) (map_to_list (buckets s)) = true -> no_empty_values s.
Proof.
  intros Hb b t Ht. rewrite forallb_forall in Hb. apply elem_of_map_to_list, list_elem_of_In in Ht.
  specialize (Hb _ Ht). rewrite forallb_forall in Hb. apply Forall_forall. intros i Hi%list_elem_of_In.
  specialize (Hb _ Hi). unfold nonempty_value in Hb. intros E. by rewrite E in Hb.
Qed.

Lemma bucket_in_view {St B} {BS : ByteStore St B} (bucket : Bucket) (b : backend St B) :
  match be_view b !! bucket with Some _ => true | None => false end = true -> bucket ∈ dom (be_view b).
Proof. intros Hb. apply elem_of_dom. by destruct (be_view b !! bucket). Qed.

(** The log of two puts, installed on a replica that had applied another put. *)
Definition other_replica : inmem_fsm := (Apply put_decode 7 8 (mkLog 1 9 []) fsm0').1.
Definition source_replica : inmem_fsm := (apply_log put_decode (clock_at 0) [log1; log2] fsm0).1.

Lemma restart_resumes_witness :
  exists f2 r, initStorage "n1" 5 (kv_backend (f_store source_replica)) (ot_opts ot1) = Ok (f2, r) /\
    Main (currentRev (f_store (f2 : inmem_fsm))) = 2 /\ applyIndex (f_store f2) = 2.
Proof.
  destruct (initStorage "n1" 5 (kv_backend (f_store source_replica)) (ot_opts ot1)) as [[f2 r]|e|] eqn:E;
    [|discriminate E..].
  destruct (restart_resumes put_decode (clock_at 0) "n1" 5 (ot_opts ot1) [log1; log2]
    [put_cmd (put_a 0); put_cmd (put_a 0)] fsm0 source_replica f2 r (∅, 0)
    (abs_run 0 [put_cmd (put_a 0); put_cmd (put_a 0)] (∅, 0)).1 inmem_commits_succeed kv0_grown (proj1 fsm0_at))
    as (H1 & H2 & H3 & _).
  - vm_compute. by split_and!.
  - repeat (apply Forall2_cons_2; [split; [reflexivity|apply put_a_ok]|]). apply Forall2_nil_2.
  - vm_compute. by repeat split.
  - reflexivity.
  - reflexivity.
  - vm_compute. reflexivity.
  - split; vm_compute; reflexivity.
  - apply bucket_in_view. vm_compute. reflexivity.
  - apply bucket_in_view. vm_compute. reflexivity.
  - exact E.
  - exists f2, r. split; [reflexivity|]. split; [rewrite (as_rev _ _ H2)|rewrite H3]; vm_compute; reflexivity.
Defined.

Lemma snapshot_catch_up_witness :
  let f2' := (fsm_Restore 5 (fsm_Snapshot source_replica) other_replica).1 in
  Main (currentRev (f_store f2')) = 2 /\ applyIndex (f_store f2') = 2.
Proof.
  destruct (snapshot_catch_up put_decode (clock_at 0) 5 [log1; log2] [put_cmd (put_a 0); put_cmd (put_a 0)]
    fsm0 source_replica other_replica (fsm_Restore 5 (fsm_Snapshot source_replica) other_replica).1 (∅, 0)
    (abs_run 0 [put_cmd (put_a 0); put_cmd (put_a 0)] (∅, 0)).1 inmem_commits_succeed kv0_grown (proj1 fsm0_at))
    as (H1 & H2 & H3 & _).
  - vm_compute. by split_and!.
  - repeat (apply Forall2_cons_2; [split; [reflexivity|apply put_a_ok]|]). apply Forall2_nil_2.
  - vm_compute. by repeat split.
  - reflexivity.
  - reflexivity.
  - vm_compute. reflexivity.
  - split; vm_compute; reflexivity.
  - apply no_empty_values_check. vm_compute. reflexivity.
  - apply bucket_in_view. vm_compute. reflexivity.
  - apply bucket_in_view. vm_compute. reflexivity.
  - reflexivity.
  - split; [rewrite (as_rev _ _ H2)|rewrite H3]; vm_compute; reflexivity.
Defined.
