(* ===== verification/Peer.v ===== *)
(** Nodes of the cluster and how they find each other: internal/peer (peer.go,
    discovery.go), with the parts of Go's strings package they use. A Go string is its
    bytes; net.LookupSRV is a parameter. *)

From S2P Require Import Prelude.
From Stdlib Require Import ZArith Lia Ascii.
From stdpp Require Import base gmap sets list strings sorting pretty.
Open Scope Z_scope.

(** ** strings *)

(** strings.Split on a one-byte separator. *)
Fixpoint Split (sep : ascii) (s : string) : list string :=
  match s with
  | EmptyString => [""]
  | String c s' =>
      if bool_decide (c = sep) then "" :: Split sep s'
      else match Split sep s' with h :: t => String c h :: t | [] => [String c ""] end
  end.

(** strings.SplitN: at most [n] parts, the last one unsplit. *)
Fixpoint SplitN (sep : ascii) (n : nat) (s : string) : list string :=
  match n with
  | O => []
  | S n' =>
      (fix go (s : string) : list string :=
         match n', s with
         | O, _ => [s]
         | _, EmptyString => [""]
         | S _, String c s' =>
             if bool_decide (c = sep) then "" :: SplitN sep n' s'
             else match go s' with h :: t => String c h :: t | [] => [String c ""] end
         end) s
  end.

(** strings.TrimSpace(s) == "", for ASCII space. *)
Fixpoint blank (s : string) : bool :=
  match s with
  | EmptyString => true
  | String c s' => bool_decide (c ∈ [" "; "009"; "010"; "011"; "012"; "013"]%char) && blank s'
  end.

Fixpoint HasSuffix (s suffix : string) : bool :=
  bool_decide (s = suffix) || match s with String _ s' => HasSuffix s' suffix | EmptyString => false end.

(** strings.TrimSuffix(s, ".") *)
Fixpoint TrimDot (s : string) : string :=
  match s with
  | EmptyString => EmptyString
  | String c EmptyString => if bool_decide (c = "."%char) then EmptyString else s
  | String c s' => String c (TrimDot s')
  end.

(** ** peer.go *)

Record Peer := mkPeer { NodeID : string; Hostname : string; RaftPort : string; HttpPort : string }.

#[export] Instance Peer_eq_dec : EqDecision Peer.
Proof. solve_decision. Defined.

Definition Peer_String (p : Peer) : string :=
  NodeID p +:+ ":" +:+ Hostname p +:+ ":" +:+ RaftPort p +:+ ":" +:+ HttpPort p.

Definition GetRaftAddress (p : Peer) : string :=
  if bool_decide (Hostname p = "") then NodeID p +:+ ":" +:+ RaftPort p else Hostname p +:+ ":" +:+ RaftPort p.
Definition GetHttpAdvertisedAddress (p : Peer) : string :=
  if bool_decide (Hostname p = "") then NodeID p +:+ ":" +:+ HttpPort p else Hostname p +:+ ":" +:+ HttpPort p.
Definition GetRaftListenAddress (p : Peer) : string := "0.0.0.0:" +:+ RaftPort p.
Definition GetHttpListenAddress (p : Peer) : string := "0.0.0.0:" +:+ HttpPort p.
Definition HttpURL (p : Peer) : string := "http" +:+ "://" +:+ GetHttpAdvertisedAddress p.

Definition Peer_Check (p : Peer) : option error :=
  if bool_decide (NodeID p = "") then Some (errMsg "node ID is required")
  else if bool_decide (RaftPort p = "") then Some (errMsg "raft port is required")
  else if bool_decide (HttpPort p = "") then Some (errMsg "http port is required")
  else None.

(** ** discovery.go *)

Inductive DiscoveryMode := DiscoveryModeStatic | DiscoveryModeDynamic | OtherMode (s : string).
#[export] Instance DiscoveryMode_eq_dec : EqDecision DiscoveryMode.
Proof. solve_decision. Defined.

Record DiscoveryOptions := mkDiscovery { do_Mode : DiscoveryMode; do_Peers : option string; do_ExpectedCount : Z }.

Definition DiscoveryOptions_Check (o : DiscoveryOptions) : option error :=
  if bool_decide (do_Mode o <> DiscoveryModeDynamic) && bool_decide (do_Mode o <> DiscoveryModeStatic)
  then Some (errMsg "invalid discovery mode")
  else if bool_decide (do_Mode o = DiscoveryModeStatic) && bool_decide (do_Peers o = None)
  then Some (errMsg "discovery mode set to static, but no peer list provided")
  else None.

Definition parse_peer (s : string) : res Peer :=
  match SplitN ":"%char 4 s with
  | [id; host; rp; hp] =>
      let n := mkPeer id host rp hp in
      match Peer_Check n with Some e => Err e | None => Ok n end
  | _ => Err (errMsg "failed to parse peer")
  end.

(** The loop over the raw peers. *)
Fixpoint parse_peers (l : list string) (peers : list Peer) : res (list Peer) :=
  match l with
  | [] => Ok peers
  | s :: l => match parse_peer s with
              | Ok n => parse_peers l (peers ++ [n])
              | Err e => Err e
              | Panicked => Panicked
              end
  end.

Definition cluster_size_ok (n : Z) : bool := (n =? 3) || (n =? 5).

Definition parseRawPeers (s : option string) : res (list Peer) :=
  match s with
  | None => Err (errMsg "nil raw peer list string")
  | Some str =>
      if blank str then Err (errMsg "empty peer list")
      else match parse_peers (Split ","%char str) [] with
           | Ok peers => if cluster_size_ok (Z.of_nat (length peers)) then Ok peers
                         else Err (errMsg "for optimal raft clusters, cluster size must be 3 or 5")
           | r => r
           end
  end.

(** An SRV record. *)
Record SRV := mkSRV { Target : string; Port : Z }.
#[export] Instance SRV_eq_dec : EqDecision SRV.
Proof. solve_decision. Defined.

Record dnsDiscovery := mkDns {
  dd_me : Peer; ServiceName : string; RaftPortName : string; dd_HttpPort : string;
  ExpectedCount : Z; PollInterval : Z }.

Definition newDynamicDiscovery (me : Peer) (namespace httpPort : string) (expectedCount : Z) : res dnsDiscovery :=
  if negb (cluster_size_ok expectedCount)
  then Err (errMsg "for optimal raft clusters, cluster size must be 3 or 5")
  else
    let namespace := if bool_decide (namespace = "") then "default" else namespace in
    Ok (mkDns me ("kave-headless." +:+ namespace +:+ ".svc.cluster.local") "raft" httpPort expectedCount 210000000).

(** The two kinds of discovery service. *)
Inductive DiscoveryService :=
  | staticDiscovery (me : Peer) (peers : list Peer)
  | dynamicDiscovery (d : dnsDiscovery).

Definition newStaticDiscovery (me : Peer) (rawPeers : option string) : res DiscoveryService :=
  match parseRawPeers rawPeers with
  | Ok peers => Ok (staticDiscovery me peers)
  | Err e => Err e
  | Panicked => Panicked
  end.

Definition NewDiscoveryService (me : Peer) (namespace : string) (opts : DiscoveryOptions) : res DiscoveryService :=
  match do_Mode opts with
  | DiscoveryModeStatic => newStaticDiscovery me (do_Peers opts)
  | DiscoveryModeDynamic =>
      match newDynamicDiscovery me namespace (HttpPort me) (do_ExpectedCount opts) with
      | Ok d => Ok (dynamicDiscovery d)
      | Err e => Err e
      | Panicked => Panicked
      end
  | OtherMode _ => Err (errMsg "unexpected discovery mode")
  end.

Definition Me (d : DiscoveryService) : Peer :=
  match d with staticDiscovery me _ => me | dynamicDiscovery d => dd_me d end.

(** sort.Slice by target, then one peer per record. *)
Definition target_le (a b : SRV) : Prop := (Target a ≤ Target b)%string.
#[export] Instance target_le_dec : RelDecision target_le := fun a b => String.le_dec (Target a) (Target b).

Definition peer_of_srv (httpPort : string) (addr : SRV) : Peer :=
  let hostname := TrimDot (Target addr) in
  mkPeer (default "" (head (Split "."%char hostname))) hostname (pretty (Port addr)) httpPort.

Definition lookup_peers (d : dnsDiscovery) (addrs : list SRV) : list Peer :=
  peer_of_srv (dd_HttpPort d) <$> merge_sort target_le addrs.

(** [lookup]: [None] when LookupSRV failed. *)
Definition lookup (d : dnsDiscovery) (answer : option (list SRV)) : res (list Peer) :=
  match answer with
  | None => Err (errMsg "lookup error")
  | Some addrs => Ok (lookup_peers d addrs)
  end.

(** The poll loop: the DNS answers until the context ends. *)
Fixpoint poll (d : dnsDiscovery) (answers : list (option (list SRV))) : res (list Peer) :=
  match answers with
  | [] => Err (errMsg "DNS peer discovery timed out")
  | a :: rest =>
      match lookup d a with
      | Ok peers => if ExpectedCount d <=? Z.of_nat (length peers) then Ok peers else poll d rest
      | _ => poll d rest
      end
  end.

Definition GetPeers (d : DiscoveryService) (answers : list (option (list SRV))) : res (list Peer) :=
  match d with staticDiscovery _ peers => Ok peers | dynamicDiscovery d => poll d answers end.

Definition ShouldBootstrap (d : dnsDiscovery) (peers : list Peer) : bool :=
  match peers with [] => false | p :: _ => bool_decide (NodeID p = NodeID (dd_me d)) end.

(** ** Splitting and joining *)

Fixpoint lacks (c : ascii) (s : string) : bool :=
  match s with EmptyString => true | String x s' => negb (bool_decide (x = c)) && lacks c s' end.

Lemma lacks_cons c x s : lacks c (String x s) = true <-> x <> c /\ lacks c s = true.
Proof. simpl. rewrite andb_true_iff, negb_true_iff, bool_decide_eq_false. done. Qed.

Lemma lacks_app c s1 s2 : lacks c (s1 +:+ s2) = lacks c s1 && lacks c s2.
Proof. induction s1 as [|x s1 IH]; [done|]. change (String x s1 +:+ s2) with (String x (s1 +:+ s2)). simpl. by rewrite IH, andb_assoc. Qed.

(** A string has no separator or splits at the first one. *)
Lemma cut_first sep s : lacks sep s = true \/ exists a r, s = a +:+ String sep r /\ lacks sep a = true.
Proof.
  induction s as [|c s IH]; [by left|]. destruct (decide (c = sep)) as [->|Hne]; [right; by exists "", s|].
  destruct IH as [H|(a & r & -> & H)]; [left; by apply lacks_cons|right]. exists (String c a), r. split; [done|].
  by apply lacks_cons.
Qed.

Lemma Split_lacks sep s : lacks sep s = true -> Split sep s = [s].
Proof.
  induction s as [|c s IH]; [done|]. intros [Hc Hs]%lacks_cons. simpl.
  by rewrite bool_decide_eq_false_2, IH.
Qed.

Lemma Split_cut sep a r : lacks sep a = true -> Split sep (a +:+ String sep r) = a :: Split sep r.
Proof.
  induction a as [|c a IH]; [by simpl; rewrite bool_decide_eq_true_2|]. intros [Hc Ha]%lacks_cons.
  change (String c a +:+ String sep r) with (String c (a +:+ String sep r)). simpl.
  by rewrite bool_decide_eq_false_2, IH.
Qed.

Lemma SplitN_lacks sep n s : lacks sep s = true -> SplitN sep (S n) s = [s].
Proof.
  destruct n; [by destruct s|]. induction s as [|c s IH]; [done|]. intros [Hc Hs]%lacks_cons. specialize (IH Hs).
  simpl in *. rewrite bool_decide_eq_false_2 by done. by rewrite IH.
Qed.

Lemma SplitN_cut sep n a r :
  lacks sep a = true -> SplitN sep (S (S n)) (a +:+ String sep r) = a :: SplitN sep (S n) r.
Proof.
  induction a as [|c a IH]; [by simpl; rewrite bool_decide_eq_true_2|]. intros [Hc Ha]%lacks_cons. specialize (IH Ha).
  change (String c a +:+ String sep r) with (String c (a +:+ String sep r)).
  remember (SplitN sep (S n) r) as rest eqn:Er. simpl in *. rewrite bool_decide_eq_false_2 by done. by rewrite IH.
Qed.

Lemma SplitN_1 sep s : SplitN sep 1 s = [s].
Proof. by destruct s. Qed.

Lemma concat_cons sep x y l : String.concat sep (x :: y :: l) = x +:+ sep +:+ String.concat sep (y :: l).
Proof. done. Qed.

Lemma Split_nonempty sep s : Split sep s <> [].
Proof. induction s as [|c s IH]; [done|]. simpl. case_bool_decide; [done|]. by destruct (Split sep s). Qed.

(** strings.Split and strings.Join are inverse on lists of strings without the separator. *)
Lemma Split_concat sep (l : list string) :
  l <> [] -> Forall (fun s => lacks sep s = true) l -> Split sep (String.concat (String sep "") l) = l.
Proof.
  intros Hne HF. destruct l as [|x l]; [done|]. clear Hne. revert x HF.
  induction l as [|y l IH]; intros x [Hx HF]%Forall_cons; [by apply Split_lacks|].
  rewrite concat_cons. change (String sep "" +:+ ?z) with (String sep z). by rewrite Split_cut, IH.
Qed.

Lemma concat_Split sep s :
  String.concat (String sep "") (Split sep s) = s /\ Forall (fun s => lacks sep s = true) (Split sep s).
Proof.
  remember (String.length s) as n eqn:Hn. revert s Hn. induction n as [n IH] using lt_wf_ind. intros s ->.
  destruct (cut_first sep s) as [H|(a & r & -> & Ha)].
  { rewrite Split_lacks by done. split; [done|]. by apply Forall_singleton. }
  rewrite Split_cut by done. destruct (IH (String.length r)) with (s := r) as [IH1 IH2]; [|done|].
  { clear. induction a as [|c a IH]; [simpl; lia|].
    change (String c a +:+ String sep r) with (String c (a +:+ String sep r)). simpl. lia. }
  split; [|by apply Forall_cons]. destruct (Split sep r) as [|y l] eqn:E; [by apply Split_nonempty in E|].
  rewrite concat_cons, IH1. done.
Qed.

(** ** Peer lists *)

(** What a peer of a static list looks like. *)
Definition listable (p : Peer) : Prop :=
  Peer_Check p = None /\ lacks ","%char (Peer_String p) = true /\
  lacks ":"%char (NodeID p) = true /\ lacks ":"%char (Hostname p) = true /\ lacks ":"%char (RaftPort p) = true.
#[export] Instance listable_dec p : Decision (listable p).
Proof. unfold listable. apply _. Defined.

Definition peer_list (peers : list Peer) : string := String.concat "," (Peer_String <$> peers).

Lemma Peer_String_cut p :
  Peer_String p = NodeID p +:+ String ":" (Hostname p +:+ String ":" (RaftPort p +:+ String ":" (HttpPort p))).
Proof. done. Qed.

Lemma parse_peer_spec s p :
  parse_peer s = Ok p <-> s = Peer_String p /\ Peer_Check p = None /\
    lacks ":"%char (NodeID p) = true /\ lacks ":"%char (Hostname p) = true /\ lacks ":"%char (RaftPort p) = true.
Proof.
  unfold parse_peer. split.
  - intros H.
    destruct (cut_first ":"%char s) as [Hs|(id & r1 & -> & H1)]; [by rewrite SplitN_lacks in H|].
    rewrite SplitN_cut in H by done.
    destruct (cut_first ":"%char r1) as [Hs|(host & r2 & -> & H2)]; [by rewrite SplitN_lacks in H|].
    rewrite SplitN_cut in H by done.
    destruct (cut_first ":"%char r2) as [Hs|(rp & hp & -> & H3)]; [by rewrite SplitN_lacks in H|].
    rewrite SplitN_cut, SplitN_1 in H by done. cbv zeta in H.
    destruct (Peer_Check _) eqn:Hc; [done|]. injection H as <-. by split_and!.
  - intros (-> & Hc & H1 & H2 & H3). rewrite Peer_String_cut, !SplitN_cut, SplitN_1 by done.
    cbv zeta. destruct p as [id host rp hp]. cbn [NodeID Hostname RaftPort HttpPort]. by rewrite Hc.
Qed.

Lemma parse_peers_spec l acc peers :
  parse_peers l acc = Ok peers <-> exists new, peers = acc ++ new /\ Forall2 (fun s p => parse_peer s = Ok p) l new.
Proof.
  revert acc. induction l as [|s l IH]; intros acc; cbn [parse_peers].
  - split; [intros [= <-]; exists []; by rewrite app_nil_r|]. intros (new & -> & ->%Forall2_nil_inv_l). by rewrite app_nil_r.
  - destruct (parse_peer s) as [p|e|] eqn:E.
    + rewrite IH. split.
      * intros (new & -> & HF). exists (p :: new). rewrite <-app_assoc. split; [done|]. by constructor.
      * intros (new & -> & HF). inversion HF as [|? p' ? new' Hp HF']; subst. rewrite E in Hp. injection Hp as <-.
        exists new'. by rewrite <-app_assoc.
    + split; [done|]. intros (new & -> & HF). inversion HF as [|? p' ? new' Hp HF']; subst. by rewrite E in Hp.
    + split; [done|]. intros (new & -> & HF). inversion HF as [|? p' ? new' Hp HF']; subst. by rewrite E in Hp.
Qed.

Lemma peers_listable l peers :
  Forall2 (fun s p => parse_peer s = Ok p) l peers -> Forall (fun s => lacks ","%char s = true) l ->
  l = Peer_String <$> peers /\ Forall listable peers.
Proof.
  induction 1 as [|s p l peers Hp _ IH]; intros HF; [done|]. apply Forall_cons in HF as [Hs HF].
  destruct (IH HF) as [-> HL]. apply parse_peer_spec in Hp as (-> & Hc & H1 & H2 & H3).
  split; [done|]. constructor; [by split_and!|done].
Qed.

Lemma listable_colon p : listable p -> blank (Peer_String p) = false.
Proof.
  intros _. unfold Peer_String. generalize (NodeID p) as id. induction id as [|c id IH]; [done|].
  change (String c id +:+ ?z) with (String c (id +:+ z)). cbn [blank]. rewrite IH. by rewrite andb_false_r.
Qed.

Lemma blank_app s1 s2 : blank (s1 +:+ s2) = blank s1 && blank s2.
Proof.
  induction s1 as [|c s1 IH]; [done|]. change (String c s1 +:+ s2) with (String c (s1 +:+ s2)). cbn [blank].
  by rewrite IH, andb_assoc.
Qed.

Lemma parseRawPeers_iff (str : string) (peers : list Peer) :
  parseRawPeers (Some str) = Ok peers <->
  str = peer_list peers /\ Forall listable peers /\ (length peers = 3 \/ length peers = 5)%nat.
Proof.
  unfold parseRawPeers, cluster_size_ok. split.
  - intros H. destruct (blank str); [done|].
    destruct (parse_peers _ _) as [ps|e|] eqn:E; [|done..].
    destruct (Z.eqb_spec (Z.of_nat (length ps)) 3); destruct (Z.eqb_spec (Z.of_nat (length ps)) 5); try done;
      injection H as <-; apply parse_peers_spec in E as (new & E & HF); cbn [app] in E; subst new;
      destruct (concat_Split ","%char str) as [Hj HL]; destruct (peers_listable _ _ HF HL) as [Hl Hok];
      (split_and!; [by rewrite <-Hj, Hl|done|lia]).
  - intros (-> & HL & Hsize). destruct peers as [|p peers]; [by destruct Hsize|].
    assert (blank (peer_list (p :: peers)) = false) as ->.
    { apply Forall_cons in HL as [Hp _]. unfold peer_list. rewrite fmap_cons. destruct (Peer_String <$> peers).
      - by apply listable_colon.
      - by rewrite concat_cons, blank_app, listable_colon. }
    unfold peer_list. rewrite Split_concat; [|done|].
    + assert (parse_peers (Peer_String <$> p :: peers) [] = Ok (p :: peers)) as ->.
      { apply parse_peers_spec. exists (p :: peers). split; [done|]. clear Hsize.
        induction HL as [|q l (Hc & _ & Hq) _ IH]; constructor; [|done]. by apply parse_peer_spec. }
      by destruct Hsize as [-> | ->].
    + apply Forall_fmap. eapply Forall_impl; [exact HL|]. by intros q (_ & Hq & _).
Qed.

(** C36: A static peer list parses to a list of peers exactly when it is the printed form
    of those peers, joined by commas, each with an id and ports and without stray separators, and there are
    three or five of them. So parsing inverts printing and printing inverts parsing. *)
Theorem peer_list_roundtrip (str : string) (peers : list Peer) :
  parseRawPeers (Some str) = Ok peers <->
  str = peer_list peers /\ Forall listable peers /\ (length peers = 3 \/ length peers = 5)%nat.
Proof. apply parseRawPeers_iff. Qed.

(** ** DNS discovery *)

#[export] Instance target_le_trans : Transitive target_le.
Proof. intros a b c Hab Hbc. unfold target_le in *. by etrans. Qed.
#[export] Instance target_le_total : Total target_le.
Proof. intros a b. apply (total (≤)%string). Qed.

Definition node_name (addr : SRV) : string := default "" (head (Split "."%char (TrimDot (Target addr)))).

Lemma peer_name httpPort addr : NodeID (peer_of_srv httpPort addr) = node_name addr.
Proof. done. Qed.

Lemma names_targets (addrs : list SRV) : NoDup (node_name <$> addrs) -> NoDup (Target <$> addrs).
Proof.
  induction addrs as [|a addrs IH]; [by constructor|]. rewrite !fmap_cons, !NoDup_cons. intros [Ha HN].
  split; [|by apply IH]. intros (b & E & Hb)%list_elem_of_fmap. apply Ha. apply list_elem_of_fmap. exists b.
  split; [|done]. unfold node_name. by rewrite E.
Qed.

Lemma NoDup_fmap_eq {A C} (g : A -> C) (l : list A) x y : NoDup (g <$> l) -> x ∈ l -> y ∈ l -> g x = g y -> x = y.
Proof.
  intros HN Hx Hy E. apply list_elem_of_lookup in Hx as [i Hi], Hy as [j Hj].
  assert (i = j) as ->; [|congruence].
  eapply (NoDup_lookup _ i j (g x) HN); rewrite list_lookup_fmap; [by rewrite Hi|by rewrite Hj, E].
Qed.

(** Every order of the records sorts to the same list. *)
Lemma sorted_same (addrs1 addrs2 : list SRV) :
  NoDup (Target <$> addrs1) -> addrs1 ≡ₚ addrs2 -> merge_sort target_le addrs1 = merge_sort target_le addrs2.
Proof.
  intros HN HP. apply (StronglySorted_unique_strong target_le).
  - intros x y Hx Hy H1 H2. rewrite !merge_sort_Permutation in Hx. rewrite merge_sort_Permutation, <-HP in Hy.
    eapply NoDup_fmap_eq; [exact HN|done|done|]. by apply (anti_symm (≤)%string).
  - apply StronglySorted_merge_sort; apply _.
  - apply StronglySorted_merge_sort; apply _.
  - by rewrite !merge_sort_Permutation.
Qed.

(** Every node that resolves the same SRV records, in whatever order DNS returns
    them, computes the same list of peers, and of the nodes named by the records exactly
    one takes itself for the bootstrapping node. *)
Theorem bootstrap_unique (nodes : list (dnsDiscovery * list SRV)) (addrs : list SRV) (httpPort : string) :
  addrs <> [] -> NoDup (node_name <$> addrs) ->
  (forall d answer, (d, answer) ∈ nodes -> answer ≡ₚ addrs /\ dd_HttpPort d = httpPort) ->
  (fun n => NodeID (dd_me n.1)) <$> nodes ≡ₚ node_name <$> addrs ->
  exists peers, (forall n, n ∈ nodes -> lookup_peers n.1 n.2 = peers) /\
    exists! n, n ∈ nodes /\ ShouldBootstrap n.1 peers = true.
Proof.
  intros Hne HN Hans Hids. pose proof (names_targets addrs HN) as HT.
  exists (peer_of_srv httpPort <$> merge_sort target_le addrs). split.
  { intros [d answer] Hn. destruct (Hans d answer Hn) as [HP Hport]. unfold lookup_peers. cbn [fst snd].
    rewrite Hport. f_equal. symmetry. by apply sorted_same. }
  destruct (merge_sort target_le addrs) as [|a rest] eqn:E.
  { pose proof (merge_sort_Permutation target_le addrs) as HP. rewrite E in HP. by apply Permutation_nil in HP. }
  assert (a ∈ addrs) as Ha by (rewrite <-(merge_sort_Permutation target_le addrs), E; left).
  assert (node_name a ∈ (fun n => NodeID (dd_me n.1)) <$> nodes) as (n & Hn1 & Hn2)%list_elem_of_fmap.
  { rewrite Hids. by apply list_elem_of_fmap_2. }
  exists n. split.
  - split; [done|]. cbn [fmap list_fmap ShouldBootstrap]. apply bool_decide_eq_true. by rewrite peer_name.
  - intros n' [Hn' Hb]. cbn [fmap list_fmap ShouldBootstrap] in Hb. apply bool_decide_eq_true in Hb.
    rewrite peer_name in Hb. eapply (NoDup_fmap_eq (fun n => NodeID (dd_me n.1))); [|done|done|congruence].
    by rewrite Hids.
Qed.

(** Polling answers with the first sufficient lookup. *)
Lemma poll_spec d answers :
  match poll d answers with
  | Ok peers => exists pre addrs rest, answers = pre ++ Some addrs :: rest /\ peers = lookup_peers d addrs /\
      ExpectedCount d <= Z.of_nat (length addrs) /\
      Forall (fun a => forall addrs, a = Some addrs -> Z.of_nat (length addrs) < ExpectedCount d) pre
  | Err _ => Forall (fun a => forall addrs, a = Some addrs -> Z.of_nat (length addrs) < ExpectedCount d) answers
  | Panicked => False
  end.
Proof.
  induction answers as [|a answers IH]; cbn [poll]; [by constructor|].
  assert (forall addrs, length (lookup_peers d addrs) = length addrs) as Hlen.
  { intros addrs. unfold lookup_peers. by rewrite length_fmap, (Permutation_length (merge_sort_Permutation target_le addrs)). }
  destruct a as [addrs|]; cbn [lookup].
  - rewrite Hlen. destruct (Z.leb_spec (ExpectedCount d) (Z.of_nat (length addrs))).
    + exists [], addrs, answers. split_and!; [done|done|done|constructor].
    + destruct (poll d answers) as [peers|e|]; [|constructor; [naive_solver|done]|done].
      destruct IH as (pre & ad & rest & -> & -> & Hc & HF). exists (Some addrs :: pre), ad, rest.
      split_and!; [done|done|done|]. constructor; [naive_solver|done].
  - destruct (poll d answers) as [peers|e|]; [|constructor; [naive_solver|done]|done].
    destruct IH as (pre & ad & rest & -> & -> & Hc & HF). exists (None :: pre), ad, rest.
    split_and!; [done|done|done|]. constructor; [naive_solver|done].
Qed.

(** ** Witnesses *)

Definition srv (n : string) : SRV := mkSRV (n +:+ ".kave-headless.default.svc.cluster.local.") 7000.
Definition pod (n : string) : dnsDiscovery :=
  mkDns (mkPeer n "" "7000" "8080") "kave-headless.default.svc.cluster.local" "raft" "8080" 3 0.

Lemma bootstrap_unique_witness :
  exists peers, lookup_peers (pod "kave-voter-1") [srv "kave-voter-1"; srv "kave-voter-0"] = peers /\
    ShouldBootstrap (pod "kave-voter-0") peers = true.
Proof.
  destruct (bootstrap_unique
    [(pod "kave-voter-1", [srv "kave-voter-1"; srv "kave-voter-0"]);
     (pod "kave-voter-0", [srv "kave-voter-0"; srv "kave-voter-1"])]
    [srv "kave-voter-0"; srv "kave-voter-1"] "8080") as (peers & Hl & n & [Hn Hb] & _).
  - discriminate.
  - apply (bool_decide_unpack _). vm_compute. done.
  - intros d answer [[= -> ->]|[[= -> ->]|[]%elem_of_nil]%elem_of_cons]%elem_of_cons; (split; [|done]); [apply perm_swap|done].
  - apply perm_swap.
  - exists peers. split; [apply (Hl _ (list_elem_of_here _ _))|].
    rewrite <-(Hl _ (list_elem_of_here _ _)). reflexivity.
Defined.
