(* ===== verification/RaftSvc.v ===== *)
(** Cluster membership: internal/service/raft_service.go, internal/util/future.go and
    is_leader.go. The Raft library is an interface ([RaftLib]): one node's handle, whose
    futures are handlers on it. The joining side talks to the network through [JoinNet]. *)

From S2P Require Import Prelude Peer.
From Stdlib Require Import ZArith Lia.
From stdpp Require Import base gmap sets list strings sorting.
Open Scope Z_scope.

(** ** hashicorp/raft *)

Inductive RaftState := Follower | Candidate | Leader_ | Shutdown_.
#[export] Instance RaftState_eq_dec : EqDecision RaftState.
Proof. solve_decision. Defined.

Record Server := mkServer { srv_ID : string; srv_Address : string }.

Class RaftLib (R : Type) := {
  LeaderWithID : R -> string * string;
  GetConfiguration : M R (list Server);
  BootstrapCluster : list Server -> M R unit;
  AddVoter : string -> string -> M R unit;
  raft_VerifyLeader : M R unit;
  raft_State : R -> RaftState;
  CommitIndex : R -> Z;
  AppliedIndex : R -> Z }.

(** ** util/future.go, util/is_leader.go *)

(** [ctx]: the error of a context that ends before the future. The operation is not undone. *)
Definition WaitFuture {R A} (ctx : option error) (fut : M R A) : M R A := fun r =>
  match fut r, ctx with
  | (r', Panicked), _ => (r', Panicked)
  | (r', _), Some e => (r', Err e)
  | (r', Err _), None => (r', Err (errMsg "raft future error"))
  | (r', Ok a), None => (r', Ok a)
  end.

Definition NewIsLeaderFunc {R} `{RaftLib R} (me : string) (r : R) : bool := bool_decide (me = (LeaderWithID r).2).

(** ** raft_service.go *)

Definition ErrLeaderNotFound : cause := ErrMsg "raft service: leader not found".
Definition ErrDoublePeerRegistration : cause := ErrMsg "raft service: attempted to register peers twice".

Record raftSvc (R : Type) := mkRaftSvc {
  peerMap : option (gmap string Peer); rs_r : R; lagThreshold : Z }.
Arguments mkRaftSvc {R} _ _ _.
Arguments peerMap {R} _.
Arguments rs_r {R} _.
Arguments lagThreshold {R} _.

Section RaftSvc.
Context {R : Type} {RL : RaftLib R}.
Abbreviation svc := (raftSvc R).

Definition NewRaftService (r : R) (threshold : Z) : svc := mkRaftSvc None r threshold.

Definition on_raft {A} (m : M R A) : M svc A := fun s =>
  let '(r, a) := m (rs_r s) in (mkRaftSvc (peerMap s) r (lagThreshold s), a).
Definition set_peers (pm : gmap string Peer) : M svc unit :=
  modify (fun s => mkRaftSvc (Some pm) (rs_r s) (lagThreshold s)).

Definition register (peers : list Peer) : gmap string Peer :=
  foldl (fun pm p => <[NodeID p := p]> pm) ∅ peers.

Definition RegisterPeers (peers : list Peer) : M svc unit :=
  get_st ≫= fun s =>
  match peerMap s with
  | Some _ => fail [ErrDoublePeerRegistration]
  | None => set_peers (register peers)
  end.

Definition Bootstrap (ctx : option error) (me : Peer) : M svc unit :=
  on_raft (WaitFuture ctx (BootstrapCluster [mkServer (NodeID me) (GetRaftAddress me)])).

(** The configured server with an id. *)
Definition find_server (id : string) (servers : list Server) : option Server :=
  snd <$> list_find (fun n => srv_ID n = id) servers.

(** An error formatted with %v. *)
Definition add_failed {A} (m : M svc A) : M svc A := fun s =>
  match m s with (s', Err _) => (s', Err (errMsg "failed to add peer to cluster")) | r => r end.

(** Nothing to do for a member at its known address. Writing to a nil map panics. *)
Definition AddToCluster (ctx1 ctx2 : option error) (p : Peer) : M svc unit :=
  add_failed (on_raft (WaitFuture ctx1 GetConfiguration)) ≫= fun servers =>
  if bool_decide (srv_Address <$> find_server (NodeID p) servers = Some (GetRaftAddress p)) then mret tt
  else
      add_failed (on_raft (WaitFuture ctx2 (AddVoter (NodeID p) (GetRaftAddress p)))) ≫= fun _ =>
      get_st ≫= fun s =>
      match peerMap s with
      | None => lift Panicked
      | Some pm => set_peers (<[NodeID p := p]> pm)
      end.

Definition RaftConfiguration (ctx : option error) : M svc (list Server) := on_raft (WaitFuture ctx GetConfiguration).

Definition Leader (ctx : option error) : M svc Peer :=
  get_st ≫= fun s =>
  let '(addr, id) := LeaderWithID (rs_r s) in
  if bool_decide (addr = "") || bool_decide (id = "") then fail [ErrLeaderNotFound]
  else
    RaftConfiguration ctx ≫= fun servers =>
    match find_server id servers with
    | None => fail [ErrLeaderNotFound]
    | Some _ =>
        match default ∅ (peerMap s) !! id with
        | None => fail [ErrLeaderNotFound]
        | Some p => mret p
        end
    end.

Definition Peers (s : svc) : list Peer := (map_to_list (default ∅ (peerMap s))).*2.
Definition svc_RaftState (s : svc) : RaftState := raft_State (rs_r s).
Definition VerifyLeader (ctx : option error) : M svc unit := on_raft (WaitFuture ctx raft_VerifyLeader).

(** The commit index, the applied index and the leader are read one after the other, from
    handles [r1], [r2] and [r3] of the same node. *)
Definition LaggingBehind (threshold : Z) (r1 r2 r3 : R) : option error :=
  let c := CommitIndex r1 in
  let a := AppliedIndex r2 in
  if (a =? 0) && negb (bool_decide ((LeaderWithID r3).1 = ""))
  then Some (errMsg "node has not applied any state (waiting for InstallRPC / initial log sync)")
  else if threshold <? u64 (c - a) then Some (errMsg "raft is lagging behind")
  else None.

(** *** Invariant of the peer map *)

Definition peers_ok (s : svc) : Prop := forall pm id p, peerMap s = Some pm -> pm !! id = Some p -> NodeID p = id.

Lemma register_keys peers id p : register peers !! id = Some p -> NodeID p = id /\ p ∈ peers.
Proof.
  unfold register. assert (forall acc : gmap string Peer, foldl (fun pm p => <[NodeID p := p]> pm) acc peers !! id = Some p ->
    acc !! id = Some p \/ NodeID p = id /\ p ∈ peers) as Hg.
  { induction peers as [|q peers IH]; intros acc Hr; [by left|]. cbn [foldl] in Hr. apply IH in Hr as [Hr|[H1 H2]].
    - apply lookup_insert_Some in Hr as [[<- <-]|[_ Hr]]; [right; split; [done|left]|by left].
    - right. split; [done|by right]. }
  intros Hr. apply Hg in Hr as [Hr|Hr]; [by rewrite lookup_empty in Hr|done].
Qed.

Lemma on_raft_peers {A} (m : M R A) s : peerMap (on_raft m s).1 = peerMap s.
Proof. unfold on_raft. by destruct (m (rs_r s)). Qed.

Lemma NewRaftService_ok r t : peers_ok (NewRaftService r t).
Proof. done. Qed.

Lemma RegisterPeers_ok peers s : peers_ok s -> peers_ok (RegisterPeers peers s).1.
Proof.
  intros Hs. unfold RegisterPeers, mbind, M_bind. cbn [get_st]. destruct (peerMap s) eqn:E; [exact Hs|].
  intros pm id p [= <-] Hp. by apply register_keys in Hp as [Hp _].
Qed.

(** The part of AddToCluster that concerns the library. *)
Lemma add_failed_run {A} (m : M R A) s :
  add_failed (on_raft m) s = let '(r, a) := m (rs_r s) in
    (mkRaftSvc (peerMap s) r (lagThreshold s),
     match a with Err _ => Err (errMsg "failed to add peer to cluster") | x => x end).
Proof. unfold add_failed, on_raft. destruct (m (rs_r s)) as [r [a|e|]]; done. Qed.

Lemma AddToCluster_ok c1 c2 p s : peers_ok s -> peers_ok (AddToCluster c1 c2 p s).1.
Proof.
  intros Hs. unfold AddToCluster, mbind, M_bind. rewrite add_failed_run.
  destruct (WaitFuture c1 GetConfiguration (rs_r s)) as [r1 [servers|e|]]; [|exact Hs..].
  case_bool_decide; [exact Hs|]. rewrite add_failed_run. cbn [rs_r peerMap lagThreshold].
  destruct (WaitFuture c2 _ r1) as [r2 [[]|e|]]; [|exact Hs..]. cbn [get_st peerMap].
  destruct (peerMap s) as [pm|] eqn:E; [|by intros ? ? ? [=]].
  intros pm' id q [= <-] Hq. apply lookup_insert_Some in Hq as [[<- <-]|[_ Hq]]; [done|]. by eapply Hs.
Qed.

(** *** Leadership *)

Lemma find_server_Some id servers n : find_server id servers = Some n -> n ∈ servers /\ srv_ID n = id.
Proof.
  unfold find_server. destruct (list_find _ servers) as [[i n']|] eqn:E; [|done]. intros [= <-].
  apply list_find_Some in E as (Hi & Hid & _). split; [by eapply list_elem_of_lookup_2|done].
Qed.
Lemma find_server_None id servers : find_server id servers = None -> forall n, n ∈ servers -> srv_ID n <> id.
Proof.
  unfold find_server. destruct (list_find _ servers) as [[i n']|] eqn:E; [done|]. intros _ n Hn Hid.
  apply list_find_None in E. rewrite Forall_forall in E. by apply (E n Hn).
Qed.

(** Resolving the leader. Leader answers with a peer only if Raft knows a leader, the
    leader is a server of the current configuration and the peer was registered under the
    leader's id, and then its id is the leader's. If Raft knows no leader, or the leader is not in the
    configuration or was never registered with this node, the error is ErrLeaderNotFound.
    The service is left as it was up to the library's own state. *)
Theorem leader_resolved (ctx : option error) (s : svc) :
  peers_ok s ->
  let '(addr, lid) := LeaderWithID (rs_r s) in
  let known := addr <> "" /\ lid <> "" in
  let '(s', r) := Leader ctx s in
  peerMap s' = peerMap s /\
  match r with
  | Ok p => known /\ NodeID p = lid /\ (peerMap s ≫= lookup lid) = Some p /\
      exists servers n, (WaitFuture ctx GetConfiguration (rs_r s)).2 = Ok servers /\ n ∈ servers /\ srv_ID n = lid
  | Err e =>
      (known -> (WaitFuture ctx GetConfiguration (rs_r s)).2 = Err e \/
         e = [ErrLeaderNotFound] /\ exists servers, (WaitFuture ctx GetConfiguration (rs_r s)).2 = Ok servers /\
           ((forall n, n ∈ servers -> srv_ID n <> lid) \/ (peerMap s ≫= lookup lid) = None)) /\
      (~ known -> e = [ErrLeaderNotFound])
  | Panicked => known /\ (WaitFuture ctx GetConfiguration (rs_r s)).2 = Panicked
  end.
Proof.
  intros Hs. unfold Leader. rewrite (M_bind_Ok _ _ s s s) by done.
  destruct (LeaderWithID (rs_r s)) as [addr lid]. cbv zeta.
  destruct (decide (addr = "")) as [->|Ha]; [rewrite bool_decide_eq_true_2 by done; naive_solver|].
  destruct (decide (lid = "")) as [->|Hi];
    [rewrite (bool_decide_eq_true_2 ("" = "")), orb_true_r by done; naive_solver|].
  rewrite !bool_decide_eq_false_2 by done. cbn [orb]. unfold RaftConfiguration, mbind at 1, M_bind, on_raft.
  destruct (WaitFuture ctx GetConfiguration (rs_r s)) as [r' [servers|e|]]; [|naive_solver..]. cbn [snd].
  assert (default ∅ (peerMap s) !! lid = (peerMap s ≫= lookup lid)) as ->.
  { destruct (peerMap s); [done|]. apply lookup_empty. }
  destruct (find_server lid servers) as [n|] eqn:Hf.
  - apply find_server_Some in Hf as [Hn Hid]. destruct (peerMap s ≫= lookup lid) as [p|] eqn:Hp.
    + split; [done|]. split; [done|]. split; [|split; [done|by exists servers, n]].
      apply bind_Some in Hp as (pm & Hpm & Hp). by eapply Hs.
    + split; [done|]. split; [|naive_solver]. intros _. right. split; [done|]. exists servers. auto.
  - pose proof (find_server_None _ _ Hf) as Hno. split; [done|]. split; [|naive_solver].
    intros _. right. split; [done|]. exists servers. auto.
Qed.

(** *** Joining *)

(** What the library documents of AddVoter: once its future succeeds the configuration has
    the server, at the address given. *)
Definition add_voter_configures : Prop := forall id addr r r',
  AddVoter id addr r = (r', Ok tt) ->
  exists servers, (GetConfiguration r').2 = Ok servers /\ find_server id servers = Some (mkServer id addr).
(** Reading the configuration changes nothing. *)
Definition configuration_read_only : Prop := forall r, (GetConfiguration r).1 = r.

Lemma WaitFuture_Ok {A} ctx (fut : M R A) r r' a : WaitFuture ctx fut r = (r', Ok a) -> ctx = None /\ fut r = (r', Ok a).
Proof. unfold WaitFuture. destruct (fut r) as [r1 [x|e|]], ctx; intros [=]; naive_solver. Qed.

(** Admitting a node. When AddToCluster succeeds the node is a server of the Raft
    configuration at its advertised address; unless it already was one, it is also
    registered, so that this node can resolve it as a leader. When it fails, no peer is
    registered or forgotten, and only a service without registered peers panics, after the
    node was added to the configuration. *)
Theorem join_admits (c1 c2 : option error) (p : Peer) (s : svc) :
  add_voter_configures -> configuration_read_only ->
  (forall r, (GetConfiguration r).2 <> Panicked) -> (forall id addr r, (AddVoter id addr r).2 <> Panicked) ->
  let configured (s : svc) := exists servers n, (GetConfiguration (rs_r s)).2 = Ok servers /\
    find_server (NodeID p) servers = Some n /\ srv_Address n = GetRaftAddress p in
  match AddToCluster c1 c2 p s with
  | (s', Ok _) => configured s' /\
      (peerMap s' = peerMap s /\ configured s \/ (peerMap s' ≫= lookup (NodeID p)) = Some p)
  | (s', Err _) => peerMap s' = peerMap s
  | (s', Panicked) => peerMap s = None /\ configured s'
  end.
Proof.
  intros Hadd Hro Hnp1 Hnp2 configured. unfold AddToCluster, mbind, M_bind. rewrite add_failed_run.
  assert (forall r (A : Type) ctx (fut : M R A), (fut r).2 <> Panicked -> (WaitFuture ctx fut r).2 <> Panicked) as Hw.
  { intros r A ctx fut. unfold WaitFuture. destruct (fut r) as [? [| |]], ctx; done. }
  pose proof (Hw (rs_r s) _ c1 GetConfiguration (Hnp1 _)) as Hg.
  destruct (WaitFuture c1 GetConfiguration (rs_r s)) as [r1 [servers|e|]] eqn:E1; [|done|done].
  apply WaitFuture_Ok in E1 as [_ E1]. pose proof (Hro (rs_r s)) as Hr. rewrite E1 in Hr. cbn [fst] in Hr. subst r1.
  case_bool_decide as Hm.
  { apply fmap_Some in Hm as (n & Hf & Ha). assert (configured (mkRaftSvc (peerMap s) (rs_r s) (lagThreshold s))) as Hc.
    { exists servers, n. cbn [rs_r]. by rewrite E1. }
    split; [done|]. left. split; [done|]. exists servers, n. by rewrite E1. }
  rewrite add_failed_run. cbn [rs_r peerMap lagThreshold].
  pose proof (Hw (rs_r s) _ c2 (AddVoter (NodeID p) (GetRaftAddress p)) (Hnp2 _ _ _)) as Hg2.
  destruct (WaitFuture c2 _ (rs_r s)) as [r2 [[]|e|]] eqn:E2; [|done|done].
  apply WaitFuture_Ok in E2 as [_ E2]. destruct (Hadd _ _ _ _ E2) as (sv & Hsv & Hf).
  assert (forall pm, configured (mkRaftSvc pm r2 (lagThreshold s))) as Hc.
  { intros pm. by exists sv, (mkServer (NodeID p) (GetRaftAddress p)). }
  cbn [get_st peerMap]. destruct (peerMap s) as [pm|]; [|split; [done|apply Hc]].
  split; [apply Hc|]. right. cbn [peerMap modify set_peers fst mbind option_bind]. by rewrite lookup_insert_eq.
Qed.

(** *** Readiness *)

(** C35: The lag check computes the distance of the indices in 64-bit arithmetic that wraps
    around. A node that has applied something is reported as lagging exactly if it is more than the
    threshold behind, or if it applied an entry after its commit index was read, however
    far ahead it is: then the difference wraps to a huge number and a healthy node is reported not ready. *)
Theorem lag_check_wraps (threshold : Z) (r1 r2 r3 : R) :
  0 <= threshold < 2 ^ 63 -> 0 <= CommitIndex r1 < 2 ^ 63 -> 0 < AppliedIndex r2 < 2 ^ 63 ->
  is_Some (LaggingBehind threshold r1 r2 r3) <->
  CommitIndex r1 - AppliedIndex r2 > threshold \/ CommitIndex r1 < AppliedIndex r2.
Proof.
  intros Ht Hc Ha. unfold LaggingBehind. rewrite (proj2 (Z.eqb_neq _ _)) by lia. cbn [andb].
  assert (threshold < u64 (CommitIndex r1 - AppliedIndex r2) <->
    CommitIndex r1 - AppliedIndex r2 > threshold \/ CommitIndex r1 < AppliedIndex r2) as Hlt.
  { destruct (Z.lt_ge_cases (CommitIndex r1) (AppliedIndex r2)) as [Hlt|Hge].
    - rewrite u64_neg by lia. lia.
    - rewrite u64_id by lia. lia. }
  destruct (Z.ltb_spec threshold (u64 (CommitIndex r1 - AppliedIndex r2))) as [H|H].
  - split; [intros _; by apply Hlt|by eexists].
  - split; [by intros [? [=]]|]. intros Hx%Hlt. lia.
Qed.

End RaftSvc.

(** ** Joining a cluster *)

(** What the joining node sees of the world. *)
Class JoinNet (W : Type) := {
  ctx_Err : W -> option error;
  http_post : string -> M W (Z * string);
  sleep : Z -> M W unit }.

Section Join.
Context {W : Type} {JN : JoinNet W}.

(** [fuel] bounds the redirections followed. *)
Fixpoint join (fuel : nat) (url : string) : M W unit :=
  match fuel with
  | O => fail (errMsg "redirected too often")
  | S fuel =>
      get_st ≫= fun w =>
      match ctx_Err w with
      | Some e => fail e
      | None =>
          try (http_post url) ≫= fun res =>
          match res with
          | inr _ => fail (errMsg "client error")
          | inl (status, loc) =>
              if (status =? 200) || (status =? 204) then mret tt
              else if status =? 307
                   then if bool_decide (loc = "") then fail (errMsg "redirected without location") else join fuel loc
              else fail (errMsg "status")
          end
      end
  end.

(** One attempt: every URL in turn until a join succeeds. *)
Fixpoint join_urls (fuel : nat) (urls : list string) : M W bool :=
  match urls with
  | [] => mret false
  | url :: rest =>
      try (join fuel url) ≫= fun r =>
      match r with inl _ => mret true | inr _ => join_urls fuel rest end
  end.

Definition backoff (a : Z) (jitter : Z) : Z :=
  i64 (i64 (i64 (Z.shiftl 2 a) * 1000000000) + Z.quot (i64 (jitter * 1000000)) 2).

(** The attempts [a], [a+1], ...; [jitter] is what rand.Int64N(1000) returns. *)
Fixpoint join_attempts (fuel : nat) (jitter : Z -> Z) (urls : list string) (n : nat) (a : Z) : M W unit :=
  match n with
  | O => fail (errMsg "could not join peers")
  | S n =>
      join_urls fuel urls ≫= fun ok : bool =>
      if ok then mret tt
      else sleep (backoff a (jitter a)) ≫= fun _ => join_attempts fuel jitter urls n (a + 1)
  end.

Definition joinWithBackoff (fuel : nat) (jitter : Z -> Z) (urls : list string) (attempts : nat) : M W unit :=
  join_attempts fuel jitter urls attempts 0.

(** The peers are visited in the order of the map. *)
Definition join_targets (me : Peer) (peers : list Peer) : list string :=
  (fun p => HttpURL p +:+ "/v1/admin/join") <$> filter (fun p => NodeID p <> NodeID me) peers.

Definition JoinCluster (fuel : nat) (jitter0 : Z) (jitter : Z -> Z) (me : Peer) (peers : list Peer) : M W unit :=
  let urls := join_targets me peers in
  sleep (2000000000 + jitter0) ≫= fun _ => joinWithBackoff fuel jitter urls 5.
End Join.

(** A network with a fixed answer to the n-th request; it records requests and sleep. *)
Section JoinRun.
Variable answer : nat -> res (Z * string).
Record net := mkNet { posts : list string; slept : Z }.
Local Instance recording_net : JoinNet net := {|
  ctx_Err _ := None;
  http_post url w := (mkNet (posts w ++ [url]) (slept w), answer (length (posts w)));
  sleep d w := (mkNet (posts w) (slept w + d), Ok tt) |}.

Definition accepted (n : nat) : bool :=
  match answer n with Ok (st, _) => (st =? 200) || (st =? 204) | _ => false end.
(** The servers proxy and do not redirect. *)
Definition direct : Prop := forall n, answer n <> Panicked /\ forall st loc, answer n = Ok (st, loc) -> st <> 307.

Lemma join_run fuel url w :
  direct -> let w' := mkNet (posts w ++ [url]) (slept w) in
  if accepted (length (posts w)) then join (S fuel) url w = (w', Ok tt) else exists e, join (S fuel) url w = (w', Err e).
Proof.
  intros Hd w'. destruct (Hd (length (posts w))) as [Hp Hn]. unfold accepted. cbn [join].
  unfold mbind, M_bind, try. cbn [get_st ctx_Err recording_net http_post].
  destruct (answer (length (posts w))) as [[st loc]|e|]; [|by eexists|done].
  specialize (Hn st loc eq_refl). destruct ((st =? 200) || (st =? 204)); [done|].
  rewrite (proj2 (Z.eqb_neq _ _)) by done. by eexists.
Qed.

Lemma join_urls_run fuel urls w :
  direct -> exists k ok, join_urls (S fuel) urls w = (mkNet (posts w ++ take k urls) (slept w), Ok ok) /\
    (k <= length urls)%nat /\
    if ok then exists j, k = S j /\ accepted (length (posts w) + j) = true /\
                 forall i, (i < j)%nat -> accepted (length (posts w) + i) = false
    else k = length urls /\ forall i, (i < k)%nat -> accepted (length (posts w) + i) = false.
Proof.
  intros Hd. revert w. induction urls as [|url urls IH]; intros w.
  { exists 0%nat, false. cbn [join_urls take]. rewrite app_nil_r. destruct w. split_and!; [done|done|done|lia]. }
  pose proof (join_run fuel url w Hd) as Hj. cbn [join_urls]. unfold mbind, M_bind, try at 1.
  destruct (accepted (length (posts w))) eqn:Ha.
  - rewrite Hj. exists 1%nat, true. split_and!; [done|simpl; lia|]. exists 0%nat. rewrite Nat.add_0_r. split_and!; [done|done|lia].
  - destruct Hj as [e ->]. destruct (IH (mkNet (posts w ++ [url]) (slept w))) as (k & ok & Hr & Hk & Hok).
    exists (S k), ok. rewrite Hr. cbn [posts slept take length]. rewrite <-app_assoc. split; [done|]. split; [lia|].
    cbn [posts] in Hok. rewrite length_app in Hok. cbn [length] in Hok.
    assert (forall i, (forall i0, (i0 < i)%nat -> accepted (length (posts w) + 1 + i0) = false) ->
      forall i0, (i0 < S i)%nat -> accepted (length (posts w) + i0) = false) as Hsh.
    { intros i Hi [|i0] Hlt; [by rewrite Nat.add_0_r|]. rewrite <-(Hi i0) by lia. f_equal. lia. }
    destruct ok.
    + destruct Hok as (j & -> & Hj & Hf). exists (S j). split; [done|]. split; [rewrite <-Hj; f_equal; lia|by apply Hsh].
    + destruct Hok as [-> Hf]. split; [done|by apply Hsh].
Qed.

Lemma backoff_bounds a j :
  0 <= a < 5 -> 0 <= j < 1000 ->
  2 ^ (a + 1) * 1000000000 <= backoff a j <= 2 ^ (a + 1) * 1000000000 + 500000000.
Proof.
  intros Ha Hj. unfold backoff. rewrite Z.shiftl_mul_pow2 by lia. rewrite Z.pow_add_r by lia.
  assert (1 <= 2 ^ a <= 2 ^ 4) as Hp.
  { split; [pose proof (Z.pow_pos_nonneg 2 a); lia|]. apply Z.pow_le_mono_r; lia. }
  assert (0 <= Z.quot (j * 1000000) 2 <= 500000000) as Hq.
  { rewrite Z.quot_div_nonneg by lia. split; [apply Z.div_pos; lia|]. apply Z.div_le_upper_bound; lia. }
  generalize dependent (2 ^ a). intros x Hp.
  rewrite (i64_id (j * 1000000)), (i64_id (2 * x)), (i64_id (2 * x * 1000000000)), i64_id
    by (unfold in_i64, MinInt64, MaxInt64; lia). lia.
Qed.

Lemma join_attempts_run fuel jitter urls n a w :
  direct -> (forall a, 0 <= jitter a < 1000) -> 0 <= a -> a + Z.of_nat n <= 5 ->
  exists w' r, join_attempts (S fuel) jitter urls n a w = (w', r) /\
    (exists k, (k <= n * length urls)%nat /\ posts w' = posts w ++ take k (mjoin (replicate n urls)) /\
      match r with
      | Ok _ => exists j, k = S j /\ accepted (length (posts w) + j) = true /\
                  forall i, (i < j)%nat -> accepted (length (posts w) + i) = false
      | Err _ => k = (n * length urls)%nat /\ (forall i, (i < k)%nat -> accepted (length (posts w) + i) = false) /\
          slept w + (2 ^ (a + Z.of_nat n + 1) - 2 ^ (a + 1)) * 1000000000 <= slept w' <=
          slept w + (2 ^ (a + Z.of_nat n + 1) - 2 ^ (a + 1)) * 1000000000 + Z.of_nat n * 500000000
      | Panicked => False
      end).
Proof.
  intros Hd Hjit. revert a w. induction n as [|n IH]; intros a w Ha Hn; cbn [join_attempts].
  { do 2 eexists. split; [reflexivity|]. exists 0%nat. rewrite app_nil_r.
    replace (a + Z.of_nat 0 + 1) with (a + 1) by lia. split_and!; [lia|done|lia|lia|lia|lia]. }
  destruct (join_urls_run fuel urls w Hd) as (k & ok & Hrun & Hk & Hok). rewrite (M_bind_Ok _ _ _ _ _ Hrun).
  cbn [replicate mjoin list_join]. destruct ok.
  { do 2 eexists. split; [reflexivity|]. exists k. split; [lia|]. split; [|done]. cbn [posts].
    by rewrite take_app_le. }
  destruct Hok as [-> Hno].
  set (w1 := mkNet (posts w ++ take (length urls) urls) (slept w + backoff a (jitter a))).
  rewrite (M_bind_Ok _ _ _ w1 tt) by done.
  destruct (IH (a + 1) w1) as (w' & r & Hr & k & Hk' & Hp & Hres); [lia|lia|]. exists w', r. split; [exact Hr|].
  exists (length urls + k)%nat. split; [simpl; lia|].
  assert (length (posts w1) = length (posts w) + length urls)%nat as Hl.
  { unfold w1. cbn [posts]. rewrite length_app, length_take. lia. }
  assert (forall j, (forall i, (i < j)%nat -> accepted (length (posts w1) + i) = false) ->
    forall i, (i < length urls + j)%nat -> accepted (length (posts w) + i) = false) as Hsh.
  { intros j Hj i Hi. destruct (Nat.lt_ge_cases i (length urls)) as [Hlt|Hge]; [by apply Hno|].
    rewrite <-(Hj (i - length urls)%nat) by lia. f_equal. lia. }
  split; [rewrite Hp; unfold w1; cbn [posts]; rewrite <-app_assoc, take_app_add, firstn_all; done|].
  destruct r as [[]|e|]; [| |done].
  - destruct Hres as (j & -> & Hj & Hf). exists (length urls + j)%nat. split; [lia|]. split; [rewrite <-Hj; f_equal; lia|].
    by apply Hsh.
  - destruct Hres as (-> & Hf & Hs). split; [simpl; lia|]. split; [by apply Hsh|].
    unfold w1 in Hs. cbn [slept] in Hs. pose proof (backoff_bounds a (jitter a) ltac:(lia) (Hjit a)) as Hb.
    replace (a + Z.of_nat (S n) + 1) with (a + 1 + Z.of_nat n + 1) by lia.
    rewrite (Z.pow_add_r 2 (a + 1) 1) in Hs by lia. lia.
Qed.

(** Joining a cluster is bounded. With servers that do not redirect, the node asks its
    peers in order, at most five rounds, and stops at the first one that accepts it; it
    gives up only after every peer refused in all five rounds, after between 62 and 64.5
    seconds of sleep, with no overflow in the computed delays. *)
Theorem join_bounded (fuel : nat) (jitter : Z -> Z) (urls : list string) :
  direct -> (forall a, 0 <= jitter a < 1000) ->
  exists w' r, joinWithBackoff (S fuel) jitter urls 5 (mkNet [] 0) = (w', r) /\
    posts w' `prefix_of` mjoin (replicate 5 urls) /\
    match r with
    | Ok _ => exists j, length (posts w') = S j /\ accepted j = true /\ forall i, (i < j)%nat -> accepted i = false
    | Err _ => posts w' = mjoin (replicate 5 urls) /\
        (forall i, (i < length (posts w'))%nat -> accepted i = false) /\
        62000000000 <= slept w' <= 64500000000
    | Panicked => False
    end.
Proof.
  intros Hd Hjit. destruct (join_attempts_run fuel jitter urls 5 0 (mkNet [] 0) Hd Hjit) as (w' & r & Hr & k & Hk & Hp & Hres);
    [lia|lia|]. exists w', r. split; [exact Hr|]. cbn [posts app length] in Hp, Hres.
  assert (length (mjoin (replicate 5 urls)) = 5 * length urls)%nat as Hlen.
  { cbn [replicate mjoin list_join]. rewrite !length_app. simpl. lia. }
  assert (length (posts w') = k) as Hl by (rewrite Hp, length_take; lia).
  split; [rewrite Hp; apply prefix_take|]. destruct r as [[]|e|]; [| |done].
  - by rewrite Hl.
  - destruct Hres as (-> & Hf & Hs). split; [rewrite Hp; apply take_ge; lia|]. rewrite Hl. split; [done|].
    cbn [slept] in Hs. lia.
Qed.

End JoinRun.

(** ** Witnesses *)

(** A library with a fixed leader and the configuration as its state. *)
#[export] Instance toy_raft : RaftLib (list Server) := {|
  LeaderWithID r := match last r with None => ("", "") | Some n => (srv_Address n, srv_ID n) end;
  GetConfiguration r := (r, Ok r);
  BootstrapCluster servers _ := (servers, Ok tt);
  AddVoter id addr r := (mkServer id addr :: r, Ok tt);
  raft_VerifyLeader r := (r, Ok tt);
  raft_State _ := Leader_;
  CommitIndex r := Z.of_nat (length r);
  AppliedIndex r := Z.of_nat (length r) |}.

Definition peer1 : Peer := mkPeer "n1" "" "7000" "8080".
Definition peer2 : Peer := mkPeer "n2" "" "7000" "8080".
Definition svc1 : raftSvc (list Server) := (RegisterPeers [peer1] (NewRaftService [mkServer "n1" "n1:7000"] 20)).1.

Lemma leader_resolved_witness : exists s', Leader None svc1 = (s', Ok peer1) /\ NodeID peer1 = "n1".
Proof.
  pose proof (leader_resolved None svc1 (RegisterPeers_ok [peer1] _ (NewRaftService_ok _ _))) as H.
  destruct (Leader None svc1) as [s' r] eqn:E. exists s'.
  assert (r = Ok peer1) as -> by (apply (f_equal snd) in E; simpl in E; rewrite <-E; vm_compute; reflexivity).
  split; [done|]. apply H.
Defined.

Lemma join_admits_witness :
  exists s', AddToCluster None None peer2 svc1 = (s', Ok tt) /\ (peerMap s' ≫= lookup "n2") = Some peer2.
Proof.
  assert (add_voter_configures (R := list Server)) as Ha.
  { intros i addr r r' [= <-]. exists (mkServer i addr :: r). split; [done|]. unfold find_server. simpl.
    by rewrite decide_True. }
  pose proof (join_admits None None peer2 svc1 Ha ltac:(done) ltac:(done) ltac:(done)) as H.
  destruct (AddToCluster None None peer2 svc1) as [s' r] eqn:E. exists s'.
  assert (r = Ok tt) as -> by (apply (f_equal snd) in E; simpl in E; rewrite <-E; vm_compute; reflexivity).
  split; [done|]. destruct H as [_ [[_ (servers & n & [= <-] & Hf & _)]|H]]; [vm_compute in Hf; discriminate|exact H].
Defined.

Lemma lag_check_wraps_witness :
  is_Some (LaggingBehind 20 [mkServer "n1" "a"] [mkServer "n1" "a"; mkServer "n2" "b"] [mkServer "n1" "a"]).
Proof. apply lag_check_wraps; [lia|vm_compute; by split|vm_compute; by split|right; reflexivity]. Defined.

(** The second request is accepted. *)
Definition second_accepts (n : nat) : res (Z * string) := if (n =? 1)%nat then Ok (200, "") else Ok (503, "").

Lemma join_bounded_witness :
  exists w' r, @joinWithBackoff net (recording_net second_accepts) 1 (fun _ => 7) ["u"; "v"; "w"] 5 (mkNet [] 0) = (w', r) /\
    length (posts w') = 2%nat /\ r = Ok tt.
Proof.
  destruct (join_bounded second_accepts 0 (fun _ => 7) ["u"; "v"; "w"]) as (w' & r & H & _ & Hr).
  - intros n. unfold second_accepts. destruct (n =? 1)%nat; (split; [discriminate|]); intros st loc [= <- _]; discriminate.
  - intros _. lia.
  - exists w', r. split; [exact H|]. vm_compute in H. injection H as <- <-. split; reflexivity.
Defined.
