(* ===== verification/Node.v ===== *)
(** The node: internal/fsm/event_watcher.go (Raft observations to the background loops) and
    internal/node/node.go (bootstrap, the goroutines of Run, shutdown). The goroutines of Run are a
    step relation; the errgroup library is the class [ErrGroup]. *)

From S2P Require Import Prelude OrdTree KvTypes KeyIndex TreeIndex Storage Inmem Backend Mvcc MvccInv Api Engine Heap Lease LeaseInv Ot Loops Fsm Peer RaftSvc.
From Stdlib Require Import ZArith Lia.
From stdpp Require Import base gmap sets list strings relations.
Open Scope Z_scope.

(** ** event_watcher.go *)

(** raft.Observation, by its data. *)
Inductive Observation :=
  | ObsRaftState (s : RaftState)
  | ObsLeader (leaderID : string)
  | ObsOther.

Definition defaultFilterFn (ev : Observation) : bool :=
  match ev with ObsRaftState _ | ObsLeader _ => true | ObsOther => false end.

(** The observers are pointers to the loops of the node. *)
Inductive observer_ref := RefCheckpoint | RefExpiry | RefCompaction.

(** [ew_c] is the buffer of the channel; the last two fields are the counters it raises. *)
Record RaftEventWatcher := mkWatcher {
  ew_c : list Observation; ew_closed : bool; ew_myID : string;
  leadershipObservers : list observer_ref; ElectionsTotal : Z; LeaderChangesTotal : Z }.

Definition NewRaftEventWatcher (id : string) : RaftEventWatcher := mkWatcher [] false id [] 0 0.

(** ** The node's own state *)

(** [n_http], [n_raft]: the HTTP server and Raft have not been shut down. *)
Record Node := mkNode {
  n_Me : Peer; n_Bootstrap : bool; n_IsShutdown : bool; n_shutdownOnce : bool;
  n_watcher : RaftEventWatcher; n_checkpoint : CheckpointScheduler; n_expiry : ExpiryLoop;
  n_compaction : CompactionScheduler; n_observing : bool; n_http : bool; n_raft : bool }.

Definition set_watcher (w : RaftEventWatcher) (n : Node) : Node :=
  mkNode (n_Me n) (n_Bootstrap n) (n_IsShutdown n) (n_shutdownOnce n) w (n_checkpoint n) (n_expiry n)
    (n_compaction n) (n_observing n) (n_http n) (n_raft n).
Definition set_loops (ck : CheckpointScheduler) (ex : ExpiryLoop) (cs : CompactionScheduler) (n : Node) : Node :=
  mkNode (n_Me n) (n_Bootstrap n) (n_IsShutdown n) (n_shutdownOnce n) (n_watcher n) ck ex cs
    (n_observing n) (n_http n) (n_raft n).

(** initRaft, initBackgroundRoutines and registerObservers of node.go, as far as the loops go. *)
Definition NewNode (me : Peer) (bootstrap : bool) (intervalMinutes : Z) (opts : CompactionOptions) : Node :=
  mkNode me bootstrap false false (NewRaftEventWatcher (NodeID me))
    (NewCheckpointScheduler (i64 (intervalMinutes * (60 * Second)))) (mkExpiryLoop (lead_start false) false)
    (NewScheduler (Some opts)) false true true.
Definition RegisterLeadershipObservers (obs : list observer_ref) (w : RaftEventWatcher) : RaftEventWatcher :=
  mkWatcher (ew_c w) (ew_closed w) (ew_myID w) (leadershipObservers w ++ obs) (ElectionsTotal w) (LeaderChangesTotal w).
Definition registerObservers (n : Node) : Node :=
  let n := set_watcher (RegisterLeadershipObservers [RefCheckpoint; RefExpiry; RefCompaction] (n_watcher n)) n in
  mkNode (n_Me n) (n_Bootstrap n) (n_IsShutdown n) (n_shutdownOnce n) (n_watcher n) (n_checkpoint n) (n_expiry n)
    (n_compaction n) true (n_http n) (n_raft n).

(** *** One turn of the watcher's loop on an observation *)

Definition notify (granted : bool) (n : Node) (ob : observer_ref) : Node :=
  match ob with
  | RefCheckpoint =>
      set_loops (if granted then ck_OnLeadershipGranted (n_checkpoint n) else ck_OnLeadershipLost (n_checkpoint n))
        (n_expiry n) (n_compaction n) n
  | RefExpiry =>
      set_loops (n_checkpoint n)
        (if granted then ex_OnLeadershipGranted (n_expiry n) else ex_OnLeadershipLost (n_expiry n)) (n_compaction n) n
  | RefCompaction =>
      set_loops (n_checkpoint n) (n_expiry n)
        (if granted then cs_OnLeadershipGranted (n_compaction n) else cs_OnLeadershipLost (n_compaction n)) n
  end.

Definition count_event (elections changes : Z) (w : RaftEventWatcher) : RaftEventWatcher :=
  mkWatcher (ew_c w) (ew_closed w) (ew_myID w) (leadershipObservers w)
    (ElectionsTotal w + elections) (LeaderChangesTotal w + changes).

Definition handle_event (n : Node) (ev : Observation) : Node :=
  match ev with
  | ObsRaftState Candidate => set_watcher (count_event 1 0 (n_watcher n)) n
  | ObsLeader id =>
      let n := set_watcher (count_event 0 1 (n_watcher n)) n in
      let leadershipGranted := bool_decide (id = ew_myID (n_watcher n)) in
      foldl (notify leadershipGranted) n (leadershipObservers (n_watcher n))
  | _ => n
  end.

(** Receiving: the head of the buffer. *)
Definition watcher_receive (n : Node) : option Node :=
  match ew_c (n_watcher n) with
  | [] => None
  | ev :: rest =>
      let w := n_watcher n in
      Some (handle_event (set_watcher (mkWatcher rest (ew_closed w) (ew_myID w) (leadershipObservers w)
        (ElectionsTotal w) (LeaderChangesTotal w)) n) ev)
  end.

(** Closing a closed channel panics. *)
Definition watcher_Stop : M Node unit := fun n =>
  let w := n_watcher n in
  if ew_closed w then (n, Panicked)
  else (set_watcher (mkWatcher (ew_c w) true (ew_myID w) (leadershipObservers w) (ElectionsTotal w) (LeaderChangesTotal w)) n, Ok tt).

(** ** Shutdown *)

(** What the HTTP server (Shutdown, Close) and Raft (Shutdown) answer. *)
Record shutdown_env := mkShutdownEnv { e_http_shutdown : option error; e_http_close : option error; e_raft : option error }.

(** server.go: the error of Shutdown is shadowed by that of Close. *)
Definition HttpServer_Shutdown (env : shutdown_env) : option error :=
  match e_http_shutdown env with Some _ => e_http_close env | None => None end.

Definition doShutdown (env : shutdown_env) : M Node unit :=
  modify (fun n => mkNode (n_Me n) (n_Bootstrap n) (n_IsShutdown n) (n_shutdownOnce n) (n_watcher n) (n_checkpoint n)
    (n_expiry n) (n_compaction n) false (n_http n) (n_raft n)) ≫= fun _ =>
  watcher_Stop ≫= fun _ =>
  modify (fun n => set_loops (ck_Stop (n_checkpoint n)) (ex_Stop (n_expiry n)) (cs_Stop (n_compaction n)) n) ≫= fun _ =>
  modify (fun n => mkNode (n_Me n) (n_Bootstrap n) (n_IsShutdown n) (n_shutdownOnce n) (n_watcher n) (n_checkpoint n)
    (n_expiry n) (n_compaction n) (n_observing n) false (n_raft n)) ≫= fun _ =>
  match HttpServer_Shutdown env with
  | Some e => fail e
  | None =>
      modify (fun n => mkNode (n_Me n) (n_Bootstrap n) (n_IsShutdown n) (n_shutdownOnce n) (n_watcher n) (n_checkpoint n)
        (n_expiry n) (n_compaction n) (n_observing n) (n_http n) false) ≫= fun _ =>
      match e_raft env with
      | Some e => fail e
      | None =>
          modify (fun n => mkNode (n_Me n) (n_Bootstrap n) true (n_shutdownOnce n) (n_watcher n) (n_checkpoint n)
            (n_expiry n) (n_compaction n) (n_observing n) (n_http n) (n_raft n))
      end
  end.

(** sync.Once: a first call that fails counts. *)
Definition Shutdown (env : shutdown_env) : M Node unit :=
  get_st ≫= fun n =>
  if n_shutdownOnce n then mret tt
  else
    modify (fun n => mkNode (n_Me n) (n_Bootstrap n) (n_IsShutdown n) true (n_watcher n) (n_checkpoint n)
      (n_expiry n) (n_compaction n) (n_observing n) (n_http n) (n_raft n)) ≫= fun _ =>
    doShutdown env.

(** ** Bootstrapping or joining *)

Section Cluster.
Context {R W : Type} {RL : RaftLib R} {JN : JoinNet W}.
Abbreviation world := (raftSvc R * W)%type.
(** util.ProposeFunc *)
Variable propose : Command -> M world Result.

Definition on_svc {A} (m : M (raftSvc R) A) : M world A := fun w =>
  let '(s, r) := m w.1 in ((s, w.2), r).
Definition on_net {A} (m : M W A) : M world A := fun w =>
  let '(n, r) := m w.2 in ((w.1, n), r).

Definition cluster_key_cmd (key : bytes) : Command :=
  mkCommand KindOTGenerateClusterKey None None None None None None None None None None None (Some (mkOTKey (Some key))).

(** The polling goroutine: at each poll the error of the context with its timeout, if it is
    over, and what RaftState answers. After the last poll the timeout of 15 s has passed. *)
Fixpoint wait_until_leader (polls : list (option error * RaftState)) : M world unit :=
  match polls with
  | [] => fail (errMsg "context deadline exceeded")
  | (Some e, _) :: _ => fail e
  | (None, st) :: rest => if bool_decide (st = Leader_) then mret tt else wait_until_leader rest
  end.

(** Only the error of the proposal is looked at, not that of the result. *)
Definition bootstrap (ctx : option error) (me : Peer) (polls : list (option error * RaftState)) (key : bytes) : M world unit :=
  on_svc (Bootstrap ctx me) ≫= fun _ =>
  wait_until_leader polls ≫= fun _ =>
  propose (cluster_key_cmd key) ≫= fun _ => mret tt.

(** raft.HasExistingState on the stores of the node *)
Variable HasExistingState : R -> res bool.

Definition BootstrapOrJoin (ctx : option error) (polls : list (option error * RaftState))
    (key : bytes) (fuel : nat) (jitter0 : Z) (jitter : Z -> Z) (n : Node) : M world unit :=
  get_st ≫= fun w : world =>
  lift (HasExistingState (rs_r w.1)) ≫= fun hasState : bool =>
  if hasState then mret tt
  else if n_Bootstrap n then bootstrap ctx (n_Me n) polls key
  else on_net (JoinCluster fuel jitter0 jitter (n_Me n) (Peers w.1)).

(** A leader is seen before the context ends. *)
Definition elected (polls : list (option error * RaftState)) : bool :=
  match list_find (fun p => is_Some p.1 \/ p.2 = Leader_) polls with Some (_, (None, _)) => true | _ => false end.

Lemma wait_until_leader_spec polls w :
  (elected polls = true -> wait_until_leader polls w = (w, Ok tt)) /\
  (elected polls = false -> exists e, wait_until_leader polls w = (w, Err e)).
Proof.
  unfold elected. induction polls as [|[[e|] st] polls [IH1 IH2]]; cbn [wait_until_leader list_find].
  - split; [done|]. by eexists.
  - rewrite decide_True by (left; by eexists). split; [done|]. by eexists.
  - destruct (decide (st = Leader_)) as [->|Hne].
    + rewrite decide_True, bool_decide_eq_true_2 by (done || by right). by split.
    + rewrite decide_False, bool_decide_eq_false_2 by (done || intros [[? [=]]|?]; done).
      destruct (list_find _ polls) as [[i [[e|] st']]|]; cbn [prod_map fst snd] in *; by split.
Qed.

(** What Raft documents of bootstrapping: it leaves state. *)
Hypothesis bootstrap_leaves_state : forall servers r r',
  servers <> [] -> BootstrapCluster servers r = (r', Ok tt) -> HasExistingState r' = Ok true.

(** A bootstrap node without Raft state that bootstraps its cluster and is elected within the timeout
    proposes the key of the oblivious-transfer component; one that is not elected in time proposes nothing and
    reports an error. In both cases the cluster is bootstrapped, so the node resumes when it is started again
    right after, and proposes no key. *)
Theorem cluster_key_once (polls polls2 : list (option error * RaftState)) (key key2 : bytes) (fuel : nat)
    (jitter0 : Z) (jitter : Z -> Z) (ctx2 : option error) (n n2 : Node) (w : world) (r' : R) :
  HasExistingState (rs_r w.1) = Ok false -> n_Bootstrap n = true ->
  BootstrapCluster [mkServer (NodeID (n_Me n)) (GetRaftAddress (n_Me n))] (rs_r w.1) = (r', Ok tt) ->
  let w1 := (mkRaftSvc (peerMap w.1) r' (lagThreshold w.1), w.2) in
  (elected polls = true -> BootstrapOrJoin None polls key fuel jitter0 jitter n w =
     (propose (cluster_key_cmd key) ≫= fun _ => mret tt) w1) /\
  (elected polls = false -> exists e, BootstrapOrJoin None polls key fuel jitter0 jitter n w = (w1, Err e)) /\
  BootstrapOrJoin ctx2 polls2 key2 fuel jitter0 jitter n2 w1 = (w1, Ok tt).
Proof using bootstrap_leaves_state.
  intros Hs Hb Hboot w1.
  assert (on_svc (Bootstrap None (n_Me n)) w = (w1, Ok tt)) as Hbs.
  { unfold on_svc, Bootstrap, on_raft, WaitFuture. by rewrite Hboot. }
  assert (forall c p k m w0, HasExistingState (rs_r w0.1) = Ok false -> n_Bootstrap m = true ->
    BootstrapOrJoin c p k fuel jitter0 jitter m w0 = bootstrap c (n_Me m) p k w0) as Hrun.
  { intros c p k m w0 H0 Hm. unfold BootstrapOrJoin, mbind, M_bind, get_st, lift. by rewrite H0, Hm. }
  destruct (wait_until_leader_spec polls w1) as [He Hne].
  split_and!.
  - intros Hel. rewrite Hrun by done. unfold bootstrap. rewrite (M_bind_Ok _ _ _ _ _ Hbs). by rewrite (M_bind_Ok _ _ _ _ _ (He Hel)).
  - intros Hel. destruct (Hne Hel) as [e He']. exists e. rewrite Hrun by done. unfold bootstrap.
    rewrite (M_bind_Ok _ _ _ _ _ Hbs). unfold mbind, M_bind. by rewrite He'.
  - unfold BootstrapOrJoin, mbind, M_bind, get_st, lift. cbn [fst rs_r w1]. by rewrite (bootstrap_leaves_state [_] _ _ ltac:(done) Hboot).
Qed.
End Cluster.

(** ** The goroutines of Run *)

Inductive routine := HttpStart | CompactionRun | ExpiryRun | CheckpointRun | WatcherRun | UnsyncedRun
  | KillWatcher | ShutdownWatcher.
#[export] Instance routine_eq_dec : EqDecision routine.
Proof. solve_decision. Defined.
Definition routines : list routine :=
  [HttpStart; CompactionRun; ExpiryRun; CheckpointRun; WatcherRun; UnsyncedRun; KillWatcher; ShutdownWatcher].

(** What the functions of the group have returned, in order. *)
Abbreviation returns_log := (list (routine * option error)).
Definition first_error (h : returns_log) : option error := head (omap snd h).

(** golang.org/x/sync/errgroup: the context of the group is cancelled when a function
    returns an error, and Wait blocks until every function has returned and then returns
    the first error. *)
Class ErrGroup := {
  eg_cancelled : returns_log -> bool;
  eg_Wait : returns_log -> option (option error);
  eg_cancelled_spec h : eg_cancelled h = true <-> exists r e, (r, Some e) ∈ h;
  eg_Wait_blocks h r : r ∈ routines -> r ∉ h.*1 -> eg_Wait h = None;
  eg_Wait_first h : (forall r, r ∈ routines -> r ∈ h.*1) -> eg_Wait h = Some (first_error h) }.

(** The calling goroutine: in BootstrapOrJoin, in Wait, or returned. *)
Inductive main_phase := Joining | Waiting | Done (r : option error).

Record RunState := mkRun {
  rn_node : Node; rn_cancelled : bool; rn_rets : returns_log; rn_main : main_phase }.

(** server.ListenAndServe ends with ErrServerClosed or with another error. *)
Definition HttpServer_Start (closed : bool) (e : error) : option error := if closed then None else Some e.

Inductive run_label :=
  | Signal                          (* the parent context is cancelled *)
  | Kill                            (* a send on shutdownC is received *)
  | JoinReturns (e : option error)  (* BootstrapOrJoin returns *)
  | Internal.

Definition running_loops (n : Node) (r : routine) : bool :=
  match r with
  | CompactionRun => cs_running (n_compaction n)
  | ExpiryRun => ex_running (n_expiry n)
  | CheckpointRun => ck_running (n_checkpoint n)
  | _ => true
  end.

Section Run.
Context {EG : ErrGroup}.

(** The context of the group: derived from that of Run. *)
Definition group_done (st : RunState) : bool := rn_cancelled st || eg_cancelled (rn_rets st).
Definition ret (r : routine) (e : option error) (st : RunState) : RunState :=
  mkRun (rn_node st) (rn_cancelled st) (rn_rets st ++ [(r, e)]) (rn_main st).
Definition pending_routine (st : RunState) (r : routine) : Prop := r ∉ (rn_rets st).*1.
Definition runCancel (st : RunState) : RunState := mkRun (rn_node st) true (rn_rets st) (rn_main st).
Definition set_node (n : Node) (st : RunState) : RunState := mkRun n (rn_cancelled st) (rn_rets st) (rn_main st).

Definition CtxErr : error := errMsg "context canceled".
Definition ObsClosedErr : error := errMsg "observation channel closed".

(** The relation allows more than the code does where a goroutine may be in a tick or a call that does not end: a
    background loop returns as soon as its context is done, and the join as soon as it likes. It is meant for what
    holds of all runs. *)
Inductive run_step : run_label -> RunState -> RunState -> Prop :=
  | rs_signal st : run_step Signal st (runCancel st)
  | rs_http st closed e : pending_routine st HttpStart -> (closed = true -> n_http (rn_node st) = false) ->
      run_step Internal st (ret HttpStart (HttpServer_Start closed e) st)
  (* the loops: their context is done, they were stopped, or a tick panicked (recovered) *)
  | rs_loop st r (panicked : bool) : r ∈ [CompactionRun; ExpiryRun; CheckpointRun] -> pending_routine st r ->
      group_done st || negb (running_loops (rn_node st) r) || panicked = true ->
      run_step Internal st (ret r None st)
  | rs_unsynced st : pending_routine st UnsyncedRun -> group_done st = true ->
      run_step Internal st (ret UnsyncedRun None st)
  (* the event watcher *)
  | rs_observe st n' : pending_routine st WatcherRun -> watcher_receive (rn_node st) = Some n' ->
      run_step Internal st (set_node n' st)
  | rs_watcher_ctx st : pending_routine st WatcherRun -> group_done st = true ->
      run_step Internal st (ret WatcherRun (Some CtxErr) st)
  | rs_watcher_closed st : pending_routine st WatcherRun -> ew_closed (n_watcher (rn_node st)) = true ->
      ew_c (n_watcher (rn_node st)) = [] ->
      run_step Internal st (ret WatcherRun (Some ObsClosedErr) st)
  | rs_kill st : pending_routine st KillWatcher -> run_step Kill st (ret KillWatcher None (runCancel st))
  | rs_kill_done st : pending_routine st KillWatcher -> rn_cancelled st = true ->
      run_step Internal st (ret KillWatcher None st)
  | rs_shutdown st env n' r : pending_routine st ShutdownWatcher -> rn_cancelled st = true ->
      Shutdown env (rn_node st) = (n', r) -> r <> Panicked ->
      run_step Internal st (ret ShutdownWatcher (match r with Err e => Some e | _ => None end) (set_node n' st))
  (* the calling goroutine; returning cancels the context of Run *)
  | rs_joined st : rn_main st = Joining ->
      run_step (JoinReturns None) st (mkRun (rn_node st) (rn_cancelled st) (rn_rets st) Waiting)
  | rs_join_failed st e : rn_main st = Joining ->
      run_step (JoinReturns (Some e)) st (mkRun (rn_node st) true (rn_rets st) (Done (Some e)))
  | rs_waited st r : rn_main st = Waiting -> eg_Wait (rn_rets st) = Some r ->
      run_step Internal st (mkRun (rn_node st) true (rn_rets st) (Done r))
  (* Raft delivers an observation that passes the filter *)
  | rs_raft st ev : defaultFilterFn ev = true -> n_observing (rn_node st) = true ->
      run_step Internal st (set_node (set_watcher (let w := n_watcher (rn_node st) in
        mkWatcher (ew_c w ++ [ev]) (ew_closed w) (ew_myID w) (leadershipObservers w) (ElectionsTotal w) (LeaderChangesTotal w))
        (rn_node st)) st).

Definition any_step (st st' : RunState) : Prop := exists l, run_step l st st'.
(** Steps in which nobody asks the node to stop and BootstrapOrJoin does not fail. *)
Definition undisturbed (st st' : RunState) : Prop :=
  run_step Internal st st' \/ run_step (JoinReturns None) st st'.

(** Run once its goroutines are started; [lead] tells what each loop learns from isLeader as it starts. *)
Definition run_init (lead : observer_ref -> bool) (n : Node) : RunState :=
  mkRun (set_loops (default (n_checkpoint n) (ck_Run (lead RefCheckpoint) (n_checkpoint n)))
           (default (n_expiry n) (ex_Run (lead RefExpiry) (n_expiry n)))
           (default (n_compaction n) (cs_Run (lead RefCompaction) (n_compaction n))) n) false [] Joining.

(** Run up to there: [found] is the answer of the discovery service. *)
Definition run_start {R} (found : res (list Peer)) (lead : observer_ref -> bool) (n : Node) : M (raftSvc R) RunState :=
  lift found ≫= fun peerList =>
  RegisterPeers peerList ≫= fun _ =>
  mret (run_init lead n).

(** A node runs once: after a start that got to its goroutines, every other one is refused. *)
Lemma run_starts_once {R} (found found2 : res (list Peer)) lead lead2 (n n2 : Node) (s s' : raftSvc R) (st : RunState) :
  run_start found lead n s = (s', Ok st) ->
  exists peers, found = Ok peers /\ peerMap s' = Some (register peers) /\
    (forall st2, (run_start found2 lead2 n2 s').2 <> Ok st2).
Proof.
  unfold run_start, mbind, M_bind, lift. destruct found as [peers| |]; [|done..].
  unfold RegisterPeers, mbind, M_bind, get_st. destruct (peerMap s) eqn:E; [done|]. cbn. intros [= <- _]. exists peers. split_and!; [done..|].
  intros st2. by destruct found2.
Qed.
End Run.

(** ** Leadership notices *)

Definition lead_of (n : Node) (ob : observer_ref) : leadership :=
  match ob with
  | RefCheckpoint => ck_lead (n_checkpoint n)
  | RefExpiry => ex_lead (n_expiry n)
  | RefCompaction => cs_lead (n_compaction n)
  end.
Definition leader_of (ev : Observation) : option string := match ev with ObsLeader id => Some id | _ => None end.

Lemma notify_lead (g : bool) (n : Node) (ob ob' : observer_ref) :
  ticking (lead_of (notify g n ob) ob') = ticking (lead_of n ob') /\ n_watcher (notify g n ob) = n_watcher n /\
  (ob = ob' -> leadershipC (lead_of (notify g n ob) ob') = Some g) /\
  (leadershipC (lead_of n ob') = Some g -> leadershipC (lead_of (notify g n ob) ob') = Some g).
Proof. by destruct g, ob, ob'. Qed.

Lemma notify_all (g : bool) (obs : list observer_ref) (n : Node) (ob : observer_ref) :
  ticking (lead_of (foldl (notify g) n obs) ob) = ticking (lead_of n ob) /\
  n_watcher (foldl (notify g) n obs) = n_watcher n /\
  (ob ∈ obs \/ leadershipC (lead_of n ob) = Some g -> leadershipC (lead_of (foldl (notify g) n obs) ob) = Some g).
Proof.
  revert n. induction obs as [|o obs IH]; intros n; cbn [foldl].
  - split_and!; [done|done|]. by intros [?%not_elem_of_nil|?].
  - destruct (IH (notify g n o)) as (H1 & H2 & H3). destruct (notify_lead g n o ob) as (K1 & K2 & K3 & K4).
    rewrite H1, H2, K1, K2. split_and!; [done..|]. intros [Hin|Hl]; apply H3; [|by right; apply K4].
    apply elem_of_cons in Hin as [->|Hin]; [right; by apply K3|by left].
Qed.

Lemma handle_event_spec (n : Node) (ev : Observation) (ob : observer_ref) :
  ob ∈ leadershipObservers (n_watcher n) ->
  let n' := handle_event n ev in
  leadershipObservers (n_watcher n') = leadershipObservers (n_watcher n) /\ ew_myID (n_watcher n') = ew_myID (n_watcher n) /\
  ticking (lead_of n' ob) = ticking (lead_of n ob) /\
  leadershipC (lead_of n' ob) = match leader_of ev with
    | None => leadershipC (lead_of n ob) | Some id => Some (bool_decide (id = ew_myID (n_watcher n))) end /\
  LeaderChangesTotal (n_watcher n') = LeaderChangesTotal (n_watcher n) + (match leader_of ev with Some _ => 1 | None => 0 end).
Proof.
  intros Hob. destruct ev as [[]|id|]; cbv zeta; cbn [handle_event leader_of];
    try (split_and!; [done..|by destruct ob|by destruct ob|cbn; lia]).
  set (n1 := set_watcher (count_event 0 1 (n_watcher n)) n).
  destruct (notify_all (bool_decide (id = ew_myID (n_watcher n1))) (leadershipObservers (n_watcher n1)) n1 ob) as (H1 & H2 & H3).
  rewrite H1, H2, H3 by (by left). split_and!; [done|done|by destruct ob|done|cbn; lia].
Qed.

(** C32: Every background loop learns whether this node leads from the latest leader
    observation of Raft: after the event watcher has handled any sequence of observations,
    each registered loop has, as its one pending notice, whether the last leader named was
    this node (its notices are unchanged if no leader was observed), its ticker is untouched until the
    loop itself receives the notice, and every leader observation was counted. *)
Theorem leadership_notices (n : Node) (evs : list Observation) (ob : observer_ref) :
  ob ∈ leadershipObservers (n_watcher n) ->
  let n' := foldl handle_event n evs in
  ticking (lead_of n' ob) = ticking (lead_of n ob) /\
  leadershipC (lead_of n' ob) = match last (omap leader_of evs) with
    | None => leadershipC (lead_of n ob) | Some id => Some (bool_decide (id = ew_myID (n_watcher n))) end /\
  LeaderChangesTotal (n_watcher n') = LeaderChangesTotal (n_watcher n) + Z.of_nat (length (omap leader_of evs)).
Proof.
  intros Hob. revert n Hob. induction evs as [|ev evs IH]; intros n Hob; cbn [foldl omap list_omap].
  - split_and!; [done|done|cbn; lia].
  - destruct (handle_event_spec n ev ob Hob) as (H1 & H2 & H3 & H4 & H5).
    destruct (IH (handle_event n ev)) as (K1 & K2 & K3); [by rewrite H1|]. rewrite K1, K2, K3, H2, H3, H4, H5.
    destruct (leader_of ev) as [id|]; [|split_and!; [done|done|lia]].
    change (list_omap _ _ leader_of evs) with (omap leader_of evs).
    split_and!; [done| |cbn [length]; lia]. rewrite last_cons. by destruct (last (omap leader_of evs)).
Qed.

(** ** Shutdown *)

Definition stopped (n : Node) : Prop :=
  ck_running (n_checkpoint n) = false /\ ex_running (n_expiry n) = false /\ cs_running (n_compaction n) = false /\
  ew_closed (n_watcher n) = true /\ n_observing n = false /\ n_http n = false.

Lemma Shutdown_spec (env : shutdown_env) (n : Node) :
  n_shutdownOnce n = false -> ew_closed (n_watcher n) = false ->
  exists n' r, Shutdown env n = (n', r) /\ n_shutdownOnce n' = true /\ stopped n' /\
    match HttpServer_Shutdown env, e_raft env with
    | Some e, _ => r = Err e /\ n_raft n' = n_raft n /\ n_IsShutdown n' = n_IsShutdown n
    | None, Some e => r = Err e /\ n_raft n' = false /\ n_IsShutdown n' = n_IsShutdown n
    | None, None => r = Ok tt /\ n_raft n' = false /\ n_IsShutdown n' = true
    end.
Proof.
  destruct n as [me bs isd once [c cl id obs el ch] ck ex cs ob ht ra]. cbn [n_shutdownOnce n_watcher ew_closed].
  intros -> ->. unfold Shutdown, doShutdown, mbind, M_bind, get_st, modify, watcher_Stop. cbn.
  destruct (HttpServer_Shutdown env) as [e|]; [|destruct (e_raft env) as [e|]];
    (do 2 eexists; split; [reflexivity|]; cbn; by split_and!).
Qed.

(** A node is shut down once. The first Shutdown of a node stops its loops, its event
    watcher and its HTTP server, then Raft, and reports success exactly when all of it
    succeeded; if the HTTP server could not be closed, Raft keeps running. Every later Shutdown changes nothing and reports
    success, even when the first one failed and left Raft running. *)
Theorem shutdown_once (env env2 : shutdown_env) (n : Node) :
  n_shutdownOnce n = false -> ew_closed (n_watcher n) = false ->
  exists n' r, Shutdown env n = (n', r) /\ stopped n' /\ Shutdown env2 n' = (n', Ok tt) /\
    (r = Ok tt <-> HttpServer_Shutdown env = None /\ e_raft env = None) /\ r <> Panicked /\
    n_raft n' = (match HttpServer_Shutdown env with Some _ => n_raft n | None => false end) /\
    (r = Ok tt -> n_IsShutdown n' = true).
Proof.
  intros Ho Hc. destruct (Shutdown_spec env n Ho Hc) as (n' & r & Hrun & Ho' & Hst & Hcase). exists n', r.
  split; [done|]. split; [done|]. split; [unfold Shutdown, mbind, M_bind, get_st; by rewrite Ho'|].
  destruct (HttpServer_Shutdown env) as [e|]; [|destruct (e_raft env) as [e|]]; destruct Hcase as (-> & H1 & H2);
    split_and!; try done; (split; [done|by intros [??]]).
Qed.

(** ** Run *)

(** The parts of a node that observations do not touch. *)
Definition core (n : Node) : bool * bool * bool * bool :=
  (n_shutdownOnce n, ew_closed (n_watcher n), n_http n, n_raft n).
Lemma notify_core g n obs : core (foldl (notify g) n obs) = core n.
Proof. revert n. induction obs as [|o obs IH]; intros n; [done|]. cbn [foldl]. rewrite IH. by destruct o. Qed.
Lemma handle_event_core n ev : core (handle_event n ev) = core n.
Proof. destruct ev as [[]|id|]; try done. cbn [handle_event]. by rewrite notify_core. Qed.
Lemma watcher_receive_core n n' : watcher_receive n = Some n' -> core n' = core n.
Proof.
  unfold watcher_receive. destruct (ew_c (n_watcher n)); [done|]. intros [= <-]. by rewrite handle_event_core.
Qed.

Section RunInv.
Context {EG : ErrGroup}.

Record run_inv (st : RunState) : Prop := {
  ri_watcher e : (WatcherRun, e) ∈ rn_rets st -> is_Some e;
  ri_http : ShutdownWatcher ∈ (rn_rets st).*1 -> n_http (rn_node st) = false;
  ri_once : n_shutdownOnce (rn_node st) = true -> ShutdownWatcher ∈ (rn_rets st).*1;
  ri_closed : ew_closed (n_watcher (rn_node st)) = n_shutdownOnce (rn_node st);
  ri_done r : rn_main st = Done r -> is_Some r }.

Lemma first_error_some (h : returns_log) r e : (r, Some e) ∈ h -> is_Some (first_error h).
Proof.
  intros Hin. unfold first_error. assert (e ∈ omap snd h) as Hin' by (apply list_elem_of_omap; by exists (r, Some e)).
  destruct (omap snd h); [by apply not_elem_of_nil in Hin'|by eexists].
Qed.

Lemma run_inv_ret st r e : run_inv st -> (r = WatcherRun -> is_Some e) -> r <> ShutdownWatcher -> run_inv (ret r e st).
Proof.
  intros [H1 H2 H3 H4 H5] Hw Hs. split; cbn [ret rn_rets rn_node rn_main]; try done.
  - intros e' [?|[= <- <-]%list_elem_of_singleton]%elem_of_app; [by apply H1|by apply Hw].
  - rewrite fmap_app. intros [?|?%list_elem_of_singleton]%elem_of_app; [by apply H2|done].
  - intros Ho. rewrite fmap_app. apply elem_of_app. left. by apply H3.
Qed.

Lemma run_inv_node st n : run_inv st -> core n = core (rn_node st) -> run_inv (set_node n st).
Proof. intros [H1 H2 H3 H4 H5] [= E1 E2 E3 E4]. split; cbn [set_node rn_rets rn_node rn_main]; rewrite ?E1, ?E2, ?E3; done. Qed.

Lemma run_inv_step l st st' : run_inv st -> run_step l st st' -> run_inv st'.
Proof.
  intros Hi Hs. pose proof Hi as [H1 H2 H3 H4 H5].
  destruct Hs as [st|st closed e Hp _|st r p Hr Hp _|st Hp _|st n' Hp Hw|st Hp _|st Hp _ _|st Hp|st Hp _|st env n' r Hp Hc Hsh Hpa
    |st Hm|st e Hm|st r Hm Hwait|st ev _ _]; try (apply run_inv_ret; by eauto).
  - by split.
  - apply run_inv_ret; [done| |]; intros ->; by repeat apply elem_of_cons in Hr as [Hr|Hr]; try (by apply not_elem_of_nil in Hr).
  - apply run_inv_node; [done|by apply watcher_receive_core].
  - assert (n_shutdownOnce (rn_node st) = false) as Ho.
    { destruct (n_shutdownOnce (rn_node st)); [|done]. by destruct (Hp (H3 eq_refl)). }
    destruct (Shutdown_spec env (rn_node st) Ho) as (n1 & r1 & Hrun & Ho1 & (_ & _ & _ & Hcl & _ & Hht) & _); [by rewrite H4|].
    rewrite Hsh in Hrun. injection Hrun as <- <-.
    split; cbn [ret set_node rn_rets rn_node rn_main]; try done.
    + intros e [?|[=]%list_elem_of_singleton]%elem_of_app. by apply H1.
    + intros _. rewrite fmap_app. apply elem_of_app. right. by apply list_elem_of_singleton.
    + by rewrite Hcl, Ho1.
  - by split.
  - split; try done. cbn. intros r [= <-]. by eexists.
  - split; try done. cbn. intros r' [= <-].
    assert (forall r, r ∈ routines -> r ∈ (rn_rets st).*1) as Hall.
    { intros r' Hr'. destruct (decide (r' ∈ (rn_rets st).*1)) as [|Hn]; [done|].
      by rewrite (eg_Wait_blocks _ r' Hr' Hn) in Hwait. }
    rewrite (eg_Wait_first _ Hall) in Hwait. injection Hwait as <-.
    assert (WatcherRun ∈ (rn_rets st).*1) as Hin by (apply Hall; unfold routines; set_solver).
    apply list_elem_of_fmap in Hin as ([w e] & Ew & Hin). cbn in Ew. subst w.
    destruct (H1 e Hin) as [e' ->]. by eapply first_error_some.
  - apply run_inv_node; done.
Qed.

(** A node that has been built and not been shut down. *)
Definition fresh_node (n : Node) : Prop :=
  n_shutdownOnce n = false /\ ew_closed (n_watcher n) = false /\ n_http n = true /\ n_raft n = true.

Lemma run_inv_init lead n : fresh_node n -> run_inv (run_init lead n).
Proof.
  intros (H1 & H2 & _). split; cbn; rewrite ?H1, ?H2; try done; [by intros e ?%not_elem_of_nil|by intros ?%not_elem_of_nil].
Qed.
Lemma run_inv_reach lead n st : fresh_node n -> rtc any_step (run_init lead n) st -> run_inv st.
Proof.
  intros Hn Hr. pose proof (run_inv_init lead n Hn) as Hi. clear Hn.
  induction Hr as [|st1 st2 st3 [l Hs] _ IH]; [done|]. apply IH. by eapply run_inv_step.
Qed.

(** Run never reports a clean stop: whenever Run returns it returns an error, also after
    an ordinary signal or kill and a successful shutdown, because the event watcher always ends with an
    error (the cancellation of its context, or its closed channel) and the group hands on the first
    error. *)
Theorem run_never_clean (lead : observer_ref -> bool) (n : Node) (st : RunState) (r : option error) :
  fresh_node n -> rtc any_step (run_init lead n) st -> rn_main st = Done r -> is_Some r.
Proof. intros Hn Hr. apply (ri_done _ (run_inv_reach lead n st Hn Hr)). Qed.

(** *** A failure does not stop the node *)

Record undisturbed_inv (st : RunState) : Prop := {
  ui_cancelled : rn_cancelled st = false;
  ui_shut : ShutdownWatcher ∉ (rn_rets st).*1;
  ui_main r : rn_main st <> Done r;
  ui_core : core (rn_node st) = (false, false, true, true) }.

Lemma undisturbed_inv_ret st r e : undisturbed_inv st -> r <> ShutdownWatcher -> undisturbed_inv (ret r e st).
Proof.
  intros [H1 H2 H3 H4] Hr. split; cbn [ret rn_rets rn_node rn_main rn_cancelled]; try done.
  rewrite fmap_app. intros [?|?%list_elem_of_singleton]%elem_of_app; [done|]. by destruct Hr.
Qed.
Lemma undisturbed_inv_node st n : undisturbed_inv st -> core n = core (rn_node st) -> undisturbed_inv (set_node n st).
Proof. intros [H1 H2 H3 H4] E. split; try done. by rewrite <-H4. Qed.

Lemma undisturbed_step st st' : undisturbed_inv st -> undisturbed st st' -> undisturbed_inv st'.
Proof.
  intros Hi Hs. pose proof Hi as [H1 H2 H3 H4].
  assert (forall l, l = Internal \/ l = JoinReturns None -> run_step l st st' -> undisturbed_inv st') as Hstep; [|destruct Hs; eauto].
  clear Hs. intros l Hl Hs. destruct Hs as [st|st closed e Hp _|st r p Hr Hp _|st Hp _|st n' Hp Hw|st Hp _|st Hp _ _|st Hp|st Hp _|st env n' r Hp Hc Hsh Hpa
    |st Hm|st e Hm|st r Hm Hwait|st ev _ _]; try (by destruct Hl); try (by apply undisturbed_inv_ret); try congruence.
  - apply undisturbed_inv_ret; [done|]. intros ->. set_solver.
  - apply undisturbed_inv_node; [done|by apply watcher_receive_core].
  - by rewrite (eg_Wait_blocks _ ShutdownWatcher ltac:(unfold routines; set_solver) H2) in Hwait.
Qed.

Lemma undisturbed_reach lead n st : fresh_node n -> rtc undisturbed (run_init lead n) st -> undisturbed_inv st.
Proof.
  intros (H1 & H2 & H3 & H4) Hr.
  assert (undisturbed_inv (run_init lead n)) as Hi.
  { split; cbn; try done; [by intros ?%not_elem_of_nil|]. unfold core. cbn. by rewrite H1, H2, H3, H4. }
  clear H1 H2 H3 H4. induction Hr as [|st1 st2 st3 Hs _ IH]; [done|]. apply IH. by eapply undisturbed_step.
Qed.

(** C34: A node outlives the failure of its HTTP server. As long as nobody signals or kills the
    node and joining does not fail, Run does not return and the node is never shut down, whatever
    its goroutines return; and it can get there with the HTTP server failed and every
    background loop and the event watcher ended, since the failure cancels the context of the group
    but not that of Run, for which the goroutine that shuts the node down is waiting. Raft then goes on
    without an API. *)
Theorem run_outlives_failure (lead : observer_ref -> bool) (n : Node) (e : error) :
  fresh_node n ->
  (forall st, rtc undisturbed (run_init lead n) st ->
     (forall r, rn_main st <> Done r) /\ n_raft (rn_node st) = true /\ n_shutdownOnce (rn_node st) = false) /\
  exists st, rtc undisturbed (run_init lead n) st /\ rn_rets st =
    [(HttpStart, Some e); (CompactionRun, None); (ExpiryRun, None); (CheckpointRun, None); (UnsyncedRun, None);
     (WatcherRun, Some CtxErr)].
Proof.
  intros Hn. split.
  - intros st Hr. destruct (undisturbed_reach lead n st Hn Hr) as [_ _ Hm [= Ho _ _ Hraft]]. done.
  - assert (forall st r x, rtc undisturbed (run_init lead n) st -> run_step Internal st (ret r x st) ->
      rtc undisturbed (run_init lead n) (ret r x st)) as Hgo by (intros st r x Hr Hs; eapply rtc_r; [exact Hr|by left]).
    assert (forall h, eg_cancelled ((HttpStart, Some e) :: h) = true) as Hc.
    { intros h. apply eg_cancelled_spec. exists HttpStart, e. by left. }
    eexists. split; [apply Hgo; [apply Hgo; [apply Hgo; [apply Hgo; [apply Hgo; [apply Hgo; [apply rtc_refl|]|]|]|]|]|]|reflexivity].
    + apply (rs_http _ false e); [by intros ?%not_elem_of_nil|done].
    + apply (rs_loop _ CompactionRun false); [set_solver|unfold pending_routine; cbn; set_solver|unfold group_done; cbn; by rewrite Hc].
    + apply (rs_loop _ ExpiryRun false); [set_solver|unfold pending_routine; cbn; set_solver|unfold group_done; cbn; by rewrite Hc].
    + apply (rs_loop _ CheckpointRun false); [set_solver|unfold pending_routine; cbn; set_solver|unfold group_done; cbn; by rewrite Hc].
    + apply rs_unsynced; [unfold pending_routine; cbn; set_solver|unfold group_done; cbn; by rewrite Hc].
    + apply rs_watcher_ctx; [unfold pending_routine; cbn; set_solver|unfold group_done; cbn; by rewrite Hc].
Qed.

(** *** A cancelled node can stop *)

Definition progress_of (st st' : RunState) : Prop :=
  rtc undisturbed st st' /\ run_inv st' /\ rn_cancelled st' = true /\ rn_main st' = rn_main st /\
  (rn_rets st).*1 ⊆ (rn_rets st').*1.

Lemma finish_one (r : routine) (st : RunState) :
  run_inv st -> rn_cancelled st = true -> (r = HttpStart -> ShutdownWatcher ∈ (rn_rets st).*1) ->
  exists st', progress_of st st' /\ r ∈ (rn_rets st').*1.
Proof.
  intros Hi Hc Hh. destruct (decide (r ∈ (rn_rets st).*1)) as [Hin|Hp]; [exists st; by split; [split_and!|]|].
  assert (group_done st = true) as Hg by (unfold group_done; by rewrite Hc).
  assert (forall x, run_step Internal st (ret r x st) -> exists st', progress_of st st' /\ r ∈ (rn_rets st').*1) as Hret.
  { intros x Hs. exists (ret r x st). split; [split_and!|].
    - apply rtc_once. by left.
    - by eapply run_inv_step.
    - done.
    - done.
    - cbn. rewrite fmap_app. set_solver.
    - cbn. rewrite fmap_app. set_solver. }
  destruct r.
  - apply (Hret None), (rs_http _ true []); [done|intros _]. by apply (ri_http _ Hi), Hh.
  - apply (Hret None), (rs_loop _ _ false); [set_solver|done|by rewrite Hg].
  - apply (Hret None), (rs_loop _ _ false); [set_solver|done|by rewrite Hg].
  - apply (Hret None), (rs_loop _ _ false); [set_solver|done|by rewrite Hg].
  - by apply (Hret (Some CtxErr)), rs_watcher_ctx.
  - by apply (Hret None), rs_unsynced.
  - by apply (Hret None), rs_kill_done.
  - assert (n_shutdownOnce (rn_node st) = false) as Ho.
    { destruct (n_shutdownOnce (rn_node st)) eqn:E; [|done]. by destruct (Hp (ri_once _ Hi E)). }
    destruct (Shutdown_spec (mkShutdownEnv None None None) (rn_node st) Ho) as (n' & x & Hrun & _ & _ & -> & _);
      [by rewrite (ri_closed _ Hi)|].
    pose proof (rs_shutdown st _ n' (Ok tt) Hp Hc Hrun ltac:(done)) as Hs.
    eexists. split; [split_and!|].
    + apply rtc_once. left. exact Hs.
    + by eapply run_inv_step.
    + done.
    + done.
    + cbn. rewrite fmap_app. set_solver.
    + cbn. rewrite fmap_app. set_solver.
Qed.

Lemma finish_all (rs : list routine) (st : RunState) :
  run_inv st -> rn_cancelled st = true -> ShutdownWatcher ∈ (rn_rets st).*1 ->
  exists st', progress_of st st' /\ forall r, r ∈ rs -> r ∈ (rn_rets st').*1.
Proof.
  intros Hi Hc Hs. revert st Hi Hc Hs. induction rs as [|r rs IH]; intros st Hi Hc Hs.
  - exists st. split; [by split_and!|]. by intros r ?%not_elem_of_nil.
  - destruct (finish_one r st Hi Hc (fun _ => Hs)) as (st1 & (P1 & P2 & P3 & P4 & P5) & Hr).
    destruct (IH st1 P2 P3 ltac:(by apply P5)) as (st2 & (Q1 & Q2 & Q3 & Q4 & Q5) & Hall).
    exists st2. split; [split_and!; [by etransitivity|done|done|by rewrite Q4|by etransitivity]|].
    intros r' [->|Hr']%elem_of_cons; [by apply Q5|by apply Hall].
Qed.

Lemma finish_waiting (st : RunState) : run_inv st -> rn_cancelled st = true -> rn_main st = Waiting ->
  exists st' r, rtc undisturbed st st' /\ rn_main st' = Done r.
Proof.
  intros Hi Hc Hm. destruct (finish_one ShutdownWatcher st Hi Hc ltac:(done)) as (st2 & (P1 & P2 & P3 & P4 & _) & Hs).
  destruct (finish_all routines st2 P2 P3 Hs) as (st3 & (Q1 & Q2 & Q3 & Q4 & _) & Hall).
  exists (mkRun (rn_node st3) true (rn_rets st3) (Done (first_error (rn_rets st3)))), (first_error (rn_rets st3)).
  split; [|done]. etransitivity; [exact P1|]. eapply rtc_r; [exact Q1|]. left.
  apply rs_waited; [by rewrite Q4, P4|]. by apply eg_Wait_first.
Qed.

(** From every state Run can reach with its context cancelled, by a signal, a kill or a failed join, a way
    to the end is left, without another signal: no step of the goroutines waits for a step that needs Run to
    have returned. This takes the ticks of the loops to end; a tick that is stuck, as one of the expiry loop is
    after the gauge of the active leases has been read, keeps its loop and Run from returning. *)
Theorem run_can_stop (lead : observer_ref -> bool) (n : Node) (st : RunState) :
  fresh_node n -> rtc any_step (run_init lead n) st -> rn_cancelled st = true ->
  exists st' r, rtc undisturbed st st' /\ rn_main st' = Done r.
Proof.
  intros Hn Hr Hc. pose proof (run_inv_reach lead n st Hn Hr) as Hi. destruct (rn_main st) as [| |r] eqn:Hm.
  3:{ exists st, r. split; [apply rtc_refl|done]. }
  - pose proof (rs_joined st Hm) as Hj. pose proof (run_inv_step _ _ _ Hi Hj) as Hi1.
    destruct (finish_waiting _ Hi1 Hc eq_refl) as (st' & r & Hst & Hd). exists st', r.
    split; [|done]. eapply rtc_l; [right; exact Hj|exact Hst].
  - by apply finish_waiting.
Qed.
End RunInv.

(** ** Witnesses *)

#[export] Program Instance plain_group : ErrGroup := {|
  eg_cancelled h := existsb (fun p => match p.2 with Some _ => true | None => false end) h;
  eg_Wait h := if forallb (fun r => bool_decide (r ∈ h.*1)) routines then Some (first_error h) else None |}.
Next Obligation.
  intros h. rewrite existsb_exists. split.
  - intros ([r [e|]] & Hin%list_elem_of_In & Hx); [|done]. by exists r, e.
  - intros (r & e & Hin). exists (r, Some e). by rewrite <-list_elem_of_In.
Qed.
Next Obligation.
  intros h r Hr Hn. cbv beta. destruct (forallb (fun r => bool_decide (r ∈ h.*1)) routines) eqn:E; [|done]. rewrite forallb_forall in E.
  apply list_elem_of_In, E, bool_decide_eq_true in Hr. done.
Qed.
Next Obligation.
  intros h Hall. cbv beta. replace (forallb (fun r => bool_decide (r ∈ h.*1)) routines) with true; [done|]. symmetry. apply forallb_forall. intros r Hr%list_elem_of_In.
  by apply bool_decide_eq_true, Hall.
Qed.

Definition node1 : Node := registerObservers (NewNode (mkPeer "n1" "" "7000" "8080") true 10 CompactionDefaultOptions).
Definition no_lead (ob : observer_ref) : bool := false.
Lemma node1_fresh : fresh_node node1.
Proof. by split_and!. Qed.

(** Another node is elected, then this one, then an election starts. *)
Lemma leadership_notices_witness :
  let n' := foldl handle_event node1 [ObsLeader "n2"; ObsRaftState Candidate; ObsLeader "n1"; ObsRaftState Candidate] in
  leadershipC (lead_of n' RefExpiry) = Some true /\ LeaderChangesTotal (n_watcher n') = 2.
Proof.
  destruct (leadership_notices node1 [ObsLeader "n2"; ObsRaftState Candidate; ObsLeader "n1"; ObsRaftState Candidate] RefExpiry)
    as (_ & H1 & H2); [vm_compute; set_solver|]. split; [exact H1|exact H2].
Defined.

Lemma shutdown_once_witness :
  exists n', Shutdown (mkShutdownEnv (Some CtxErr) (Some CtxErr) None) node1 = (n', Err CtxErr) /\
    Shutdown (mkShutdownEnv None None None) n' = (n', Ok tt) /\ n_raft n' = true.
Proof.
  destruct (shutdown_once (mkShutdownEnv (Some CtxErr) (Some CtxErr) None) (mkShutdownEnv None None None) node1 eq_refl eq_refl)
    as (n' & r & H1 & H2 & H3 & _ & _ & H4 & _).
  exists n'. assert (r = Err CtxErr) as -> by (exact (eq_sym (f_equal snd H1))).
  split; [exact H1|]. split; [exact H3|exact H4].
Defined.

(** A signal, and the way to the end. *)
Lemma run_can_stop_witness :
  exists st' r, rtc undisturbed (runCancel (run_init no_lead node1)) st' /\ rn_main st' = Done r.
Proof.
  apply (run_can_stop no_lead node1); [exact node1_fresh| |reflexivity]. apply rtc_once. exists Signal. apply rs_signal.
Defined.

Lemma run_never_clean_witness :
  exists st e, rtc any_step (run_init no_lead node1) st /\ rn_main st = Done (Some e).
Proof.
  assert (rtc any_step (run_init no_lead node1) (runCancel (run_init no_lead node1))) as H0 by (apply rtc_once; exists Signal; apply rs_signal).
  destruct (finish_waiting (mkRun (rn_node (run_init no_lead node1)) true [] Waiting)) as (st & r & Hst & Hd).
  - eapply run_inv_step; [|exact (rs_joined (runCancel (run_init no_lead node1)) eq_refl)]. exact (run_inv_reach no_lead node1 _ node1_fresh H0).
  - reflexivity.
  - reflexivity.
  - assert (rtc any_step (run_init no_lead node1) st) as Hr.
    { etransitivity; [exact H0|]. eapply rtc_l; [exists (JoinReturns None); exact (rs_joined (runCancel (run_init no_lead node1)) eq_refl)|].
      apply (rtc_subrel undisturbed); [|exact Hst]. intros x y [Hs|Hs]; [by exists Internal|by exists (JoinReturns None)]. }
    destruct (run_never_clean no_lead node1 st r node1_fresh Hr Hd) as [e ->]. by exists st, e.
Defined.

Lemma run_outlives_failure_witness :
  exists st, rtc undisturbed (run_init no_lead node1) st /\ (HttpStart, Some CtxErr) ∈ rn_rets st /\ n_raft (rn_node st) = true.
Proof.
  destruct (run_outlives_failure no_lead node1 CtxErr node1_fresh) as [H1 (st & Hst & Hr)]. exists st.
  split; [exact Hst|]. split; [rewrite Hr; left|apply (H1 st Hst)].
Defined.

(** Elected at the second poll; the proposal fails, and the restarted node resumes. *)
Definition has_servers (r : list Server) : res bool := Ok (negb (bool_decide (r = []))).
Definition refusing (cmd : Command) : M (raftSvc (list Server) * net) Result := fail [ErrPropose].
Definition boot_world : raftSvc (list Server) * net := (NewRaftService [] 20, mkNet [] 0).

Lemma cluster_key_once_witness :
  let run := @BootstrapOrJoin _ _ _ (recording_net second_accepts) refusing has_servers None
    [(None, Candidate); (None, Leader_)] [Byte.x01] 1 0 (fun _ => 0) node1 in
  exists w1, run boot_world = (w1, Err [ErrPropose]) /\ run w1 = (w1, Ok tt).
Proof.
  assert (forall servers r r', servers <> [] -> BootstrapCluster servers r = (r', Ok tt) -> has_servers r' = Ok true) as Hlaw.
  { intros servers r r' Hne [= <-]. unfold has_servers. by rewrite bool_decide_eq_false_2. }
  destruct (@cluster_key_once _ _ _ (recording_net second_accepts) refusing has_servers Hlaw
    [(None, Candidate); (None, Leader_)] [(None, Candidate); (None, Leader_)] [Byte.x01] [Byte.x01] 1 0 (fun _ => 0) None
    node1 node1 boot_world _ eq_refl eq_refl eq_refl) as (H1 & _ & H3).
  eexists. split; [exact (H1 eq_refl)|exact H3].
Defined.
