(* ===== verification/Http.v ===== *)
(** The HTTP layer of a cluster: internal/transport/http (middleware.go, ratelimiter.go, the
    router and the administrative handlers of server.go). Every node runs the same server;
    a request that a node may not answer is proxied to another node, so the model has all
    nodes in one world and [serve] recurses through the proxies. The services behind the
    handlers, the network, the token buckets of golang.org/x/time/rate and the decoding of
    JSON bodies are parameters; the Raft service is an interface. *)

From S2P Require Import Prelude Peer RaftSvc.
From Stdlib Require Import ZArith Lia.
From stdpp Require Import base gmap sets list strings sorting.
Open Scope Z_scope.

(** ** net/http *)

Inductive Method := GET | HEAD | POST | DELETE | OPTIONS | OtherMethod.
#[export] Instance Method_eq_dec : EqDecision Method.
Proof. solve_decision. Defined.

(** A request. [rq_Body] is what is left of the body, [None] when reading it fails;
    [rq_Length] is the declared Content-Length, [None] for a chunked body; [rq_Ctx] is the
    error of a context that ends while the request waits for Raft, [rq_Token] the admin
    token header. *)
Record Request := mkRequest {
  rq_Method : Method; rq_Path : string; rq_Token : string; rq_Body : option bytes; rq_Length : option nat;
  rq_Ctx : option error }.

(** The transport refuses to send fewer bytes than declared. *)
Definition body_short (r : Request) : bool :=
  match rq_Length r, rq_Body r with Some n, Some b => (length b <? n)%nat | _, _ => false end.
Definition set_body (b : bytes) (r : Request) : Request :=
  mkRequest (rq_Method r) (rq_Path r) (rq_Token r) (Some b) (rq_Length r) (rq_Ctx r).

Abbreviation Header := (list (string * string)).
Definition header_del (k : string) (h : Header) : Header := filter (fun p => p.1 <> k) h.
Definition header_set (k v : string) (h : Header) : Header := header_del k h ++ [(k, v)].

(** What is written to a client: an error, or a value as JSON. *)
Inductive Payload (J : Type) := PError (msg : string) (e : error) | PText (s : string) | PJson (j : J).
Arguments PError {J} _ _.
Arguments PText {J} _.
Arguments PJson {J} _.

(** http.ResponseWriter: the header map, what WriteHeader sent, and the body. *)
Record ResponseWriter (J : Type) := mkRW { rw_Header : Header; rw_sent : option (Z * Header); rw_body : list (Payload J) }.
Arguments mkRW {J} _ _ _.
Arguments rw_Header {J} _.
Arguments rw_sent {J} _.
Arguments rw_body {J} _.

(** A finished response. *)
Record Response (J : Type) := mkResponse { rs_status : Z; rs_header : Header; rs_body : list (Payload J) }.
Arguments mkResponse {J} _ _ _.
Arguments rs_status {J} _.
Arguments rs_header {J} _.
Arguments rs_body {J} _.

Section Writer.
Context {J : Type}.
Abbreviation RW := (ResponseWriter J).
Definition new_writer : RW := mkRW [] None [].
Definition edit_header (f : Header -> Header) (w : RW) : RW := mkRW (f (rw_Header w)) (rw_sent w) (rw_body w).
(** Only the first call counts. *)
Definition WriteHeader (status : Z) (w : RW) : RW :=
  match rw_sent w with
  | Some _ => w
  | None => mkRW (rw_Header w) (Some (status, rw_Header w)) (rw_body w)
  end.
Definition rw_Write (b : list (Payload J)) (w : RW) : RW :=
  let w := WriteHeader 200 w in mkRW (rw_Header w) (rw_sent w) (rw_body w ++ b).
Definition finish (w : RW) : Response J :=
  match rw_sent w with
  | Some (status, h) => mkResponse status h (rw_body w)
  | None => mkResponse 200 (rw_Header w) (rw_body w)
  end.
End Writer.

(** An error for which networkerr holds: a net.Error, "connection refused" or "EOF". *)
Definition ErrNet : cause := ErrMsg "net.Error".
Definition networkerr (e : error) : bool := errors_Is e ErrNet.

(** ** Interfaces *)

(** service.RaftService, of the node with the given id, as the server uses it. *)
Class RaftService (A : Type) := {
  svc_Leader : string -> option error -> M A Peer;
  svc_VerifyLeader : string -> option error -> M A unit;
  svc_AddToCluster : string -> option error -> Peer -> M A unit;
  svc_Peers : string -> A -> list Peer;
  svc_State : string -> A -> RaftState;
  svc_LaggingBehind : string -> A -> option error }.

(** Asking for the leader reads Raft's state and returns. *)
Class RaftServiceLaws (A : Type) `{RaftService A} := {
  svc_Leader_pure n ctx (a : A) : (svc_Leader n ctx a).1 = a;
  svc_Leader_returns n ctx (a : A) : (svc_Leader n ctx a).2 <> Panicked }.

(** rate.Limiter; its clock is part of it. *)
Class Limiter (L : Type) := {
  NewLimiter : Z -> Z -> L;
  Allow : L -> L * bool }.

(** encoding/json on the bodies the server itself reads. *)
Class Json := {
  peek_Serializable : bytes -> option bool;
  decode_Join : bytes -> option Peer;
  decode_Kill : bytes -> option string;
  (** what the decoder leaves unread of the body *)
  kill_rest : bytes -> bytes;
  (** io.EOF *)
  decode_Kill_empty : decode_Kill [] = None }.

(** ** ratelimiter.go *)

Record ratelimiterConfig := NewRateLimiterConfig { Rps : Z; Burst : Z }.
Record rateLimiter (L : Type) := mkLimiter { limiters : gmap string L; rl_cfg : ratelimiterConfig }.
Arguments mkLimiter {L} _ _.
Arguments limiters {L} _.
Arguments rl_cfg {L} _.

Definition newRateLimiter {L} (cfg : ratelimiterConfig) : rateLimiter L := mkLimiter ∅ cfg.

Section Limit.
Context {L : Type} {Lim : Limiter L}.
Definition Limiter_ (rl : rateLimiter L) (path : string) : L :=
  default (NewLimiter (Rps (rl_cfg rl)) (Burst (rl_cfg rl))) (limiters rl !! path).
(** [rl.Limiter(path).Allow()]: the table with the bucket after the call. *)
Definition allow (path : string) (rl : rateLimiter L) : rateLimiter L * bool :=
  let '(l, ok) := Allow (Limiter_ rl path) in (mkLimiter (<[path := l]> (limiters rl)) (rl_cfg rl), ok).
End Limit.

(** ** server.go: routes *)

Definition RouteKvRange := "/v1/kv/range".
Definition RouteKvPut := "/v1/kv/put".
Definition RouteKvDelete := "/v1/kv/delete".
Definition RouteKvTxn := "/v1/kv/txn".
Definition RouteLeaseGrant := "/v1/lease/grant".
Definition RouteLeaseRevoke := "/v1/lease/revoke".
Definition RouteLeaseKeepAlive := "/v1/lease/keep-alive".
Definition RouteLeaseLookup := "/v1/lease/lookup".
Definition RouteOtInit := "/v1/ot/init".
Definition RouteOtTransfer := "/v1/ot/transfer".
Definition RouteOtWriteAll := "/v1/ot/write-all".
Definition RouteWatchWS := "/v1/watch".
Definition RouteJoinCluster := "/v1/admin/join".
Definition RouteTriggerCompaction := "/v1/admin/compaction".
Definition RouteKillNode := "/v1/admin/kill".
Definition RouteStats := "/stats".
Definition RouteMetrics := "/metrics".
Definition RouteLivez := "/livez".
Definition RouteReadyz := "/readyz".

(** The handlers that call a service and write its answer. *)
Inductive Service :=
  | KvRange | KvPut | KvDelete | KvTxn | LeaseGrant | LeaseRevoke | LeaseKeepAlive | LeaseLookup
  | OTInit | OTTransfer | OTWriteAll | Watch | Compaction | Stats | Metrics.

(** One server, and all of them with the state of the services. *)
Record HttpServer (L : Type) := mkServer_ {
  me : Peer; readLimiter : rateLimiter L; writeLimiter : rateLimiter L; adminAuthToken : string;
  killed : nat (* how often the kill switch was pulled *) }.
Arguments mkServer_ {L} _ _ _ _ _.
Arguments me {L} _.
Arguments readLimiter {L} _.
Arguments writeLimiter {L} _.
Arguments adminAuthToken {L} _.
Arguments killed {L} _.

Record World (A L : Type) := mkWorld { w_app : A; servers : gmap string (HttpServer L) }.
Arguments mkWorld {A L} _ _.
Arguments w_app {A L} _.
Arguments servers {A L} _.

Section Http.
Context {A L J : Type} {RS : RaftService A} {Lim : Limiter L} {Js : Json}.
Abbreviation world := (World A L).
Abbreviation RW := (ResponseWriter J).
(** A service run by a node: the status and the answer or error message to write, [None] for
    a panic. *)
Variable service : Service -> string -> Request -> A -> A * option (Z * (J + string * error)).
(** kvSvc.Ping *)
Variable ping : string -> A -> option error.
(** The network: who listens on an address. *)
Variable dial : string -> string + error.

Abbreviation Handler := (Request -> M (world * RW) unit).
Abbreviation middleware := (Handler -> Handler).

Definition on_app {X} (m : M A X) : M (world * RW) X := fun '(w, rw) =>
  let '(a, x) := m (w_app w) in ((mkWorld a (servers w), rw), x).
Definition write (f : RW -> RW) : M (world * RW) unit := fun '(w, rw) => ((w, f rw), Ok tt).

Definition writeError (msg : string) (err : error) (status : Z) : M (world * RW) unit :=
  write (fun rw => rw_Write [PError msg err] (WriteHeader status (edit_header (header_set "Content-Type" "application/json") rw))).
Definition writeJSON (response : Payload J) (status : Z) : M (world * RW) unit :=
  write (fun rw => rw_Write [response] (WriteHeader status (edit_header (header_set "Content-Type" "application/json") rw))).

(** A handler in front of a service. *)
Definition serviceHandler (n : string) (h : Service) : Handler := fun r =>
  on_app (fun a => let '(a', x) := service h n r a in (a', match x with Some x => Ok x | None => Panicked end)) ≫= fun x =>
  match x.2 with
  | inl j => writeJSON (PJson j) x.1
  | inr (msg, err) => writeError msg err x.1
  end.

(** *** middleware.go *)

Definition chain (base : Handler) (ms : list middleware) : Handler := foldl (fun b m => m b) base ms.

(** The server of node [n]. *)
Definition the_server (n : string) : M (world * RW) (HttpServer L) := fun st =>
  (st, match servers st.1 !! n with Some s => Ok s | None => Panicked end).
Definition set_server (n : string) (s : HttpServer L) : M (world * RW) unit := fun '(w, rw) =>
  ((mkWorld (w_app w) (<[n := s]> (servers w)), rw), Ok tt).

Definition cors_headers : list string :=
  ["Access-Control-Allow-Origin"; "Access-Control-Allow-Methods"; "Access-Control-Allow-Headers"].

(** httputil.ReverseProxy with newReverseProxy's ModifyResponse; [roundtrip] is its transport. *)
Definition reverseProxy (roundtrip : string -> Request -> world -> world * (Response J + error)) (addr : string)
    (errorHandler : error -> M (world * RW) unit) : Handler := fun r '(w, rw) =>
  match roundtrip addr r w with
  | (w', inl resp) =>
      let h := foldr header_del (rs_header resp) cors_headers in
      ((w', rw_Write (rs_body resp) (WriteHeader (rs_status resp) (edit_header (fun h0 => h0 ++ h) rw))), Ok tt)
  | (w', inr err) => errorHandler err (w', rw)
  end.

Section Server.
Variable roundtrip : string -> Request -> world -> world * (Response J + error).
Variable n : string.

Definition proxyToLeader (leader : Peer) : Handler :=
  reverseProxy roundtrip (GetHttpAdvertisedAddress leader) (fun err =>
    if errors_Is err ErrLeaderNotFound || networkerr err
    then writeError "proxying to leader failed" err 503
    else writeError "proxying to leader failed" err 502).

Definition leaderMiddleware : middleware := fun next r =>
  try (on_app (svc_Leader n (rq_Ctx r))) ≫= fun res =>
  match res with
  | inr err => writeError "write middleware error" err 503
  | inl leader =>
      the_server n ≫= fun s =>
      if bool_decide (NodeID leader <> NodeID (me s)) then proxyToLeader leader r else next r
  end.

Definition consitencyMiddleware : middleware := fun next r =>
  match rq_Body r with
  | None => writeError "read middleware error" (errMsg "draining body failed") 400
  | Some drained =>
      match peek_Serializable drained with
      | None => writeError "read middleware error" (errMsg "json") 400
      | Some true => next r
      | Some false =>
          try (on_app (svc_Leader n (rq_Ctx r))) ≫= fun res =>
          match res with
          | inr err => writeError "read middleware error" err 503
          | inl leader =>
              the_server n ≫= fun s =>
              if bool_decide (NodeID leader <> NodeID (me s)) then proxyToLeader leader r
              else
                try (on_app (svc_VerifyLeader n (rq_Ctx r))) ≫= fun v =>
                match v with
                | inr err => writeError "read middleware error" err 503
                | inl _ => next r
                end
          end
      end
  end.

(** Logging the status changes nothing a client sees. *)
Definition requestLoggingMiddleware : middleware := fun next r => next r.

Definition readLimitMiddleware : middleware := fun next r =>
  the_server n ≫= fun s =>
  let '(rl, ok) := allow (rq_Path r) (readLimiter s) in
  set_server n (mkServer_ (me s) rl (writeLimiter s) (adminAuthToken s) (killed s)) ≫= fun _ =>
  if ok then next r else writeError "read limit exceeded" (errMsg "rate limiter error") 429.

Definition writeLimitMiddleware : middleware := fun next r =>
  the_server n ≫= fun s =>
  let '(rl, ok) := allow (rq_Path r) (writeLimiter s) in
  set_server n (mkServer_ (me s) (readLimiter s) rl (adminAuthToken s) (killed s)) ≫= fun _ =>
  if ok then next r else writeError "write limit exceeded" (errMsg "rate limiter error") 429.

Definition adminAuthMiddleware : middleware := fun next r =>
  the_server n ≫= fun s =>
  if bool_decide (rq_Token r = "") then writeError "failed to authenticate" (errMsg "auth token not found") 403
  else if bool_decide (rq_Token r <> adminAuthToken s)
       then writeError "failed to authenticate" (errMsg "auth token missmatch") 403
  else next r.

Definition corsMuxMiddleware : middleware := fun next r =>
  write (edit_header (header_set "Access-Control-Allow-Origin" "*")) ≫= fun _ =>
  write (edit_header (header_set "Access-Control-Allow-Methods" "GET, POST, DELETE, OPTIONS")) ≫= fun _ =>
  write (edit_header (header_set "Access-Control-Allow-Headers" "Content-Type, X-Kave-Admin-Token")) ≫= fun _ =>
  if bool_decide (rq_Method r = OPTIONS) then write (WriteHeader 204) else next r.

(** The deferred recover. *)
Definition panicRecoveryMiddleware : middleware := fun next r st =>
  match next r st with
  | (st', Panicked) => writeError "Internal Server Error" (errMsg "unexpected error (panicked)") 500 st'
  | res => res
  end.

Definition writeChain (base : Handler) : Handler :=
  chain base [requestLoggingMiddleware; writeLimitMiddleware; leaderMiddleware].
Definition strongReadChain (base : Handler) : Handler :=
  chain base [requestLoggingMiddleware; readLimitMiddleware; consitencyMiddleware].
Definition weakReadChain (base : Handler) : Handler :=
  chain base [requestLoggingMiddleware; readLimitMiddleware].
Definition adminChain (base : Handler) : Handler :=
  chain base [requestLoggingMiddleware; adminAuthMiddleware; writeLimitMiddleware; leaderMiddleware].

(** *** server.go: handlers of the server itself *)

Definition handleJoin : Handler := fun r =>
  match rq_Body r ≫= decode_Join with
  | None => writeError "failed to decode JSON body" (errMsg "json") 400
  | Some p =>
      try (on_app (svc_AddToCluster n (rq_Ctx r) p)) ≫= fun res =>
      match res with
      | inr err => writeError "failed to add peer to the cluster" err 500
      | inl _ => writeJSON (PText "Peer added to cluster successfully") 200
      end
  end.

Definition handleLivez : Handler := fun r =>
  get_st ≫= fun st =>
  if bool_decide (svc_State n (w_app st.1) = Shutdown_)
  then writeError "livez check failed" (errMsg "raft is shutdown") 503
  else match ping n (w_app st.1) with
       | Some err => writeError "kv store ping failed" err 503
       | None => writeJSON (PText "ok") 200
       end.

Definition handleReadyz : Handler := fun r =>
  get_st ≫= fun st =>
  if bool_decide (svc_State n (w_app st.1) = Shutdown_)
  then writeError "readzy check failed" (errMsg "raft is shutdown") 503
  else
    try (on_app (svc_Leader n (rq_Ctx r))) ≫= fun res =>
    match res with
    | inr err => writeError "readzy check failed: failed to get leader info" err 503
    | inl _ =>
        get_st ≫= fun st =>
        match svc_LaggingBehind n (w_app st.1) with
        | Some err => writeError "readzy check failed: raft is lagging behind" err 503
        | None => writeJSON (PText "ok") 200
        end
    end.

(** The body was read to decode it: the proxy forwards what is left. *)
Definition handleKillNode : Handler := fun r =>
  match rq_Body r ≫= decode_Kill with
  | None => writeError "failed to decode JSON body" (errMsg "json") 400
  | Some victimID =>
      if bool_decide (victimID = "") then writeError "failed to kill node" (errMsg "empty node id") 400
      else
        the_server n ≫= fun s =>
        if bool_decide (NodeID (me s) = victimID) then
          set_server n (mkServer_ (me s) (readLimiter s) (writeLimiter s) (adminAuthToken s) (S (killed s))) ≫= fun _ =>
          writeJSON (PText "success") 200
        else
          get_st ≫= fun st =>
          match list_find (fun p => NodeID p = victimID) (svc_Peers n (w_app st.1)) with
          | Some (_, p) =>
              reverseProxy roundtrip (GetHttpAdvertisedAddress p) (fun err =>
                if networkerr err then writeError "failed to kill node (proxied)" err 503
                else writeError "failed to kill node (proxied)" err 500) (set_body (kill_rest (default [] (rq_Body r))) r)
          | None => writeError "failed to kill node" (errMsg "node not found") 404
          end
  end.

Definition routes : list (Method * string * Handler) :=
  let svc := serviceHandler n in
  [ (POST, RouteKvRange, strongReadChain (svc KvRange));
    (GET, RouteKvRange, strongReadChain (svc KvRange));
    (POST, RouteKvPut, writeChain (svc KvPut));
    (DELETE, RouteKvDelete, writeChain (svc KvDelete));
    (POST, RouteKvTxn, writeChain (svc KvTxn));
    (POST, RouteLeaseGrant, writeChain (svc LeaseGrant));
    (DELETE, RouteLeaseRevoke, writeChain (svc LeaseRevoke));
    (POST, RouteLeaseKeepAlive, writeChain (svc LeaseKeepAlive));
    (POST, RouteLeaseLookup, chain (svc LeaseLookup) [requestLoggingMiddleware; readLimitMiddleware; leaderMiddleware]);
    (GET, RouteLeaseLookup, chain (svc LeaseLookup) [requestLoggingMiddleware; readLimitMiddleware; leaderMiddleware]);
    (POST, RouteOtInit, weakReadChain (svc OTInit));
    (GET, RouteOtInit, weakReadChain (svc OTInit));
    (POST, RouteOtTransfer, strongReadChain (svc OTTransfer));
    (GET, RouteOtTransfer, strongReadChain (svc OTTransfer));
    (POST, RouteOtWriteAll, writeChain (svc OTWriteAll));
    (GET, RouteWatchWS, weakReadChain (svc Watch));
    (POST, RouteJoinCluster, adminChain handleJoin);
    (DELETE, RouteKillNode, adminChain handleKillNode);
    (POST, RouteTriggerCompaction, chain (adminChain (svc Compaction)) [leaderMiddleware]);
    (GET, RouteStats, chain (svc Stats) [readLimitMiddleware; leaderMiddleware]);
    (GET, RouteLivez, handleLivez);
    (GET, RouteReadyz, handleReadyz);
    (GET, RouteMetrics, svc Metrics) ].

(** http.ServeMux on canonical paths: a GET pattern also serves HEAD. *)
Definition matches (m : Method) (pattern : Method) : Prop := m = pattern \/ m = HEAD /\ pattern = GET.
Definition http_Error (msg : string) (status : Z) : M (world * RW) unit :=
  write (fun rw => rw_Write [PText msg] (WriteHeader status (edit_header (fun h =>
    header_set "X-Content-Type-Options" "nosniff" (header_set "Content-Type" "text/plain; charset=utf-8" h)) rw))).
Definition mux : Handler := fun r =>
  match list_find (fun e => e.1.2 = rq_Path r /\ matches (rq_Method r) e.1.1) routes with
  | Some (_, (_, _, h)) => h r
  | None =>
      if bool_decide (rq_Path r ∈ (fun e => e.1.2) <$> routes)
      then http_Error "Method Not Allowed" 405 else http_Error "404 page not found" 404
  end.

Definition server_Handler : Handler := panicRecoveryMiddleware (corsMuxMiddleware mux).
End Server.

(** A request to node [n]; at most [fuel] proxies in a row, the next connection times out. *)
Fixpoint serve (fuel : nat) (n : string) (r : Request) (w : world) : world * Response J :=
  let roundtrip addr r w :=
    match dial addr with
    | inr err => (w, inr err)
    | inl n' =>
        if body_short r then (w, inr (errMsg "http: ContentLength with Body length"))
        else match fuel, servers w !! n' with
             | S fuel, Some _ => let '(w', resp) := serve fuel n' r w in (w', inl resp)
             | _, _ => (w, inr [ErrNet])
             end
    end in
  let '((w', rw), _) := server_Handler roundtrip n r (w, new_writer) in (w', finish rw).

End Http.
