(* ===== verification/HttpInv.v ===== *)
(** What the HTTP layer ([Http]) guarantees across the nodes of a cluster: who executes a
    request, who may administer the cluster, the CORS headers, and the size of the limiter
    tables. *)

From S2P Require Import Prelude Peer RaftSvc Http.
From Stdlib Require Import ZArith Lia.
From stdpp Require Import base gmap sets list strings sorting.
Open Scope Z_scope.

(** ** Headers *)

Definition cors_ok (h : Header) : Prop := forall k, k ∈ cors_headers -> length (filter (fun p => p.1 = k) h) = 1%nat.

Lemma count_set k k' v h :
  length (filter (fun p => p.1 = k) (header_set k' v h)) =
  if decide (k = k') then 1%nat else length (filter (fun p => p.1 = k) h).
Proof.
  unfold header_set, header_del. rewrite filter_app, length_app. case_decide as Hk.
  - subst k'. rewrite (filter_cons_True _ (k, v)) by done. rewrite list_filter_filter.
    replace (length _) with 0%nat; [done|]. symmetry. apply length_zero_iff_nil.
    apply elem_of_nil_inv. intros x [[? ?] ?]%list_elem_of_filter. done.
  - rewrite (filter_cons_False _ (k', v)) by (simpl; congruence). rewrite list_filter_filter.
    cbn [length filter list_filter]. rewrite Nat.add_0_r. f_equal. apply list_filter_ext_in. intros [x y] _. simpl.
    split; [by intros []|]. intros ->. by split; [congruence|].
Qed.

Lemma count_del k k' h :
  length (filter (fun p => p.1 = k) (header_del k' h)) =
  if decide (k = k') then 0%nat else length (filter (fun p => p.1 = k) h).
Proof.
  unfold header_del. rewrite list_filter_filter. case_decide as Hk.
  - subst k'. apply length_zero_iff_nil. apply elem_of_nil_inv. intros x [[? ?] ?]%list_elem_of_filter. done.
  - f_equal. apply list_filter_ext_in. intros [x y] _. simpl. split; [by intros []|]. intros ->. by split; [congruence|].
Qed.

Lemma cors_set k v h : k ∉ cors_headers -> cors_ok h -> cors_ok (header_set k v h).
Proof. intros Hk Hh k' Hk'. rewrite count_set. case_decide; [done|by apply Hh]. Qed.

Lemma cors_app h h' : (forall k, k ∈ cors_headers -> length (filter (fun p => p.1 = k) h') = 0%nat) -> cors_ok h -> cors_ok (h ++ h').
Proof. intros H0 Hh k Hk. rewrite filter_app, length_app, (Hh k Hk), (H0 k Hk). done. Qed.

Lemma cors_deleted h k : k ∈ cors_headers -> length (filter (fun p => p.1 = k) (foldr header_del h cors_headers)) = 0%nat.
Proof.
  intros Hk. unfold cors_headers. cbn [foldr]. rewrite !count_del. repeat case_decide; try done. exfalso. set_solver.
Qed.
Section HttpInv.
Context {A L J : Type} {RS : RaftService A} {Lim : Limiter L} {Js : Json}.
Abbreviation world := (World A L).
Abbreviation RW := (ResponseWriter J).
Variable service : Service -> string -> Request -> A -> A * option (Z * (J + string * error)).
Variable ping : string -> A -> option error.
Variable dial : string -> string + error.
Abbreviation Handler := (Request -> M (world * RW) unit).

(** The transport of [serve]. *)
Definition transport (fuel : nat) (addr : string) (r : Request) (w : world) : world * (Response J + error) :=
  match dial addr with
  | inr err => (w, inr err)
  | inl n' =>
      if body_short r then (w, inr (errMsg "http: ContentLength with Body length"))
      else match fuel, servers w !! n' with
           | S fuel, Some _ => let '(w', resp) := serve service ping dial fuel n' r w in (w', inl resp)
           | _, _ => (w, inr [ErrNet])
           end
  end.

Lemma serve_eq fuel n r w :
  serve service ping dial fuel n r w =
  let '((w', rw), _) := server_Handler service ping (transport fuel) n r (w, new_writer) in (w', finish rw).
Proof. by destruct fuel. Qed.

(** ** CORS *)

Definition rw_ok (st : world * RW) : Prop :=
  cors_ok (rw_Header st.2) /\ forall status h, rw_sent st.2 = Some (status, h) -> cors_ok h.

Lemma rw_ok_write (f : RW -> RW) : (forall w rw, rw_ok (w, rw) -> rw_ok (w, f rw)) -> stable rw_ok (write f).
Proof. intros Hf [w rw] Hs. apply (Hf w rw Hs). Qed.

Lemma rw_ok_WriteHeader status w rw : rw_ok (w, rw) -> rw_ok (w, WriteHeader status rw).
Proof.
  intros [Hh Hsent]. unfold WriteHeader. cbn [snd] in *. destruct (rw_sent rw) eqn:E; [by split; cbn [snd]; rewrite ?E|].
  split; [done|]. by intros st h [= <- <-].
Qed.
Lemma rw_ok_Write b w rw : rw_ok (w, rw) -> rw_ok (w, rw_Write b rw).
Proof. intros H. destruct (rw_ok_WriteHeader 200 w rw H) as [H1 H2]. by split. Qed.
Lemma rw_ok_edit f w rw : (forall h, cors_ok h -> cors_ok (f h)) -> rw_ok (w, rw) -> rw_ok (w, edit_header f rw).
Proof. intros Hf [Hh Hsent]. split; [by apply Hf|done]. Qed.
Hint Resolve rw_ok_WriteHeader rw_ok_Write rw_ok_edit : core.

Lemma not_cors k : bool_decide (k ∈ cors_headers) = false -> k ∉ cors_headers.
Proof. by intros ?%bool_decide_eq_false. Qed.

Lemma writeError_cors msg err status : stable rw_ok (writeError msg err status).
Proof. apply rw_ok_write. intros w rw H. apply rw_ok_Write, rw_ok_WriteHeader, rw_ok_edit; [|done]. intros h. by apply cors_set, not_cors. Qed.
Lemma writeJSON_cors p status : stable rw_ok (writeJSON p status).
Proof. apply rw_ok_write. intros w rw H. apply rw_ok_Write, rw_ok_WriteHeader, rw_ok_edit; [|done]. intros h. by apply cors_set, not_cors. Qed.
Lemma http_Error_cors msg status : stable rw_ok (http_Error (A := A) (L := L) msg status).
Proof.
  apply rw_ok_write. intros w rw H. apply rw_ok_Write, rw_ok_WriteHeader, rw_ok_edit; [|done].
  intros h Hh. do 2 (apply cors_set; [by apply not_cors|]). done.
Qed.
Lemma on_app_cors {X} (m : M A X) : stable rw_ok (on_app m).
Proof. intros [w rw] Hs. unfold on_app. by destruct (m (w_app w)). Qed.
Lemma the_server_cors n : stable rw_ok (the_server n).
Proof. by intros [w rw] Hs. Qed.
Lemma set_server_cors n s : stable rw_ok (set_server n s).
Proof. by intros [w rw] Hs. Qed.
Hint Resolve writeError_cors writeJSON_cors http_Error_cors on_app_cors the_server_cors set_server_cors : stable.

Lemma write_bind {X} (f : RW -> RW) (k : unit -> M (world * RW) X) w rw : (write f ≫= k) (w, rw) = k tt (w, f rw).
Proof. done. Qed.

Section Cors.
Variable roundtrip : string -> Request -> world -> world * (Response J + error).

(** The proxy drops the CORS headers of the other node. *)
Lemma reverseProxy_cors addr eh r : (forall err, stable rw_ok (eh err)) -> stable rw_ok (reverseProxy roundtrip addr eh r).
Proof.
  intros He [w rw] Hs. unfold reverseProxy. destruct (roundtrip addr r w) as [w' [resp|err]]; [|by apply He].
  assert (rw_ok (w', rw)) as Hs' by exact Hs.
  apply (rw_ok_Write (rs_body resp) w'), rw_ok_WriteHeader, rw_ok_edit; [|exact Hs'].
  intros h Hh. apply cors_app; [|done]. intros k Hk. by apply cors_deleted.
Qed.

Definition cors_handler (h : Handler) : Prop := forall r, stable rw_ok (h r).

Lemma serviceHandler_cors n h : cors_handler (serviceHandler service n h).
Proof. intros r. unfold serviceHandler. stable. Qed.
Lemma leader_cors n next : cors_handler next -> cors_handler (leaderMiddleware roundtrip n next).
Proof. intros Hn r. unfold leaderMiddleware, proxyToLeader. stable. apply reverseProxy_cors. stable. Qed.
Lemma consistency_cors n next : cors_handler next -> cors_handler (consitencyMiddleware roundtrip n next).
Proof. intros Hn r. unfold consitencyMiddleware, proxyToLeader. stable. apply reverseProxy_cors. stable. Qed.
Lemma readLimit_cors n next : cors_handler next -> cors_handler (readLimitMiddleware n next).
Proof. intros Hn r. unfold readLimitMiddleware. stable. Qed.
Lemma writeLimit_cors n next : cors_handler next -> cors_handler (writeLimitMiddleware n next).
Proof. intros Hn r. unfold writeLimitMiddleware. stable. Qed.
Lemma auth_cors n next : cors_handler next -> cors_handler (adminAuthMiddleware n next).
Proof. intros Hn r. unfold adminAuthMiddleware. stable. Qed.
Lemma join_cors n : cors_handler (handleJoin n).
Proof. intros r. unfold handleJoin. stable. Qed.
Lemma livez_cors n : cors_handler (handleLivez ping n).
Proof. intros r. unfold handleLivez. stable. Qed.
Lemma readyz_cors n : cors_handler (handleReadyz n).
Proof. intros r. unfold handleReadyz. stable. Qed.
Lemma kill_cors n : cors_handler (handleKillNode roundtrip n).
Proof. intros r. unfold handleKillNode. stable. apply reverseProxy_cors. stable. Qed.
Hint Resolve serviceHandler_cors leader_cors consistency_cors readLimit_cors writeLimit_cors auth_cors join_cors
  livez_cors readyz_cors kill_cors : stable.

Lemma routes_cors n : Forall (fun e => cors_handler e.2) (routes service ping roundtrip n).
Proof.
  repeat (apply Forall_cons; split; [|]); try apply Forall_nil; cbn [snd];
    unfold strongReadChain, writeChain, weakReadChain, adminChain, chain; cbn [foldl];
    unfold requestLoggingMiddleware; auto 10 with stable.
Qed.

Lemma mux_cors n : cors_handler (mux service ping roundtrip n).
Proof.
  intros r. unfold mux. destruct (list_find _ _) as [[i [[m p] h]]|] eqn:E.
  - apply list_find_Some in E as (Hi & _). pose proof (routes_cors n) as HF. rewrite Forall_lookup in HF. apply (HF i _ Hi).
  - stable.
Qed.
End Cors.

(** Every response carries each of the three CORS headers exactly once, also when it
    was proxied from another node that set them too, when the request was refused or unknown and when the
    handler panicked. *)
Theorem cors_once (fuel : nat) (n : string) (r : Request) (w : world) (k : string) :
  k ∈ cors_headers ->
  length (filter (fun p => p.1 = k) (rs_header (serve service ping dial fuel n r w).2)) = 1%nat.
Proof.
  intros Hk. rewrite serve_eq. unfold server_Handler, panicRecoveryMiddleware, corsMuxMiddleware.
  set (rw := edit_header (J := J) (header_set "Access-Control-Allow-Headers" "Content-Type, X-Kave-Admin-Token")
    (edit_header (header_set "Access-Control-Allow-Methods" "GET, POST, DELETE, OPTIONS")
      (edit_header (header_set "Access-Control-Allow-Origin" "*") new_writer))).
  assert (rw_ok (w, rw)) as Hok.
  { split; [|done]. intros k' Hk'. unfold rw, edit_header, new_writer. cbn [rw_Header snd]. rewrite !count_set.
    repeat case_decide; try done. exfalso. set_solver. }
  rewrite !write_bind. fold rw.
  assert (forall st, rw_ok st -> length (filter (fun p => p.1 = k) (rs_header (finish st.2))) = 1%nat) as Hfin.
  { intros [w' rw'] [H1 H2]. unfold finish. cbn [snd] in *. destruct (rw_sent rw') as [[st h]|] eqn:E; cbn [rs_header].
    - by eapply H2.
    - by apply H1. }
  set (body := if bool_decide (rq_Method r = OPTIONS) then _ else _).
  assert (stable rw_ok body) as Hb by (unfold body; case_bool_decide; [apply rw_ok_write; auto|apply mux_cors]).
  specialize (Hb (w, rw) Hok).
  destruct (body (w, rw)) as [[w' rw'] [[]|e|]]; cbn [fst] in Hb; [by apply (Hfin (w', rw'))..|].
  pose proof (writeError_cors "Internal Server Error" (errMsg "unexpected error (panicked)") 500 _ Hb) as Hw.
  by apply (Hfin _ Hw).
Qed.


(** ** The outcome of a handler *)

Definition sent_status (rw : RW) : option Z := fst <$> rw_sent rw.
(** The world and the status after a handler, its panic recovered. *)
Definition settle (out : (world * RW) * res unit) : world * Z :=
  match out with
  | ((w, rw), Panicked) => (w, default 500 (sent_status rw))
  | ((w, rw), _) => (w, default 200 (sent_status rw))
  end.
Definition ends (P : world -> Z -> Prop) (out : (world * RW) * res unit) : Prop := P (settle out).1 (settle out).2.

Lemma sent_WriteHeader status (rw : RW) : sent_status (WriteHeader status rw) = Some (default status (sent_status rw)).
Proof. unfold WriteHeader, sent_status. destruct rw as [h [[st h']|] b]; done. Qed.
Lemma sent_Write b (rw : RW) : sent_status (rw_Write b rw) = Some (default 200 (sent_status rw)).
Proof. unfold rw_Write, WriteHeader, sent_status. destruct rw as [h [[st h']|] b']; done. Qed.

Lemma serve_settles fuel n r w P :
  rq_Method r <> OPTIONS ->
  (forall rw, sent_status rw = None -> ends P (mux service ping (transport fuel) n r (w, rw))) ->
  P (serve service ping dial fuel n r w).1 (rs_status (serve service ping dial fuel n r w).2).
Proof.
  intros Hm HP. rewrite serve_eq. unfold server_Handler, panicRecoveryMiddleware, corsMuxMiddleware. rewrite !write_bind.
  rewrite bool_decide_eq_false_2 by done.
  match goal with |- context [mux _ _ _ _ _ (w, ?x)] => specialize (HP x eq_refl) end.
  unfold ends, settle in HP. destruct (mux _ _ _ _ _ _) as [[w' rw'] [[]|e|]].
  - unfold finish. unfold sent_status in HP. by destruct (rw_sent rw') as [[]|].
  - unfold finish. unfold sent_status in HP. by destruct (rw_sent rw') as [[]|].
  - unfold writeError, write, finish, rw_Write, WriteHeader, edit_header. cbn [rw_sent rw_Header]. unfold sent_status in HP.
    by destruct (rw_sent rw') as [[]|].
Qed.

(** The request is for the [i]-th handler of the table. *)
Definition route_keys : list (Method * string) :=
  [ (POST, RouteKvRange); (GET, RouteKvRange); (POST, RouteKvPut); (DELETE, RouteKvDelete); (POST, RouteKvTxn);
    (POST, RouteLeaseGrant); (DELETE, RouteLeaseRevoke); (POST, RouteLeaseKeepAlive); (POST, RouteLeaseLookup);
    (GET, RouteLeaseLookup); (POST, RouteOtInit); (GET, RouteOtInit); (POST, RouteOtTransfer); (GET, RouteOtTransfer);
    (POST, RouteOtWriteAll); (GET, RouteWatchWS); (POST, RouteJoinCluster); (DELETE, RouteKillNode);
    (POST, RouteTriggerCompaction); (GET, RouteStats); (GET, RouteLivez); (GET, RouteReadyz); (GET, RouteMetrics) ].
Lemma routes_keys roundtrip n : (routes service ping roundtrip n).*1 = route_keys.
Proof. done. Qed.

Definition find_route (m : Method) (p : string) : option nat :=
  fst <$> list_find (fun k => k.2 = p /\ matches m k.1) route_keys.

Lemma mux_entry roundtrip n r i h :
  find_route (rq_Method r) (rq_Path r) = Some i -> snd <$> routes service ping roundtrip n !! i = Some h ->
  mux service ping roundtrip n r = h r.
Proof.
  intros Hf Hi. unfold mux, find_route in *. rewrite <-(routes_keys roundtrip n) in Hf.
  rewrite list_find_fmap in Hf. unfold compose in Hf.
  destruct (list_find _ (routes service ping roundtrip n)) as [[j [[m p] h']]|] eqn:E.
  - injection Hf as ->. apply list_find_Some in E as (Hj & _). rewrite Hj in Hi. by injection Hi as ->.
  - done.
Qed.

Section Ends.
Context {Laws : RaftServiceLaws A}.
Variable roundtrip : string -> Request -> world -> world * (Response J + error).
Variable P : world -> Z -> Prop.
Variable n : string.
Implicit Types (w : world) (rw : RW) (next : Handler).

Lemma ends_error msg err status w rw : sent_status rw = None -> P w status -> ends P (writeError msg err status (w, rw)).
Proof. intros Hs HP. unfold ends, writeError, write, settle. rewrite sent_Write, sent_WriteHeader. cbn [default]. unfold sent_status in *. simpl. by rewrite Hs. Qed.
Lemma ends_json p status w rw : sent_status rw = None -> P w status -> ends P (writeJSON p status (w, rw)).
Proof. intros Hs HP. unfold ends, writeJSON, write, settle. rewrite sent_Write, sent_WriteHeader. cbn [default]. unfold sent_status in *. simpl. by rewrite Hs. Qed.

Lemma ends_proxy addr eh r w rw :
  sent_status rw = None ->
  (forall w' resp, roundtrip addr r w = (w', inl resp) -> P w' (rs_status resp)) ->
  (forall w' err, roundtrip addr r w = (w', inr err) -> ends P (eh err (w', rw))) ->
  ends P (reverseProxy roundtrip addr eh r (w, rw)).
Proof.
  intros Hs Hok Herr. unfold reverseProxy. destruct (roundtrip addr r w) as [w' [resp|err]]; [|by apply Herr].
  unfold ends, settle. rewrite sent_Write, sent_WriteHeader. cbn [default]. unfold sent_status in *. simpl. rewrite Hs. by apply Hok.
Qed.

Lemma ends_proxyToLeader leader r w rw :
  sent_status rw = None ->
  (forall w' resp, roundtrip (GetHttpAdvertisedAddress leader) r w = (w', inl resp) -> P w' (rs_status resp)) ->
  (forall w' err, roundtrip (GetHttpAdvertisedAddress leader) r w = (w', inr err) -> P w' 503 /\ P w' 502) ->
  ends P (proxyToLeader roundtrip leader r (w, rw)).
Proof.
  intros Hs Hok Herr. apply ends_proxy; [done|done|]. intros w' err [H1 H2]%Herr. case_match; by apply ends_error.
Qed.

Lemma Leader_run ctx (a : A) :
  (exists p, svc_Leader n ctx a = (a, Ok p)) \/ (exists e, svc_Leader n ctx a = (a, Err e)).
Proof using Laws.
  pose proof (svc_Leader_pure n ctx a) as H1. pose proof (svc_Leader_returns n ctx a) as H2.
  destruct (svc_Leader n ctx a) as [a' [p|e|]]; simpl in *; subst; [left|right|done]; by eexists.
Qed.

Lemma on_app_run {X} (m : M A X) w rw a x : m (w_app w) = (a, x) -> on_app m (w, rw) = ((mkWorld a (servers w), rw), x).
Proof. intros E. unfold on_app. by rewrite E. Qed.
Lemma world_eta w : mkWorld (w_app w) (servers w) = w.
Proof. by destruct w. Qed.

Lemma ends_leader next r w rw s :
  servers w !! n = Some s -> sent_status rw = None -> P w 503 ->
  (forall leader, svc_Leader n (rq_Ctx r) (w_app w) = (w_app w, Ok leader) -> NodeID leader <> NodeID (me s) ->
     ends P (proxyToLeader roundtrip leader r (w, rw))) ->
  (forall leader, svc_Leader n (rq_Ctx r) (w_app w) = (w_app w, Ok leader) -> NodeID leader = NodeID (me s) ->
     ends P (next r (w, rw))) ->
  ends P (leaderMiddleware roundtrip n next r (w, rw)).
Proof using All.
  intros Hn Hs H503 Hprox Hnext. unfold leaderMiddleware, mbind, M_bind, try.
  destruct (Leader_run (rq_Ctx r) (w_app w)) as [[p E]|[e E]]; rewrite (on_app_run _ _ _ _ _ E), world_eta.
  - unfold the_server. cbn [fst]. rewrite Hn. case_bool_decide as Hp; [by apply Hprox|]. by apply (Hnext p E).
  - by apply ends_error.
Qed.

(** A limiter takes a token and leaves everything else. *)
Lemma ends_writeLimit next r w rw s :
  servers w !! n = Some s -> sent_status rw = None ->
  (forall rl, let w1 := mkWorld (w_app w) (<[n := mkServer_ (me s) (readLimiter s) rl (adminAuthToken s) (killed s)]> (servers w)) in
     rl = (allow (rq_Path r) (writeLimiter s)).1 -> P w1 429 /\ ends P (next r (w1, rw))) ->
  ends P (writeLimitMiddleware n next r (w, rw)).
Proof.
  intros Hn Hs Hnext. unfold writeLimitMiddleware, mbind, M_bind, the_server. cbn [fst]. rewrite Hn.
  specialize (Hnext (allow (rq_Path r) (writeLimiter s)).1). destruct (allow _ _) as [rl ok]. cbn [fst] in Hnext.
  destruct (Hnext eq_refl) as [H1 H2]. cbn [set_server]. destruct ok; [exact H2|by apply ends_error].
Qed.
Lemma ends_readLimit next r w rw s :
  servers w !! n = Some s -> sent_status rw = None ->
  (forall rl, let w1 := mkWorld (w_app w) (<[n := mkServer_ (me s) rl (writeLimiter s) (adminAuthToken s) (killed s)]> (servers w)) in
     rl = (allow (rq_Path r) (readLimiter s)).1 -> P w1 429 /\ ends P (next r (w1, rw))) ->
  ends P (readLimitMiddleware n next r (w, rw)).
Proof.
  intros Hn Hs Hnext. unfold readLimitMiddleware, mbind, M_bind, the_server. cbn [fst]. rewrite Hn.
  specialize (Hnext (allow (rq_Path r) (readLimiter s)).1). destruct (allow _ _) as [rl ok]. cbn [fst] in Hnext.
  destruct (Hnext eq_refl) as [H1 H2]. cbn [set_server]. destruct ok; [exact H2|by apply ends_error].
Qed.

Lemma ends_auth next r w rw s :
  servers w !! n = Some s -> sent_status rw = None -> P w 403 ->
  (rq_Token r = adminAuthToken s -> rq_Token r <> "" -> ends P (next r (w, rw))) ->
  ends P (adminAuthMiddleware n next r (w, rw)).
Proof.
  intros Hn Hs H403 Hnext. unfold adminAuthMiddleware, mbind, M_bind, the_server. cbn [fst]. rewrite Hn.
  case_bool_decide as H1; [by apply ends_error|]. case_bool_decide as H2; [by apply ends_error|].
  by apply Hnext.
Qed.
End Ends.


(** ** Administration *)

(** What a limiter leaves alone. *)
Definition ident (s : HttpServer L) : Peer * string * nat := (me s, adminAuthToken s, killed s).
Definition quiet (w w' : world) : Prop :=
  w_app w' = w_app w /\ forall n, ident <$> servers w' !! n = ident <$> servers w !! n.

Lemma quiet_refl w : quiet w w.
Proof. done. Qed.
Lemma quiet_trans w1 w2 w3 : quiet w1 w2 -> quiet w2 w3 -> quiet w1 w3.
Proof. intros [H1 H2] [H3 H4]. split; [congruence|]. intros n. by rewrite H4. Qed.
Lemma quiet_server w w' n s : quiet w w' -> servers w !! n = Some s -> exists s', servers w' !! n = Some s' /\ ident s' = ident s.
Proof. intros [_ H] Hn. specialize (H n). rewrite Hn in H. by apply fmap_Some in H as (s' & ? & ?); exists s'. Qed.
Lemma quiet_limiter w n s s' : servers w !! n = Some s -> ident s' = ident s -> quiet w (mkWorld (w_app w) (<[n := s']> (servers w))).
Proof.
  intros Hn Hid. split; [done|]. intros m. cbn [servers]. destruct (decide (m = n)) as [->|Hm].
  - rewrite lookup_insert_eq, Hn. simpl. by rewrite Hid.
  - by rewrite lookup_insert_ne.
Qed.

(** The transport answers as [P] says, for requests in a world that is quiet since [w0]. *)
Definition answers (w0 : world) (P : world -> Z -> Prop)
    (roundtrip : string -> Request -> world -> world * (Response J + error)) (r : Request) : Prop :=
  forall addr w, quiet w0 w ->
    match roundtrip addr r w with
    | (w', inl resp) => P w' (rs_status resp)
    | (w', inr _) => quiet w0 w'
    end.
(** [P] allows the statuses [l] in every quiet world. *)
Definition allows (w0 : world) (P : world -> Z -> Prop) (l : list Z) : Prop :=
  forall w' status, quiet w0 w' -> status ∈ l -> P w' status.
Definition refused (w0 : world) (statuses : list Z) (w' : world) (status : Z) : Prop := quiet w0 w' /\ status ∈ statuses.

Lemma refused_allows w0 statuses l : l ⊆ statuses -> allows w0 (refused w0 statuses) l.
Proof. intros Hl w' st Hq Hst. split; [done|by apply Hl]. Qed.

Section Routing.
Context {Laws : RaftServiceLaws A}.
Variable w0 : world.
Variable P : world -> Z -> Prop.

(** Induction over the proxies: what a node answers when the others answer alike. *)
Lemma serve_ind (Req : Request -> Prop) :
  (forall fuel r, Req r -> rq_Method r <> OPTIONS /\
     forall n s w rw, quiet w0 w -> servers w !! n = Some s -> sent_status rw = None ->
       (forall r', Req r' -> answers w0 P (transport fuel) r') ->
       ends P (mux service ping (transport fuel) n r (w, rw))) ->
  forall fuel n r w, Req r -> quiet w0 w -> is_Some (servers w !! n) ->
    P (serve service ping dial fuel n r w).1 (rs_status (serve service ping dial fuel n r w).2).
Proof using All.
  intros Hmux.
  assert (forall fuel n r w, (forall r', Req r' -> answers w0 P (transport fuel) r') ->
    Req r -> quiet w0 w -> is_Some (servers w !! n) ->
    P (serve service ping dial fuel n r w).1 (rs_status (serve service ping dial fuel n r w).2)) as Hserve.
  { intros fuel n r w Htr Hr Hw [s Hn]. destruct (Hmux fuel r Hr) as [Hm Hmux'].
    apply serve_settles; [done|]. intros rw Hs. by apply (Hmux' n s). }
  induction fuel as [|fuel IH]; intros n r w Hr Hw Hn; apply Hserve; try done; intros r' Hr' addr w1 Hw1; unfold transport;
    destruct (dial addr) as [n'|err]; try done; destruct (body_short r'); try done.
  destruct (servers w1 !! n') as [s'|] eqn:Hn'; [|done].
  specialize (IH n' r' w1 Hr' Hw1 ltac:(by eexists)). by destruct (serve service ping dial fuel n' r' w1).
Qed.

Lemma proxied roundtrip r leader w rw :
  allows w0 P [503; 502] -> answers w0 P roundtrip r -> quiet w0 w -> sent_status rw = None ->
  ends P (proxyToLeader roundtrip leader r (w, rw)).
Proof using All.
  intros HS Hr Hw Hs. specialize (Hr (GetHttpAdvertisedAddress leader) w Hw).
  apply ends_proxyToLeader; [done|..]; intros w' x E; rewrite E in Hr; [done|]. split; (apply HS; [done|set_solver]).
Qed.

(** A request behind the leader middleware: proxied, or handled on the leader. *)
Lemma led roundtrip n next r w rw s :
  allows w0 P [502; 503] -> answers w0 P roundtrip r -> quiet w0 w -> servers w !! n = Some s -> sent_status rw = None ->
  (forall leader, svc_Leader n (rq_Ctx r) (w_app w0) = (w_app w0, Ok leader) -> NodeID leader = NodeID (me s) ->
     ends P (next r (w, rw))) ->
  ends P (leaderMiddleware roundtrip n next r (w, rw)).
Proof using All.
  intros HS Hr Hw Hn Hs Hnext. apply (ends_leader _ _ _ _ _ _ _ s); [done|done|apply HS; [done|set_solver]|..].
  - intros leader _ _. apply proxied; [|done..]. intros w' st Hq Hst. apply HS; [done|set_solver].
  - intros leader HL Hid. pose proof Hw as [Ha _]. rewrite Ha in HL. by eapply Hnext.
Qed.

Lemma write_limited n next r w rw s :
  allows w0 P [429] -> quiet w0 w -> servers w !! n = Some s -> sent_status rw = None ->
  (forall w1 s1, quiet w0 w1 -> servers w1 !! n = Some s1 -> ident s1 = ident s -> ends P (next r (w1, rw))) ->
  ends P (writeLimitMiddleware n next r (w, rw)).
Proof using All.
  intros HS Hw Hn Hs Hnext. apply (ends_writeLimit _ _ _ _ _ _ s); [done|done|]. intros rl w1 _.
  assert (quiet w0 w1) as Hq1 by (eapply quiet_trans; [done|by apply (quiet_limiter w n s)]).
  split; [apply HS; [done|set_solver]|]. eapply Hnext; [done|apply lookup_insert_eq|done].
Qed.
Lemma read_limited n next r w rw s :
  allows w0 P [429] -> quiet w0 w -> servers w !! n = Some s -> sent_status rw = None ->
  (forall w1 s1, quiet w0 w1 -> servers w1 !! n = Some s1 -> ident s1 = ident s -> ends P (next r (w1, rw))) ->
  ends P (readLimitMiddleware n next r (w, rw)).
Proof using All.
  intros HS Hw Hn Hs Hnext. apply (ends_readLimit _ _ _ _ _ _ s); [done|done|]. intros rl w1 _.
  assert (quiet w0 w1) as Hq1 by (eapply quiet_trans; [done|by apply (quiet_limiter w n s)]).
  split; [apply HS; [done|set_solver]|]. eapply Hnext; [done|apply lookup_insert_eq|done].
Qed.

Lemma allows_sub l l' : l' ⊆ l -> allows w0 P l -> allows w0 P l'.
Proof. intros Hl HS w' st Hq Hst. apply HS; [done|by apply Hl]. Qed.

Lemma administered roundtrip n base r w rw s :
  allows w0 P [403; 429; 502; 503] -> answers w0 P roundtrip r ->
  quiet w0 w -> servers w !! n = Some s -> sent_status rw = None ->
  (forall w1 s1 leader, quiet w0 w1 -> servers w1 !! n = Some s1 -> ident s1 = ident s ->
     svc_Leader n (rq_Ctx r) (w_app w0) = (w_app w0, Ok leader) -> NodeID leader = NodeID (me s) ->
     rq_Token r = adminAuthToken s -> rq_Token r <> "" -> ends P (base r (w1, rw))) ->
  ends P (adminChain roundtrip n base r (w, rw)).
Proof using All.
  intros HS Hr Hw Hn Hs Hbase. unfold adminChain, chain. cbn [foldl].
  apply (led _ _ _ _ _ _ s); [by eapply allows_sub; [|exact HS]; set_solver|done..|]. intros leader HL Hid.
  apply (write_limited _ _ _ _ _ s); [by eapply allows_sub; [|exact HS]; set_solver|done..|]. intros w1 s1 Hq1 Hn1 Hid1.
  apply (ends_auth _ _ _ _ _ _ s1); [done|done|apply HS; [done|set_solver]|]. unfold requestLoggingMiddleware.
  injection Hid1 as Hm1 Ht1 Hk1. intros Ht Ht'. rewrite Ht1 in Ht. eapply Hbase; try done. unfold ident. congruence.
Qed.
End Routing.

Section AdminTheorems.
Context {Laws : RaftServiceLaws A}.

Definition admin_request (r : Request) : Prop :=
  (rq_Method r, rq_Path r) ∈ [(POST, RouteJoinCluster); (DELETE, RouteKillNode); (POST, RouteTriggerCompaction)].

(** C16: Without the admin token nobody administers the cluster. A request to join, to kill
    a node or to compact whose token is missing or differs from the nodes' has no effect on any
    node, whichever node receives it and however often it is proxied: no service runs, no
    node is added or killed, only rate limiters take tokens, and it is answered 403, 429,
    502 or 503. *)
Theorem admin_requires_token (fuel : nat) (n : string) (r : Request) (w : world) :
  admin_request r -> is_Some (servers w !! n) ->
  (forall m s, servers w !! m = Some s -> rq_Token r = "" \/ rq_Token r <> adminAuthToken s) ->
  let '(w', resp) := serve service ping dial fuel n r w in
  w_app w' = w_app w /\ (forall m, ident <$> servers w' !! m = ident <$> servers w !! m) /\
  rs_status resp ∈ [403; 429; 502; 503].
Proof using All.
  intros Hadm Hn Htok.
  assert (refused w [403; 429; 502; 503] (serve service ping dial fuel n r w).1
    (rs_status (serve service ping dial fuel n r w).2)) as [[H1 H2] H3];
    [|by destruct (serve service ping dial fuel n r w)].
  apply (serve_ind w _ (fun r' => r' = r)); [|done|apply quiet_refl|done].
  intros f r' ->. split.
  { intros Hm. unfold admin_request in Hadm. rewrite Hm in Hadm. set_solver. }
  intros n1 s w1 rw Hq Hn1 Hs Htr. specialize (Htr r eq_refl).
  assert (forall base, ends (refused w [403; 429; 502; 503]) (adminChain (transport f) n1 base r (w1, rw))) as Hadmin.
  { intros base. apply (administered w _ _ _ _ _ _ _ s); [by apply refused_allows|done..|].
    intros w2 s2 leader _ _ _ _ _ Ht Ht'. exfalso.
    pose proof Hq as [_ Hid]. specialize (Hid n1). rewrite Hn1 in Hid. destruct (servers w !! n1) as [s0|] eqn:H0; [|done].
    destruct (Htok n1 s0 H0) as [?|Hne]; [done|]. apply Hne. rewrite Ht. injection Hid. congruence. }
  assert (find_route (rq_Method r) (rq_Path r) ∈ [Some 16; Some 17; Some 18]%nat) as Hf.
  { unfold admin_request in Hadm. repeat (apply elem_of_cons in Hadm as [[= -> ->]|Hadm]; [vm_compute; set_solver|]). set_solver. }
  apply elem_of_cons in Hf as [Hf|Hf]; [rewrite (mux_entry _ _ _ _ _ Hf eq_refl); apply Hadmin|].
  apply elem_of_cons in Hf as [Hf|Hf]; [rewrite (mux_entry _ _ _ _ _ Hf eq_refl); apply Hadmin|].
  apply elem_of_cons in Hf as [Hf|Hf]; [|set_solver]. rewrite (mux_entry _ _ _ _ _ Hf eq_refl). unfold chain. cbn [foldl snd].
  apply (led w _ _ _ _ _ _ _ s); [apply refused_allows; set_solver|done..|]. intros leader _ _. apply Hadmin.
Qed.
(** A request to kill [victim] whose body the decoder reads to its end. *)
Definition kill_request (victim : string) (ctx : option error) (r : Request) : Prop :=
  rq_Method r = DELETE /\ rq_Path r = RouteKillNode /\ rq_Ctx r = ctx /\
  forall v, (rq_Body r ≫= decode_Kill) = Some v -> v = victim /\ kill_rest (default [] (rq_Body r)) = [].

Lemma kill_handler_refused w0 statuses f n victim ctx r w rw s :
  [400; 404; 500; 503] ⊆ statuses -> kill_request victim ctx r ->
  (forall r', kill_request victim ctx r' -> answers w0 (refused w0 statuses) (transport f) r') ->
  quiet w0 w -> servers w !! n = Some s -> NodeID (me s) <> victim -> sent_status rw = None ->
  ends (refused w0 statuses) (handleKillNode (transport f) n r (w, rw)).
Proof using All.
  intros HS (Hm & Hp & Hc & Hb) Htr Hq Hn Hv Hs. unfold handleKillNode.
  assert (forall status, status ∈ [400; 404; 500; 503] -> refused w0 statuses w status) as Href by (split; [done|set_solver]).
  destruct (rq_Body r ≫= decode_Kill) as [v|] eqn:Ed; [|apply ends_error; [done|apply Href; set_solver]].
  destruct (Hb v eq_refl) as [-> Hrest]. case_bool_decide; [apply ends_error; [done|apply Href; set_solver]|].
  unfold mbind, M_bind, the_server. cbn [fst]. rewrite Hn, bool_decide_eq_false_2 by done. cbn [get_st fst].
  destruct (list_find _ _) as [[i p]|]; [|apply ends_error; [done|apply Href; set_solver]].
  rewrite Hrest. assert (kill_request victim ctx (set_body [] r)) as Hr'.
  { split; [done|]. split; [done|]. split; [done|]. cbn [set_body rq_Body mbind option_bind]. rewrite decode_Kill_empty. done. }
  specialize (Htr _ Hr' (GetHttpAdvertisedAddress p) w Hq).
  apply ends_proxy; [done|..]; intros w' x E; rewrite E in Htr; [done|].
  destruct (networkerr x); (apply ends_error; [done|split; [done|set_solver]]).
Qed.

(** Only the leader can be killed. While the nodes agree on a leader, a request to kill
    another node kills nobody, whichever node receives it and whoever sends it: every node
    hands it to the leader, and what the leader forwards to the victim has lost its body, so it is refused for its length
    or comes back to the leader to be refused as malformed. *)
Theorem kill_reaches_leader_only (fuel : nat) (n victim : string) (ld : Peer) (r : Request) (w : world) :
  kill_request victim (rq_Ctx r) r -> victim <> NodeID ld -> is_Some (servers w !! n) ->
  (forall m, is_Some (servers w !! m) -> svc_Leader m (rq_Ctx r) (w_app w) = (w_app w, Ok ld)) ->
  let '(w', resp) := serve service ping dial fuel n r w in
  (forall m, killed <$> servers w' !! m = killed <$> servers w !! m) /\
  rs_status resp ∈ [400; 403; 404; 429; 500; 502; 503].
Proof using All.
  intros Hkill Hv Hn HL. set (sts := [400; 403; 404; 429; 500; 502; 503]).
  assert (refused w sts (serve service ping dial fuel n r w).1 (rs_status (serve service ping dial fuel n r w).2)) as [[_ H2] H3].
  { apply (serve_ind w _ (kill_request victim (rq_Ctx r))); [|done|apply quiet_refl|done].
    intros f r' Hr'. split; [by rewrite (proj1 Hr')|]. intros n1 s w1 rw Hq Hn1 Hs Htr.
    assert (find_route (rq_Method r') (rq_Path r') = Some 17%nat) as Hf by (destruct Hr' as (-> & -> & _); reflexivity).
    rewrite (mux_entry _ _ _ _ _ Hf eq_refl).
    apply (administered w _ _ _ _ _ _ _ s); [apply refused_allows; set_solver|by apply Htr|done|done|done|].
    intros w2 s2 leader Hq2 Hn2 Hid HL2 Hme _ _. 
    rewrite (proj1 (proj2 (proj2 Hr'))), HL in HL2.
    2:{ pose proof Hq as [_ Hq']. specialize (Hq' n1). rewrite Hn1 in Hq'. destruct (servers w !! n1); [by eexists|done]. }
    injection HL2 as <-.
    apply (kill_handler_refused _ _ _ _ victim (rq_Ctx r) _ _ _ s2); try done; [set_solver|].
    injection Hid as -> _ _. congruence. }
  destruct (serve service ping dial fuel n r w) as [w' resp]. split; [|done]. intros m. specialize (H2 m).
  cbn [fst] in H2. destruct (servers w' !! m), (servers w !! m); try done. injection H2 as _ _ H2. simpl. by rewrite H2.
Qed.
End AdminTheorems.


(** ** Who executes a request *)

(** The routes behind a leader check, and whether the leader also verifies that it still leads. *)
Definition guarded (i : nat) : option (bool * Service) :=
  match i with
  | 0 | 1 => Some (true, KvRange) | 2 => Some (false, KvPut) | 3 => Some (false, KvDelete) | 4 => Some (false, KvTxn)
  | 5 => Some (false, LeaseGrant) | 6 => Some (false, LeaseRevoke) | 7 => Some (false, LeaseKeepAlive)
  | 8 | 9 => Some (false, LeaseLookup) | 12 | 13 => Some (true, OTTransfer) | 14 => Some (false, OTWriteAll)
  | 19 => Some (false, Stats) | _ => None
  end%nat.

(** [h] ran on a node that Raft names as its leader, after a successful check if [verified]. *)
Definition executed (verified : bool) (h : Service) (r : Request) (w w' : world) : Prop :=
  exists n s leader a, servers w !! n = Some s /\ svc_Leader n (rq_Ctx r) (w_app w) = (w_app w, Ok leader) /\
    NodeID leader = NodeID (me s) /\
    (if verified then svc_VerifyLeader n (rq_Ctx r) (w_app w) = (a, Ok tt) else a = w_app w) /\
    w_app w' = (service h n r a).1.
(** No service ran; at most leadership was checked. *)
Definition not_executed (r : Request) (w w' : world) (status : Z) : Prop :=
  status ∈ [400; 429; 500; 502; 503] /\
  (w_app w' = w_app w \/ exists n, w_app w' = (svc_VerifyLeader n (rq_Ctx r) (w_app w)).1).
Definition routed (verified : bool) (h : Service) (r : Request) (w w' : world) (status : Z) : Prop :=
  (forall m, ident <$> servers w' !! m = ident <$> servers w !! m) /\
  (executed verified h r w w' \/ not_executed r w w' status).

Section Execution.
Context {Laws : RaftServiceLaws A}.
Variable w0 : world.
Variable h : Service.

Lemma routed_allows (verified : bool) r : allows w0 (routed verified h r w0) [400; 429; 500; 502; 503].
Proof. intros w' st [Ha Hid] Hst. split; [done|]. right. split; [done|by left]. Qed.

Lemma run_service (verified : bool) n r w rw s leader a :
  (forall m, ident <$> servers w !! m = ident <$> servers w0 !! m) -> sent_status rw = None ->
  servers w !! n = Some s -> svc_Leader n (rq_Ctx r) (w_app w0) = (w_app w0, Ok leader) -> NodeID leader = NodeID (me s) ->
  (if verified then svc_VerifyLeader n (rq_Ctx r) (w_app w0) = (a, Ok tt) else a = w_app w0) -> w_app w = a ->
  ends (routed verified h r w0) (serviceHandler service n h r (w, rw)).
Proof.
  intros Hq Hs Hn HL Hid Hv Ha. pose proof (Hq n) as Hn0. rewrite Hn in Hn0. symmetry in Hn0.
  apply fmap_Some in Hn0 as (s0 & Hn0 & Hid0). unfold ident in Hid0.
  unfold serviceHandler, mbind, M_bind, on_app. rewrite Ha.
  assert (forall st, routed verified h r w0 (mkWorld (service h n r a).1 (servers w)) st) as HR.
  { intros st. split; [done|]. left. exists n, s0, leader, a. split_and!; try done. congruence. }
  destruct (service h n r a) as [a' [[st [j|[msg err]]]|]]; cbn [fst] in HR.
  - by apply ends_json.
  - by apply ends_error.
  - unfold ends, settle. apply HR.
Qed.

Lemma write_executed roundtrip n r w rw s :
  quiet w0 w -> servers w !! n = Some s -> sent_status rw = None ->
  answers w0 (routed false h r w0) roundtrip r ->
  ends (routed false h r w0) (writeChain roundtrip n (serviceHandler service n h) r (w, rw)) /\
  ends (routed false h r w0)
    (chain (serviceHandler service n h) [requestLoggingMiddleware; readLimitMiddleware n; leaderMiddleware roundtrip n] r (w, rw)).
Proof using All.
  intros Hq Hn Hs Hr. unfold writeChain, chain. cbn [foldl]. unfold requestLoggingMiddleware.
  split; (apply (led w0 _ _ _ _ _ _ _ s); [eapply allows_sub, routed_allows; set_solver|done..|]; intros leader HL Hid;
    first [apply (write_limited w0 _ _ _ _ _ _ s)|apply (read_limited w0 _ _ _ _ _ _ s)];
    [eapply allows_sub, routed_allows; set_solver|done..|]; intros w1 s1 [Ha1 Hq1] Hn1 Hid1;
    injection Hid1 as Hm1 _ _; apply (run_service _ _ _ _ _ s1 leader (w_app w0)); try done; congruence).
Qed.

Lemma read_executed roundtrip n r b w rw s :
  quiet w0 w -> servers w !! n = Some s -> sent_status rw = None ->
  rq_Body r = Some b -> peek_Serializable b = Some false ->
  answers w0 (routed true h r w0) roundtrip r ->
  ends (routed true h r w0) (strongReadChain roundtrip n (serviceHandler service n h) r (w, rw)).
Proof using All.
  intros Hq Hn Hs Hb Hpeek Hr. unfold strongReadChain, chain. cbn [foldl]. unfold requestLoggingMiddleware.
  unfold consitencyMiddleware, mbind, M_bind, try. rewrite Hb, Hpeek. pose proof Hq as [Ha Hid].
  assert (allows w0 (routed true h r w0) [400; 429; 500; 502; 503]) as Hall by apply routed_allows.
  destruct (Leader_run n (rq_Ctx r) (w_app w)) as [[p E]|[e E]]; rewrite (on_app_run _ _ _ _ _ E), world_eta;
    [|apply ends_error; [done|apply Hall; [done|set_solver]]].
  unfold the_server. cbn [fst]. rewrite Hn. case_bool_decide as Hp.
  { apply (proxied w0); [by eapply allows_sub; [|exact Hall]; set_solver|done..]. }
  unfold on_app. destruct (svc_VerifyLeader n (rq_Ctx r) (w_app w)) as [a [[]|e|]] eqn:Ev; rewrite Ha in Ev.
  - apply (ends_readLimit _ _ _ _ _ _ s); [done|done|]. intros rl w1 _.
    assert (forall m, ident <$> servers w1 !! m = ident <$> servers w0 !! m) as Hid1.
    { intros m. rewrite <-(Hid m). destruct (quiet_limiter w n s (mkServer_ (me s) rl (writeLimiter s) (adminAuthToken s) (killed s)) Hn eq_refl) as [_ Hl].
      apply (Hl m). }
    split.
    + split; [done|]. right. split; [set_solver|]. right. exists n. by rewrite Ev.
    + apply (run_service _ _ _ _ _ (mkServer_ (me s) rl (writeLimiter s) (adminAuthToken s) (killed s)) p a); try done;
        [apply lookup_insert_eq|by rewrite Ha in E].
  - apply ends_error; [done|]. split; [done|]. right. split; [set_solver|]. right. exists n. by rewrite Ev.
  - unfold ends, settle. rewrite Hs. split; [done|]. right. split; [set_solver|]. right. exists n. by rewrite Ev.
Qed.
End Execution.

(** C11: Writes and linearizable reads run on the leader only. Whichever node receives a
    request to a guarded route, and however often it is proxied, its service runs on at
    most one node, one that Raft names as the leader and, for a read that is not serializable, that has
    just verified its leadership; otherwise no service runs and the request is answered
    400, 429, 500, 502 or 503. *)
Theorem requests_reach_leader `{!RaftServiceLaws A} (fuel : nat) (n : string) (r : Request) (w : world)
    (i : nat) (verified : bool) (h : Service) :
  find_route (rq_Method r) (rq_Path r) = Some i -> guarded i = Some (verified, h) ->
  (verified = true -> (rq_Body r ≫= peek_Serializable) = Some false) ->
  rq_Method r <> OPTIONS -> is_Some (servers w !! n) ->
  let '(w', resp) := serve service ping dial fuel n r w in
  routed verified h r w w' (rs_status resp).
Proof using All.
  intros Hf Hg Hb Hm Hn.
  assert (routed verified h r w (serve service ping dial fuel n r w).1 (rs_status (serve service ping dial fuel n r w).2)) as HR;
    [|by destruct (serve service ping dial fuel n r w)].
  apply (serve_ind w (routed verified h r w) (fun r' => r' = r)); [|done|apply quiet_refl|done].
  intros f r' ->. split; [done|]. intros n1 s w1 rw Hq Hn1 Hs Htr. specialize (Htr r eq_refl).
  destruct verified.
  - specialize (Hb eq_refl). apply bind_Some in Hb as (b & Hb & Hp).
    pose proof (read_executed w h (transport f) n1 r b w1 rw s Hq Hn1 Hs Hb Hp Htr) as Hread.
    do 20 (destruct i as [|i]; [first [discriminate Hg|injection Hg as <-; rewrite (mux_entry _ _ _ _ _ Hf eq_refl); exact Hread]|]).
    discriminate Hg.
  - destruct (write_executed w h (transport f) n1 r w1 rw s Hq Hn1 Hs Htr) as [H1 H2].
    do 20 (destruct i as [|i]; [first [discriminate Hg|injection Hg as <-; rewrite (mux_entry _ _ _ _ _ Hf eq_refl); first [exact H1|exact H2]]|]).
    discriminate Hg.
Qed.


(** ** Limiter tables *)

Definition paths : gset string := list_to_set (route_keys.*2).
Definition tables_ok (s : HttpServer L) : Prop :=
  dom (limiters (readLimiter s)) ⊆ paths /\ dom (limiters (writeLimiter s)) ⊆ paths.
Definition lim_ok (w : world) : Prop := forall n s, servers w !! n = Some s -> tables_ok s.
Definition lim_st (st : world * RW) : Prop := lim_ok st.1.

Lemma allow_dom path (rl : rateLimiter L) :
  path ∈ paths -> dom (limiters rl) ⊆ paths -> dom (limiters (allow path rl).1) ⊆ paths.
Proof. intros Hp Hd. unfold allow. destruct (Allow _) as [l ok]. cbn [fst limiters].
  rewrite dom_insert. apply union_subseteq. split; [by apply singleton_subseteq_l|done]. Qed.

Lemma write_lim f : stable lim_st (write f).
Proof. by intros [w rw] Hs. Qed.
Lemma writeError_lim msg err status : stable lim_st (writeError msg err status).
Proof. apply write_lim. Qed.
Lemma writeJSON_lim p status : stable lim_st (writeJSON p status).
Proof. apply write_lim. Qed.
Lemma http_Error_lim msg status : stable lim_st (http_Error (A := A) (L := L) msg status).
Proof. apply write_lim. Qed.
Lemma on_app_lim {X} (m : M A X) : stable lim_st (on_app m).
Proof. intros [w rw] Hs. unfold on_app. by destruct (m (w_app w)). Qed.
Lemma set_server_lim n s : tables_ok s -> stable lim_st (set_server n s).
Proof. intros Hok [w rw] Hs m s' Hm. cbn in Hm. apply lookup_insert_Some in Hm as [[_ <-]|[_ Hm]]; [done|by eapply Hs]. Qed.
(** Reading a server hands its tables to the rest. *)
Lemma the_server_lim {X} n (k : HttpServer L -> M (world * RW) X) :
  (forall s, tables_ok s -> stable lim_st (k s)) -> stable lim_st (the_server n ≫= k).
Proof.
  intros Hk [w rw] Hs. unfold mbind, M_bind, the_server. cbn [fst]. destruct (servers w !! n) as [s|] eqn:Hn; [|done].
  apply Hk; [|done]. by eapply Hs.
Qed.
Hint Resolve write_lim writeError_lim writeJSON_lim http_Error_lim on_app_lim set_server_lim : stable.

Section Limits.
Variable roundtrip : string -> Request -> world -> world * (Response J + error).
Hypothesis roundtrip_lim : forall addr r w, lim_ok w -> lim_ok (roundtrip addr r w).1.

(** A handler for the requests of registered paths. *)
Definition lim_handler (hd : Handler) : Prop := forall r, rq_Path r ∈ paths -> stable lim_st (hd r).

Lemma reverseProxy_lim addr eh r : (forall err, stable lim_st (eh err)) -> stable lim_st (reverseProxy roundtrip addr eh r).
Proof using roundtrip_lim.
  intros He [w rw] Hs. unfold reverseProxy. pose proof (roundtrip_lim addr r w Hs) as Hw.
  destruct (roundtrip addr r w) as [w' [resp|err]]; [exact Hw|by apply He].
Qed.

Lemma serviceHandler_lim n h : lim_handler (serviceHandler service n h).
Proof. intros r Hp. unfold serviceHandler. stable. Qed.
Lemma leader_lim n next : lim_handler next -> lim_handler (leaderMiddleware roundtrip n next).
Proof using roundtrip_lim.
  intros Hn r Hp. unfold leaderMiddleware, proxyToLeader. apply stable_bind; [stable|]. intros [leader|e]; [|stable].
  apply the_server_lim. stable; first [by apply Hn|apply reverseProxy_lim; stable].
Qed.
Lemma consistency_lim n next : lim_handler next -> lim_handler (consitencyMiddleware roundtrip n next).
Proof using roundtrip_lim.
  intros Hn r Hp. unfold consitencyMiddleware, proxyToLeader. destruct (rq_Body r) as [b|]; [|stable].
  destruct (peek_Serializable b) as [[]|]; [by apply Hn| |stable]. apply stable_bind; [stable|]. intros [leader|e]; [|stable].
  apply the_server_lim. stable; first [by apply Hn|apply reverseProxy_lim; stable].
Qed.
Lemma readLimit_lim n next : lim_handler next -> lim_handler (readLimitMiddleware n next).
Proof.
  intros Hn r Hp. unfold readLimitMiddleware. apply the_server_lim. intros s [H1 H2].
  pose proof (allow_dom (rq_Path r) (readLimiter s) Hp H1) as Hd. destruct (allow _ _) as [rl ok]. cbn [fst] in Hd.
  apply stable_bind; [by apply set_server_lim|]. intros _. destruct ok; [by apply Hn|stable].
Qed.
Lemma writeLimit_lim n next : lim_handler next -> lim_handler (writeLimitMiddleware n next).
Proof.
  intros Hn r Hp. unfold writeLimitMiddleware. apply the_server_lim. intros s [H1 H2].
  pose proof (allow_dom (rq_Path r) (writeLimiter s) Hp H2) as Hd. destruct (allow _ _) as [rl ok]. cbn [fst] in Hd.
  apply stable_bind; [by apply set_server_lim|]. intros _. destruct ok; [by apply Hn|stable].
Qed.
Lemma auth_lim n next : lim_handler next -> lim_handler (adminAuthMiddleware n next).
Proof. intros Hn r Hp. unfold adminAuthMiddleware. apply the_server_lim. stable. Qed.
Lemma join_lim n : lim_handler (handleJoin n).
Proof. intros r Hp. unfold handleJoin. stable. Qed.
Lemma livez_lim n : lim_handler (handleLivez ping n).
Proof. intros r Hp. unfold handleLivez. stable. Qed.
Lemma readyz_lim n : lim_handler (handleReadyz n).
Proof. intros r Hp. unfold handleReadyz. stable. Qed.
Lemma kill_lim n : lim_handler (handleKillNode roundtrip n).
Proof using roundtrip_lim.
  intros r Hp. unfold handleKillNode. destruct (rq_Body r ≫= decode_Kill); [|stable]. case_bool_decide; [stable|].
  apply the_server_lim. intros sv Hsv. stable. apply reverseProxy_lim. stable.
Qed.
Hint Resolve serviceHandler_lim leader_lim consistency_lim readLimit_lim writeLimit_lim auth_lim join_lim
  livez_lim readyz_lim kill_lim : stable.

Lemma routes_lim n : Forall (fun e => lim_handler e.2) (routes service ping roundtrip n).
Proof using roundtrip_lim.
  repeat (apply Forall_cons; split; [|]); try apply Forall_nil; cbn [snd];
    unfold strongReadChain, writeChain, weakReadChain, adminChain, chain; cbn [foldl];
    unfold requestLoggingMiddleware; auto 10 with stable.
Qed.

Lemma server_lim n r : stable lim_st (server_Handler service ping roundtrip n r).
Proof using roundtrip_lim.
  assert (stable lim_st (mux service ping roundtrip n r)) as Hmux.
  { unfold mux. destruct (list_find _ _) as [[i [[m p] hd]]|] eqn:E; [|stable].
    apply list_find_Some in E as (Hi & [Hp _] & _). pose proof (routes_lim n) as HF. rewrite Forall_lookup in HF.
    apply (HF i _ Hi). cbn [fst snd] in Hp. rewrite <-Hp. unfold paths. apply elem_of_list_to_set.
    rewrite <-(routes_keys roundtrip n). apply (list_elem_of_fmap_2 snd _ (m, p)).
    apply (list_elem_of_fmap_2 fst _ (m, p, hd)). by eapply list_elem_of_lookup_2. }
  assert (stable lim_st (corsMuxMiddleware (mux service ping roundtrip n) r)) as Hc by (unfold corsMuxMiddleware; stable).
  intros st Hst. specialize (Hc st Hst). unfold server_Handler, panicRecoveryMiddleware.
  destruct (corsMuxMiddleware _ r st) as [st' [[]|e|]]; [done|done|]. by apply writeError_lim.
Qed.
End Limits.

Lemma serve_lim fuel n r w : lim_ok w -> lim_ok (serve service ping dial fuel n r w).1.
Proof.
  revert n r w. assert (forall fuel n r w, (forall addr r w, lim_ok w -> lim_ok (transport fuel addr r w).1) ->
    lim_ok w -> lim_ok (serve service ping dial fuel n r w).1) as Hs.
  { intros f n r w Ht Hw. rewrite serve_eq. pose proof (server_lim (transport f) Ht n r (w, new_writer) Hw) as H.
    by destruct (server_Handler _ _ _ _ _ _) as [[w' rw'] x]. }
  induction fuel as [|fuel IH]; intros n r w; apply Hs; intros addr r1 w1 Hw1; unfold transport;
    destruct (dial addr) as [n'|]; try done; destruct (body_short r1); try done.
  destruct (servers w1 !! n'); [|done]. specialize (IH n' r1 w1 Hw1). by destruct (serve service ping dial fuel n' r1 w1).
Qed.

(** The limiter tables stay small. Whatever requests clients send, known routes or not,
    through whichever nodes, no server ever holds more read or write limiters than there are registered
    paths, 19, provided it started without any. *)
Theorem limiter_tables_bounded (reqs : list (nat * string * Request)) (w : world) (n : string) (s : HttpServer L) :
  (forall m s, servers w !! m = Some s -> limiters (readLimiter s) = ∅ /\ limiters (writeLimiter s) = ∅) ->
  servers (foldl (fun w q => (serve service ping dial q.1.1 q.1.2 q.2 w).1) w reqs) !! n = Some s ->
  (size (limiters (readLimiter s)) <= 19)%nat /\ (size (limiters (writeLimiter s)) <= 19)%nat.
Proof.
  intros H0 Hn. assert (lim_ok w) as Hw.
  { intros m s0 Hm. destruct (H0 m s0 Hm) as [E1 E2]. unfold tables_ok. rewrite E1, E2, dom_empty. split; apply empty_subseteq. }
  assert (lim_ok (foldl (fun w q => (serve service ping dial q.1.1 q.1.2 q.2 w).1) w reqs)) as Hend.
  { clear Hn H0. revert w Hw. induction reqs as [|q reqs IH]; intros w Hw; [done|]. cbn [foldl]. apply IH. by apply serve_lim. }
  destruct (Hend n s Hn) as [H1 H2]. assert (size paths = 19%nat) as Hsize by (vm_compute; reflexivity).
  rewrite <-!size_dom, <-Hsize. split; by apply subseteq_size.
Qed.

End HttpInv.

(** ** The Raft service of every node *)

(** Reading the configuration changes nothing and returns. *)
Class RaftLibLaws (R : Type) `{RaftLib R} := {
  configuration_pure (r : R) : (GetConfiguration r).1 = r;
  configuration_returns (r : R) : (GetConfiguration r).2 <> Panicked }.

Section Cluster.
Context {R : Type} {RL : RaftLib R}.

(** An operation of one node's service; a node that is not there has no leader. *)
Definition on_svc {X} (n : string) (m : M (raftSvc R) X) : M (gmap string (raftSvc R)) X := fun a =>
  match a !! n with
  | None => (a, Err [ErrLeaderNotFound])
  | Some s => let '(s', x) := m s in (<[n := s']> a, x)
  end.

#[export] Instance cluster_service : RaftService (gmap string (raftSvc R)) := {
  svc_Leader n ctx := on_svc n (Leader ctx);
  svc_VerifyLeader n ctx := on_svc n (VerifyLeader ctx);
  svc_AddToCluster n ctx p := on_svc n (AddToCluster ctx ctx p);
  svc_Peers n a := from_option Peers [] (a !! n);
  svc_State n a := from_option svc_RaftState Shutdown_ (a !! n);
  svc_LaggingBehind n a := a !! n ≫= fun s => LaggingBehind (lagThreshold s) (rs_r s) (rs_r s) (rs_r s) }.

Lemma Leader_keeps `{!RaftLibLaws R} ctx (s : raftSvc R) : (Leader ctx s).1 = s /\ (Leader ctx s).2 <> Panicked.
Proof.
  unfold Leader, mbind, M_bind. cbn [get_st]. destruct (LeaderWithID (rs_r s)) as [addr i].
  destruct (_ || _); [done|]. unfold RaftConfiguration, on_raft, WaitFuture.
  pose proof (configuration_pure (rs_r s)) as H1. pose proof (configuration_returns (rs_r s)) as H2.
  destruct (GetConfiguration (rs_r s)) as [r' [l|e|]]; cbn [fst snd] in *; [subst r'| |done];
    destruct s as [pm r t]; cbn [rs_r peerMap lagThreshold] in *; subst; destruct ctx; try done.
  destruct (find_server i l); [|done]. by destruct (_ !! i).
Qed.

#[export] Instance cluster_service_laws `{!RaftLibLaws R} : RaftServiceLaws (gmap string (raftSvc R)).
Proof.
  split; intros n ctx a; cbn; unfold on_svc; destruct (a !! n) as [s|] eqn:E; try done;
    destruct (Leader_keeps ctx s) as [H1 H2]; destruct (Leader ctx s) as [s' x]; cbn [fst snd] in *; [|done].
  subst. by apply insert_id.
Qed.
End Cluster.

(** ** Witnesses *)

#[local] Instance toy_laws : RaftLibLaws (list Server).
Proof. split; done. Qed.

(** A bucket of tokens that is never refilled. *)
#[local] Instance toy_limiter : Limiter nat := {
  NewLimiter _ burst := Z.to_nat burst;
  Allow l := match l with O => (O, false) | S l => (l, true) end }.

(** Bodies of one byte name node n2, are reads and are read to the end. *)
#[local] Instance toy_json : Json := {|
  peek_Serializable b := match b with [] => None | _ => Some false end;
  decode_Join b := None;
  decode_Kill b := match b with [] => None | _ => Some "n2" end;
  kill_rest _ := [];
  decode_Kill_empty := eq_refl |}.

Definition toy_service (h : Service) (n : string) (r : Request) (a : gmap string (raftSvc (list Server)))
  : gmap string (raftSvc (list Server)) * option (Z * (unit + string * error)) := (a, Some (200, inl tt)).
Definition toy_ping (n : string) (a : gmap string (raftSvc (list Server))) : option error := None.
Definition toy_dial (addr : string) : string + error :=
  if bool_decide (addr = "n1:8080") then inl "n1" else if bool_decide (addr = "n2:8080") then inl "n2" else inr [ErrNet].

(** Two nodes that know each other; n1 leads. *)
Definition node_svc : raftSvc (list Server) :=
  (RegisterPeers [peer1; peer2] (NewRaftService [mkServer "n2" "n2:7000"; mkServer "n1" "n1:7000"] 20)).1.
Definition server_of (p : Peer) : HttpServer nat :=
  mkServer_ p (newRateLimiter (NewRateLimiterConfig 1 5)) (newRateLimiter (NewRateLimiterConfig 1 5)) "secret" 0.
Definition toy_world : World (gmap string (raftSvc (list Server))) nat :=
  mkWorld (<["n1" := node_svc]> {["n2" := node_svc]}) (<["n1" := server_of peer1]> {["n2" := server_of peer2]}).

Lemma toy_leader m : m = "n1" \/ m = "n2" -> svc_Leader m None (w_app toy_world) = (w_app toy_world, Ok peer1).
Proof.
  intros Hm. pose proof (svc_Leader_pure m None (w_app toy_world)) as H1.
  assert ((svc_Leader m None (w_app toy_world)).2 = Ok peer1) as H2 by (destruct Hm as [-> | ->]; vm_compute; reflexivity).
  destruct (svc_Leader m None (w_app toy_world)) as [a x]. cbn [fst snd] in *. by subst.
Qed.

Lemma toy_servers m s :
  servers toy_world !! m = Some s -> (m = "n1" \/ m = "n2") /\ (s = server_of peer1 \/ s = server_of peer2).
Proof.
  unfold toy_world. cbn [servers]. intros Hm.
  apply lookup_insert_Some in Hm as [[<- <-]|[_ [<- <-]%lookup_singleton_Some]]; auto.
Qed.

Definition kill_n2 (token : string) : Request := mkRequest DELETE RouteKillNode token (Some [Byte.x01]) (Some 1%nat) None.
Definition read_req : Request := mkRequest POST RouteKvRange "" (Some [Byte.x01]) (Some 1%nat) None.

Lemma cors_once_witness :
  length (filter (fun p => p.1 = "Access-Control-Allow-Origin")
    (rs_header (serve toy_service toy_ping toy_dial 3 "n2" read_req toy_world).2)) = 1%nat.
Proof. apply cors_once. left. Defined.

Lemma admin_requires_token_witness :
  exists w' resp, serve toy_service toy_ping toy_dial 3 "n2" (kill_n2 "guess") toy_world = (w', resp) /\
    w_app w' = w_app toy_world /\ rs_status resp ∈ [403; 429; 502; 503].
Proof.
  pose proof (admin_requires_token toy_service toy_ping toy_dial 3 "n2" (kill_n2 "guess") toy_world) as H.
  destruct (serve toy_service toy_ping toy_dial 3 "n2" (kill_n2 "guess") toy_world) as [w' resp].
  exists w', resp. split; [done|]. destruct H as (H1 & _ & H3); [|by eexists| |done].
  - right. left.
  - intros m s [_ [-> | ->]]%toy_servers; right; discriminate.
Defined.

Lemma kill_reaches_leader_only_witness :
  exists w' resp, serve toy_service toy_ping toy_dial 3 "n2" (kill_n2 "secret") toy_world = (w', resp) /\
    (forall m, killed <$> servers w' !! m = killed <$> servers toy_world !! m) /\ rs_status resp = 500.
Proof.
  pose proof (kill_reaches_leader_only toy_service toy_ping toy_dial 3 "n2" "n2" peer1 (kill_n2 "secret") toy_world) as H.
  destruct (serve toy_service toy_ping toy_dial 3 "n2" (kill_n2 "secret") toy_world) as [w' resp] eqn:E.
  exists w', resp. split; [done|]. destruct H as [H1 H2].
  - split; [done|]. split; [done|]. split; [done|]. by intros v [= <-].
  - discriminate.
  - by eexists.
  - intros m [s [Hm _]%toy_servers]. by apply toy_leader.
  - split; [done|]. apply (f_equal (fun p => rs_status p.2)) in E. cbn [snd] in E. rewrite <-E. vm_compute. reflexivity.
Defined.

Lemma requests_reach_leader_witness :
  exists w' resp, serve toy_service toy_ping toy_dial 3 "n2" read_req toy_world = (w', resp) /\ rs_status resp = 200 /\
    executed toy_service true KvRange read_req toy_world w'.
Proof.
  pose proof (requests_reach_leader toy_service toy_ping toy_dial 3 "n2" read_req toy_world 0 true KvRange
    eq_refl eq_refl (fun _ => eq_refl) ltac:(discriminate) ltac:(by eexists)) as H.
  destruct (serve toy_service toy_ping toy_dial 3 "n2" read_req toy_world) as [w' resp] eqn:E. exists w', resp.
  assert (rs_status resp = 200) as Hst by (apply (f_equal (fun p => rs_status p.2)) in E; cbn [snd] in E; rewrite <-E; vm_compute; reflexivity).
  split; [done|]. split; [done|]. destruct H as [_ [H|[H _]]]; [exact H|]. rewrite Hst in H.
  exfalso. revert H. apply (bool_decide_eq_false _). vm_compute. reflexivity.
Defined.

Lemma limiter_tables_bounded_witness :
  exists s, servers (serve toy_service toy_ping toy_dial 3 "n1" read_req toy_world).1 !! "n1" = Some s /\
    (size (limiters (readLimiter s)) <= 19)%nat.
Proof.
  destruct (servers (serve toy_service toy_ping toy_dial 3 "n1" read_req toy_world).1 !! "n1") as [s|] eqn:E.
  - exists s. split; [done|].
    apply (limiter_tables_bounded toy_service toy_ping toy_dial [(3%nat, "n1", read_req)] toy_world "n1" s); [|exact E].
    intros m s0 [_ [-> | ->]]%toy_servers; done.
  - exfalso. revert E. vm_compute. discriminate.
Defined.
