(* ===== verification/Config.v ===== *)
(** Configuration and logging: internal/config/config.go, the Raft settings of
    internal/config/raft_deps.go, the options of internal/mtls/stream_layer.go, the levels and the hclog adapter of
    internal/util/logutil/log.go, and internal/util/atomic.go. Decoding the JSON file is an argument. *)

From S2P Require Import Prelude OrdTree KvTypes Storage Api Ot Loops Peer Http.
From Stdlib Require Import ZArith Lia Ascii String.
From stdpp Require Import base gmap sets list strings pretty.
Open Scope Z_scope.

(** ** mtls/stream_layer.go *)

Record MtlsOptions := mkMtls { CertFile : string; KeyFile : string; CaFile : string }.
Definition MtlsOptions_Check (o : MtlsOptions) : option error :=
  if bool_decide (CertFile o = "") then Some (errMsg "cert_file not set")
  else if bool_decide (KeyFile o = "") then Some (errMsg "key_fileis not set")
  else if bool_decide (CaFile o = "") then Some (errMsg "ca_file is not set")
  else None.

(** ** logutil/log.go *)

Definition LoggerKindJson : string := "json".
Definition LoggerKindText : string := "text".
Definition LoggerKindDiscard : string := "discard".
Definition LevelDebug : string := "debug".
Definition LevelInfo : string := "info".
Definition LevelWarn : string := "warn".
Definition LevelError : string := "error".

Record LogOptions := mkLogOpts { lo_Kind : string; lo_Level : string }.

Definition LogOptions_Check (o : LogOptions) : option error :=
  if negb (bool_decide (lo_Kind o ∈ [LoggerKindJson; LoggerKindText; LoggerKindDiscard])) then Some (errMsg "invalid logger kind")
  else if negb (bool_decide (lo_Level o ∈ [LevelDebug; LevelInfo; LevelWarn; LevelError])) then Some (errMsg "invalid log level")
  else None.

(** slog.Level *)
Definition SlogDebug : Z := -4.
Definition SlogInfo : Z := 0.
Definition SlogWarn : Z := 4.
Definition SlogError : Z := 8.
Definition SlogLevelTrace : Z := SlogDebug - 1.

Definition ToSlogLevel (l : string) : Z :=
  if bool_decide (l = LevelDebug) then SlogDebug
  else if bool_decide (l = LevelInfo) then SlogInfo
  else if bool_decide (l = LevelWarn) then SlogWarn
  else if bool_decide (l = LevelError) then SlogError
  else 0.

Definition ToLogutilLevel (l : Z) : string :=
  if l =? SlogDebug then LevelDebug
  else if l =? SlogInfo then LevelInfo
  else if l =? SlogWarn then LevelWarn
  else if l =? SlogError then LevelError
  else LevelInfo.

(** hclog.Level *)
Inductive HcLevel := HcNoLevel | HcTrace | HcDebug | HcInfo | HcWarn | HcError | HcOff.
#[export] Instance HcLevel_eq_dec : EqDecision HcLevel.
Proof. solve_decision. Defined.

Definition hcLeveltoSlogLevel (lvl : HcLevel) : Z :=
  match lvl with
  | HcTrace => SlogLevelTrace
  | HcDebug => SlogDebug
  | HcInfo => SlogInfo
  | HcWarn => SlogWarn
  | HcError => SlogDebug
  | _ => SlogInfo
  end.

Definition slogLeveltoHcLevel (lvl : Z) : HcLevel :=
  if lvl =? SlogLevelTrace then HcTrace
  else if lvl =? SlogDebug then HcDebug
  else if lvl =? SlogInfo then HcInfo
  else if lvl =? SlogWarn then HcWarn
  else if lvl =? SlogError then HcError
  else HcInfo.

(** The logger keeps the records at or above its level. *)
Record Slogger := mkSlogger { sl_level : Z; sl_attrs : list string; sl_out : list (Z * string) }.
Definition sl_Log (lvl : Z) (msg : string) (s : Slogger) : Slogger :=
  if sl_level s <=? lvl then mkSlogger (sl_level s) (sl_attrs s) (sl_out s ++ [(lvl, msg)]) else s.

Record HcLogAdapter := mkHc { slogger : Slogger; hc_level : HcLevel; namePrefix : string; impliedArgs : list string }.

Definition NewHcLogAdapter (s : Slogger) (level : Z) : HcLogAdapter := mkHc s (slogLeveltoHcLevel level) "" [].
Definition on_slogger (f : Slogger -> Slogger) (a : HcLogAdapter) : HcLogAdapter :=
  mkHc (f (slogger a)) (hc_level a) (namePrefix a) (impliedArgs a).
Definition hc_Log (level : HcLevel) (msg : string) (a : HcLogAdapter) : HcLogAdapter :=
  on_slogger (sl_Log (hcLeveltoSlogLevel level) (namePrefix a +:+ msg)) a.
(** Trace, Debug, Info, Warn and Error *)
Definition hc_at (lvl : Z) (msg : string) (a : HcLogAdapter) : HcLogAdapter :=
  on_slogger (sl_Log lvl (namePrefix a +:+ msg)) a.
Definition hc_Is (level : HcLevel) (a : HcLogAdapter) : bool := bool_decide (hc_level a = level).

(** The sublogger of With starts from the zero values of the other fields. *)
Definition hc_With (args : list string) (a : HcLogAdapter) : HcLogAdapter :=
  mkHc (mkSlogger (sl_level (slogger a)) (sl_attrs (slogger a) ++ args) (sl_out (slogger a))) HcNoLevel "" [].
Definition hc_Name (a : HcLogAdapter) : string :=
  if bool_decide (namePrefix a = "") then ""
  else String.substring 0 (String.length (namePrefix a) - 2) (namePrefix a).
Definition hc_Named (name : string) (a : HcLogAdapter) : HcLogAdapter :=
  mkHc (slogger a) (hc_level a) (namePrefix a +:+ name +:+ ": ") (impliedArgs a).
Definition hc_ResetNamed (name : string) (a : HcLogAdapter) : HcLogAdapter :=
  mkHc (slogger a) (hc_level a) (if bool_decide (name = "") then "" else name +:+ ": ") (impliedArgs a).
Definition hc_SetLevel (level : HcLevel) (a : HcLogAdapter) : HcLogAdapter := a.

(** *** The shim for log.Logger *)

Fixpoint cut_prefix (p s : string) : option string :=
  match p, s with
  | EmptyString, _ => Some s
  | String c p', String d s' => if Ascii.eqb c d then cut_prefix p' s' else None
  | _, _ => None
  end.

Section Stdlog.
(** strings.TrimSpace, and what the expression for a leading timestamp leaves of a line *)
Variables TrimSpace trimTimestamp : string -> string.

Definition pickLevel (str : string) : HcLevel * string :=
  match cut_prefix "[DEBUG]" str with Some r => (HcDebug, TrimSpace r) | None =>
  match cut_prefix "[DEBUG-4]" str with Some r => (HcTrace, TrimSpace r) | None =>
  match cut_prefix "[INFO]" str with Some r => (HcInfo, TrimSpace r) | None =>
  match cut_prefix "[WARN]" str with Some r => (HcWarn, TrimSpace r) | None =>
  match cut_prefix "[ERROR]" str with Some r => (HcError, TrimSpace r) | None =>
  match cut_prefix "[ERR]" str with Some r => (HcError, TrimSpace r) | None => (HcInfo, str)
  end end end end end end.

Definition std_dispatch (str : string) (level : HcLevel) (a : HcLogAdapter) : HcLogAdapter :=
  match level with
  | HcTrace => hc_at SlogLevelTrace str a
  | HcDebug => hc_at SlogDebug str a
  | HcInfo => hc_at SlogInfo str a
  | HcWarn => hc_at SlogWarn str a
  | HcError => hc_at SlogError str a
  | _ => hc_at SlogInfo str a
  end.

(** Write, on the line without trailing blanks. *)
Definition std_Write (inferLevels inferLevelsWithTimestamp : bool) (forceLevel : HcLevel) (str : string)
    (a : HcLogAdapter) : HcLogAdapter :=
  if negb (bool_decide (forceLevel = HcNoLevel)) then std_dispatch (pickLevel str).2 forceLevel a
  else if inferLevels then
    let str := if inferLevelsWithTimestamp then trimTimestamp str else str in
    let '(level, str) := pickLevel str in std_dispatch str level a
  else hc_at SlogInfo str a.
End Stdlog.

(** ** raft_deps.go *)

Definition Millisecond : Z := 1000000.
Record RaftConfig := mkRaftCfg {
  LocalID : string; HeartbeatTimeout : Z; ElectionTimeout : Z; CommitTimeout : Z; MaxAppendEntries : Z;
  ShutdownOnRemove : bool; TrailingLogs : Z; SnapshotInterval : Z; SnapshotThreshold : Z; LeaderLeaseTimeout : Z;
  LogLevel : string }.
Definition NewDefaultRaftConfig (nodeID : string) : RaftConfig :=
  mkRaftCfg nodeID (2500 * Millisecond) (5000 * Millisecond) (100 * Millisecond) 64 true 10240 (120000 * Millisecond)
    8192 (1000 * Millisecond) "DEBUG".

(** ** config.go *)

Record ConfigJson := mkConfigJson {
  LoggerOptions : LogOptions; KvOptions : Options; PeerDiscoveryOptions : DiscoveryOptions; StorageOpts : StorageOptions;
  CompactionOpts : CompactionOptions; OtOpts : OTOptions; CheckpointIntervalMinutes : Z;
  RatelimiterOpts : ratelimiterConfig * ratelimiterConfig; MtlsOpts : MtlsOptions }.

Record Config := mkConfig {
  cfg_Bootstrap : bool; cfg_Me : Peer; cfg_PodNamespace : string; cfg_RaftCfg : option RaftConfig;
  cfg_AdminAuthToken : string; cfg_Json : ConfigJson }.

Definition first_check (checks : list (option error)) : option error := head (omap id checks).

Definition ConfigJson_check (cj : ConfigJson) : option error :=
  first_check [StorageOptions_Check (StorageOpts cj); CompactionOptions_Check (CompactionOpts cj); OTOptions_Check (OtOpts cj);
    DiscoveryOptions_Check (PeerDiscoveryOptions cj); Options_Check (KvOptions cj); LogOptions_Check (LoggerOptions cj);
    MtlsOptions_Check (MtlsOpts cj)].

Definition set_buckets (bs : list Bucket) (cj : ConfigJson) : ConfigJson :=
  mkConfigJson (LoggerOptions cj) (KvOptions cj) (PeerDiscoveryOptions cj)
    (mkSO (so_Dir (StorageOpts cj)) (so_Kind (StorageOpts cj)) bs) (CompactionOpts cj) (OtOpts cj)
    (CheckpointIntervalMinutes cj) (RatelimiterOpts cj) (MtlsOpts cj).

Definition ToConfig (cj : ConfigJson) : res Config :=
  match ConfigJson_check cj with
  | Some _ => Err (errMsg "failed to validate config json")
  | None => Ok (mkConfig false (mkPeer "" "" "" "") "" None "" (set_buckets AllBuckets cj))
  end.

(** The flags, with the environment as defaults. *)
Record Flags := mkFlags {
  fl_config : string; fl_node_id : string; fl_namespace : string; fl_fqdn : string; fl_raft_port : string;
  fl_http_port : string; fl_admin_token : string }.

Definition check (e : option error) : res unit := match e with Some _ => Panicked | None => Ok tt end.
Definition emptyString (val : string) : option error :=
  if bool_decide (val = "") then Some (errMsg "field is empty") else None.
Definition checkRequiredField (val : string) : res unit := check (emptyString val).
Definition check_res {A} (r : res A) : res A := match r with Ok a => Ok a | _ => Panicked end.

(** [parsed]: parsing the flags; [file]: opening and decoding the configuration file. *)
Definition LoadConfig (parsed : option error) (fl : Flags) (file : res ConfigJson) : res Config :=
  check parsed ≫= fun _ =>
  checkRequiredField (fl_config fl) ≫= fun _ =>
  checkRequiredField (fl_config fl) ≫= fun _ =>
  checkRequiredField (fl_raft_port fl) ≫= fun _ =>
  checkRequiredField (fl_http_port fl) ≫= fun _ =>
  checkRequiredField (fl_admin_token fl) ≫= fun _ =>
  let me := mkPeer (fl_node_id fl) (fl_fqdn fl) (fl_raft_port fl) (fl_http_port fl) in
  check (Peer_Check me) ≫= fun _ =>
  check_res file ≫= fun cj =>
  check_res (ToConfig cj) ≫= fun cfg =>
  Ok (mkConfig (HasSuffix (fl_node_id fl) "-0") me (fl_namespace fl) (Some (NewDefaultRaftConfig (NodeID me)))
        (fl_admin_token fl) (cfg_Json cfg)).

(** ** Properties *)

Definition has_char (c : Ascii.ascii) (s : string) : Prop := c ∈ String.list_ascii_of_string s.

(** A suffix "-x" of a string whose only dash is the first character is the string. *)
Lemma HasSuffix_no_dash (d x : string) : ~ has_char "-"%char d -> HasSuffix d ("-" +:+ x) = false.
Proof.
  intros Hd. induction d as [|c d IH]; cbn [HasSuffix].
  - rewrite bool_decide_eq_false_2 by done. done.
  - rewrite IH by (intros ?; apply Hd; by right). rewrite orb_false_r. apply bool_decide_eq_false_2.
    intros [= -> _]. apply Hd. left.
Qed.
Lemma HasSuffix_after_dash (name d x : string) : ~ has_char "-"%char d -> ~ has_char "-"%char x ->
  HasSuffix (name +:+ "-" +:+ d) ("-" +:+ x) = bool_decide (d = x).
Proof.
  intros Hd Hx. induction name as [|c name IH].
  - change (HasSuffix (String "-"%char d) ("-" +:+ x) = bool_decide (d = x)). cbn [HasSuffix].
    rewrite HasSuffix_no_dash, orb_false_r by done. apply bool_decide_ext.
    change ("-" +:+ x) with (String "-"%char x). split; [by intros [= ->]|by intros ->].
  - change (String c name +:+ "-" +:+ d) with (String c (name +:+ "-" +:+ d)). cbn [HasSuffix]. rewrite IH.
    destruct (bool_decide (d = x)) eqn:E; [apply orb_true_r|]. rewrite orb_false_r. apply bool_decide_eq_false_2.
    change ("-" +:+ x) with (String "-"%char x). intros [= _ E']. apply Hx. rewrite <-E'. clear.
    induction name as [|c name IH]; [left|right; exact IH].
Qed.

Lemma pretty_digits (i : N) : ~ has_char "-"%char (pretty i).
Proof.
  assert (forall n s, ~ has_char "-"%char s -> ~ has_char "-"%char (pretty_N_go n s)) as Hgo.
  { intros n. induction (N.lt_wf_0 n) as [n _ IH]. intros s Hs. destruct (decide (0 < n)%N) as [Hn|Hn].
    - rewrite pretty_N_go_step by done. apply IH; [by apply N.div_lt|].
      unfold has_char. cbn [String.list_ascii_of_string]. rewrite elem_of_cons. intros [E|E]; [|done].
      revert E. unfold pretty_N_char. by repeat case_match.
    - replace n with 0%N by lia. by rewrite pretty_N_go_0. }
  unfold pretty, pretty_N. case_decide; [|apply Hgo]; by intros ?%not_elem_of_nil || (unfold has_char; cbn; set_solver).
Qed.

Lemma check_Ok {A} (e : option error) (k : unit -> res A) (x : A) : (check e ≫= k) = Ok x -> e = None /\ k tt = Ok x.
Proof. by destruct e. Qed.
Lemma required_Ok {A} (v : string) (k : unit -> res A) (x : A) : (checkRequiredField v ≫= k) = Ok x -> v <> "" /\ k tt = Ok x.
Proof. intros [He Hk]%check_Ok. unfold emptyString in He. by case_bool_decide. Qed.
Lemma check_res_Ok {A B} (r : res A) (k : A -> res B) (x : B) : (check_res r ≫= k) = Ok x -> exists a, r = Ok a /\ k a = Ok x.
Proof. destruct r; [|done..]. intros Hk. by eexists. Qed.

(** What a loaded configuration guarantees. The required flags are set, every group of
    options passed its check, the store starts with all the buckets, and of the nodes of a stateful set, named with
    their ordinals, exactly the one with ordinal 0 bootstraps the cluster. *)
Theorem load_config_sound (parsed : option error) (fl : Flags) (file : res ConfigJson) (cfg : Config) (name : string) (i : N) :
  LoadConfig parsed fl file = Ok cfg -> fl_node_id fl = name +:+ "-" +:+ pretty i ->
  cfg_Bootstrap cfg = bool_decide (i = 0%N) /\ Peer_Check (cfg_Me cfg) = None /\ NodeID (cfg_Me cfg) = fl_node_id fl /\
  cfg_AdminAuthToken cfg <> "" /\ so_InitialBuckets (StorageOpts (cfg_Json cfg)) = AllBuckets /\
  ConfigJson_check (cfg_Json cfg) = None /\ LocalID <$> cfg_RaftCfg cfg = Some (fl_node_id fl).
Proof.
  intros Hload Hid. unfold LoadConfig in Hload.
  apply check_Ok in Hload as [_ Hload]. do 5 (apply required_Ok in Hload as [?Hreq Hload]).
  apply check_Ok in Hload as [Hme Hload]. apply check_res_Ok in Hload as (cj & _ & Hload).
  apply check_res_Ok in Hload as (c & Hc & Hload). injection Hload as <-. cbn.
  unfold ToConfig in Hc. destruct (ConfigJson_check cj) eqn:Ecj; [done|]. injection Hc as <-.
  split_and!; try done. rewrite Hid. change "-0" with ("-" +:+ "0"). rewrite HasSuffix_after_dash.
  - apply bool_decide_ext. change "0" with (pretty 0%N). split; [by intros ?%(inj pretty)|by intros ->].
  - apply pretty_digits.
  - unfold has_char. cbn. set_solver.
Qed.

(** *** Logging *)

(** The levels of a checked configuration survive the way to slog and back. *)
Lemma level_roundtrip (o : LogOptions) : LogOptions_Check o = None -> ToLogutilLevel (ToSlogLevel (lo_Level o)) = lo_Level o.
Proof.
  unfold LogOptions_Check. case_bool_decide; [|done]. case_bool_decide as Hl; [|done]. intros _.
  repeat apply elem_of_cons in Hl as [->|Hl]; [done..|by apply not_elem_of_nil in Hl].
Qed.

Lemma substring_app (s t : string) : String.substring 0 (String.length (s +:+ t) - String.length t) (s +:+ t) = s.
Proof.
  assert (forall s, String.length t <= String.length (s +:+ t))%nat as Hle by
    (intros s0; induction s0 as [|c0 s0 IH0]; [done|change (String c0 s0 +:+ t) with (String c0 (s0 +:+ t)); cbn [String.length]; lia]).
  induction s as [|c s IH].
  - change ("" +:+ t) with t. rewrite Nat.sub_diag. by destruct t.
  - change (String c s +:+ t) with (String c (s +:+ t)). cbn [String.length].
    rewrite Nat.sub_succ_l by apply Hle. cbn [String.substring]. f_equal. exact IH.
Qed.

(** Names: ResetNamed sets the name, Named appends to it. *)
Lemma hc_names (name : string) (a : HcLogAdapter) :
  hc_Name (hc_ResetNamed name a) = name /\ hc_Name (hc_Named name (hc_ResetNamed "" a)) = name.
Proof.
  assert (hc_Name (mkHc (slogger a) (hc_level a) (name +:+ ": ") (impliedArgs a)) = name) as Hn.
  { unfold hc_Name. cbn [namePrefix]. rewrite bool_decide_eq_false_2; [exact (substring_app name ": ")|by destruct name]. }
  split; [|exact Hn]. unfold hc_ResetNamed. case_bool_decide as E; [by subst|exact Hn].
Qed.

(** Log drops what is logged as an error at every level above debug, while Error keeps it. *)
Lemma hc_error_dropped (msg : string) (lvl : Z) : SlogDebug < lvl <= SlogError ->
  let a := NewHcLogAdapter (mkSlogger lvl [] []) lvl in
  sl_out (slogger (hc_Log HcError msg a)) = [] /\ sl_out (slogger (hc_at SlogError msg a)) = [(SlogError, msg)].
Proof.
  intros Hl. unfold hc_Log, hc_at, on_slogger, sl_Log. cbn [slogger NewHcLogAdapter sl_level hcLeveltoSlogLevel namePrefix].
  rewrite (proj2 (Z.leb_gt _ _)), (proj2 (Z.leb_le _ _)) by (unfold SlogDebug, SlogError in *; lia). done.
Qed.
(** ** Witness *)

Definition cj1 : ConfigJson :=
  mkConfigJson (mkLogOpts "text" "info") (mkOptions 128 1024) (mkDiscovery DiscoveryModeDynamic None 3) (mkSO "data" StorageKindBoltdb [])
    CompactionDefaultOptions (mkOTOpts 32 64 60) 5 (NewRateLimiterConfig 10 10, NewRateLimiterConfig 10 10) (mkMtls "c" "k" "ca").
Definition flags1 : Flags := mkFlags "config.json" "kave-10" "ns" "kave-10.kave" "7000" "8080" "secret".
Lemma load_config_sound_witness :
  exists cfg, LoadConfig None flags1 (Ok cj1) = Ok cfg /\ cfg_Bootstrap cfg = false /\ ConfigJson_check (cfg_Json cfg) = None.
Proof.
  destruct (LoadConfig None flags1 (Ok cj1)) as [cfg|e|] eqn:E; [|vm_compute in E; discriminate..]. exists cfg.
  destruct (load_config_sound None flags1 (Ok cj1) cfg "kave" 10 E) as (H1 & _ & _ & _ & _ & H2 & _); [reflexivity|].
  split; [reflexivity|]. split; [exact H1|exact H2].
Defined.
