(* ===== verification/Watch.v ===== *)
(** Watching keys: [internal/watch] (watcher.go, hub.go, unsynced_loop.go). Watchers are
    shared objects (the hub, a stream and the catch-up loop hold pointers to them), so
    they live in a table of references and the groups map ids to references. The
    catch-up loop holds the hub's lock only at the start and at the end of a tick, so a
    tick is many steps, between which the hub may change: [tick_collect], for each watcher
    [feed_start] and then a [feed_check] and a [feed_select] per event, and [tick_finish]. Iteration over Go maps follows an
    instance of [HubOrder]; the batches of [tick_finish] have distinct ids, so their order
    does not matter. Metrics and logging are left out. *)

From S2P Require Import Prelude OrdTree KvTypes KeyIndex TreeIndex Storage Inmem Backend Mvcc MvccInv Api Engine.
From Stdlib Require Import ZArith Lia.
From stdpp Require Import base gmap sets list strings sorting.
Open Scope Z_scope.

(** ** watch_api.go: the request *)

Record WatchCreateRequest := mkWatchReq {
  wr_WatchID : Z; wr_Key : option bytes; wr_End : option bytes; wr_Prefix : bool;
  wr_StartRevision : Z; wr_PrevEntry : bool; wr_Filter : option EventFilter }.

Definition WatchCreateRequest_Check (r : WatchCreateRequest) : option error :=
  if wr_StartRevision r <? 0 then Some (errMsg "start_revision cannot be negative") else None.

(** ** watcher.go *)

Definition watcherChannelBufferSize : nat := 128.
Definition ErrWatcherOverloaded : cause := ErrMsg "watcher is overloaded".
Definition ErrWatcherIDConflict : cause := ErrMsg "watch ID conflict".
Definition Canceled : cause := ErrMsg "context canceled".

(** [wt_ctx] is the cause the context was cancelled with, [wt_c] the buffer of the
    channel. *)
Record watcher := mkWt {
  wt_id : Z; wt_keyStart : bytes; wt_keyEnd : option bytes; wt_startRev : Z; wt_currentRev : Z;
  wt_filter : option EventFilter; wt_prevEntry : bool; wt_ctx : option error;
  wt_c : list Event; wt_closed : bool }.

Definition set_currentRev_w (r : Z) (w : watcher) : watcher :=
  mkWt (wt_id w) (wt_keyStart w) (wt_keyEnd w) (wt_startRev w) r (wt_filter w) (wt_prevEntry w)
    (wt_ctx w) (wt_c w) (wt_closed w).
Definition set_c (c : list Event) (w : watcher) : watcher :=
  mkWt (wt_id w) (wt_keyStart w) (wt_keyEnd w) (wt_startRev w) (wt_currentRev w) (wt_filter w)
    (wt_prevEntry w) (wt_ctx w) c (wt_closed w).
(** Only the first cancellation sets the cause. *)
Definition wt_cancel (e : error) (w : watcher) : watcher :=
  mkWt (wt_id w) (wt_keyStart w) (wt_keyEnd w) (wt_startRev w) (wt_currentRev w) (wt_filter w)
    (wt_prevEntry w) (match wt_ctx w with None => Some e | c => c end) (wt_c w) (wt_closed w).
Definition set_closed (w : watcher) : watcher :=
  mkWt (wt_id w) (wt_keyStart w) (wt_keyEnd w) (wt_startRev w) (wt_currentRev w) (wt_filter w)
    (wt_prevEntry w) (wt_ctx w) (wt_c w) true.

(** Closing a closed channel panics. *)
Definition wt_close (e : error) : M watcher unit :=
  modify (wt_cancel e) ≫= fun _ =>
  get_st ≫= fun w => if wt_closed w then lift Panicked else modify set_closed.

Definition no_key (k : option bytes) : bool := (length (default [] k) =? 0)%nat.

Definition matches (e : Event) (w : watcher) : bool :=
  (match wt_filter w, ev_Kind e with
   | Some FilterNoPut, EventPut => false
   | Some FilterNoDelete, EventDelete => false
   | _, _ => true
   end) &&
  (if (length (wt_keyStart w) =? 0)%nat && no_key (wt_keyEnd w) then true
   else if no_key (wt_keyEnd w) then bool_decide (Key (ev_Entry e) = wt_keyStart w)
   else bytes_leb (wt_keyStart w) (Key (ev_Entry e)) && bytes_ltb (Key (ev_Entry e)) (default [] (wt_keyEnd w))).

(** ctx.Err() is context.Canceled whatever the cause. *)
Definition send (e : Event) : M watcher bool :=
  get_st ≫= fun w =>
  match wt_ctx w with
  | Some _ => fail [Canceled]
  | None =>
      if negb (matches e w) then mret false
      else if ModRev (ev_Entry e) <=? wt_currentRev w then mret false
      else if wt_closed w then lift Panicked
      else if (length (wt_c w) <? watcherChannelBufferSize)%nat
           then modify (fun w => set_c (wt_c w ++ [e]) w) ≫= fun _ => mret true
      else fail [ErrWatcherOverloaded]
  end.

(** After a send: currentRev follows the event sent. *)
Definition sendAll_advance (ev : Event) (sent : bool) : M watcher unit :=
  if sent then
    get_st ≫= fun w =>
    if wt_currentRev w <? ModRev (ev_Entry ev) then modify (set_currentRev_w (ModRev (ev_Entry ev)))
    else mret tt
  else mret tt.

Fixpoint sendAll (events : list Event) : M watcher unit :=
  match events with
  | [] => mret tt
  | ev :: rest => send ev ≫= fun sent => sendAll_advance ev sent ≫= fun _ => sendAll rest
  end.

(** send in two steps, for a caller that does not hold the lock of the hub: the tests before
    the select, and the select by the case chosen. A case may be chosen when it is ready,
    default when no other is; the cancelled context and the closed channel are ready
    together, and sending on a closed channel panics. *)
Definition send_check (e : Event) : M watcher bool :=
  get_st ≫= fun w =>
  match wt_ctx w with
  | Some _ => fail [Canceled]
  | None => mret (matches e w && negb (ModRev (ev_Entry e) <=? wt_currentRev w))
  end.

Inductive select_case := SelDone | SelSend | SelDefault.

Definition select_ready (c : select_case) (w : watcher) : bool :=
  let done := bool_decide (is_Some (wt_ctx w)) in
  let send := wt_closed w || (length (wt_c w) <? watcherChannelBufferSize)%nat in
  match c with SelDone => done | SelSend => send | SelDefault => negb done && negb send end.

Definition send_select (c : select_case) (e : Event) : M watcher bool :=
  match c with
  | SelDone => fail [Canceled]
  | SelSend =>
      get_st ≫= fun w =>
      if wt_closed w then lift Panicked else modify (fun w => set_c (wt_c w ++ [e]) w) ≫= fun _ => mret true
  | SelDefault => fail [ErrWatcherOverloaded]
  end.

(** ** hub.go *)

Record WatchHub := mkHub {
  synced : gmap Z nat; unsynced : gmap Z nat; wtab : gmap nat watcher; wh_next : nat }.

Definition NewWatchHub : WatchHub := mkHub ∅ ∅ ∅ 0.

Class HubOrder := {
  hub_order : gmap Z nat -> list (Z * nat);
  hub_order_perm m : hub_order m ≡ₚ map_to_list m }.

#[export] Program Instance std_hub_order : HubOrder := {| hub_order := map_to_list |}.
Solve Obligations with done.

Definition set_groups (s u : gmap Z nat) (h : WatchHub) : WatchHub := mkHub s u (wtab h) (wh_next h).
Definition set_wt (x : nat) (w : watcher) (h : WatchHub) : WatchHub :=
  mkHub (synced h) (unsynced h) (<[x := w]> (wtab h)) (wh_next h).

(** A method call through a reference. *)
Definition on_wt {X} (x : nat) (m : M watcher X) : M WatchHub X := fun h =>
  match wtab h !! x with
  | None => (h, Panicked)
  | Some w => let '(w', r) := m w in (set_wt x w' h, r)
  end.

(** Which of the two groups. *)
Definition group (sy : bool) (h : WatchHub) : gmap Z nat := if sy then synced h else unsynced h.
Definition set_group (sy : bool) (g : gmap Z nat) (h : WatchHub) : WatchHub :=
  if sy then set_groups g (unsynced h) h else set_groups (synced h) g h.

Definition wt_of (x : nat) (h : WatchHub) : option watcher := wtab h !! x.
Definition id_of (x : nat) (h : WatchHub) : Z := from_option wt_id 0 (wtab h !! x).

Definition unsafeDropFromGroup (sy : bool) (wid : Z) (e : error) : M WatchHub unit :=
  get_st ≫= fun h =>
  match group sy h !! wid with
  | None => mret tt
  | Some x =>
      on_wt x (wt_close e) ≫= fun _ =>
      modify (fun h => set_group sy (delete (id_of x h) (group sy h)) h)
  end.

Definition unsafeDropWatcher (wid : Z) : M WatchHub unit :=
  get_st ≫= fun h =>
  if bool_decide (is_Some (synced h !! wid)) then unsafeDropFromGroup true wid [Canceled]
  else if bool_decide (is_Some (unsynced h !! wid)) then unsafeDropFromGroup false wid [Canceled]
  else mret tt.

Definition DropWatcher (wid : Z) : M WatchHub bool :=
  get_st ≫= fun h =>
  if bool_decide (is_Some (synced h !! wid)) then unsafeDropFromGroup true wid [Canceled] ≫= fun _ => mret true
  else if bool_decide (is_Some (unsynced h !! wid)) then unsafeDropFromGroup false wid [Canceled] ≫= fun _ => mret true
  else mret false.

Fixpoint drop_each (sy : bool) (ids : list Z) : M WatchHub unit :=
  match ids with
  | [] => mret tt
  | id :: rest => unsafeDropFromGroup sy id [Canceled] ≫= fun _ => drop_each sy rest
  end.

Definition unsafeDemote (wid : Z) : M WatchHub unit :=
  modify (fun h =>
    match synced h !! wid with
    | None => h
    | Some x => set_groups (delete (id_of x h) (synced h)) (<[id_of x h := x]> (unsynced h)) h
    end).

Definition unsafePromote (wid : Z) : M WatchHub unit :=
  modify (fun h =>
    match unsynced h !! wid with
    | None => h
    | Some x => set_groups (<[id_of x h := x]> (synced h)) (delete (id_of x h) (unsynced h)) h
    end).

Definition SyncedWatchesLen (h : WatchHub) : nat := size (synced h).
Definition UnsyncedWatchesLen (h : WatchHub) : nat := size (unsynced h).

Section Hub.
Context {HO : HubOrder}.

Definition DropAll : M WatchHub unit :=
  get_st ≫= fun h =>
  drop_each true (hub_order (synced h)).*1 ≫= fun _ =>
  get_st ≫= fun h =>
  drop_each false (hub_order (unsynced h)).*1.

(** The first loop of OnCommit: (id, error) of the watchers that failed. *)
Fixpoint send_each (events : list Event) (ws : list (Z * nat)) (removals : list (Z * error))
  : M WatchHub (list (Z * error)) :=
  match ws with
  | [] => mret removals
  | (_, x) :: rest =>
      try (on_wt x (sendAll events)) ≫= fun r =>
      match r with
      | inl _ => send_each events rest removals
      | inr e => get_st ≫= fun h => send_each events rest (removals ++ [(id_of x h, e)])
      end
  end.

(** Demote the overloaded ones, drop the others. *)
Fixpoint remove_each (removals : list (Z * error)) : M WatchHub unit :=
  match removals with
  | [] => mret tt
  | (wid, e) :: rest =>
      (if errors_Is e ErrWatcherOverloaded then unsafeDemote wid else unsafeDropFromGroup true wid e) ≫= fun _ =>
      remove_each rest
  end.

Definition hub_OnCommit (changes : list Entry) : M WatchHub unit :=
  lift (ToKvEvents (Some <$> changes)) ≫= fun events =>
  get_st ≫= fun h =>
  send_each events (hub_order (synced h)) [] ≫= fun removals =>
  remove_each removals.

Section Store.
Context {T St B : Type} {BT : BTree Less T} {BS : ByteStore St B}.
Abbreviation kvs := (KvStore T St B).

(** [newid] is the result of util.NextNonNullID, [parent] the state of the context the
    watcher's is derived from. The result is the reference of the new watcher. *)
Definition NewWatcher (newid : Z) (parent : option error) (req : WatchCreateRequest) (s : kvs) : M WatchHub nat :=
  let id := if wr_WatchID req =? 0 then newid else wr_WatchID req in
  let key := default [] (wr_Key req) in
  let end_ := if wr_Prefix req then PrefixEnd key else wr_End req in
  let '(currentRev, _, _, _) := Meta s in
  let start := if wr_StartRevision req =? 0 then Main currentRev else wr_StartRevision req in
  lift (match end_ with
        | Some _ => Ok (Main currentRev)
        | None => reader_Range key None 0 0 s ≫= fun r => Ok r.2
        end) ≫= fun lastRevision =>
  let sy := lastRevision <=? start in
  get_st ≫= fun h =>
  if bool_decide (is_Some (group sy h !! id)) then fail [ErrWatcherIDConflict]
  else
    let x := wh_next h in
    let w := mkWt id key end_ start start (wr_Filter req) (wr_PrevEntry req) parent [] false in
    modify (fun h => set_group sy (<[id := x]> (group sy h))
                       (mkHub (synced h) (unsynced h) (<[x := w]> (wtab h)) (S x))) ≫= fun _ =>
    mret x.

(** ** unsynced_loop.go *)

Definition unsynchedFailureLimit : Z := 5.
Definition unsyncedBatchSize : nat := 32.
Definition errFailureLimitReached : cause := ErrMsg "watcher has reached failure limit".

(** [u_revs] are the revisions read after the batch was collected. *)
Record UnsyncedLoop := mkUL {
  unsyncedBatch : gmap Z nat; unsyncedFailures : gmap Z Z; deleteBatch : gmap Z error;
  promoteBatch : gset Z; u_revs : Revision * Z }.

Definition NewUnsyncedLoop : UnsyncedLoop := mkUL ∅ ∅ ∅ ∅ (rev0, 0).

Definition mark_delete (wid : Z) (e : error) (u : UnsyncedLoop) : UnsyncedLoop :=
  mkUL (unsyncedBatch u) (unsyncedFailures u) (<[wid := e]> (deleteBatch u)) (promoteBatch u) (u_revs u).
Definition mark_promote (wid : Z) (u : UnsyncedLoop) : UnsyncedLoop :=
  mkUL (unsyncedBatch u) (unsyncedFailures u) (deleteBatch u) ({[wid]} ∪ promoteBatch u) (u_revs u).
Definition failures (wid : Z) (u : UnsyncedLoop) : Z := default 0 (unsyncedFailures u !! wid).
Definition incFailures (wid : Z) (u : UnsyncedLoop) : UnsyncedLoop :=
  mkUL (unsyncedBatch u) (<[wid := failures wid u + 1]> (unsyncedFailures u)) (deleteBatch u)
    (promoteBatch u) (u_revs u).
Definition forget (wid : Z) (u : UnsyncedLoop) : UnsyncedLoop :=
  mkUL (unsyncedBatch u) (delete wid (unsyncedFailures u)) (deleteBatch u) (promoteBatch u) (u_revs u).

(** Fill the batch under the lock, then read the revisions of the store. *)
Definition tick_collect (s : kvs) (h : WatchHub) (u : UnsyncedLoop) : UnsyncedLoop :=
  mkUL (foldl (fun b p => if (size b <? unsyncedBatchSize)%nat then <[p.1 := p.2]> b else b)
          (unsyncedBatch u) (hub_order (unsynced h)))
    (unsyncedFailures u) (deleteBatch u) (promoteBatch u) (Mvcc.Revisions s).

(** The events of the revisions, or nothing when one of them cannot be read. *)
Fixpoint read_events (b : backend St B) (bks : list KvBucketKey) : res (option (list Event)) :=
  match bks with
  | [] => Ok (Some [])
  | bk :: rest =>
      EncodeKvBucketKey bk NewRevBytes ≫= fun k =>
      match UnsafeGet BucketKV k b with
      | Ok (Some v) =>
          match DecodeEntry (Some v) with
          | (Some entry, None) =>
              ToKvEvent (Some entry) ≫= fun ev =>
              read_events b rest ≫= fun r => Ok (o ← r; Some (ev :: o))
          | _ => Ok None
          end
      | Panicked => Panicked
      | _ => Ok None
      end
  end.

(** One turn of the loop over the batch. The lock of the hub is not held, so the turn is
    not one step either: [feed_start] goes up to the call of sendAll, whose sends come next,
    each the test of an event ([feed_check]) and a select ([feed_select]), and [feed_done]
    looks at the outcome. [feed] is the turn nothing interferes with. *)
Record feeding := mkFeed { fd_ref : nat; fd_events : list Event; fd_high : Z; fd_checked : bool }.

Definition feed_start (x : nat) (s : kvs) : M (WatchHub * UnsyncedLoop) (option feeding) := fun st =>
  let '(h, u) := st in
  match wtab h !! x with
  | None => (st, Panicked)
  | Some w =>
      let wid := wt_id w in
      if (unsynchedFailureLimit <=? failures wid u) || bool_decide (is_Some (wt_ctx w))
      then ((h, mark_delete wid [errFailureLimitReached] u), Ok None)
      else if wt_currentRev w <? (u_revs u).2 then ((h, mark_delete wid [ErrCompacted] u), Ok None)
      else
        match RevisionsRange (wt_keyStart w) (wt_keyEnd w) (wt_currentRev w) (i64 (Main (u_revs u).1 + 1)) (kvIndex s) with
        | Ok [] => ((set_wt x (set_currentRev_w (Main (u_revs u).1) w) h, mark_promote wid u), Ok None)
        | Ok bks =>
            match read_events (kv_backend s) bks with
            | Ok (Some events) =>
                let highestRev := from_option (fun ev => ModRev (ev_Entry ev)) 0 (last events) in
                (st, Ok (Some (mkFeed x events highestRev false)))
            | Ok None => ((h, incFailures wid u), Ok None)
            | Err e => (st, Err e)
            | Panicked => (st, Panicked)
            end
        | Err e => (st, Err e)
        | Panicked => (st, Panicked)
        end
  end.

(** After sendAll, with the error it returned. *)
Definition feed_done (f : feeding) (r : unit + error) : M (WatchHub * UnsyncedLoop) unit := fun st =>
  let '(h, u) := st in
  match wtab h !! fd_ref f with
  | None => (st, Panicked)
  | Some w =>
      let caught_up := if fd_high f <=? wt_currentRev w then mark_promote (wt_id w) u else u in
      match r with
      | inl _ => ((h, caught_up), Ok tt)
      | inr e =>
          if errors_Is e Canceled then ((h, mark_delete (wt_id w) [Canceled] u), Ok tt)
          else if errors_Is e ErrWatcherOverloaded then ((h, incFailures (wt_id w) u), Ok tt)
          else ((h, caught_up), Ok tt)
      end
  end.

(** A step of the hub's part of the state. *)
Definition on_hub_part {X} (m : M WatchHub X) : M (WatchHub * UnsyncedLoop) X := fun st =>
  let '(h, r) := m st.1 in ((h, st.2), r).

Definition feed (x : nat) (s : kvs) : M (WatchHub * UnsyncedLoop) unit :=
  feed_start x s ≫= fun o =>
  match o with
  | None => mret tt
  | Some f => on_hub_part (try (on_wt x (sendAll (fd_events f)))) ≫= feed_done f
  end.

(** The next event of a turn: what send does before its select, or the end of sendAll. *)
Definition feed_check (f : feeding) : M (WatchHub * UnsyncedLoop) (option feeding) :=
  match fd_events f with
  | [] => feed_done f (inl tt) ≫= fun _ => mret None
  | e :: rest =>
      on_hub_part (try (on_wt (fd_ref f) (send_check e))) ≫= fun r =>
      match r with
      | inl true => mret (Some (mkFeed (fd_ref f) (fd_events f) (fd_high f) true))
      | inl false => mret (Some (mkFeed (fd_ref f) rest (fd_high f) false))
      | inr er => feed_done f (inr er) ≫= fun _ => mret None
      end
  end.

(** The select of send for the event that was tested, by the case chosen. The update of
    currentRev that follows a send belongs to the step: while a watcher is in the batch
    nobody else reads or writes its currentRev. *)
Definition feed_select (c : select_case) (f : feeding) : M (WatchHub * UnsyncedLoop) (option feeding) :=
  match fd_events f with
  | [] => mret None
  | e :: rest =>
      on_hub_part (try (on_wt (fd_ref f) (send_select c e ≫= sendAll_advance e))) ≫= fun r =>
      match r with
      | inl _ => mret (Some (mkFeed (fd_ref f) rest (fd_high f) false))
      | inr er => feed_done f (inr er) ≫= fun _ => mret None
      end
  end.

Definition unsafeDropFailedWatcher (wid : Z) (e : error) : M (WatchHub * UnsyncedLoop) unit := fun st =>
  match unsynced st.1 !! wid with
  | None => (st, Ok tt)
  | Some x =>
      let '(h, r) := unsafeDropFromGroup false (id_of x st.1) e st.1 in
      ((h, forget (id_of x st.1) st.2), r)
  end.

Fixpoint drop_failed (l : list (Z * error)) : M (WatchHub * UnsyncedLoop) unit :=
  match l with
  | [] => mret tt
  | (wid, e) :: rest =>
      unsafeDropFailedWatcher wid e ≫= fun _ =>
      modify (fun st => (st.1, forget wid st.2)) ≫= fun _ => drop_failed rest
  end.

Fixpoint promote_each (l : list Z) (st : WatchHub * UnsyncedLoop) : WatchHub * UnsyncedLoop :=
  match l with
  | [] => st
  | wid :: rest => promote_each rest ((unsafePromote wid st.1).1, forget wid st.2)
  end.

(** The end of a tick, under the lock. *)
Definition tick_finish : M (WatchHub * UnsyncedLoop) unit :=
  get_st ≫= fun st =>
  drop_failed (map_to_list (deleteBatch st.2)) ≫= fun _ =>
  modify (promote_each (elements (promoteBatch st.2))) ≫= fun _ =>
  modify (fun st => (st.1, mkUL ∅ (unsyncedFailures st.2) ∅ ∅ (u_revs st.2))).

(** A tick nothing interferes with. *)
Fixpoint feed_each (xs : list (Z * nat)) (s : kvs) : M (WatchHub * UnsyncedLoop) unit :=
  match xs with
  | [] => mret tt
  | (_, x) :: rest => feed x s ≫= fun _ => feed_each rest s
  end.
Definition ul_tick (s : kvs) : M (WatchHub * UnsyncedLoop) unit := fun st =>
  let u := tick_collect s st.1 st.2 in
  (feed_each (hub_order (unsyncedBatch u)) s ≫= fun _ => tick_finish) (st.1, u).

End Store.
End Hub.

(** The hub is the engine's commit observer. *)
#[export] Instance hub_observer {HO : HubOrder} : CommitObserver WatchHub := {
  OnCommit := fun changes h => (hub_OnCommit changes h).1 }.
