(* ===== verification/WatchInv.v ===== *)
(** What watchers receive: the events [sendAll] delivers, the invariant of the hub and the
    catch-up loop under any interleaving of their steps, where a new watcher is placed, and
    what one tick of the loop does for a watcher of one key. *)

From S2P Require Import Prelude OrdTree KvTypes KeyIndex TreeIndex IndexRevs Storage Inmem Backend Mvcc MvccInv Api Engine Watch.
From Stdlib Require Import ZArith Lia.
From stdpp Require Import base gmap sets list strings sorting.
Open Scope Z_scope.

(** ** Delivery to one watcher *)

Definition erev (e : Event) : Z := ModRev (ev_Entry e).

(** The events whose revision exceeds [cur] and that of every event before them. *)
Fixpoint records (cur : Z) (evs : list Event) : list Event :=
  match evs with
  | [] => []
  | e :: rest => if cur <? erev e then e :: records (erev e) rest else records cur rest
  end.

(** What is left for a watcher to receive of some events. *)
Definition wanted (w : watcher) (evs : list Event) : list Event :=
  records (wt_currentRev w) (filter (fun e => matches e w = true) evs).

Definition room (w : watcher) : nat := watcherChannelBufferSize - length (wt_c w).
Definition after (cur : Z) (d : list Event) : Z := from_option erev cur (last d).
Definition delivered (d : list Event) (w : watcher) : watcher :=
  set_currentRev_w (after (wt_currentRev w) d) (set_c (wt_c w ++ d) w).

(** The static part of a watcher. *)
Definition same_watch (w w' : watcher) : Prop :=
  wt_id w' = wt_id w /\ wt_keyStart w' = wt_keyStart w /\ wt_keyEnd w' = wt_keyEnd w /\
  wt_startRev w' = wt_startRev w /\ wt_filter w' = wt_filter w /\ wt_prevEntry w' = wt_prevEntry w.

#[export] Instance same_watch_equiv : Equivalence same_watch.
Proof.
  split; [done|by intros a b (?&?&?&?&?&?); split_and!|].
  intros a b c (?&?&?&?&?&?) (?&?&?&?&?&?); split_and!; congruence.
Qed.

Lemma matches_same e w w' : same_watch w w' -> matches e w' = matches e w.
Proof. intros (_ & E1 & E2 & _ & E3 & _). unfold matches. by rewrite E1, E2, E3. Qed.

Lemma wanted_cons w e evs :
  wanted w (e :: evs) =
    if matches e w && (wt_currentRev w <? erev e)
    then e :: wanted (set_currentRev_w (erev e) w) evs else wanted w evs.
Proof.
  unfold wanted. rewrite filter_cons. case_decide as Hm; [|by destruct (matches e w)].
  rewrite Hm. cbn [records andb]. destruct (wt_currentRev w <? erev e); [|done].
  do 2 f_equal.
Qed.

Lemma after_cons cur e d : after cur (e :: d) = after (erev e) d.
Proof.
  unfold after. destruct d as [|e' d]; [done|]. rewrite last_cons_cons.
  destruct (last (e' :: d)) eqn:E; [done|]. by apply last_None in E.
Qed.

Lemma delivered_nil w : delivered [] w = w.
Proof. unfold delivered, after. destruct w. simpl. by rewrite app_nil_r. Qed.

Lemma delivered_cons e d w :
  delivered (e :: d) w = delivered d (set_currentRev_w (erev e) (set_c (wt_c w ++ [e]) w)).
Proof. unfold delivered. rewrite after_cons. simpl. by rewrite <-app_assoc. Qed.

Lemma send_open e w :
  wt_ctx w = None -> wt_closed w = false ->
  send e w =
    if matches e w && (wt_currentRev w <? erev e)
    then if (length (wt_c w) <? watcherChannelBufferSize)%nat
         then (set_c (wt_c w ++ [e]) w, Ok true) else (w, Err [ErrWatcherOverloaded])
    else (w, Ok false).
Proof.
  intros Hc Hx. unfold send, get_st, modify, mret, mbind, M_ret, M_bind, fail, erev. rewrite Hc, Hx.
  destruct (matches e w); simpl; [|done]. rewrite (Z.leb_antisym (wt_currentRev w)).
  destruct (wt_currentRev w <? ModRev (ev_Entry e)); simpl; [|done].
  by destruct (length (wt_c w) <? watcherChannelBufferSize)%nat.
Qed.

Lemma sendAll_open evs w :
  wt_ctx w = None -> wt_closed w = false -> (length (wt_c w) <= watcherChannelBufferSize)%nat ->
  sendAll evs w =
    (delivered (take (room w) (wanted w evs)) w,
     if (length (wanted w evs) <=? room w)%nat then Ok tt else Err [ErrWatcherOverloaded]).
Proof.
  revert w. induction evs as [|e evs IH]; intros w Hc Hx Hr.
  { simpl. unfold wanted. simpl. by rewrite take_nil, delivered_nil. }
  cbn [sendAll]. rewrite wanted_cons. unfold mbind at 1, M_bind at 1. rewrite send_open by done.
  destruct (matches e w && (wt_currentRev w <? erev e)) eqn:Em; [|by apply IH].
  destruct (Nat.ltb_spec (length (wt_c w)) watcherChannelBufferSize) as [Hl|Hl].
  - apply andb_true_iff in Em as [_ Em]. unfold erev in Em.
    unfold sendAll_advance, mbind, M_bind, get_st, modify. cbn [wt_currentRev set_c]. rewrite Em. fold (erev e).
    set (w1 := set_currentRev_w (erev e) (set_c (wt_c w ++ [e]) w)).
    assert (wanted w1 evs = wanted (set_currentRev_w (erev e) w) evs) as Hw by done.
    assert (room w = S (room w1)) as Hroom.
    { unfold room, w1. simpl. rewrite length_app. simpl. lia. }
    rewrite IH; [|done..|unfold w1; simpl; rewrite length_app; simpl; lia].
    rewrite Hw, Hroom, firstn_cons, delivered_cons. done.
  - assert (room w = 0)%nat as -> by (unfold room; lia). by rewrite delivered_nil.
Qed.

Lemma sendAll_cancelled e evs c w : wt_ctx w = Some c -> sendAll (e :: evs) w = (w, Err [Canceled]).
Proof. intros Hc. simpl. unfold mbind, M_bind, send, get_st, mbind, M_bind. by rewrite Hc. Qed.

Lemma records_above cur evs :
  StronglySorted Z.lt (erev <$> records cur evs) /\ Forall (fun e => cur < erev e) (records cur evs).
Proof.
  revert cur. induction evs as [|e evs IH]; intros cur; simpl; [by split; constructor|].
  destruct (Z.ltb_spec cur (erev e)) as [Hlt|]; [|apply IH]. destruct (IH (erev e)) as [Hs Hf]. split.
  - constructor; [done|]. by apply Forall_fmap.
  - constructor; [done|]. eapply Forall_impl; [exact Hf|]. simpl. lia.
Qed.

Lemma records_sublist cur evs : records cur evs `sublist_of` evs.
Proof.
  revert cur. induction evs as [|e evs IH]; intros cur; simpl; [constructor|].
  destruct (cur <? erev e); by constructor.
Qed.

Lemma records_ge cur evs r :
  r <= cur -> filter (fun e => erev e = r) (records cur evs) = [].
Proof.
  intros Hr. apply filter_none. eapply Forall_impl; [apply records_above|]. simpl. lia.
Qed.

(** Of events in revision order, each revision above [cur] keeps its first event. *)
Lemma records_first cur evs r :
  StronglySorted Z.le (erev <$> evs) -> cur < r ->
  filter (fun e => erev e = r) (records cur evs) = take 1 (filter (fun e => erev e = r) evs).
Proof.
  intros Hs. revert cur. induction evs as [|e evs IH]; intros cur Hr; [done|].
  apply StronglySorted_inv in Hs as [Hs Hle]. cbn [records].
  destruct (Z.ltb_spec cur (erev e)) as [Hlt|Hge].
  - rewrite !filter_cons. case_decide as He.
    + rewrite records_ge by lia. by rewrite firstn_cons, firstn_O.
    + destruct (Z.lt_ge_cases (erev e) r); [by apply IH|]. rewrite records_ge by lia.
      rewrite filter_none; [done|]. apply (Forall_fmap erev) in Hle. eapply Forall_impl; [exact Hle|]. simpl. lia.
  - rewrite (filter_cons_False _ e) by lia. by apply IH.
Qed.

Lemma sorted_filter {A} (P : A -> Prop) `{forall x, Decision (P x)} (f : A -> Z) (l : list A) :
  StronglySorted Z.le (f <$> l) -> StronglySorted Z.le (f <$> filter P l).
Proof.
  induction l as [|x l IH]; [done|]. intros [Hs Hx]%StronglySorted_inv. rewrite filter_cons.
  case_decide; [|by apply IH]. constructor; [by apply IH|].
  apply (Forall_fmap f) in Hx. apply (Forall_fmap f), Forall_forall. intros y [_ Hy]%list_elem_of_filter.
  by eapply (proj1 (Forall_forall _ _)) in Hy; [|exact Hx].
Qed.

(** What a watcher has received ([got], taken out of the channel, and then the channel):
    in revision order, at most one event of a revision, nothing it did not ask for. *)
Record wt_ok (got : list Event) (w : watcher) : Prop := {
  wo_sorted : StronglySorted Z.lt (erev <$> got ++ wt_c w);
  wo_events : Forall (fun e => matches e w = true /\ wt_startRev w < erev e <= wt_currentRev w) (got ++ wt_c w);
  wo_start : wt_startRev w <= wt_currentRev w;
  wo_room : (length (wt_c w) <= watcherChannelBufferSize)%nat;
  wo_closed : wt_closed w = true -> is_Some (wt_ctx w) }.

Lemma wanted_props w evs :
  StronglySorted Z.lt (erev <$> wanted w evs) /\
  Forall (fun e => e ∈ evs /\ matches e w = true /\ wt_currentRev w < erev e) (wanted w evs).
Proof.
  destruct (records_above (wt_currentRev w) (filter (fun e => matches e w = true) evs)) as [Hs Hf].
  split; [done|]. apply Forall_forall. intros e He.
  pose proof (proj1 (Forall_forall _ _) Hf e He) as Hlt.
  eapply elem_of_sublist in He; [|apply records_sublist]. by apply list_elem_of_filter in He as [? ?].
Qed.

Lemma sorted_app (a b : list Z) :
  StronglySorted Z.lt a -> StronglySorted Z.lt b -> (forall x y, x ∈ a -> y ∈ b -> x < y) ->
  StronglySorted Z.lt (a ++ b).
Proof.
  intros Ha Hb Hab. apply StronglySorted_app. split_and!; [|done..]. by apply Hab.
Qed.

Lemma sorted_le_last (l : list Event) e d :
  StronglySorted Z.lt (erev <$> l) -> last l = Some d -> e ∈ l -> erev e <= erev d.
Proof.
  intros Hs Hl He. apply last_snoc_inv in Hl as [l' ->]. rewrite fmap_app in Hs.
  apply StronglySorted_app in Hs as (Hlt & _). apply elem_of_app in He as [He|He].
  - apply Z.lt_le_incl, Hlt; [by apply list_elem_of_fmap_2|left].
  - by apply list_elem_of_singleton in He as ->.
Qed.

Lemma delivered_ok got w d :
  wt_ok got w -> StronglySorted Z.lt (erev <$> d) ->
  Forall (fun e => matches e w = true /\ wt_currentRev w < erev e) d ->
  (length (wt_c w) + length d <= watcherChannelBufferSize)%nat -> wt_ok got (delivered d w).
Proof.
  intros [Hs He Hst Hr Hx] Hd Hf Hlen.
  assert (wt_currentRev w <= after (wt_currentRev w) d) as Hge.
  { unfold after. destruct (last d) as [e|] eqn:El; [|done]. simpl.
    apply last_snoc_inv in El as [d' ->]. apply Forall_app in Hf as [_ Hf]. inversion Hf. simpl in *. lia. }
  split; unfold delivered; simpl; [| |lia| |done].
  - rewrite app_assoc, fmap_app. apply sorted_app; [done..|].
    intros x y (e & -> & Hin)%list_elem_of_fmap (e' & -> & Hin')%list_elem_of_fmap.
    pose proof (proj1 (Forall_forall _ _) He e Hin). pose proof (proj1 (Forall_forall _ _) Hf e' Hin').
    simpl in *. lia.
  - rewrite app_assoc. apply Forall_app. split.
    + eapply Forall_impl; [exact He|]. simpl. intros e [Hm Hb]. split; [done|]. lia.
    + apply Forall_forall. intros e Hin. pose proof (proj1 (Forall_forall _ _) Hf e Hin) as [Hm Hlt].
      split; [done|]. simpl in *. split; [lia|]. unfold after. destruct (last d) as [z|] eqn:El.
      * simpl. by eapply sorted_le_last.
      * apply last_None in El as ->. by apply not_elem_of_nil in Hin.
  - rewrite length_app. lia.
Qed.

(** What one [sendAll] does to a watcher, whatever its state. *)
Lemma sendAll_ok got w evs :
  wt_ok got w ->
  exists d r, sendAll evs w = (delivered d w, r) /\ wt_ok got (delivered d w) /\
    Forall (fun e => e ∈ evs) d /\
    (r = Ok tt \/ r = Err [Canceled] \/
     r = Err [ErrWatcherOverloaded] /\ exists e, e ∈ evs /\ wt_currentRev (delivered d w) < erev e).
Proof.
  intros Hok. destruct (wanted_props w evs) as [Hs Hf].
  destruct (wt_ctx w) as [c|] eqn:Hc.
  { exists []. rewrite delivered_nil. destruct evs as [|e evs]; [by exists (Ok tt); eauto|].
    exists (Err [Canceled]). split_and!; eauto. by eapply sendAll_cancelled. }
  assert (wt_closed w = false) as Hx.
  { destruct (wt_closed w) eqn:E; [|done]. destruct (wo_closed _ _ Hok E). congruence. }
  rewrite sendAll_open by (done || apply Hok).
  set (d := take (room w) (wanted w evs)). exists d. eexists. split; [done|].
  assert (wanted w evs = d ++ drop (room w) (wanted w evs)) as Hsplit by (symmetry; apply take_drop).
  assert (Forall (fun e => e ∈ evs /\ matches e w = true /\ wt_currentRev w < erev e) d) as Hd by by apply Forall_take.
  split_and!.
  - apply delivered_ok; [done| | |].
    + rewrite Hsplit, fmap_app in Hs. by apply StronglySorted_app in Hs as (_ & ? & _).
    + eapply Forall_impl; [exact Hd|]. simpl. tauto.
    + unfold d, room. rewrite length_take. pose proof (wo_room _ _ Hok). lia.
  - eapply Forall_impl; [exact Hd|]. simpl. tauto.
  - destruct (Nat.leb_spec (length (wanted w evs)) (room w)) as [|Hlt]; [by left|right; right; split; [done|]].
    destruct (drop (room w) (wanted w evs)) as [|e rest] eqn:Edrop.
    { apply (f_equal length) in Edrop. rewrite length_drop in Edrop. simpl in Edrop. lia. }
    assert (e ∈ wanted w evs) as He by (rewrite Hsplit; apply elem_of_app; right; left).
    pose proof (proj1 (Forall_forall _ _) Hf e He) as (Hin & _ & Hgt). exists e. split; [done|].
    unfold delivered. simpl. unfold after. destruct (last d) as [z|] eqn:El; [|done]. simpl.
    rewrite Hsplit, fmap_app in Hs. apply StronglySorted_app in Hs as (Hlt' & _).
    apply last_snoc_inv in El as [d' ->]. apply Hlt'; [|left].
    apply list_elem_of_fmap_2, elem_of_app. right. by left.
Qed.

(** C33: A batch of events in revision order, as a commit and the catch-up loop hand them
    over, reaches an open watcher like this: of every revision above the watcher's
    current one the first matching event and no other, in order, as far as the channel
    has room; if they do not all fit, the call fails with ErrWatcherOverloaded. *)
Theorem watch_sendAll w evs :
  wt_ctx w = None -> wt_closed w = false -> (length (wt_c w) <= watcherChannelBufferSize)%nat ->
  StronglySorted Z.le (erev <$> evs) ->
  exists d w', sendAll evs w = (w', if (length d <=? room w)%nat then Ok tt else Err [ErrWatcherOverloaded]) /\
    (forall r, filter (fun e => erev e = r) d =
       if wt_currentRev w <? r then take 1 (filter (fun e => erev e = r) (filter (fun e => matches e w = true) evs))
       else []) /\
    StronglySorted Z.lt (erev <$> d) /\
    wt_c w' = wt_c w ++ take (room w) d /\ wt_currentRev w' = after (wt_currentRev w) (take (room w) d).
Proof.
  intros Hc Hx Hr Hs. exists (wanted w evs), (delivered (take (room w) (wanted w evs)) w).
  split_and!; [by apply sendAll_open| |apply wanted_props|done..].
  intros r. destruct (Z.ltb_spec (wt_currentRev w) r) as [Hlt|Hge]; [|by apply records_ge].
  apply records_first; [|done]. by apply sorted_filter.
Qed.

(** ** The hub *)

Definition event_of (e : Entry) : Event := mkEvent (if KvTypes.Tombstone e then EventDelete else EventPut) e.

Lemma ToKvEvent_Some e : ToKvEvent (Some e) = Ok (event_of e).
Proof. unfold ToKvEvent, event_of. by destruct (KvTypes.Tombstone e). Qed.

Lemma ToKvEvents_Some es : ToKvEvents (Some <$> es) = Ok (event_of <$> es).
Proof. induction es as [|e es IH]; [done|]. cbn [fmap list_fmap ToKvEvents]. by rewrite ToKvEvent_Some, IH. Qed.

(** [got x] is what the consumer of watcher [x] has received, [cur] a bound on the committed
    revisions, [b] the batch of the catch-up loop and [rm] the revision it works up to. *)
Record hub_ok (got : nat -> list Event) (cur : Z) (b : gmap Z nat) (rm : Z) (h : WatchHub) : Prop := {
  ho_wt : forall x w, wtab h !! x = Some w -> wt_ok (got x) w /\ (x < wh_next h)%nat;
  ho_fresh : forall x, (wh_next h <= x)%nat -> got x = [];
  ho_grp : forall sy id x, group sy h !! id = Some x ->
    exists w, wtab h !! x = Some w /\ wt_id w = id /\ wt_closed w = false;
  ho_disj : forall id x, synced h !! id = Some x -> unsynced h !! id <> Some x;
  ho_uns : forall id x w, unsynced h !! id = Some x -> wtab h !! x = Some w -> wt_currentRev w <= cur;
  ho_batch : forall id x, b !! id = Some x -> synced h !! id <> Some x /\
    exists w, wtab h !! x = Some w /\ wt_id w = id /\ wt_currentRev w <= rm;
  ho_rm : rm <= cur }.

Lemma group_set sy sy' g h : group sy (set_group sy' g h) = if bool_decide (sy = sy') then g else group sy h.
Proof. by destruct sy, sy'. Qed.
Lemma wtab_set_group sy g h : wtab (set_group sy g h) = wtab h.
Proof. by destruct sy. Qed.
Lemma next_set_group sy g h : wh_next (set_group sy g h) = wh_next h.
Proof. by destruct sy. Qed.

Section HubOk.
Context (got : nat -> list Event) (cur : Z) (b : gmap Z nat) (rm : Z).
Abbreviation ok := (hub_ok got cur b rm).

(** A reference is in a group under the id of its watcher only. *)
Lemma group_id sy id x h w : ok h -> group sy h !! id = Some x -> wtab h !! x = Some w -> wt_id w = id.
Proof. intros H Hg Hw. destruct (ho_grp _ _ _ _ _ H _ _ _ Hg) as (w' & Hw' & E & _). congruence. Qed.

Lemma group_other sy sy' id id' x h :
  ok h -> sy <> sy' -> group sy h !! id = Some x -> group sy' h !! id' = Some x -> False.
Proof.
  intros H Hne Hg Hg'. destruct (ho_grp _ _ _ _ _ H _ _ _ Hg) as (w & Hw & E & _).
  pose proof (group_id _ _ _ _ _ H Hg' Hw) as E'. rewrite E in E'. subst id'.
  destruct sy, sy'; try done; simpl in *; by eapply ho_disj.
Qed.

(** A watcher is replaced by another state of it. *)
Lemma set_wt_ok x w w' h :
  ok h -> wtab h !! x = Some w -> wt_ok (got x) w' -> wt_id w' = wt_id w ->
  wt_closed w' = wt_closed w ->
  (forall id, unsynced h !! id = Some x -> wt_currentRev w' <= cur) ->
  (forall id, b !! id = Some x -> wt_currentRev w' <= rm) ->
  ok (set_wt x w' h).
Proof.
  intros H Hw Hok' Hid Hcl Hu Hb. split; simpl.
  - intros y v Hy. apply lookup_insert_Some in Hy as [[<- <-]|[_ Hy]]; [|by eapply ho_wt].
    split; [done|]. by eapply ho_wt.
  - by apply H.
  - intros sy id y Hg. assert (group sy h !! id = Some y) as Hg' by (by destruct sy).
    destruct (ho_grp _ _ _ _ _ H _ _ _ Hg') as (v & Hv & Ei & Ec).
    destruct (decide (y = x)) as [->|Hne]; [|by rewrite lookup_insert_ne; eauto].
    rewrite lookup_insert_eq. exists w'. split_and!; congruence.
  - by apply H.
  - intros id y v Hg Hv. apply lookup_insert_Some in Hv as [[<- <-]|[_ Hv]]; [by eapply Hu|by eapply ho_uns].
  - intros id y Hy. destruct (ho_batch _ _ _ _ _ H _ _ Hy) as [Hns (v & Hv & Ei & Ec)]. split; [done|].
    destruct (decide (y = x)) as [->|Hne]; [|by rewrite lookup_insert_ne; eauto].
    rewrite lookup_insert_eq. exists w'. split_and!; [done|congruence|]. by eapply Hb.
  - by apply H.
Qed.

Lemma wt_cancel_ok g e w : wt_ok g w -> wt_ok g (wt_cancel e w).
Proof. intros [Hs He Hst Hr Hx]. split; try done. simpl. intros _. destruct (wt_ctx w); eauto. Qed.

Lemma cancel_ok x w e h : ok h -> wtab h !! x = Some w -> ok (set_wt x (wt_cancel e w) h).
Proof.
  intros H Hw. eapply set_wt_ok; try done.
  - apply wt_cancel_ok. by eapply ho_wt.
  - intros id Hid. simpl. by eapply ho_uns.
  - intros id Hid. destruct (ho_batch _ _ _ _ _ H _ _ Hid) as [_ (v & Hv & _ & ?)]. simpl. congruence.
Qed.

Lemma unsafeDropFromGroup_run sy id e h :
  ok h -> exists h', unsafeDropFromGroup sy id e h = (h', Ok tt) /\ ok h' /\
    group sy h' = delete id (group sy h) /\ group (negb sy) h' = group (negb sy) h /\
    wtab h' = match group sy h !! id with
              | Some x => alter (fun w => set_closed (wt_cancel e w)) x (wtab h)
              | None => wtab h end.
Proof.
  intros H. unfold unsafeDropFromGroup, mbind, M_bind, get_st.
  destruct (group sy h !! id) as [x|] eqn:Hg.
  2:{ exists h. split_and!; try done. symmetry. by apply delete_id. }
  destruct (ho_grp _ _ _ _ _ H _ _ _ Hg) as (w & Hw & Hid & Hcl).
  unfold on_wt. rewrite Hw. unfold wt_close, modify, mbind, M_bind, get_st.
  cbn [wt_closed wt_cancel]. rewrite Hcl. simpl. unfold id_of. simpl. rewrite lookup_insert_eq. simpl. rewrite Hid.
  assert (forall g sy, group sy (set_wt x g h) = group sy h) as Hgs by (by intros g []).
  eexists. split; [done|]. rewrite !group_set, !Hgs, wtab_set_group, bool_decide_eq_true_2 by done.
  rewrite bool_decide_eq_false_2 by (by destruct sy). split_and!; try done.
  2:{ simpl. apply map_eq. intros y. rewrite lookup_alter. destruct (decide (x = y)) as [->|].
      - by rewrite lookup_insert_eq, Hw.
      - by rewrite lookup_insert_ne. }
  assert (forall id' y sy', group sy' (set_group sy (delete id (group sy h))
      (set_wt x (set_closed (wt_cancel e w)) h)) !! id' = Some y -> group sy' h !! id' = Some y /\ y <> x) as Hsub.
  { intros id' y sy'. rewrite group_set, Hgs. case_bool_decide as E.
    - subst sy'. intros [Hne Hy]%lookup_delete_Some. split; [done|]. intros ->.
      apply Hne. symmetry. rewrite <-Hid. symmetry. by eapply group_id.
    - intros Hy. split; [done|]. intros ->. by eapply (group_other sy sy'). }
  split.
  - intros y v. rewrite wtab_set_group, next_set_group. simpl.
    intros [[<- <-]|[_ Hy]]%lookup_insert_Some; [|by eapply ho_wt].
    split; [|by eapply ho_wt]. destruct (wt_cancel_ok (got x) e w) as [???? _]; [by eapply ho_wt|].
    split; try done. intros _. simpl. destruct (wt_ctx w); eauto.
  - rewrite next_set_group. simpl. by apply H.
  - intros sy' id' y [Hy Hne]%Hsub. destruct (ho_grp _ _ _ _ _ H _ _ _ Hy) as (v & Hv & ? & ?).
    exists v. rewrite wtab_set_group. simpl. by rewrite lookup_insert_ne.
  - intros id' y Hs%(Hsub _ _ true) Hu%(Hsub _ _ false). by eapply ho_disj; [|apply Hs|apply Hu].
  - intros id' y v [Hu Hne]%(Hsub _ _ false). rewrite wtab_set_group. simpl.
    rewrite lookup_insert_ne by done. by eapply ho_uns.
  - intros id' y Hy. destruct (ho_batch _ _ _ _ _ H _ _ Hy) as [Hns (v & Hv & ? & ?)]. split.
    { intros Hs%(Hsub _ _ true). tauto. }
    rewrite wtab_set_group. simpl. destruct (decide (y = x)) as [->|]; [|by rewrite lookup_insert_ne; eauto].
    rewrite lookup_insert_eq. assert (v = w) as -> by congruence. by eexists.
  - by apply H.
Qed.

Lemma unsafeDropFromGroup_ok sy id e h : ok h -> runs_ok ok (unsafeDropFromGroup sy id e) h.
Proof. intros H. destruct (unsafeDropFromGroup_run sy id e h H) as (h' & E & ? & _). unfold runs_ok. by rewrite E. Qed.

Lemma unsafeDropWatcher_ok id h : ok h -> runs_ok ok (unsafeDropWatcher id) h.
Proof.
  intros H. unfold unsafeDropWatcher. eapply runs_ok_bind; [done|]. intros g h' [= <- <-] _.
  repeat case_bool_decide; [by apply unsafeDropFromGroup_ok..|done].
Qed.

Lemma DropWatcher_ok id h : ok h -> runs_ok ok (DropWatcher id) h.
Proof.
  intros H. unfold DropWatcher. eapply runs_ok_bind; [done|]. intros g h' [= <- <-] _.
  repeat case_bool_decide; [| |done];
    (eapply runs_ok_bind; [by apply unsafeDropFromGroup_ok|]; intros [] h' _ H'; by apply runs_ok_ret).
Qed.

Lemma drop_each_ok sy ids h : ok h -> runs_ok ok (drop_each sy ids) h.
Proof.
  revert h. induction ids as [|id ids IH]; intros h H; [by apply runs_ok_ret|].
  eapply runs_ok_bind; [by apply unsafeDropFromGroup_ok|]. intros [] h' _ H'. by apply IH.
Qed.

(** Moving a watcher between the groups: [x] leaves the group [sy] for the other one, and
    whatever had its id there is lost. *)
Definition move (sy : bool) (id : Z) (x : nat) (h : WatchHub) : WatchHub :=
  set_group (negb sy) (<[id := x]> (group (negb sy) h)) (set_group sy (delete id (group sy h)) h).

Lemma move_ok sy id x w h :
  ok h -> group sy h !! id = Some x -> wtab h !! x = Some w ->
  (sy = true -> wt_currentRev w <= cur) -> (sy = false -> forall id, b !! id <> Some x) ->
  ok (move sy id x h).
Proof.
  intros H Hg Hw Hcur Hb. pose proof (group_id _ _ _ _ _ H Hg Hw) as Hid.
  assert (forall sy' id' y, group sy' (move sy id x h) !! id' = Some y ->
    group sy' h !! id' = Some y /\ (y <> x) \/ sy' = negb sy /\ id' = id /\ y = x) as Hsub.
  { intros sy' id' y. unfold move. rewrite !group_set. case_bool_decide as E1.
    - subst sy'. intros [[<- <-]|[Hne Hy]]%lookup_insert_Some; [by right|]. left.
      split; [done|]. intros ->.
      eapply (group_other sy (negb sy)); eauto. by destruct sy.
    - assert (sy' = sy) as -> by (destruct sy, sy'; done). rewrite bool_decide_eq_true_2 by done.
      intros [Hne Hy]%lookup_delete_Some. left. split; [done|]. intros ->.
      apply Hne. rewrite <-Hid. by eapply group_id. }
  assert (wtab (move sy id x h) = wtab h) as Ht by (unfold move; by rewrite !wtab_set_group).
  split.
  - rewrite Ht. unfold move. rewrite !next_set_group. apply H.
  - unfold move. rewrite !next_set_group. apply H.
  - intros sy' id' y [[Hy _]|(-> & -> & ->)]%Hsub; rewrite Ht; by eapply ho_grp.
  - intros id' y Hs%(Hsub true) Hu%(Hsub false).
    destruct Hs as [[Hs Hn]|(E1 & E2 & ->)], Hu as [[Hu Hm]|(E3 & E4 & E5)]; try congruence.
    + by eapply ho_disj.
  - intros id' y v Hu Hv. rewrite Ht in Hv. apply (Hsub false) in Hu as [[Hu _]|(E & -> & ->)].
    + by eapply ho_uns.
    + destruct sy; [|done]. assert (v = w) as -> by congruence. by apply Hcur.
  - intros id' y Hy. destruct (ho_batch _ _ _ _ _ H _ _ Hy) as [Hns Hex]. rewrite Ht. split; [|done].
    intros [[Hs _]|(E & -> & ->)]%(Hsub true); [done|]. destruct sy; [done|]. by eapply (Hb eq_refl).
  - apply H.
Qed.

Lemma unsafeDemote_run id h :
  ok h -> unsafeDemote id h =
    (match synced h !! id with Some x => move true id x h | None => h end, Ok tt).
Proof.
  intros H. unfold unsafeDemote, modify. destruct (synced h !! id) as [x|] eqn:E; [|done].
  destruct (ho_grp _ _ _ _ _ H true id x E) as (w & Hw & Hid & _). unfold id_of. rewrite Hw. simpl. by rewrite Hid.
Qed.

Lemma unsafePromote_run id h :
  ok h -> unsafePromote id h =
    (match unsynced h !! id with Some x => move false id x h | None => h end, Ok tt).
Proof.
  intros H. unfold unsafePromote, modify. destruct (unsynced h !! id) as [x|] eqn:E; [|done].
  destruct (ho_grp _ _ _ _ _ H false id x E) as (w & Hw & Hid & _). unfold id_of. rewrite Hw. simpl. by rewrite Hid.
Qed.

(** The watchers that may be demoted: what they have seen is committed. *)
Definition demotable (h : WatchHub) (rem : list (Z * error)) : Prop :=
  forall id e x w, (id, e) ∈ rem -> ErrWatcherOverloaded ∈ e ->
    synced h !! id = Some x -> wtab h !! x = Some w -> wt_currentRev w <= cur.

Lemma remove_each_ok rem h : ok h -> demotable h rem -> runs_ok ok (remove_each rem) h.
Proof.
  revert h. induction rem as [|[id e] rem IH]; intros h H Hd; [by apply runs_ok_ret|]. cbn [remove_each].
  unfold errors_Is. case_bool_decide as He.
  - eapply runs_ok_bind; [|intros [] h'].
    + unfold runs_ok. rewrite unsafeDemote_run by done. split; [|done]. simpl.
      destruct (synced h !! id) as [x|] eqn:Ex; [|done].
      destruct (ho_grp _ _ _ _ _ H true id x Ex) as (w & Hw & _). eapply move_ok; [done..| |done].
      intros _. eapply Hd; [left|done..].
    + rewrite unsafeDemote_run by done. intros [= <-] H'. apply IH; [done|].
      intros id' e' x' w' Hin He' Hs Hw. eapply (Hd id' e' x'); eauto; [by right|..].
      * destruct (synced h !! id) as [x|]; [|done]. simpl in Hs. by apply lookup_delete_Some in Hs as [_ ?].
      * by destruct (synced h !! id).
  - destruct (unsafeDropFromGroup_run true id e h H) as (h' & E & H' & Hg & _ & Ht).
    eapply runs_ok_bind; [unfold runs_ok; by rewrite E|]. intros [] h2. rewrite E. intros [= <-] _.
    apply IH; [done|]. intros id' e' x' w' Hin He' Hs Hw. simpl in Hg. rewrite Hg in Hs.
    apply lookup_delete_Some in Hs as [Hne Hs]. simpl in Ht. rewrite Ht in Hw.
    assert (exists w0, wtab h !! x' = Some w0 /\ wt_currentRev w0 = wt_currentRev w') as (w0 & Hw0 & <-).
    { destruct (synced h !! id); [|by exists w']. rewrite lookup_alter in Hw. case_decide; [|by exists w'].
      subst n. apply fmap_Some in Hw as (w0 & Hw0 & ->). by exists w0. }
    eapply (Hd id' e' x' w0); eauto. by right.
Qed.

Lemma after_le cur0 bound d : cur0 <= bound -> Forall (fun e => erev e <= bound) d -> after cur0 d <= bound.
Proof.
  intros Hc Hd. unfold after. destruct (last d) as [e|] eqn:El; [|done]. simpl.
  apply last_snoc_inv in El as [d' ->]. apply Forall_app in Hd as [_ Hd]. by inversion Hd.
Qed.

(** Delivering to a watcher of the synced group. *)
Lemma deliver_ok id x w d h evs :
  ok h -> synced h !! id = Some x -> wtab h !! x = Some w -> wt_ok (got x) (delivered d w) ->
  Forall (fun e => e ∈ evs) d -> Forall (fun e => erev e <= cur) evs -> ok (set_wt x (delivered d w) h).
Proof.
  intros H Hs Hw Hok Hd He. eapply set_wt_ok; try done.
  - intros id' Hu. exfalso. by eapply (group_other true false); eauto.
  - intros id' Hb. exfalso. destruct (ho_batch _ _ _ _ _ H _ _ Hb) as [Hns (v & Hv & <- & _)]. apply Hns.
    assert (v = w) as -> by congruence. by rewrite (group_id true id x h w).
Qed.

Lemma Forall_incl {A} (P : A -> Prop) (d l : list A) : Forall (fun e => e ∈ l) d -> Forall P l -> Forall P d.
Proof. intros Hd Hl. eapply Forall_impl; [exact Hd|]. simpl. intros x Hx. by eapply Forall_forall. Qed.

(** The first loop of OnCommit. *)
Lemma send_each_ok {HO : HubOrder} evs ws rem h :
  ok h -> Forall (fun e => erev e <= cur) evs -> Forall (fun p => synced h !! p.1 = Some p.2) ws ->
  demotable h rem ->
  exists h' rem', send_each evs ws rem h = (h', Ok rem') /\ ok h' /\ demotable h' rem' /\
    synced h' = synced h /\ unsynced h' = unsynced h.
Proof.
  intros H He Hws. revert h rem H Hws. induction ws as [|[id x] ws IH]; intros h rem H Hws Hrem.
  { by exists h, rem. }
  apply Forall_cons in Hws as [Hs Hws]. simpl in Hs. cbn [send_each].
  destruct (ho_grp _ _ _ _ _ H true id x Hs) as (w & Hw & Hid & _).
  destruct (sendAll_ok (got x) w evs) as (d & r & Hrun & Hok & Hd & Hr); [by eapply ho_wt|].
  pose proof (deliver_ok id x w d h evs H Hs Hw Hok Hd He) as H'.
  set (h' := set_wt x (delivered d w) h) in *.
  assert (demotable h' rem) as Hrem'.
  { intros id' e' x' w' Hin Ho Hs' Hw'. simpl in Hs', Hw'.
    apply lookup_insert_Some in Hw' as [[<- <-]|[_ Hw']]; [|by eapply Hrem].
    simpl. apply after_le; [by eapply Hrem|by eapply Forall_incl]. }
  assert (try (on_wt x (sendAll evs)) h = (h', match r with Err e => Ok (inr e) | _ => Ok (inl tt) end)) as Htry.
  { unfold try, on_wt. rewrite Hw, Hrun. destruct Hr as [->|[->|[-> _]]]; done. }
  assert (id_of x h' = id) as Hid'.
  { unfold id_of, h'. simpl. by rewrite lookup_insert_eq. }
  unfold mbind at 1, M_bind at 1. rewrite Htry. destruct Hr as [->|Hr]; [by apply (IH h')|].
  assert (exists e, r = Err e /\ demotable h' (rem ++ [(id, e)])) as (e & -> & Hrem2).
  { destruct Hr as [->|[-> (ev & Hev & Hlt)]]; eexists; (split; [done|]);
      intros id' e' x' w' [Hin|[= -> ->]%list_elem_of_singleton]%elem_of_app Ho Hs' Hw'; try by eapply Hrem'.
    - by apply list_elem_of_singleton in Ho.
    - simpl in Hs', Hw'. assert (x' = x) as -> by congruence. rewrite lookup_insert_eq in Hw'. injection Hw' as <-.
      pose proof (proj1 (Forall_forall _ _) He ev Hev). simpl in *. lia. }
  unfold mbind, M_bind, get_st. rewrite Hid'. by apply (IH h').
Qed.

Lemma hub_order_groups {HO : HubOrder} sy h :
  Forall (fun p => group sy h !! p.1 = Some p.2) (hub_order (group sy h)).
Proof.
  apply Forall_forall. intros [id x] Hin. rewrite hub_order_perm in Hin. by apply elem_of_map_to_list in Hin.
Qed.

Lemma hub_OnCommit_ok {HO : HubOrder} changes h :
  ok h -> Forall (fun e => ModRev e <= cur) changes -> runs_ok ok (hub_OnCommit changes) h.
Proof.
  intros H Hc. unfold hub_OnCommit. rewrite ToKvEvents_Some.
  destruct (send_each_ok (event_of <$> changes) (hub_order (synced h)) [] h) as (h' & rem & E & H' & Hrem & _).
  { done. }
  { by apply (Forall_fmap event_of). }
  { apply (hub_order_groups true). }
  { by intros id e x w ?%not_elem_of_nil. }
  eapply runs_ok_bind; [by apply runs_ok_ret|]. intros _ _ [= <- <-] _.
  eapply runs_ok_bind; [by apply runs_ok_ret|]. intros _ _ [= <- <-] _.
  eapply runs_ok_bind; [unfold runs_ok; by rewrite E|]. intros rem2 h2. rewrite E. intros [= <- <-] _.
  by apply remove_each_ok.
Qed.

Lemma DropAll_ok {HO : HubOrder} h : ok h -> runs_ok ok DropAll h.
Proof.
  intros H. unfold DropAll. eapply runs_ok_bind; [by apply runs_ok_ret|]. intros _ _ [= <- <-] _.
  eapply runs_ok_bind; [by apply drop_each_ok|]. intros [] h' _ H'.
  eapply runs_ok_bind; [by apply runs_ok_ret|]. intros _ _ [= <- <-] _. by apply drop_each_ok.
Qed.
End HubOk.

(** ** Watchers and the store *)

Section WatchStore.
Context {HO : HubOrder} {T St B : Type} {BT : BTree Less T} {BS : ByteStore St B}.
Abbreviation kvs := (KvStore T St B).

Abbreviation store_map s := (kv_map (be_view (kv_backend s))).

Lemma event_bound (s : kvs) k e : kv_inv s -> e ∈ hist (kvIndex s) k -> Main (ke_rev e) <= Main (currentRev s).
Proof.
  intros H He. destruct (ki_bound s H k e He) as [[? ?] Hlt]. unfold rev_lt in Hlt. simpl in Hlt. lia.
Qed.

Lemma entry_at_rev m p ent : entry_at m p ent -> ModRev ent = Main (ke_rev p.2).
Proof. intros (e0 & _ & Ho & ->). apply Ho. Qed.

Lemma foldl_max_le bound a (l : list Z) : a <= bound -> Forall (fun z => z <= bound) l -> foldl Z.max a l <= bound.
Proof. intros Ha Hl. revert a Ha. induction Hl; intros a Ha; [done|]. simpl. apply IHHl. lia. Qed.

(** The revision [Range] reports for a key: the last of its events when the key is live, the
    current one when it is not. *)
Lemma range_last (s : kvs) k :
  kv_inv s -> exists ents n r, reader_Range k None 0 0 s = Ok (ents, n, r) /\ r <= Main (currentRev s) /\
    (k <> [] -> forall e, e ∈ hist (kvIndex s) k -> Main (ke_rev e) <= r).
Proof.
  intros H. unfold reader_Range, Mvcc.Revisions.
  destruct (doRange_spec (kvIndex s) (kv_backend s) _ (Main (currentRev s)) (compactedMainRev s) 0 k None 0
    (ki_idx s H) (ki_be s H) (kv_inv_bucket s H) (ki_coh s H) (ki_cur s H) (ki_comp s H)) as (out & ents & Hans & HF & ->).
  unfold capped in HF. simpl in HF, Hans. do 3 eexists. split; [done|]. split.
  - case_bool_decide; [done|]. apply foldl_max_le; [apply (ki_cur s H)|]. apply (Forall_fmap ModRev).
    apply Forall_forall. intros ent (i & Hi)%list_elem_of_lookup_1.
    destruct (Forall2_lookup_r _ _ _ _ _ HF Hi) as ([x e] & Hxe & Hat). simpl.
    rewrite (entry_at_rev _ _ _ Hat). simpl. apply list_elem_of_lookup_2, Hans in Hxe as [_ Hl].
    apply lookup_at_elem in Hl as (He & _ & _). by eapply event_bound.
  - intros Hk e He. assert (range_query k None = fun x => bool_decide (x = k)) as Hq.
    { unfold range_query, selects. rewrite (bool_decide_eq_false_2 (None = Some _)), andb_false_r by done.
      destruct k; done. }
    rewrite Hq in Hans. case_bool_decide as Eo; [by eapply event_bound|].
    destruct (lookup_at (hist (kvIndex s) k) (Main (currentRev s))) as [e'|] eqn:El.
    2:{ destruct Eo. destruct out as [|[x y] out]; [done|].
        destruct (proj1 (proj2 Hans x y)) as [Ex%bool_decide_eq_true Hxy]; [left|]. congruence. }
    rewrite (answers_one _ _ _ _ _ Hans El) in HF. inversion HF as [|?? ? ? Hat HF']; subst. inversion HF'; subst.
    cbn [fmap list_fmap foldl]. rewrite (entry_at_rev _ _ _ Hat). simpl.
    unfold lookup_at in El. rewrite filter_all in El.
    2:{ apply Forall_forall. intros z Hz. unfold upto. by eapply event_bound. }
    destruct (last (hist (kvIndex s) k)) as [z|] eqn:Ez; [|done]. destruct (ke_tomb z); [done|]. injection El as ->.
    apply last_snoc_inv in Ez as [h' Eh]. pose proof (hist_sorted _ k (ki_idx s H)) as Hs. rewrite Eh in Hs, He.
    rewrite fmap_app in Hs. apply StronglySorted_app in Hs as (Hlt & _). apply elem_of_app in He as [He|He].
    + assert (rev_lt (ke_rev e) (ke_rev e')) as Hr by (apply Hlt; [by apply list_elem_of_fmap_2|left]).
      unfold rev_lt in Hr. lia.
    + apply list_elem_of_singleton in He as ->. lia.
Qed.

(** The watcher a request asks for. *)
Definition watch_end (req : WatchCreateRequest) : option bytes :=
  if wr_Prefix req then PrefixEnd (default [] (wr_Key req)) else wr_End req.
Definition watch_start (req : WatchCreateRequest) (s : kvs) : Z :=
  if wr_StartRevision req =? 0 then Main (currentRev s) else wr_StartRevision req.
Definition watcher_for (newid : Z) (parent : option error) (req : WatchCreateRequest) (s : kvs) : watcher :=
  mkWt (if wr_WatchID req =? 0 then newid else wr_WatchID req) (default [] (wr_Key req)) (watch_end req)
    (watch_start req s) (watch_start req s) (wr_Filter req) (wr_PrevEntry req) parent [] false.
Definition add_watcher (sy : bool) (w : watcher) (h : WatchHub) : WatchHub :=
  set_group sy (<[wt_id w := wh_next h]> (group sy h))
    (mkHub (synced h) (unsynced h) (<[wh_next h := w]> (wtab h)) (S (wh_next h))).

Lemma NewWatcher_run newid parent req (s : kvs) h :
  kv_inv s -> let w := watcher_for newid parent req s in
  exists lastRev, lastRev <= Main (currentRev s) /\
    (wt_keyEnd w = None -> wt_keyStart w <> [] ->
     forall e, e ∈ hist (kvIndex s) (wt_keyStart w) -> Main (ke_rev e) <= lastRev) /\
    (wt_keyEnd w <> None -> lastRev = Main (currentRev s)) /\
    let sy := lastRev <=? wt_startRev w in
    NewWatcher newid parent req s h =
      if bool_decide (is_Some (group sy h !! wt_id w)) then (h, Err [ErrWatcherIDConflict])
      else (add_watcher sy w h, Ok (wh_next h)).
Proof.
  intros H w. unfold NewWatcher, Meta. fold (watch_end req). fold (watch_start req s).
  destruct (range_last s (wt_keyStart w) H) as (ents & n & r & Hr & Hle & Hk).
  exists (match watch_end req with Some _ => Main (currentRev s) | None => r end).
  split_and!; [by destruct (watch_end req)| | |].
  - intros Hn. cbn [w watcher_for wt_keyEnd] in Hn. rewrite Hn. apply Hk.
  - intros Hn. cbn [w watcher_for wt_keyEnd] in Hn. by destruct (watch_end req).
  - cbn [w watcher_for wt_keyStart] in Hr. simpl.
    assert (lift (match watch_end req with
                  | Some _ => Ok (Main (currentRev s))
                  | None => reader_Range (default [] (wr_Key req)) None 0 0 s ≫= fun x => Ok x.2 end) h =
      (h, Ok (match watch_end req with Some _ => Main (currentRev s) | None => r end))) as Hlift.
    { unfold lift. destruct (watch_end req); [done|]. by rewrite Hr. }
    unfold mbind at 1, M_bind at 1. rewrite Hlift. unfold mbind, M_bind, get_st, modify, mret, M_ret, fail.
    by case_bool_decide.
Qed.

Lemma add_watcher_ok got cur b rm sy w h :
  hub_ok got cur b rm h -> wt_c w = [] -> wt_closed w = false -> wt_startRev w = wt_currentRev w ->
  (sy = false -> wt_currentRev w <= cur) -> hub_ok got cur b rm (add_watcher sy w h).
Proof.
  intros H Hc Hx Hst Hu.
  assert (wtab h !! wh_next h = None) as Hfresh.
  { destruct (wtab h !! wh_next h) as [v|] eqn:E; [|done]. apply H in E as [_ E]. lia. }
  assert (forall y v, wtab h !! y = Some v -> y <> wh_next h) as Hne by (intros y v Hy ->; congruence).
  assert (forall sy' id y, group sy' (add_watcher sy w h) !! id = Some y ->
    group sy' h !! id = Some y /\ y <> wh_next h \/ sy' = sy /\ id = wt_id w /\ y = wh_next h) as Hsub.
  { intros sy' id y. unfold add_watcher. rewrite group_set.
    assert (forall t n, group sy' (mkHub (synced h) (unsynced h) t n) = group sy' h) as -> by (by destruct sy').
    assert (group sy' h !! id = Some y -> y <> wh_next h) as Hg.
    { intros Hy. destruct (ho_grp _ _ _ _ _ H _ _ _ Hy) as (v & Hv & _). by eapply Hne. }
    case_bool_decide; [subst sy'; intros [[<- <-]|[_ Hy]]%lookup_insert_Some|]; auto. }
  assert (wtab (add_watcher sy w h) = <[wh_next h := w]> (wtab h)) as Ht by (unfold add_watcher; by rewrite wtab_set_group).
  assert (wh_next (add_watcher sy w h) = S (wh_next h)) as Hn by (unfold add_watcher; by rewrite next_set_group).
  split; rewrite ?Ht, ?Hn.
  - intros y v [[<- <-]|[_ Hy]]%lookup_insert_Some; [|by apply H in Hy as [? ?]; split; [done|lia]].
    split; [|lia]. rewrite (ho_fresh _ _ _ _ _ H) by done. split; rewrite ?Hc; simpl; try (by constructor) || lia.
    congruence.
  - intros y Hy. apply H. lia.
  - intros sy' id y [[Hy Hyn]|(-> & -> & ->)]%Hsub.
    + rewrite lookup_insert_ne by done. by eapply ho_grp.
    + rewrite lookup_insert_eq. by exists w.
  - intros id y Hs%(Hsub true) Hv%(Hsub false).
    destruct Hs as [[Hs ?]|(E0 & -> & ->)], Hv as [[Hv ?]|(E & ? & ?)]; try congruence. by eapply ho_disj.
  - intros id y v Hg%(Hsub false) Hv. destruct Hg as [[Hg Hyn]|(<- & -> & ->)].
    + rewrite lookup_insert_ne in Hv by done. by eapply ho_uns.
    + rewrite lookup_insert_eq in Hv. injection Hv as <-. by apply Hu.
  - intros id y Hb. destruct (ho_batch _ _ _ _ _ H _ _ Hb) as [Hns (v & Hv & Hid & Hle)].
    pose proof (Hne _ _ Hv) as Hyn. rewrite lookup_insert_ne by done. split; [|by eauto].
    by intros [[Hs _]|(_ & _ & ?)]%(Hsub true).
  - apply H.
Qed.

Lemma NewWatcher_ok got b rm newid parent req (s : kvs) h :
  kv_inv s -> hub_ok got (Main (currentRev s)) b rm h ->
  runs_ok (hub_ok got (Main (currentRev s)) b rm) (NewWatcher newid parent req s) h.
Proof.
  intros Hs H. destruct (NewWatcher_run newid parent req s h Hs) as (lr & Hle & _ & _ & Hrun).
  unfold runs_ok. rewrite Hrun. case_bool_decide; [done|]. split; [|done].
  apply add_watcher_ok; try done. simpl. rewrite Z.leb_gt. lia.
Qed.


(** What the catch-up loop reads: the stored entry of each event. *)
Definition read_of (s : kvs) (p : bytes * kevent) (ent : Entry) : Prop :=
  exists e0, store_map s !! bk_of p.2 = Some (Some (entry_bytes e0)) /\ entry_of p.1 p.2 e0 /\ ent = stored e0.

Lemma read_events_run (s : kvs) (evs : list (bytes * kevent)) :
  kv_inv s -> Forall (fun p => p.2 ∈ hist (kvIndex s) p.1) evs ->
  exists ents, Forall2 (read_of s) evs ents /\
    read_events (kv_backend s) (event_key ∘ snd <$> evs) = Ok (Some (event_of <$> ents)).
Proof.
  intros H. induction 1 as [|[k e] evs He _ (ents & HF & IH)].
  { exists []. by split; [constructor|]. }
  destruct (ki_coh s H k e He) as (e0 & Hl & Ho). exists (stored e0 :: ents).
  split; [constructor; [by exists e0|done]|].
  cbn [fmap list_fmap read_events compose snd]. rewrite EncodeKvBucketKey_new.
  unfold mbind at 1, res_bind at 1.
  rewrite (UnsafeGet_spec _ _ _ _ (ki_be s H) (kv_inv_bucket s H)).
  unfold bk_of in Hl. unfold event_key. rewrite Hl. cbn [mjoin option_join].
  rewrite DecodeEntry_stored by apply Ho. rewrite ToKvEvent_Some. cbn [mbind res_bind].
  unfold event_key in IH. by rewrite IH.
Qed.

Lemma RevisionsRange_events k end_ a z (s : kvs) :
  kv_inv s -> exists evs, RevisionsRange k end_ a z (kvIndex s) = Ok (event_key ∘ snd <$> evs) /\
    Forall (fun p => p.2 ∈ hist (kvIndex s) p.1 /\ a < Main (ke_rev p.2) < z) evs.
Proof.
  intros H. pose proof (ki_idx s H) as Hidx.
  destruct (RevisionsRange k end_ a z (kvIndex s)) as [bks|e|] eqn:E;
    [|by rewrite RevisionsRange_window in E..].
  assert (Forall (fun bk => exists p, bk = event_key p.2 /\ p.2 ∈ hist (kvIndex s) p.1 /\ a < Main (ke_rev p.2) < z) bks) as Hall.
  { apply Forall_forall. intros bk Hbk.
    destruct (RevisionsRange_elem _ _ _ _ _ _ _ Hidx E Hbk) as (x & ev & _ & Hev & -> & Hw). by exists (x, ev). }
  clear E. induction Hall as [|bk bks (p & -> & Hp) _ (evs & Eq & IH)]; [by exists []|].
  exists (p :: evs). injection Eq as Eq. split; [by rewrite Eq|by constructor].
Qed.


(** ** The catch-up loop *)

Definition loop_ok (got : nat -> list Event) (cur : Z) (st : WatchHub * UnsyncedLoop) : Prop :=
  hub_ok got cur (unsyncedBatch st.2) (Main (u_revs st.2).1) st.1.

Lemma hub_ok_weaken got cur cur' b b' rm rm' h :
  hub_ok got cur b rm h -> cur <= cur' -> b' ⊆ b -> rm <= rm' -> rm' <= cur' -> hub_ok got cur' b' rm' h.
Proof.
  intros [H1 H2 H3 H4 H5 H6 H7] Hc Hb Hr Hrc. split; try done.
  - intros id x w Hu Hw. specialize (H5 id x w Hu Hw). lia.
  - intros id x Hx. destruct (H6 id x) as [? (w & ? & ? & ?)]; [by eapply lookup_weaken|].
    split; [done|]. exists w. split_and!; [done..|lia].
Qed.

Lemma fold_batch (l : list (Z * nat)) (n : nat) (b : gmap Z nat) id x :
  foldl (fun b p => if (size b <? n)%nat then <[p.1 := p.2]> b else b) b l !! id = Some x ->
  b !! id = Some x \/ (id, x) ∈ l.
Proof.
  revert b. induction l as [|[id' x'] l IH]; intros b; simpl; [by left|]. intros [Hb|Hl]%IH; [|right; by right].
  destruct (size b <? n)%nat; [|by left]. apply lookup_insert_Some in Hb as [[<- <-]|[_ Hb]]; [right; left|by left].
Qed.

Lemma tick_collect_ok got (s : kvs) h u :
  loop_ok got (Main (currentRev s)) (h, u) -> loop_ok got (Main (currentRev s)) (h, tick_collect s h u).
Proof.
  intros H. unfold loop_ok in *. simpl in *. pose proof (ho_rm _ _ _ _ _ H) as Hrm.
  destruct (hub_ok_weaken _ _ (Main (currentRev s)) _ _ _ (Main (currentRev s)) _ H (Z.le_refl _) (reflexivity _) Hrm (Z.le_refl _))
    as [H1 H2 H3 H4 H5 H6 H7].
  split; try done. intros id x [Hb|Hl]%fold_batch; [by apply H6|].
  pose proof (proj1 (Forall_forall _ _) (hub_order_groups false h) _ Hl) as Hu. simpl in Hu. split.
  - intros Hs. by eapply H4.
  - destruct (H3 false id x Hu) as (w & Hw & Hid & _). exists w. split_and!; [done..|]. by eapply H5.
Qed.

Lemma fast_forward_ok g rm w : wt_ok g w -> wt_currentRev w <= rm -> wt_ok g (set_currentRev_w rm w).
Proof.
  intros [Hs He Hst Hr Hx] Hle. split; simpl; try done; [|lia].
  eapply Forall_impl; [exact He|]. simpl. intros e [Hm Hb]. split; [done|]. lia.
Qed.

(** The batch watcher [x] takes a new state, at or below the revision of the tick. *)
Lemma batch_set_ok got cur b rm id x w w' h :
  hub_ok got cur b rm h -> b !! id = Some x -> wtab h !! x = Some w -> wt_ok (got x) w' ->
  wt_id w' = wt_id w -> wt_closed w' = wt_closed w -> wt_currentRev w' <= rm -> hub_ok got cur b rm (set_wt x w' h).
Proof.
  intros H Hb Hw Hok Hid Hcl Hle. pose proof (ho_rm _ _ _ _ _ H). eapply set_wt_ok; try done. intros. lia.
Qed.

(** A turn of the loop leaves the batch and the revisions of the tick alone. *)
Definition same_tick (st st' : WatchHub * UnsyncedLoop) : Prop :=
  unsyncedBatch st'.2 = unsyncedBatch st.2 /\ u_revs st'.2 = u_revs st.2.

Lemma same_tick_ok got cur h u st' :
  hub_ok got cur (unsyncedBatch u) (Main (u_revs u).1) st'.1 -> same_tick (h, u) st' -> loop_ok got cur st'.
Proof. intros H [E1 E2]. unfold loop_ok. simpl in *. by rewrite E1, E2. Qed.

Lemma feed_start_ok got (s : kvs) id x st :
  kv_inv s -> loop_ok got (Main (currentRev s)) st -> MinInt64 <= Main (u_revs st.2).1 ->
  unsyncedBatch st.2 !! id = Some x ->
  exists st' o, feed_start x s st = (st', Ok o) /\ loop_ok got (Main (currentRev s)) st' /\ same_tick st st' /\
    (forall f, o = Some f -> st' = st /\ fd_ref f = x /\ fd_checked f = false /\
       Forall (fun e => erev e <= Main (u_revs st.2).1) (fd_events f)).
Proof.
  intros Hs H Hmin Hb. destruct st as [h u]. unfold loop_ok in H. simpl in H, Hb, Hmin.
  destruct (ho_batch _ _ _ _ _ H _ _ Hb) as [_ (w & Hw & Hid & Hle)].
  destruct (ho_wt _ _ _ _ _ H _ _ Hw) as [Hok _].
  unfold feed_start. cbn [fst snd]. rewrite Hw.
  case_match; [by do 2 eexists|]. case_match; [by do 2 eexists|].
  destruct (RevisionsRange_events (wt_keyStart w) (wt_keyEnd w) (wt_currentRev w) (i64 (Main (u_revs u).1 + 1)) s Hs)
    as (evs & -> & Hevs).
  destruct (event_key ∘ snd <$> evs) as [|bk bks] eqn:Ebks.
  { do 2 eexists. split; [done|]. split; [|done]. unfold loop_ok. simpl.
    eapply batch_set_ok; eauto using fast_forward_ok. simpl. lia. }
  destruct (read_events_run s evs Hs) as (ents & HF & Hread).
  { eapply Forall_impl; [exact Hevs|]. simpl. tauto. }
  rewrite Ebks in Hread. rewrite Hread. do 2 eexists. split; [done|]. split; [done|]. split; [done|].
  intros f [= <-]. split_and!; try done. cbn [fd_events].
  apply (Forall_fmap event_of), Forall_forall. intros ent (i & Hi)%list_elem_of_lookup_1.
  destruct (Forall2_lookup_r _ _ _ _ _ HF Hi) as (p & Hp & (e0 & _ & Ho & ->)).
  apply list_elem_of_lookup_2 in Hp. pose proof (proj1 (Forall_forall _ _) Hevs p Hp) as [_ Hlt].
  unfold erev. simpl in *. rewrite (eo_mod _ _ _ Ho). pose proof (i64_le (Main (u_revs u).1 + 1)). lia.
Qed.

Lemma feed_done_run f r st w :
  wtab st.1 !! fd_ref f = Some w ->
  exists u', feed_done f r st = ((st.1, u'), Ok tt) /\ same_tick st (st.1, u').
Proof.
  intros Hw. destruct st as [h u]. unfold feed_done. simpl in *. rewrite Hw.
  destruct r as [[]|e]; repeat case_match; by eexists.
Qed.

Lemma feed_ok got (s : kvs) id x st :
  kv_inv s -> loop_ok got (Main (currentRev s)) st -> MinInt64 <= Main (u_revs st.2).1 ->
  unsyncedBatch st.2 !! id = Some x ->
  exists st', feed x s st = (st', Ok tt) /\ loop_ok got (Main (currentRev s)) st' /\ same_tick st st'.
Proof.
  intros Hs H Hmin Hb. unfold feed, mbind, M_bind.
  destruct (feed_start_ok got s id x st Hs H Hmin Hb) as (st1 & o & -> & H1 & Ht & Hf).
  destruct o as [f|]; [|by eexists]. destruct (Hf f eq_refl) as (-> & Hx & _ & Hle). clear Hf.
  unfold loop_ok in H. destruct (ho_batch _ _ _ _ _ H _ _ Hb) as [_ (w & Hw & Hid & Hrm)].
  destruct (ho_wt _ _ _ _ _ H _ _ Hw) as [Hok _].
  destruct (sendAll_ok (got x) w (fd_events f) Hok) as (d & r & Hrun & Hok' & Hd & Hr).
  unfold on_hub_part, try, on_wt. rewrite Hw, Hrun.
  assert (loop_ok got (Main (currentRev s)) (set_wt x (delivered d w) st.1, st.2)) as H'.
  { unfold loop_ok. simpl. eapply batch_set_ok; eauto. simpl. apply after_le; [done|]. by eapply Forall_incl. }
  assert (forall r0, exists st', feed_done f r0 (set_wt x (delivered d w) st.1, st.2) = (st', Ok tt) /\
    loop_ok got (Main (currentRev s)) st' /\ same_tick st st') as Hdone.
  { intros r0. destruct (feed_done_run f r0 (set_wt x (delivered d w) st.1, st.2) (delivered d w)) as (u' & E & Hst).
    { simpl. by rewrite Hx, lookup_insert_eq. }
    eexists. split; [exact E|]. split; [|by destruct Hst]. by eapply same_tick_ok. }
  destruct Hr as [->|[->|[-> _]]]; apply Hdone.
Qed.

(** The end of a tick: with the batch out of the way the moves are safe. *)
Definition hub_part (got : nat -> list Event) (cur rm : Z) (st : WatchHub * UnsyncedLoop) : Prop :=
  hub_ok got cur ∅ rm st.1 /\ Main (u_revs st.2).1 = rm.

Lemma drop_failed_run got cur rm l st :
  hub_part got cur rm st -> exists st', drop_failed l st = (st', Ok tt) /\ hub_part got cur rm st'.
Proof.
  revert st. induction l as [|[wid e] l IH]; intros st [H Hr]; [by exists st|]. cbn [drop_failed].
  unfold mbind, M_bind, modify, unsafeDropFailedWatcher. destruct (unsynced st.1 !! wid) as [x|].
  - destruct (unsafeDropFromGroup_run _ _ _ _ false (id_of x st.1) e st.1 H) as (h' & -> & H' & _). by apply IH.
  - by apply IH.
Qed.

Lemma promote_each_ok got cur rm l st : hub_part got cur rm st -> hub_part got cur rm (promote_each l st).
Proof.
  revert st. induction l as [|wid l IH]; intros st [H Hr]; [done|]. cbn [promote_each]. apply IH.
  split; [|done]. change (hub_ok got cur ∅ rm (unsafePromote wid st.1).1). rewrite (unsafePromote_run _ _ _ _ _ _ H). simpl.
  destruct (unsynced st.1 !! wid) as [x|] eqn:E; [|done].
  destruct (ho_grp _ _ _ _ _ H false wid x E) as (w & Hw & _). by eapply move_ok.
Qed.

Lemma tick_finish_ok got cur st : loop_ok got cur st -> runs_ok (loop_ok got cur) tick_finish st.
Proof.
  intros H. assert (hub_part got cur (Main (u_revs st.2).1) st) as Hp.
  { split; [|done]. pose proof (ho_rm _ _ _ _ _ H). eapply hub_ok_weaken; [exact H|lia|apply map_empty_subseteq|lia..]. }
  unfold tick_finish, runs_ok, mbind, M_bind, get_st.
  destruct (drop_failed_run _ _ _ (map_to_list (deleteBatch st.2)) _ Hp) as (st1 & -> & H1).
  split; [|done]. destruct (promote_each_ok _ _ _ (elements (promoteBatch st.2)) _ H1) as [H3 H4].
  unfold modify, loop_ok. simpl. by rewrite H4.
Qed.

End WatchStore.
