(* ===== verification/WatchSys.v ===== *)
(** The watch subsystem at work: the hub, its watchers and the catch-up loop as a
    transition system whose steps interleave freely with commits of the store, and the
    theorems about what watchers receive. *)

From S2P Require Import Prelude OrdTree KvTypes KeyIndex TreeIndex IndexRevs Storage Inmem Backend Mvcc MvccInv Compaction Api Engine Watch WatchInv.
From Stdlib Require Import ZArith Lia.
From stdpp Require Import base gmap sets list strings sorting.
Open Scope Z_scope.

Section WatchSys.
Context {HO : HubOrder} {T St B : Type} {BT : BTree Less T} {BS : ByteStore St B}.
Abbreviation kvs := (KvStore T St B).

(** [sy_got x] is what the goroutine that drains watcher [x] has taken from its channel,
    [sy_feeding] where the catch-up loop is in the turn of a watcher. *)
Record WatchSys := mkSys {
  sy_hub : WatchHub; sy_loop : UnsyncedLoop; sy_store : kvs; sy_got : nat -> list Event;
  sy_feeding : option feeding; sy_panic : bool }.

Definition sys_init (s : kvs) : WatchSys := mkSys NewWatchHub NewUnsyncedLoop s (fun _ => []) None false.

Definition is_panic {X} (r : res X) : bool := match r with Panicked => true | _ => false end.
Definition res_opt {X} (r : res (option X)) : option X := match r with Ok o => o | _ => None end.

(** A step of the hub, one of the catch-up loop, and one within the turn of a watcher. *)
Definition on_hub {X} (m : M WatchHub X) (st : WatchSys) : WatchSys :=
  let '(h, r) := m (sy_hub st) in
  mkSys h (sy_loop st) (sy_store st) (sy_got st) (sy_feeding st) (sy_panic st || is_panic r).
Definition on_loop {X} (m : M (WatchHub * UnsyncedLoop) X) (st : WatchSys) : WatchSys :=
  let '((h, u), r) := m (sy_hub st, sy_loop st) in
  mkSys h u (sy_store st) (sy_got st) (sy_feeding st) (sy_panic st || is_panic r).
Definition on_feed (m : M (WatchHub * UnsyncedLoop) (option feeding)) (st : WatchSys) : WatchSys :=
  let '((h, u), r) := m (sy_hub st, sy_loop st) in
  mkSys h u (sy_store st) (sy_got st) (res_opt r) (sy_panic st || is_panic r).
Definition set_loop (u : UnsyncedLoop) (st : WatchSys) : WatchSys :=
  mkSys (sy_hub st) u (sy_store st) (sy_got st) (sy_feeding st) (sy_panic st).

Definition take_event (x : nat) (w : watcher) (ev : Event) (rest : list Event) (st : WatchSys) : WatchSys :=
  mkSys (set_wt x (set_c rest w) (sy_hub st)) (sy_loop st) (sy_store st)
    (fun y => if decide (y = x) then sy_got st x ++ [ev] else sy_got st y) (sy_feeding st) (sy_panic st).

(** A commit and its notification are separate steps: between them, and between the steps
    of a tick, anything may happen. [sy_unread] is the turn of a watcher whose revisions
    were compacted between the reads of the index and of the bucket. *)
Inductive sys_step (st : WatchSys) : WatchSys -> Prop :=
  | sy_commit s' : kv_inv s' -> Main (currentRev (sy_store st)) <= Main (currentRev s') ->
      sys_step st (mkSys (sy_hub st) (sy_loop st) s' (sy_got st) (sy_feeding st) (sy_panic st))
  | sy_notify changes : Forall (fun e => ModRev e <= Main (currentRev (sy_store st))) changes ->
      sys_step st (on_hub (hub_OnCommit changes) st)
  | sy_new newid parent req : sys_step st (on_hub (NewWatcher newid parent req (sy_store st)) st)
  | sy_drop id : sys_step st (on_hub (DropWatcher id) st)
  | sy_unsafeDrop id : sys_step st (on_hub (unsafeDropWatcher id) st)
  | sy_dropAll : sys_step st (on_hub DropAll st)
  | sy_cancel x w e : wtab (sy_hub st) !! x = Some w -> sys_step st (on_hub (on_wt x (modify (wt_cancel e))) st)
  | sy_recv x w ev rest : wtab (sy_hub st) !! x = Some w -> wt_c w = ev :: rest ->
      sys_step st (take_event x w ev rest st)
  | sy_collect : sy_feeding st = None ->
      sys_step st (set_loop (tick_collect (sy_store st) (sy_hub st) (sy_loop st)) st)
  | sy_start id x : sy_feeding st = None -> unsyncedBatch (sy_loop st) !! id = Some x ->
      sys_step st (on_feed (feed_start x (sy_store st)) st)
  | sy_unread id x : sy_feeding st = None -> unsyncedBatch (sy_loop st) !! id = Some x ->
      sys_step st (set_loop (incFailures (id_of x (sy_hub st)) (sy_loop st)) st)
  | sy_check f : sy_feeding st = Some f -> fd_checked f = false -> sys_step st (on_feed (feed_check f) st)
  | sy_select f w c : sy_feeding st = Some f -> fd_checked f = true -> wtab (sy_hub st) !! fd_ref f = Some w ->
      select_ready c w = true -> sys_step st (on_feed (feed_select c f) st)
  | sy_finish : sy_feeding st = None -> sys_step st (on_loop tick_finish st).

(** *** Watchers keep what they watch *)

(** An operation of the hub may change a watcher, but not which events it asks for. *)
Definition static {X} (m : M watcher X) : Prop := forall w, same_watch w (m w).1.
Definition kept {X} (m : M WatchHub X) (h : WatchHub) : Prop :=
  forall x w, wtab h !! x = Some w -> exists w', wtab (m h).1 !! x = Some w' /\ same_watch w w'.

Lemma static_bind {X Y} (m : M watcher X) (f : X -> M watcher Y) :
  static m -> (forall a, static (f a)) -> static (m ≫= f).
Proof.
  intros Hm Hf w. specialize (Hm w). unfold mbind, M_bind. destruct (m w) as [w' [a|e|]]; [|done..].
  etransitivity; [exact Hm|apply Hf].
Qed.
Lemma sendAll_static evs : static (sendAll evs).
Proof.
  induction evs as [|e evs IH]; [done|]. cbn [sendAll]. apply static_bind; [|intros sent; apply static_bind; [|done]].
  - intros w. unfold send, mbind, M_bind, get_st, modify. by repeat case_match; simplify_eq/=.
  - intros w. unfold sendAll_advance, mbind, M_bind, get_st, modify. by repeat case_match; simplify_eq/=.
Qed.
Lemma wt_close_static e : static (wt_close e).
Proof. intros w. unfold wt_close, mbind, M_bind, get_st, modify. by repeat case_match; simplify_eq/=. Qed.

Lemma kept_bind {X Y} (m : M WatchHub X) (f : X -> M WatchHub Y) h :
  kept m h -> (forall a h', kept (f a) h') -> kept (m ≫= f) h.
Proof.
  intros Hm Hf x w Hw. specialize (Hm x w Hw). unfold mbind, M_bind. destruct (m h) as [h' [a|e|]]; [|done..].
  destruct Hm as (w1 & Hw1 & S1). destruct (Hf a h' x w1 Hw1) as (w2 & Hw2 & S2).
  exists w2. split; [done|]. by etransitivity.
Qed.
Lemma kept_table {X} (m : M WatchHub X) h : wtab (m h).1 = wtab h -> kept m h.
Proof. intros E x w Hw. rewrite E. by exists w. Qed.
Lemma kept_on_wt {X} y (m : M watcher X) h : static m -> kept (on_wt y m) h.
Proof.
  intros Hm x w Hw. unfold on_wt. destruct (wtab h !! y) as [v|] eqn:Ev; [|by exists w].
  specialize (Hm v). destruct (m v) as [v' r]. simpl in *. destruct (decide (x = y)) as [->|].
  - rewrite lookup_insert_eq. exists v'. split; [done|]. by assert (v = w) as <- by congruence.
  - rewrite lookup_insert_ne by done. by exists w.
Qed.
Lemma kept_try {X} (m : M WatchHub X) h : kept m h -> kept (try m) h.
Proof. intros Hm x w Hw. specialize (Hm x w Hw). unfold try. by destruct (m h) as [h' []]. Qed.

Lemma kept_dropFrom sy id e h : kept (unsafeDropFromGroup sy id e) h.
Proof.
  unfold unsafeDropFromGroup. apply kept_bind; [by apply kept_table|]. intros h0 h'.
  destruct (group sy h0 !! id); [|by apply kept_table]. apply kept_bind; [apply kept_on_wt, wt_close_static|].
  intros _ h2. apply kept_table. simpl. apply wtab_set_group.
Qed.
Lemma kept_unsafeDrop id h : kept (unsafeDropWatcher id) h.
Proof.
  apply kept_bind; [by apply kept_table|]. intros h0 h'. repeat case_bool_decide; auto using kept_dropFrom, kept_table.
Qed.
Lemma kept_drop id h : kept (DropWatcher id) h.
Proof.
  apply kept_bind; [by apply kept_table|]. intros h0 h'.
  repeat case_bool_decide; [apply kept_bind..|]; auto using kept_dropFrom, kept_table.
Qed.
Lemma kept_drop_each sy ids h : kept (drop_each sy ids) h.
Proof.
  revert h. induction ids as [|id ids IH]; intros h; [by apply kept_table|].
  apply kept_bind; [apply kept_dropFrom|]. intros _ h'. apply IH.
Qed.
Lemma kept_dropAll h : kept DropAll h.
Proof.
  apply kept_bind; [by apply kept_table|]. intros h0 h'. apply kept_bind; [apply kept_drop_each|].
  intros _ h2. apply kept_bind; [by apply kept_table|]. intros h3 h4. apply kept_drop_each.
Qed.
Lemma kept_send_each evs ws rem h : kept (send_each evs ws rem) h.
Proof.
  revert rem h. induction ws as [|[id x] ws IH]; intros rem h; [by apply kept_table|].
  apply kept_bind; [apply kept_try, kept_on_wt, sendAll_static|]. intros [[]|e] h'; [apply IH|].
  apply kept_bind; [by apply kept_table|]. intros h0 h2. apply IH.
Qed.
Lemma kept_remove_each rem h : kept (remove_each rem) h.
Proof.
  revert h. induction rem as [|[id e] rem IH]; intros h; [by apply kept_table|].
  apply kept_bind; [|intros _ h'; apply IH]. case_match; [|apply kept_dropFrom].
  apply kept_table. unfold unsafeDemote, modify. simpl. by destruct (synced h !! id).
Qed.
Lemma kept_OnCommit changes h : kept (hub_OnCommit changes) h.
Proof.
  apply kept_bind; [by apply kept_table|]. intros evs h'. apply kept_bind; [by apply kept_table|].
  intros h0 h2. apply kept_bind; [apply kept_send_each|]. intros rem h3. apply kept_remove_each.
Qed.
Lemma kept_new newid parent req (s : kvs) h :
  kv_inv s -> wtab h !! wh_next h = None -> kept (NewWatcher newid parent req s) h.
Proof.
  intros Hs Hn x w Hw. destruct (NewWatcher_run newid parent req s h Hs) as (lr & _ & _ & _ & ->).
  case_bool_decide; [by exists w|]. unfold add_watcher. simpl. rewrite wtab_set_group. simpl.
  rewrite lookup_insert_ne by congruence. by exists w.
Qed.

(** *** The invariant *)

(** A turn is about a watcher of the batch and events up to the revision of the tick, and
    the event that has been tested is still one to send. *)
Definition feed_inv (h : WatchHub) (u : UnsyncedLoop) (f : feeding) : Prop :=
  (exists id, unsyncedBatch u !! id = Some (fd_ref f)) /\
  Forall (fun e => erev e <= Main (u_revs u).1) (fd_events f) /\
  (fd_checked f = true -> exists e rest, fd_events f = e :: rest /\
     forall w, wtab h !! fd_ref f = Some w -> matches e w = true /\ wt_currentRev w < erev e).

Record sys_ok (st : WatchSys) : Prop := {
  so_store : kv_inv (sy_store st);
  so_loop : loop_ok (sy_got st) (Main (currentRev (sy_store st))) (sy_hub st, sy_loop st);
  so_revs : 0 <= Main (u_revs (sy_loop st)).1;
  so_feed : forall f, sy_feeding st = Some f -> feed_inv (sy_hub st) (sy_loop st) f }.

(** The catch-up loop is about to send on a channel that was closed after its test. *)
Definition racing (st : WatchSys) : Prop :=
  exists f w, sy_feeding st = Some f /\ fd_checked f = true /\ wtab (sy_hub st) !! fd_ref f = Some w /\ wt_closed w = true.

(** What a step keeps. *)
Definition steps_ok (st st' : WatchSys) : Prop := sys_ok st' /\ (sy_panic st' = sy_panic st \/ racing st).

Lemma sys_init_ok s : kv_inv s -> sys_ok (sys_init s).
Proof.
  intros Hs. pose proof (ki_cur s Hs). split; try done. unfold loop_ok, sys_init, NewWatchHub. simpl.
  split; simpl; try done; try (intros sy id x; by destruct sy); intros *; by rewrite ?lookup_empty.
Qed.

Lemma hub_ok_pin got cur b rm h id x w :
  hub_ok got cur b rm h -> b !! id = Some x -> wtab h !! x = Some w -> hub_ok got cur {[id := x]} (wt_currentRev w) h.
Proof.
  intros [H1 H2 H3 H4 H5 H6 H7] Hb Hw. destruct (H6 id x Hb) as [Hs (v & Hv & Hid & Hle)].
  assert (v = w) as -> by congruence. split; try done; [|lia].
  intros id' x' [<- <-]%lookup_singleton_Some. split; [done|]. by exists w.
Qed.

(** A watcher in its turn is not moved forward by anything but the loop. *)
Lemma feed_inv_hub {X} got cur (m : M WatchHub X) h u f :
  hub_ok got cur (unsyncedBatch u) (Main (u_revs u).1) h -> kept m h ->
  (forall b rm, hub_ok got cur b rm h -> runs_ok (hub_ok got cur b rm) m h) ->
  feed_inv h u f -> feed_inv (m h).1 u f.
Proof.
  intros H Hk Hm ([id Hb] & Hle & Hc). split; [by exists id|]. split; [done|]. intros Hchk.
  destruct (Hc Hchk) as (e & rest & E & Hw). exists e, rest. split; [done|]. intros w' Hw'.
  destruct (ho_batch _ _ _ _ _ H _ _ Hb) as [_ (w & Hw0 & _)]. destruct (Hw w Hw0) as [Hmt Hlt].
  destruct (Hk _ _ Hw0) as (w1 & Hw1 & Hsame). assert (w1 = w') as -> by congruence.
  rewrite (matches_same _ _ _ Hsame). split; [done|].
  destruct (Hm _ _ (hub_ok_pin _ _ _ _ _ _ _ _ H Hb Hw0)) as [H' _].
  destruct (ho_batch _ _ _ _ _ H' id (fd_ref f)) as [_ (w2 & Hw2 & _ & Hle2)]; [by rewrite lookup_singleton_eq|].
  assert (w2 = w') as -> by congruence. lia.
Qed.

Lemma on_hub_ok {X} (m : M WatchHub X) st :
  sys_ok st -> kept m (sy_hub st) ->
  (forall b rm, hub_ok (sy_got st) (Main (currentRev (sy_store st))) b rm (sy_hub st) ->
     runs_ok (hub_ok (sy_got st) (Main (currentRev (sy_store st))) b rm) m (sy_hub st)) ->
  steps_ok st (on_hub m st).
Proof.
  intros [H1 H2 H3 H4] Hk Hm. pose proof (Hm _ _ H2) as [Hr Hp].
  assert (forall f, sy_feeding st = Some f -> feed_inv (m (sy_hub st)).1 (sy_loop st) f) as Hf.
  { intros f Ef. eapply feed_inv_hub; [exact H2|done..|]. by apply H4. }
  unfold on_hub. destruct (m (sy_hub st)) as [h r]. simpl in *. split; [by split|].
  left. simpl. destruct r; by rewrite ?orb_false_r.
Qed.

Lemma drop_failed_frame l st : u_revs (drop_failed l st).1.2 = u_revs st.2.
Proof.
  revert st. induction l as [|[wid e] l IH]; intros st; [done|]. cbn [drop_failed].
  unfold mbind, M_bind, modify, unsafeDropFailedWatcher. destruct (unsynced st.1 !! wid); [|by rewrite IH].
  destruct (unsafeDropFromGroup _ _ _ _) as [h [[]|e'|]]; [by rewrite IH|done..].
Qed.
Lemma promote_each_frame l st : u_revs (promote_each l st).2 = u_revs st.2.
Proof. revert st. induction l as [|wid l IH]; intros st; [done|]. cbn [promote_each]. by rewrite IH. Qed.
Lemma tick_finish_frame st : u_revs (tick_finish st).1.2 = u_revs st.2.
Proof.
  unfold tick_finish, mbind, M_bind, get_st, modify. pose proof (drop_failed_frame (map_to_list (deleteBatch st.2)) st) as E.
  destruct (drop_failed _ _) as [st' [[]|e|]]; simpl in *; [|done..]. by rewrite promote_each_frame.
Qed.

Lemma sy_finish_ok st : sys_ok st -> sy_feeding st = None -> steps_ok st (on_loop tick_finish st).
Proof.
  intros [H1 H2 H3 H4] Hn. destruct (tick_finish_ok _ _ _ H2) as [Hr Hp]. pose proof (tick_finish_frame (sy_hub st, sy_loop st)) as Hu.
  unfold on_loop. destruct (tick_finish (sy_hub st, sy_loop st)) as [[h u] r]. simpl in *. split.
  - split; simpl; [done..|by rewrite Hu|]. by rewrite Hn.
  - left. simpl. destruct r; by rewrite ?orb_false_r.
Qed.

Lemma take_event_feed x w rest st :
  sys_ok st -> wtab (sy_hub st) !! x = Some w -> forall f, sy_feeding st = Some f ->
  feed_inv (set_wt x (set_c rest w) (sy_hub st)) (sy_loop st) f.
Proof.
  intros H Hw f Hf. destruct (so_feed _ H f Hf) as (Hb & Hle & Hc). split; [done|]. split; [done|].
  intros Hchk. destruct (Hc Hchk) as (e & rs & E & Hm). exists e, rs. split; [done|]. intros w' Hw'. simpl in Hw'.
  apply lookup_insert_Some in Hw' as [[-> <-]|[_ Hw']]; [by apply (Hm w)|by apply Hm].
Qed.

Lemma take_event_ok x w ev rest st :
  sys_ok st -> wtab (sy_hub st) !! x = Some w -> wt_c w = ev :: rest -> sys_ok (take_event x w ev rest st).
Proof.
  intros H0 Hw Hc. pose proof (take_event_feed x w rest st H0 Hw) as Hfeed. destruct H0 as [H1 H2 H3 H4].
  split; try done. unfold loop_ok in *. simpl in *.
  set (got' := fun y => if decide (y = x) then sy_got st x ++ [ev] else sy_got st y).
  destruct (ho_wt _ _ _ _ _ H2 x w Hw) as [[Hs He Hst Hr Hx] Hn].
  assert (got' x = sy_got st x ++ [ev]) as Hgx by (unfold got'; by rewrite decide_True).
  assert (wt_ok (got' x) (set_c rest w)) as Hw'.
  { rewrite Hgx, Hc in *. split; simpl in *; rewrite <-?app_assoc; try done. lia. }
  assert (hub_ok got' (Main (currentRev (sy_store st))) (unsyncedBatch (sy_loop st)) (Main (u_revs (sy_loop st)).1)
            (set_wt x (set_c rest w) (sy_hub st))); [|done].
  destruct H2 as [A1 A2 A3 A4 A5 A6 A7].
  split; simpl; try done.
  - intros y v [[<- <-]|[Hne Hy]]%lookup_insert_Some; [done|]. unfold got'. rewrite decide_False by done. by apply A1.
  - intros y Hy. unfold got'. rewrite decide_False by lia. by apply A2.
  - intros sy id y Hg. destruct (A3 sy id y) as (v & Hv & ? & ?); [by destruct sy|].
    destruct (decide (y = x)) as [->|]; [|by rewrite lookup_insert_ne; eauto]. rewrite lookup_insert_eq.
    eexists. split; [done|]. simpl. by assert (v = w) as <- by congruence.
  - intros id y v Hg [[<- <-]|[Hne Hy]]%lookup_insert_Some; [by eapply (A5 id x w)|by eapply A5].
  - intros id y Hy. destruct (A6 id y Hy) as [? (v & Hv & ? & ?)]. split; [done|].
    destruct (decide (y = x)) as [->|]; [|by rewrite lookup_insert_ne; eauto]. rewrite lookup_insert_eq.
    eexists. split; [done|]. simpl. by assert (v = w) as <- by congruence.
Qed.

(** *** The turn of a watcher *)

Lemma on_feed_ok (m : M (WatchHub * UnsyncedLoop) (option feeding)) st st' o :
  sys_ok st -> m (sy_hub st, sy_loop st) = (st', Ok o) ->
  loop_ok (sy_got st) (Main (currentRev (sy_store st))) st' -> same_tick (sy_hub st, sy_loop st) st' ->
  (forall f, o = Some f -> feed_inv st'.1 (sy_loop st) f) -> steps_ok st (on_feed m st).
Proof.
  intros [H1 H2 H3 H4] E Hl [Eb Er] Hf. unfold on_feed. rewrite E. destruct st' as [h u]. simpl in *.
  split; [|left; simpl; by rewrite orb_false_r]. split; simpl; [done..|by rewrite Er|].
  intros f Ho. destruct (Hf f Ho) as (Hb & Hle & Hc). split; [by rewrite Eb|]. split; [by rewrite Er|done].
Qed.

Lemma sy_start_ok st id x :
  sys_ok st -> unsyncedBatch (sy_loop st) !! id = Some x -> steps_ok st (on_feed (feed_start x (sy_store st)) st).
Proof.
  intros H Hb. pose proof H as [H1 H2 H3 H4].
  destruct (feed_start_ok (sy_got st) (sy_store st) id x (sy_hub st, sy_loop st) H1 H2) as (st' & o & E & Hl & Ht & Hf).
  { simpl. unfold MinInt64. lia. } { done. }
  eapply on_feed_ok; [done|exact E|done..|]. intros f Ho. destruct (Hf f Ho) as (-> & Hx & Hc & Hle).
  split; [exists id; by rewrite Hx|]. split; [done|]. by rewrite Hc.
Qed.

Lemma set_wt_id x w h : wtab h !! x = Some w -> set_wt x w h = h.
Proof. intros Hw. unfold set_wt. rewrite insert_id by done. by destruct h. Qed.

(** A turn that ends. *)
Lemma feed_end_ok (m : M (WatchHub * UnsyncedLoop) (option feeding)) st f r w :
  sys_ok st -> sy_feeding st = Some f -> wtab (sy_hub st) !! fd_ref f = Some w ->
  m (sy_hub st, sy_loop st) = (feed_done f r ≫= fun _ => mret None) (sy_hub st, sy_loop st) ->
  steps_ok st (on_feed m st).
Proof.
  intros H Hf Hw E. destruct (feed_done_run f r (sy_hub st, sy_loop st) w Hw) as (u' & Hrun & Ht).
  apply (on_feed_ok _ _ (sy_hub st, u') None); [done| |eapply same_tick_ok; [|exact Ht]|exact Ht|done].
  - rewrite E. unfold mbind, M_bind. by rewrite Hrun.
  - apply (so_loop _ H).
Qed.

Lemma sy_check_ok st f :
  sys_ok st -> sy_feeding st = Some f -> fd_checked f = false -> steps_ok st (on_feed (feed_check f) st).
Proof.
  intros H Hf Hc. destruct (so_feed _ H f Hf) as ([id Hb] & Hle & _).
  destruct (ho_batch _ _ _ _ _ (so_loop _ H) id (fd_ref f) Hb) as [_ (w & Hw & _)]. simpl in Hw.
  destruct (fd_events f) as [|e rest] eqn:Ee.
  { apply (feed_end_ok _ st f (inl tt) w); try done. unfold feed_check. by rewrite Ee. }
  assert (forall X (g : bool + error -> M _ X), (on_hub_part (try (on_wt (fd_ref f) (send_check e))) ≫= g) (sy_hub st, sy_loop st) =
    g (match wt_ctx w with Some _ => inr [Canceled]
       | None => inl (matches e w && negb (ModRev (ev_Entry e) <=? wt_currentRev w)) end) (sy_hub st, sy_loop st)) as Hrun.
  { intros X g. unfold on_hub_part, try, on_wt, mbind, M_bind. cbn [fst]. rewrite Hw. unfold send_check, mbind, M_bind, get_st, fail, mret, M_ret.
    destruct (wt_ctx w); by rewrite set_wt_id. }
  destruct (wt_ctx w) as [cause|] eqn:Ectx.
  { apply (feed_end_ok _ st f (inr [Canceled]) w); try done. unfold feed_check. by rewrite Ee, Hrun. }
  destruct (matches e w && negb (ModRev (ev_Entry e) <=? wt_currentRev w)) eqn:Em.
  - apply andb_true_iff in Em as [Hm Hlt%negb_true_iff%Z.leb_gt].
    apply (on_feed_ok _ st (sy_hub st, sy_loop st) (Some (mkFeed (fd_ref f) (fd_events f) (fd_high f) true)));
      [done| |apply H|done|]; [unfold feed_check; by rewrite Ee, Hrun|].
    intros f' [= <-]. split; [by exists id|]. split; [by simpl; rewrite Ee|]. intros _. exists e, rest. split; [done|].
    intros w' Hw'. simpl in Hw'. by assert (w' = w) as -> by congruence.
  - apply (on_feed_ok _ st (sy_hub st, sy_loop st) (Some (mkFeed (fd_ref f) rest (fd_high f) false)));
      [done| |apply H|done|]; [unfold feed_check; by rewrite Ee, Hrun|].
    intros f' [= <-]. split; [by exists id|]. split; [|done]. by apply Forall_inv_tail in Hle.
Qed.

(** The send of the tested event. *)
Lemma send_select_run e w :
  wt_closed w = false -> wt_currentRev w < erev e ->
  (send_select SelSend e ≫= sendAll_advance e) w = (delivered [e] w, Ok tt).
Proof.
  intros Hcl Hlt. unfold send_select, sendAll_advance, mbind, M_bind, get_st, modify, mret, M_ret. rewrite Hcl. cbn [wt_currentRev set_c].
  unfold erev in Hlt. by rewrite (proj2 (Z.ltb_lt _ _)).
Qed.

Lemma feed_select_run c f e rest h u w :
  fd_events f = e :: rest -> wtab h !! fd_ref f = Some w ->
  feed_select c f (h, u) =
    match (send_select c e ≫= sendAll_advance e) w with
    | (w', Ok _) => ((set_wt (fd_ref f) w' h, u), Ok (Some (mkFeed (fd_ref f) rest (fd_high f) false)))
    | (w', Err er) => (feed_done f (inr er) ≫= fun _ => mret None) (set_wt (fd_ref f) w' h, u)
    | (w', Panicked) => ((set_wt (fd_ref f) w' h, u), Panicked)
    end.
Proof.
  intros Ee Hw. unfold feed_select. rewrite Ee. unfold mbind at 1, M_bind at 1, on_hub_part, try, on_wt. cbn [fst snd]. rewrite Hw.
  by destruct ((send_select c e ≫= sendAll_advance e) w) as [w' [[]|er|]].
Qed.

Lemma sy_select_ok st f w c :
  sys_ok st -> sy_feeding st = Some f -> fd_checked f = true -> wtab (sy_hub st) !! fd_ref f = Some w ->
  select_ready c w = true -> steps_ok st (on_feed (feed_select c f) st).
Proof.
  intros H Hf Hc Hw Hsel. destruct (so_feed _ H f Hf) as ([id Hb] & Hle & Hchk).
  destruct (Hchk Hc) as (e & rest & Ee & Hm). destruct (Hm w Hw) as [Hmt Hlt]. rewrite Ee in Hle.
  apply Forall_cons in Hle as [Her Hrest]. destruct (ho_wt _ _ _ _ _ (so_loop _ H) _ w Hw) as [Hok _].
  pose proof (feed_select_run c f e rest (sy_hub st) (sy_loop st) w Ee Hw) as Hrun.
  destruct c; simpl in Hsel.
  - apply (feed_end_ok _ st f (inr [Canceled]) w); try done. rewrite Hrun. simpl. by rewrite set_wt_id.
  - destruct (wt_closed w) eqn:Hcl.
    + unfold on_feed. rewrite Hrun. unfold send_select, mbind, M_bind, get_st, lift. rewrite Hcl. simpl. rewrite set_wt_id by done.
      split; [|right; by exists f, w]. destruct H. by split.
    + apply Nat.ltb_lt in Hsel. rewrite send_select_run in Hrun by done.
      eapply on_feed_ok; [done|exact Hrun| |done|].
      * apply (batch_set_ok _ _ _ _ id (fd_ref f) w); try done; [apply (so_loop _ H)|].
        apply delivered_ok; [done|repeat constructor|by repeat constructor|simpl; lia].
      * intros f' [= <-]. split; [by exists id|]. by split.
  - apply (feed_end_ok _ st f (inr [ErrWatcherOverloaded]) w); try done. rewrite Hrun. simpl. by rewrite set_wt_id.
Qed.

Lemma sys_step_ok st st' : sys_ok st -> sys_step st st' -> steps_ok st st'.
Proof.
  intros H Hstep. pose proof H as [H1 H2 H3 H4].
  destruct Hstep as [s' Hs' Hle|changes Hc|newid parent req|id|id| |x w e Hw|x w ev rest Hw Hc| |id x Hn Hb|id x Hn Hb|f|f w c|].
  - split; [|by left]. split; try done. simpl. unfold loop_ok in *. simpl in *. pose proof (ho_rm _ _ _ _ _ H2).
    eapply hub_ok_weaken; [exact H2|done|done|lia..].
  - apply on_hub_ok; [done|apply kept_OnCommit|]. intros b rm Hb. by apply hub_OnCommit_ok.
  - apply on_hub_ok; [done| |intros b rm Hb; by apply NewWatcher_ok]. apply kept_new; [done|].
    destruct (wtab (sy_hub st) !! _) as [v|] eqn:E; [|done]. apply (ho_wt _ _ _ _ _ H2) in E as [_ E]. simpl in E. lia.
  - apply on_hub_ok; [done|apply kept_drop|]. intros b rm Hb. by apply DropWatcher_ok.
  - apply on_hub_ok; [done|apply kept_unsafeDrop|]. intros b rm Hb. by apply unsafeDropWatcher_ok.
  - apply on_hub_ok; [done|apply kept_dropAll|]. intros b rm Hb. by apply DropAll_ok.
  - apply on_hub_ok; [done|by apply kept_on_wt|]. intros b rm Hb. unfold runs_ok, on_wt. rewrite Hw. split; [|done].
    by apply cancel_ok.
  - split; [by apply take_event_ok|by left].
  - split; [|by left]. split; try done; [by apply tick_collect_ok|simpl; apply (ki_cur _ H1)|]. simpl. by rewrite H0.
  - by eapply sy_start_ok.
  - split; [|by left]. by split.
  - by apply sy_check_ok.
  - by eapply sy_select_ok.
  - by apply sy_finish_ok.
Qed.

Lemma sys_run_ok st st' : sys_ok st -> rtc sys_step st st' -> sys_ok st'.
Proof. intros H Hr. induction Hr as [|a b c Hab _ IH]; [done|]. apply IH. by eapply sys_step_ok. Qed.

Lemma sys_reachable_ok s st : kv_inv s -> rtc sys_step (sys_init s) st -> sys_ok st.
Proof. intros Hs Hr. eapply sys_run_ok; [|done]. by apply sys_init_ok. Qed.

(** *** A turn nothing interferes with is a run of the steps *)

Lemma feed_done_ext x evs evs' hi b b' r : feed_done (mkFeed x evs hi b) r = feed_done (mkFeed x evs' hi b') r.
Proof. done. Qed.

(** One step within a turn, as a run that goes on. *)
Lemma feed_step_run h u s g f p (m : M (WatchHub * UnsyncedLoop) (option feeding)) h1 u1 o st' :
  sys_step (mkSys h u s g (Some f) p) (on_feed m (mkSys h u s g (Some f) p)) -> m (h, u) = ((h1, u1), Ok o) ->
  rtc sys_step (mkSys h1 u1 s g o p) st' -> rtc sys_step (mkSys h u s g (Some f) p) st'.
Proof.
  intros Hs E Hr. eapply rtc_l; [exact Hs|]. unfold on_feed. cbn [sy_hub sy_loop sy_store sy_got sy_panic].
  rewrite E. simpl. by rewrite orb_false_r.
Qed.

Lemma feed_check_run x e rest hi h u w :
  wtab h !! x = Some w ->
  feed_check (mkFeed x (e :: rest) hi false) (h, u) =
    match wt_ctx w with
    | Some _ => (feed_done (mkFeed x (e :: rest) hi false) (inr [Canceled]) ≫= fun _ => mret None) (h, u)
    | None => ((h, u), Ok (Some (if matches e w && (wt_currentRev w <? erev e)
                                 then mkFeed x (e :: rest) hi true else mkFeed x rest hi false)))
    end.
Proof.
  intros Hw. unfold feed_check. cbn [fd_events fd_ref fd_high]. unfold mbind at 1, M_bind at 1, on_hub_part, try, on_wt.
  cbn [fst snd]. rewrite Hw. unfold send_check, mbind, M_bind, get_st, fail, mret, M_ret, erev. rewrite (Z.leb_antisym (wt_currentRev w)), negb_involutive.
  destruct (wt_ctx w); rewrite set_wt_id by done; [done|].
  by destruct (matches e w && (wt_currentRev w <? ModRev (ev_Entry e))).
Qed.

(** sendAll and what follows it. *)
Definition send_rest (x : nat) (evs : list Event) (hi : Z) : M (WatchHub * UnsyncedLoop) unit :=
  on_hub_part (try (on_wt x (sendAll evs))) ≫= feed_done (mkFeed x evs hi false).

Lemma send_rest_eq x evs hi h u w :
  wtab h !! x = Some w ->
  send_rest x evs hi (h, u) =
    match sendAll evs w with
    | (w', Ok _) => feed_done (mkFeed x [] hi false) (inl tt) (set_wt x w' h, u)
    | (w', Err e) => feed_done (mkFeed x [] hi false) (inr e) (set_wt x w' h, u)
    | (w', Panicked) => ((set_wt x w' h, u), Panicked)
    end.
Proof.
  intros Hw. unfold send_rest, mbind, M_bind, on_hub_part, try, on_wt. cbn [fst snd]. rewrite Hw.
  by destruct (sendAll evs w) as [w' [[]|e|]].
Qed.

Lemma send_rest_run x evs hi h u s g p w h' u' :
  wtab h !! x = Some w -> (wt_closed w = true -> is_Some (wt_ctx w)) ->
  send_rest x evs hi (h, u) = ((h', u'), Ok tt) ->
  rtc sys_step (mkSys h u s g (Some (mkFeed x evs hi false)) p) (mkSys h' u' s g None p).
Proof.
  revert h w. induction evs as [|e evs IH]; intros h w Hw Hcl Hrun; rewrite (send_rest_eq _ _ _ _ _ w Hw) in Hrun.
  { change (sendAll [] w) with (w, Ok tt) in Hrun. cbv iota in Hrun. rewrite set_wt_id in Hrun by done.
    eapply feed_step_run; [by apply sy_check| |apply rtc_refl].
    unfold feed_check, mbind, M_bind. cbn [fd_events]. by rewrite Hrun. }
  destruct (wt_ctx w) as [c|] eqn:Ec.
  { rewrite (sendAll_cancelled _ _ c), set_wt_id in Hrun by done. eapply feed_step_run; [by apply sy_check| |apply rtc_refl].
    rewrite (feed_check_run _ _ _ _ _ _ w Hw), Ec. unfold mbind, M_bind. by rewrite (feed_done_ext x _ [] hi _ false), Hrun. }
  assert (wt_closed w = false) as Hx by (destruct (wt_closed w); [by destruct Hcl|done]).
  eapply feed_step_run; [by apply sy_check|by rewrite (feed_check_run _ _ _ _ _ _ w Hw), Ec|].
  cbn [sendAll] in Hrun. unfold mbind at 1, M_bind at 1 in Hrun. rewrite (send_open e w Ec Hx) in Hrun.
  destruct (matches e w && (wt_currentRev w <? erev e)) eqn:Em.
  2:{ apply (IH h w); [done|by rewrite Ec|]. by rewrite (send_rest_eq _ _ _ _ _ w Hw). }
  apply andb_true_iff in Em as [_ Hlt%Z.ltb_lt].
  destruct (Nat.ltb_spec (length (wt_c w)) watcherChannelBufferSize) as [Hl|Hl].
  - eapply (feed_step_run _ _ _ _ _ _ (feed_select SelSend (mkFeed x (e :: evs) hi true))).
    { apply (sy_select _ (mkFeed x (e :: evs) hi true) w); try done. simpl. rewrite Hx. by apply Nat.ltb_lt. }
    { by rewrite (feed_select_run _ _ e evs _ _ w), send_select_run. }
    apply (IH _ (delivered [e] w)); [apply lookup_insert_eq|by simpl; rewrite Hx|].
    rewrite (send_rest_eq _ _ _ _ _ (delivered [e] w)) by apply lookup_insert_eq. rewrite <-Hrun.
    assert (forall a, set_wt x a (set_wt x (delivered [e] w) h) = set_wt x a h) as Hset.
    { intros a. unfold set_wt. simpl. by rewrite insert_insert_eq. }
    unfold sendAll_advance, mbind, M_bind, get_st, modify. cbn [wt_currentRev set_c]. unfold erev in Hlt.
    rewrite (proj2 (Z.ltb_lt _ _) Hlt).
    change (set_currentRev_w (ModRev (ev_Entry e)) (set_c (wt_c w ++ [e]) w)) with (delivered [e] w).
    destruct (sendAll evs (delivered [e] w)) as [w' [[]|er|]]; by rewrite Hset.
  - rewrite set_wt_id in Hrun by done.
    eapply (feed_step_run _ _ _ _ _ _ (feed_select SelDefault (mkFeed x (e :: evs) hi true))); [| |apply rtc_refl].
    { apply (sy_select _ (mkFeed x (e :: evs) hi true) w); try done. simpl. rewrite Ec, Hx. simpl.
      by apply negb_true_iff, Nat.ltb_ge. }
    rewrite (feed_select_run _ _ e evs _ _ w) by done. simpl. rewrite set_wt_id by done.
    unfold mbind, M_bind. by rewrite (feed_done_ext x _ [] hi _ false), Hrun.
Qed.

Lemma feed_run st id x :
  sys_ok st -> sy_feeding st = None -> unsyncedBatch (sy_loop st) !! id = Some x ->
  rtc sys_step st (on_loop (feed x (sy_store st)) st).
Proof.
  intros H Hn Hb. pose proof H as [H1 H2 H3 _].
  assert (MinInt64 <= Main (u_revs (sy_loop st)).1) as Hmin by (unfold MinInt64; lia).
  destruct (feed_start_ok _ (sy_store st) id x _ H1 H2 Hmin Hb) as (st1 & o & E1 & _ & _ & Hf).
  destruct (feed_ok _ (sy_store st) id x _ H1 H2 Hmin Hb) as ([h' u'] & E & _). unfold on_loop. rewrite E. simpl. rewrite orb_false_r.
  eapply rtc_l; [by eapply sy_start|]. unfold on_feed. rewrite E1. unfold feed, mbind, M_bind in E. rewrite E1 in E.
  destruct o as [f|]; [|injection E as ->; simpl; rewrite orb_false_r, Hn; apply rtc_refl].
  destruct (Hf f eq_refl) as (-> & Hx & Hc & _). simpl. rewrite orb_false_r, Hn. destruct f as [x' evs hi b]. simpl in *. subst x' b.
  destruct (ho_batch _ _ _ _ _ H2 id x Hb) as [_ (w & Hw & _)].
  apply (send_rest_run x evs hi _ _ _ _ _ w); [done|apply (ho_wt _ _ _ _ _ H2 x w Hw)|exact E].
Qed.

Lemma on_loop_bind (m k : M (WatchHub * UnsyncedLoop) unit) st st' :
  m (sy_hub st, sy_loop st) = (st', Ok tt) -> on_loop (m ≫= fun _ => k) st = on_loop k (on_loop m st).
Proof.
  intros E. unfold on_loop, mbind, M_bind. rewrite E. destruct st' as [h u]. cbn. destruct (k (h, u)) as [[h' u'] r].
  by rewrite orb_false_r.
Qed.

Lemma feed_each_run l st :
  sys_ok st -> sy_feeding st = None -> Forall (fun p => unsyncedBatch (sy_loop st) !! p.1 = Some p.2) l ->
  rtc sys_step st (on_loop (feed_each l (sy_store st)) st) /\ exists st', feed_each l (sy_store st) (sy_hub st, sy_loop st) = (st', Ok tt).
Proof.
  revert st. induction l as [|[id x] l IH]; intros st H Hn Hl.
  { destruct st as [h u s g f p]. unfold on_loop. cbn. rewrite orb_false_r. split; [apply rtc_refl|by eexists]. }
  apply Forall_cons in Hl as [Hb Hl]. pose proof H as [H1 H2 H3 _].
  destruct (feed_ok _ (sy_store st) id x _ H1 H2) as (st1 & E & _ & Ht); [simpl; unfold MinInt64; lia|done|].
  pose proof (feed_run st id x H Hn Hb) as Hr. cbn [feed_each]. rewrite (on_loop_bind _ _ _ st1 E).
  assert (on_loop (feed x (sy_store st)) st = mkSys st1.1 st1.2 (sy_store st) (sy_got st) None (sy_panic st)) as E1.
  { unfold on_loop. rewrite E. destruct st1. simpl. by rewrite orb_false_r, Hn. }
  destruct (IH (on_loop (feed x (sy_store st)) st)) as [Hr2 (st2 & E2)].
  { by eapply sys_run_ok. } { by rewrite E1. } { rewrite E1. simpl. destruct Ht as [Eb _]. simpl in Eb. by rewrite Eb. }
  rewrite E1 in Hr2, E2, Hr |- *. split; [by etransitivity|]. exists st2. unfold mbind, M_bind. rewrite E.
  simpl in E2. by destruct st1.
Qed.

(** So is a whole tick. *)
Lemma tick_run st :
  sys_ok st -> sy_feeding st = None -> rtc sys_step st (on_loop (ul_tick (sy_store st)) st).
Proof.
  intros H Hn. set (u := tick_collect (sy_store st) (sy_hub st) (sy_loop st)).
  eapply rtc_l; [by apply sy_collect|]. fold u.
  assert (sys_ok (set_loop u st)) as H1 by (eapply sys_step_ok; [exact H|by apply sy_collect]).
  destruct (feed_each_run (hub_order (unsyncedBatch u)) (set_loop u st) H1 Hn) as [Hr (st2 & E)].
  { apply Forall_forall. intros [id x] Hin. rewrite hub_order_perm in Hin. by apply elem_of_map_to_list in Hin. }
  change (sy_store (set_loop u st)) with (sy_store st) in *.
  assert (on_loop (ul_tick (sy_store st)) st = on_loop tick_finish (on_loop (feed_each (hub_order (unsyncedBatch u)) (sy_store st)) (set_loop u st))) as ->.
  { rewrite <-(on_loop_bind _ _ _ st2 E). done. }
  etransitivity; [exact Hr|]. apply rtc_once, sy_finish. unfold on_loop. rewrite E. by destruct st2.
Qed.


(** ** One notification, watcher by watcher *)

(** The removals a notification leads to. *)
Definition removal_of (evs : list Event) (t : gmap nat watcher) (p : Z * nat) : option (Z * error) :=
  match t !! p.2 with
  | Some w => match (sendAll evs w).2 with Err e => Some (p.1, e) | _ => None end
  | None => None
  end.

Lemma omap_ext_in {X Y} (f g : X -> option Y) (l : list X) : (forall x, x ∈ l -> f x = g x) -> omap f l = omap g l.
Proof.
  induction l as [|x l IH]; intros H; [done|]. cbn [omap list_omap]. rewrite (H x) by left.
  rewrite IH; [done|]. intros y Hy. apply H. by right.
Qed.

Lemma send_each_run evs ws rem h :
  Forall (fun p => exists w, wtab h !! p.2 = Some w /\ wt_id w = p.1 /\ (sendAll evs w).2 <> Panicked /\
                     wt_id (sendAll evs w).1 = wt_id w) ws ->
  NoDup ws.*2 ->
  exists h', send_each evs ws rem h = (h', Ok (rem ++ omap (removal_of evs (wtab h)) ws)) /\
    synced h' = synced h /\ unsynced h' = unsynced h /\
    (forall x, x ∉ ws.*2 -> wtab h' !! x = wtab h !! x) /\
    (forall x w, x ∈ ws.*2 -> wtab h !! x = Some w -> wtab h' !! x = Some (sendAll evs w).1).
Proof.
  revert h rem. induction ws as [|[id x] ws IH]; intros h rem Hws Hnd.
  { exists h. cbn [send_each omap list_omap]. rewrite app_nil_r. split_and!; try done. by intros x w ?%not_elem_of_nil. }
  apply Forall_cons in Hws as [(w & Hw & Hid & Hp & Hid') Hws]. simpl in Hw, Hid. cbn [fmap list_fmap snd] in Hnd.
  apply NoDup_cons in Hnd as [Hx Hnd]. set (h1 := set_wt x (sendAll evs w).1 h).
  assert (forall y, y ∈ ws.*2 -> wtab h1 !! y = wtab h !! y) as Hfr.
  { intros y Hy. apply lookup_insert_ne. by intros ->. }
  destruct (IH h1 (rem ++ from_option (fun q => [q]) [] (removal_of evs (wtab h) (id, x)))) as (h' & Hrun & Hs & Hu & Hout & Hin).
  { apply Forall_forall. intros [id2 x2] Hp2. rewrite Hfr by (by apply (list_elem_of_fmap_2 snd) in Hp2).
    by apply (proj1 (Forall_forall _ _) Hws). }
  { done. }
  exists h'. split_and!; [|done|done|..].
  - rewrite (omap_ext_in _ (removal_of evs (wtab h))) in Hrun.
    2:{ intros p Hp2. unfold removal_of. by rewrite Hfr by (by apply list_elem_of_fmap_2). }
    cbn [send_each omap list_omap]. unfold mbind at 1, M_bind at 1, try, on_wt. rewrite Hw.
    assert (removal_of evs (wtab h) (id, x) = match (sendAll evs w).2 with Err e => Some (id, e) | _ => None end) as Hro.
    { unfold removal_of. simpl. by rewrite Hw. }
    rewrite Hro in Hrun |- *. unfold h1 in Hrun. destruct (sendAll evs w) as [w' [[]|e|]]; cbn [fst snd] in *; [| |done].
    + by rewrite app_nil_r in Hrun.
    + unfold mbind, M_bind, get_st, id_of. cbn [wtab set_wt]. rewrite lookup_insert_eq. cbn [from_option] in *.
      rewrite Hid', Hid, Hrun, <-app_assoc. done.
  - intros y [Hne Hy]%not_elem_of_cons. rewrite Hout by done. simpl. by rewrite lookup_insert_ne.
  - intros y v [->|Hy]%elem_of_cons Hv.
    + cbn [snd] in *. rewrite Hout by done. simpl. rewrite lookup_insert_eq. congruence.
    + apply Hin; [done|]. by rewrite Hfr.
Qed.

(** Removing the watcher [id] for the error [e]. *)
Definition removed (id : Z) (e : error) (x : nat) (w : watcher) (h : WatchHub) : Prop :=
  synced h !! id = None /\
  if errors_Is e ErrWatcherOverloaded then unsynced h !! id = Some x /\ wtab h !! x = Some w
  else wtab h !! x = Some (set_closed (wt_cancel e w)).

Section Remove.
Context (got : nat -> list Event) (cur : Z) (b : gmap Z nat) (rm : Z).
Abbreviation ok := (hub_ok got cur b rm).

(** One turn of the second loop leaves the watchers of other ids alone. *)
Lemma remove_one_run id e rem h :
  ok h -> demotable cur h ((id, e) :: rem) ->
  exists h', remove_each ((id, e) :: rem) h = remove_each rem h' /\ ok h' /\ demotable cur h' rem /\
    (forall x w, synced h !! id = Some x -> wtab h !! x = Some w -> removed id e x w h') /\
    synced h' = delete id (synced h) /\
    (forall id', id' <> id -> unsynced h' !! id' = unsynced h !! id') /\
    (forall x, (synced h !! id <> Some x) -> wtab h' !! x = wtab h !! x).
Proof.
  intros H Hd. cbn [remove_each]. unfold errors_Is, removed. unfold errors_Is. case_bool_decide as He.
  - exists (match synced h !! id with Some x => move true id x h | None => h end).
    unfold mbind, M_bind. rewrite (unsafeDemote_run _ _ _ _ _ _ H).
    destruct (synced h !! id) as [x|] eqn:Ex; simpl.
    2:{ split_and!; try done; [|by rewrite delete_id]. intros id' e' x' w' Hin. apply Hd. by right. }
    destruct (ho_grp _ _ _ _ _ H true id x Ex) as (w & Hw & _). split_and!; try done.
    + eapply move_ok; [done..| |done]. intros _. eapply Hd; [left|done..].
    + intros id' e' x' w' Hin Ho Hs Hw'. simpl in *. apply lookup_delete_Some in Hs as [_ Hs].
      eapply Hd; [by right|done..].
    + intros x' w' [= <-] Hw'. simpl. by rewrite lookup_delete_eq, lookup_insert_eq.
    + intros id' Hne. by apply lookup_insert_ne.
  - destruct (unsafeDropFromGroup_run _ _ _ _ true id e h H) as (h' & E & H' & Hg & Hg' & Ht). simpl in Hg, Hg', Ht.
    exists h'. unfold mbind, M_bind. rewrite E. split_and!; try done.
    + intros id' e' x' w' Hin Ho Hs Hw'. rewrite Hg in Hs. apply lookup_delete_Some in Hs as [Hne Hs].
      assert (exists w0, wtab h !! x' = Some w0 /\ wt_currentRev w0 = wt_currentRev w') as (w0 & Hw0 & <-).
      { rewrite Ht in Hw'. destruct (synced h !! id); [|by exists w'].
        rewrite lookup_alter in Hw'. case_decide; [|by exists w']. subst.
        apply fmap_Some in Hw' as (w0 & Hw0 & ->). by exists w0. }
      eapply Hd; [by right|done..].
    + intros x w Hs Hw. rewrite Hg, lookup_delete_eq. split; [done|]. rewrite Ht, Hs, lookup_alter_eq, Hw. done.
    + intros id' Hne. by rewrite Hg'.
    + intros x Hx. rewrite Ht. destruct (synced h !! id); [|done]. rewrite lookup_alter_ne; [done|]. congruence.
Qed.

Lemma remove_each_frame rem h id x :
  ok h -> demotable cur h rem -> id ∉ rem.*1 -> (forall id', synced h !! id' = Some x -> id' = id) ->
  exists h', remove_each rem h = (h', Ok tt) /\
    synced h' !! id = synced h !! id /\ unsynced h' !! id = unsynced h !! id /\ wtab h' !! x = wtab h !! x.
Proof.
  revert h. induction rem as [|[id1 e1] rem IH]; intros h H Hd Hin Hx; [by exists h|].
  apply not_elem_of_cons in Hin as [Hne Hin]. simpl in Hne.
  destruct (remove_one_run id1 e1 rem h H Hd) as (h1 & -> & H1 & Hd1 & _ & Hs & Hu & Hw).
  destruct (IH h1 H1 Hd1 Hin) as (h' & -> & Hs' & Hu' & Hw').
  { intros id' Hs'. rewrite Hs in Hs'. apply lookup_delete_Some in Hs' as [_ ?]. by apply Hx. }
  exists h'. split; [done|]. rewrite Hs', Hu', Hw', Hs, lookup_delete_ne by done. split_and!; [done|by apply Hu|].
  apply Hw. intros Hc. by apply Hne, eq_sym, Hx.
Qed.

Lemma remove_each_removed rem h id x w e :
  ok h -> demotable cur h rem -> NoDup rem.*1 -> (id, e) ∈ rem ->
  synced h !! id = Some x -> wtab h !! x = Some w ->
  exists h', remove_each rem h = (h', Ok tt) /\ removed id e x w h'.
Proof.
  intros H Hd Hnd Hin Hs Hw. apply list_elem_of_split in Hin as (r1 & r2 & ->).
  assert (forall id', synced h !! id' = Some x -> id' = id) as Huniq.
  { intros id' Hs'. rewrite <-(group_id _ _ _ _ true id' x h w H Hs' Hw). by apply (group_id _ _ _ _ true id x h w H). }
  rewrite fmap_app, NoDup_app, fmap_cons, NoDup_cons in Hnd. destruct Hnd as (_ & Hn1 & Hn2 & _).
  revert h H Hd Hs Hw Huniq. induction r1 as [|[id1 e1] r1 IH]; intros h H Hd Hs Hw Huniq.
  - cbn [app] in *. destruct (remove_one_run id e r2 h H Hd) as (h1 & Hr & H1 & Hd1 & Hrem & Hs1 & _).
    rewrite Hr. specialize (Hrem x w Hs Hw).
    destruct (remove_each_frame r2 h1 id x H1 Hd1 Hn2) as (h' & E & Hs' & Hu' & Hw').
    { intros id' Hi. rewrite Hs1 in Hi. apply lookup_delete_Some in Hi as [_ ?]. by apply Huniq. }
    exists h'. split; [done|]. unfold removed in *. by rewrite Hs', Hu', Hw'.
  - cbn [app] in *. destruct (remove_one_run id1 e1 (r1 ++ (id, e) :: r2) h H Hd) as (h1 & Hr & H1 & Hd1 & _ & Hs1 & _ & Hw1).
    rewrite Hr. assert (id1 <> id) as Hne.
    { intros ->. apply (Hn1 id); [left|]. left. }
    apply IH; try done.
    + intros z Hz. apply Hn1. by right.
    + by rewrite Hs1, lookup_delete_ne.
    + rewrite Hw1; [done|]. intros Hc. by apply Hne, Huniq.
    + intros id' Hi. rewrite Hs1 in Hi. apply lookup_delete_Some in Hi as [_ ?]. by apply Huniq.
Qed.

Lemma hub_order_NoDup (g : gmap Z nat) : NoDup (hub_order g).*1.
Proof. rewrite hub_order_perm. apply NoDup_fst_map_to_list. Qed.

Lemma group_refs_NoDup sy h : ok h -> NoDup (hub_order (group sy h)).*2.
Proof.
  intros H. pose proof (hub_order_NoDup (group sy h)) as Hn. pose proof (hub_order_groups sy h) as Hg.
  induction (hub_order (group sy h)) as [|[id x] l IH]; [constructor|].
  apply Forall_cons in Hg as [Hx Hg]. apply NoDup_cons in Hn as [Hni Hn]. constructor; [|by apply IH].
  intros ([id' x'] & E & Hin)%list_elem_of_fmap. simpl in E. subst x'. apply Hni.
  pose proof (proj1 (Forall_forall _ _) Hg _ Hin) as Hx'. simpl in Hx, Hx'.
  destruct (ho_grp _ _ _ _ _ H sy id x Hx) as (w & Hw & Hid & _).
  rewrite <-(group_id _ _ _ _ sy id' x h w H Hx' Hw) in Hin. simpl in *. rewrite Hid in Hin.
  by apply (list_elem_of_fmap_2 fst) in Hin.
Qed.

Lemma removal_of_id evs t p q : removal_of evs t p = Some q -> q.1 = p.1.
Proof. unfold removal_of. intros E. repeat case_match; by simplify_eq/=. Qed.

Definition removals (evs : list Event) (h : WatchHub) : list (Z * error) :=
  omap (removal_of evs (wtab h)) (hub_order (synced h)).

Lemma removals_NoDup evs h : NoDup (removals evs h).*1.
Proof.
  pose proof (hub_order_NoDup (synced h)) as Hn. unfold removals.
  induction (hub_order (synced h)) as [|p l IH]; [constructor|]. cbn [fmap list_fmap] in Hn.
  apply NoDup_cons in Hn as [Hx Hn]. cbn [omap list_omap]. specialize (IH Hn).
  destruct (removal_of evs (wtab h) p) as [q|] eqn:E; [|done]. apply removal_of_id in E.
  constructor; [|done]. rewrite E. intros (q2 & E2 & (p2 & Hp & E3)%list_elem_of_omap)%list_elem_of_fmap.
  apply Hx. apply removal_of_id in E3. rewrite E2, E3. by apply list_elem_of_fmap_2.
Qed.

Lemma removals_elem evs h id x w e :
  synced h !! id = Some x -> wtab h !! x = Some w -> (id, e) ∈ removals evs h <-> (sendAll evs w).2 = Err e.
Proof.
  intros Hs Hw. unfold removals. rewrite list_elem_of_omap. split.
  - intros ([id' x'] & Hp & E). pose proof (removal_of_id _ _ _ _ E) as Eid. simpl in Eid. subst id'.
    pose proof (proj1 (Forall_forall _ _) (hub_order_groups true h) _ Hp) as Hp'. simpl in Hp'.
    assert (x' = x) as -> by congruence. unfold removal_of in E. simpl in E. rewrite Hw in E.
    by destruct (sendAll evs w) as [w' [[]|e'|]]; simplify_eq/=.
  - intros E. exists (id, x). split; [rewrite hub_order_perm; by apply elem_of_map_to_list|].
    unfold removal_of. simpl. by rewrite Hw, E.
Qed.

(** The first loop: every watcher of the synced group has been offered the events. *)
Lemma send_phase evs h :
  ok h -> Forall (fun e => erev e <= cur) evs ->
  exists h1, send_each evs (hub_order (synced h)) [] h = (h1, Ok (removals evs h)) /\ ok h1 /\
    demotable cur h1 (removals evs h) /\ synced h1 = synced h /\ unsynced h1 = unsynced h /\
    (forall id x w, synced h !! id = Some x -> wtab h !! x = Some w -> wtab h1 !! x = Some (sendAll evs w).1) /\
    (forall x, (forall id, synced h !! id <> Some x) -> wtab h1 !! x = wtab h !! x).
Proof.
  intros H He. pose proof (proj1 (Forall_forall _ _) (hub_order_groups true h)) as Hgrp. simpl in Hgrp.
  destruct (send_each_run evs (hub_order (synced h)) [] h) as (h1 & Hrun & Hs1 & Hu1 & Hout & Hin).
  { apply Forall_forall. intros [id x] Hp. apply Hgrp in Hp. simpl in *.
    destruct (ho_grp _ _ _ _ _ H true id x Hp) as (w & Hw & Hid & _).
    destruct (sendAll_ok (got x) w evs) as (d & r & E & _ & _ & Hr); [by eapply ho_wt|].
    exists w. rewrite E. split_and!; try done. by destruct Hr as [->|[->|[-> _]]]. }
  { by apply (group_refs_NoDup true). }
  destruct (send_each_ok got cur b rm evs (hub_order (synced h)) [] h) as (h1' & rem & Hrun' & H1 & Hd1 & _).
  { done. } { done. } { apply (hub_order_groups true). } { by intros id e x w ?%not_elem_of_nil. }
  rewrite Hrun in Hrun'. injection Hrun' as <- <-. exists h1. split_and!; try done.
  - intros id x w Hs Hw. apply Hin; [|done]. apply (list_elem_of_fmap_2' snd _ (id, x)); [|done].
    rewrite hub_order_perm. by apply elem_of_map_to_list.
  - intros x Hx. apply Hout. intros ([id x'] & -> & Hp)%list_elem_of_fmap. by apply (Hx id), (Hgrp (id, x')).
Qed.

(** After a notification: what became of a watcher, in the synced group or not. *)
Lemma hub_OnCommit_phases changes h :
  ok h -> Forall (fun e => ModRev e <= cur) changes ->
  exists h1 rem, hub_OnCommit changes h = remove_each rem h1 /\ rem = removals (event_of <$> changes) h /\
    ok h1 /\ demotable cur h1 rem /\ synced h1 = synced h /\ unsynced h1 = unsynced h /\
    (forall id x w, synced h !! id = Some x -> wtab h !! x = Some w ->
       wtab h1 !! x = Some (sendAll (event_of <$> changes) w).1) /\
    (forall x, (forall id, synced h !! id <> Some x) -> wtab h1 !! x = wtab h !! x).
Proof.
  intros H Hc. destruct (send_phase (event_of <$> changes) h H) as (h1 & Hrun & Hrest).
  { by apply (Forall_fmap event_of). }
  exists h1, (removals (event_of <$> changes) h). split; [|done].
  unfold hub_OnCommit. rewrite ToKvEvents_Some. unfold mbind, M_bind, lift, get_st. by rewrite Hrun.
Qed.

Lemma hub_OnCommit_synced changes h id x w :
  ok h -> Forall (fun e => ModRev e <= cur) changes -> synced h !! id = Some x -> wtab h !! x = Some w ->
  exists h', hub_OnCommit changes h = (h', Ok tt) /\
    match sendAll (event_of <$> changes) w with
    | (w', Ok _) => synced h' !! id = Some x /\ wtab h' !! x = Some w'
    | (w', Err e) => removed id e x w' h'
    | (_, Panicked) => False
    end.
Proof.
  intros H Hc Hs Hw. destruct (hub_OnCommit_phases changes h H Hc) as (h1 & rem & -> & -> & H1 & Hd & Hs1 & Hu1 & Hin & _).
  set (evs := event_of <$> changes) in *. specialize (Hin id x w Hs Hw).
  pose proof (fun e => removals_elem evs h id x w e Hs Hw) as Hrem. rewrite <-Hs1 in Hs.
  destruct (sendAll evs w) as [w' [[]|e|]] eqn:E; simpl in *.
  - destruct (remove_each_frame (removals evs h) h1 id x H1 Hd) as (h' & -> & Hs' & _ & Hw').
    { intros ([id' e] & E2 & Hp)%list_elem_of_fmap. simpl in E2. subst id'. by apply Hrem in Hp. }
    { intros id' Hi. rewrite <-(group_id _ _ _ _ true id' x h1 w' H1 Hi Hin). by apply (group_id _ _ _ _ true id x h1 w' H1). }
    exists h'. by rewrite Hs', Hw'.
  - apply (remove_each_removed (removals evs h) h1 id x w' e); try done; [apply removals_NoDup|by apply Hrem].
  - destruct (sendAll_ok (got x) w evs) as (d & r & E' & _ & _ & Hr); [|naive_solver congruence].
    destruct (ho_wt _ _ _ _ _ H x w Hw). done.
Qed.

(** A watcher that is not in the synced group is not touched. *)
Lemma hub_OnCommit_unsynced changes h id x :
  ok h -> Forall (fun e => ModRev e <= cur) changes -> unsynced h !! id = Some x -> synced h !! id = None ->
  exists h', hub_OnCommit changes h = (h', Ok tt) /\
    unsynced h' !! id = Some x /\ synced h' !! id = None /\ wtab h' !! x = wtab h !! x.
Proof.
  intros H Hc Hu Hs. destruct (hub_OnCommit_phases changes h H Hc) as (h1 & rem & -> & -> & H1 & Hd & Hs1 & Hu1 & _ & Hout).
  destruct (remove_each_frame (removals (event_of <$> changes) h) h1 id x H1 Hd) as (h' & -> & Hs' & Hu' & Hw').
  { intros ([id' e] & E2 & Hp)%list_elem_of_fmap. simpl in E2. subst id'. unfold removals in Hp.
    apply list_elem_of_omap in Hp as (p & Hp & E%removal_of_id). simpl in E.
    pose proof (proj1 (Forall_forall _ _) (hub_order_groups true h) _ Hp) as Hp'. simpl in Hp'. congruence. }
  { intros id' Hi. exfalso. eapply (group_other _ _ _ _ true false id' id x h1 H1); [done..|]. simpl. by rewrite Hu1. }
  exists h'. rewrite Hs', Hu', Hw', Hs1, Hu1. split_and!; try done. apply Hout.
  intros id' Hi. eapply (group_other _ _ _ _ true false id' id x h H); done.
Qed.
End Remove.


(** ** A tick for a watcher of one key *)

Lemma records_after cur evs :
  StronglySorted Z.le (erev <$> evs) -> after cur (records cur evs) = Z.max cur (after cur evs).
Proof.
  revert cur. induction evs as [|e evs IH]; intros cur Hs; [unfold after; simpl; lia|].
  apply StronglySorted_inv in Hs as [Hs Hle]. rewrite after_cons. cbn [records].
  assert (erev e <= after (erev e) evs) as Hge.
  { unfold after. destruct (last evs) as [z|] eqn:E; [|done]. simpl. apply (Forall_fmap erev) in Hle.
    by apply (proj1 (Forall_forall _ _) Hle), last_Some_elem_of. }
  destruct (Z.ltb_spec cur (erev e)) as [Hlt|Hge'].
  - rewrite after_cons, IH by done. lia.
  - rewrite IH by done. unfold after in *. destruct (last evs); simpl in *; lia.
Qed.

Lemma after_max cur evs e : StronglySorted Z.le (erev <$> evs) -> e ∈ evs -> erev e <= after cur evs.
Proof.
  intros Hs He. unfold after. destruct (last evs) as [z|] eqn:E.
  - apply last_snoc_inv in E as [l ->]. simpl. rewrite fmap_app in Hs. apply StronglySorted_app in Hs as (Hle & _).
    apply elem_of_app in He as [He|He]; [|by apply list_elem_of_singleton in He as ->].
    apply Hle; [by apply list_elem_of_fmap_2|left].
  - apply last_None in E as ->. by apply not_elem_of_nil in He.
Qed.

(** The events of a history after [a] and up to [z]. *)
Definition between (a z : Z) (h : list kevent) : list kevent :=
  filter (fun e => a < Main (ke_rev e) <= z) h.

Lemma window_between a z h : window a (z + 1) h = event_key <$> between a z h.
Proof.
  unfold window, between. induction h as [|e h IH]; [done|]. cbn [fmap list_fmap]. rewrite !filter_cons, IH.
  unfold in_window, event_key. simpl. repeat case_decide; try done; lia.
Qed.

Lemma between_sorted a z (h : list kevent) :
  StronglySorted rev_lt (ke_rev <$> h) -> StronglySorted Z.le ((fun e => Main (ke_rev e)) <$> between a z h).
Proof.
  intros Hs. apply (sorted_filter _ (fun e => Main (ke_rev e))). induction h as [|e h IH]; [constructor|].
  apply StronglySorted_inv in Hs as [Hs He]. constructor; [by apply IH|]. apply (Forall_fmap ke_rev) in He.
  apply (Forall_fmap (fun e => Main (ke_rev e))). eapply Forall_impl; [exact He|]. simpl. unfold rev_lt. lia.
Qed.

Lemma read_sorted (s : kvs) k h ents :
  Forall2 (read_of s) (pair k <$> h) ents -> erev ∘ event_of <$> ents = (fun e => Main (ke_rev e)) <$> h.
Proof.
  revert ents. induction h as [|e h IH]; intros ents HF; inversion HF as [|? ? ? ? Hr HF']; subst; [done|].
  cbn [fmap list_fmap]. f_equal; [|by apply IH]. destruct Hr as (e0 & _ & Ho & ->). apply Ho.
Qed.

(** A watcher of exactly the key [k]. *)
Record single_key (k : bytes) (w : watcher) : Prop := {
  sk_start : wt_keyStart w = k; sk_ne : k <> []; sk_end : wt_keyEnd w = None; sk_filter : wt_filter w = None }.

Lemma matches_single k w (s : kvs) (h : list kevent) ents :
  single_key k w -> Forall2 (read_of s) (pair k <$> h) ents ->
  filter (fun e => matches e w = true) (event_of <$> ents) = event_of <$> ents.
Proof.
  intros [Hst Hne Hend Hfil] HF. apply filter_all, (Forall_fmap event_of), Forall_forall.
  intros ent (i & Hi)%list_elem_of_lookup_1. destruct (Forall2_lookup_r _ _ _ _ _ HF Hi) as (p & Hp & (e0 & _ & Ho & ->)).
  rewrite list_lookup_fmap in Hp. apply fmap_Some in Hp as (e & _ & ->). unfold matches. simpl.
  rewrite Hfil, Hst, Hend. simpl. rewrite (eo_key _ _ _ Ho). simpl. rewrite andb_false_r || idtac.
  destruct k; [done|]. simpl. by apply bool_decide_eq_true.
Qed.

Lemma feed_single (s : kvs) st x w k :
  kv_inv s -> wtab st.1 !! x = Some w -> (length (wt_c w) <= watcherChannelBufferSize)%nat ->
  single_key k w -> wt_ctx w = None -> wt_closed w = false ->
  failures (wt_id w) st.2 < unsynchedFailureLimit -> (u_revs st.2).2 <= wt_currentRev w ->
  0 <= Main (u_revs st.2).1 < MaxInt64 ->
  let todo := between (wt_currentRev w) (Main (u_revs st.2).1) (hist (kvIndex s) k) in
  (length todo <= room w)%nat ->
  exists ents w', Forall2 (read_of s) (pair k <$> todo) ents /\
    feed x s st = ((set_wt x w' st.1, mark_promote (wt_id w) st.2), Ok tt) /\
    wt_c w' = wt_c w ++ records (wt_currentRev w) (event_of <$> ents) /\
    (todo = [] -> wt_currentRev w' = Main (u_revs st.2).1) /\
    Forall (fun e => Main (ke_rev e) <= wt_currentRev w') todo.
Proof.
  intros Hs Hw Hlen Hk Hctx Hcl Hf Hcomp Hrm todo Hroom. destruct st as [h u]. simpl in *.
  set (cur := wt_currentRev w) in *. set (rm := Main (u_revs u).1) in *.
  destruct (read_events_run s (pair k <$> todo) Hs) as (ents & HF & Hread).
  { apply (Forall_fmap (pair k)), Forall_forall. intros e [_ He]%list_elem_of_filter. done. }
  rewrite <-list_fmap_compose in Hread.
  assert (erev <$> (event_of <$> ents) = (fun e => Main (ke_rev e)) <$> todo) as Hrevs.
  { rewrite <-list_fmap_compose. by apply (read_sorted s k). }
  assert (StronglySorted Z.le (erev <$> (event_of <$> ents))) as Hsorted.
  { rewrite Hrevs. apply between_sorted, hist_sorted, (ki_idx s Hs). }
  assert (RevisionsRange (wt_keyStart w) (wt_keyEnd w) cur (i64 (rm + 1)) (kvIndex s) = Ok (event_key <$> todo)) as HR.
  { destruct Hk as [-> Hne -> _]. rewrite i64_id by (unfold in_i64, MinInt64, MaxInt64 in *; lia).
    rewrite RevisionsRange_single by (apply (ki_idx s Hs) || done). by rewrite window_between. }
  exists ents. unfold feed, feed_start. unfold mbind at 1, M_bind at 1. rewrite Hw. fold cur rm.
  rewrite (proj2 (Z.leb_gt _ _)) by done. rewrite Hctx, (proj2 (Z.ltb_ge _ _)), HR by done. simpl.
  destruct todo as [|t0 todo'] eqn:Et.
  { exists (set_currentRev_w rm w). inversion HF; subst. simpl. rewrite app_nil_r. by split_and!. }
  rewrite <-Et in *. clearbody todo. assert (event_key <$> todo = event_key t0 :: (event_key <$> todo')) as Ek by by rewrite Et.
  rewrite Ek. rewrite <-Ek. unfold compose in Hread. simpl in Hread. change (fun x0 => event_key x0) with event_key in Hread.
  rewrite Hread. cbn [fd_events]. unfold mbind, M_bind, on_hub_part, try, on_wt. cbn [fst snd]. rewrite Hw. assert (wanted w (event_of <$> ents) = records cur (event_of <$> ents)) as Hwant.
  { unfold wanted. by rewrite (matches_single k w s todo). }
  assert (length (records cur (event_of <$> ents)) <= room w)%nat as Hfit.
  { etransitivity; [apply sublist_length, records_sublist|]. apply (f_equal length) in Hrevs.
    rewrite !length_fmap in *. lia. }
  rewrite sendAll_open, Hwant, take_ge, (proj2 (Nat.leb_le _ _)) by done.
  set (d := records cur (event_of <$> ents)). exists (delivered d w).
  assert (wt_currentRev (delivered d w) = Z.max cur (after cur (event_of <$> ents))) as Hcur by by apply records_after.
  assert (Forall (fun e => Main (ke_rev e) <= wt_currentRev (delivered d w)) todo) as Hall.
  { apply Forall_forall. intros e He. apply (list_elem_of_fmap_2 (fun e => Main (ke_rev e))) in He.
    rewrite <-Hrevs in He. apply list_elem_of_fmap in He as (ev & -> & Hev).
    pose proof (after_max cur _ ev Hsorted Hev). lia. }
  unfold feed_done. cbn [fd_ref fd_high wtab set_wt]. rewrite lookup_insert_eq. rewrite Hcur. rewrite (proj2 (Z.leb_le _ _)).
  2:{ destruct (last (event_of <$> ents)) as [z|] eqn:El; [|apply last_None in El; by rewrite El, Et in Hrevs].
      unfold after. rewrite El. simpl. unfold erev. lia. }
  by split_and!; rewrite ?Hcur in *; try done; rewrite Et.
Qed.

(** ** The end of a tick, for a promoted watcher *)

Section Finish.
Context (got : nat -> list Event) (cur rm : Z).
Abbreviation okf := (hub_part got cur rm).

Lemma drop_failed_frame_wt l st id x :
  okf st -> id ∉ l.*1 -> unsynced st.1 !! id = Some x ->
  exists st', drop_failed l st = (st', Ok tt) /\ okf st' /\ unsynced st'.1 !! id = Some x /\
    wtab st'.1 !! x = wtab st.1 !! x.
Proof.
  revert st. induction l as [|[wid e] l IH]; intros st [H Hr] Hin Hu; [by exists st|].
  apply not_elem_of_cons in Hin as [Hne Hin]. simpl in Hne. cbn [drop_failed].
  unfold mbind, M_bind, modify, unsafeDropFailedWatcher. destruct (unsynced st.1 !! wid) as [y|] eqn:Ey.
  2:{ by destruct (IH (st.1, forget wid st.2)) as (st' & ? & ? & ? & ?); [..|exists st']. }
  destruct (ho_grp _ _ _ _ _ H false wid y Ey) as (v & Hv & Hid & _).
  assert (id_of y st.1 = wid) as -> by (unfold id_of; by rewrite Hv).
  destruct (unsafeDropFromGroup_run _ _ _ _ false wid e st.1 H) as (h' & -> & H' & Hg & _ & Ht).
  simpl in Hg, Ht. rewrite Ey in Ht.
  assert (y <> x) as Hyx.
  { intros ->. apply Hne. rewrite <-Hid. symmetry. by apply (group_id _ _ _ _ false id x st.1 v H). }
  destruct (IH (h', forget wid (forget wid st.2))) as (st' & Hrun & Hok & Hu' & Hw'); simpl in *.
  { by split. } { done. } { by rewrite Hg, lookup_delete_ne. }
  exists st'. split_and!; [done..|]. by rewrite Hw', Ht, lookup_alter_ne.
Qed.

Lemma promote_each_in l st id x :
  okf st -> (unsynced st.1 !! id = Some x /\ id ∈ l \/ synced st.1 !! id = Some x /\ unsynced st.1 !! id = None) ->
  synced (promote_each l st).1 !! id = Some x /\ wtab (promote_each l st).1 = wtab st.1.
Proof.
  revert st. induction l as [|wid l IH]; intros st [H Hr] Hx.
  { destruct Hx as [[_ ?%not_elem_of_nil]|[? _]]; done. }
  cbn [promote_each]. rewrite (unsafePromote_run _ _ _ _ _ _ H).
  set (st' := ((match unsynced st.1 !! wid with Some y => move false wid y st.1 | None => st.1 end), forget wid st.2)).
  assert (wtab st'.1 = wtab st.1) as Ht by (unfold st'; simpl; by destruct (unsynced st.1 !! wid)).
  assert (okf st') as Hok'.
  { pose proof (promote_each_ok got cur rm [wid] st (conj H Hr)) as Hp. cbn [promote_each] in Hp.
    by rewrite (unsafePromote_run _ _ _ _ _ _ H) in Hp. }
  destruct (IH st' Hok') as [Hs Hw]; [|rewrite <-Ht; exact (conj Hs Hw)].
  unfold st'. simpl. destruct (decide (wid = id)) as [->|Hne].
  - right. destruct Hx as [[Hu _]|[Hs Hu]]; rewrite Hu; [|done]. simpl. by rewrite lookup_insert_eq, lookup_delete_eq.
  - assert (forall y, synced (move false wid y st.1) !! id = synced st.1 !! id /\
                      unsynced (move false wid y st.1) !! id = unsynced st.1 !! id) as Hm.
    { intros y. simpl. by rewrite lookup_insert_ne, lookup_delete_ne. }
    destruct (unsynced st.1 !! wid) as [y|]; [destruct (Hm y) as [-> ->]|];
      (destruct Hx as [[Hu [->|Hi]%elem_of_cons]|?]; [done|by left|by right]).
Qed.

Lemma tick_finish_promotes st id x :
  loop_ok got cur st -> unsynced st.1 !! id = Some x -> id ∈ promoteBatch st.2 -> deleteBatch st.2 !! id = None ->
  Main (u_revs st.2).1 = rm ->
  exists st', tick_finish st = (st', Ok tt) /\ synced st'.1 !! id = Some x /\ wtab st'.1 !! x = wtab st.1 !! x.
Proof.
  intros H Hu Hp Hd Hr. pose proof (ho_rm _ _ _ _ _ H) as Hrm.
  assert (okf st) as Hok.
  { split; [|done]. eapply hub_ok_weaken; [exact H|lia|apply map_empty_subseteq|lia..]. }
  unfold tick_finish, mbind, M_bind, get_st, modify.
  destruct (drop_failed_frame_wt (map_to_list (deleteBatch st.2)) st id x Hok) as (st1 & -> & Hok1 & Hu1 & Hw1).
  { intros ([id' e] & E & Hin)%list_elem_of_fmap. apply elem_of_map_to_list in Hin. simpl in E. congruence. }
  { done. }
  destruct (promote_each_in (elements (promoteBatch st.2)) st1 id x Hok1) as [Hs Hw].
  { left. split; [done|]. by apply elem_of_elements. }
  eexists. split; [done|]. simpl. by rewrite Hw.
Qed.
End Finish.

(** ** The turns of the other watchers *)

(** What a turn of another watcher leaves alone. *)
Definition untouched (id : Z) (x : nat) (st st' : WatchHub * UnsyncedLoop) : Prop :=
  wtab st'.1 !! x = wtab st.1 !! x /\ synced st'.1 = synced st.1 /\ unsynced st'.1 = unsynced st.1 /\
  deleteBatch st'.2 !! id = deleteBatch st.2 !! id /\ failures id st'.2 = failures id st.2 /\
  (id ∈ promoteBatch st.2 -> id ∈ promoteBatch st'.2).

Lemma untouched_refl id x st : untouched id x st st.
Proof. by split_and!. Qed.
Lemma untouched_trans id x a b c : untouched id x a b -> untouched id x b c -> untouched id x a c.
Proof. intros (?&?&?&?&?&?) (?&?&?&?&?&?). split_and!; [congruence..|auto]. Qed.

Lemma untouched_delete id x y e h h' u :
  wtab h' !! x = wtab h !! x -> synced h' = synced h -> unsynced h' = unsynced h -> y <> id ->
  untouched id x (h, u) (h', mark_delete y e u) /\ untouched id x (h, u) (h', mark_promote y u) /\
  untouched id x (h, u) (h', incFailures y u) /\ untouched id x (h, u) (h', u).
Proof.
  intros Hw Hs Hu Hne. unfold untouched, failures. cbn [fst snd mark_delete mark_promote incFailures deleteBatch unsyncedFailures promoteBatch].
  rewrite !lookup_insert_ne by done. split_and!; try done. intros. by apply elem_of_union_r.
Qed.

Lemma feed_untouched id x y (s : kvs) st v :
  wtab st.1 !! y = Some v -> wt_id v <> id -> y <> x -> untouched id x st (feed y s st).1.
Proof.
  intros Hv Hid Hne. destruct st as [h u]. simpl in Hv. unfold feed, mbind, M_bind.
  pose proof (untouched_delete id x (wt_id v)) as Hu.
  assert (forall v', wtab (set_wt y v' h) !! x = wtab h !! x) as Hx by (intros; by apply lookup_insert_ne).
  destruct (feed_start y s (h, u)) as [st1 r] eqn:Es. unfold feed_start in Es. rewrite Hv in Es.
  assert (untouched id x (h, u) st1 /\ (forall f, r = Ok (Some f) -> st1 = (h, u) /\ fd_ref f = y)) as [H1 Hf].
  { repeat case_match; injection Es as <- <-; (split; [first [apply untouched_refl|by apply (Hu [])|by eapply Hu]|]); intros f Ef; try done.
    by injection Ef as <-. }
  clear Es. destruct r as [[f|]|e|]; try done. destruct (Hf f eq_refl) as [-> Hy]. clear Hf.
  unfold on_hub_part, try, on_wt. cbn [fst snd]. rewrite Hv.
  destruct (sendAll_static (fd_events f) v) as (Hid' & _).
  destruct (sendAll (fd_events f) v) as [v' r]. simpl in Hid'. rewrite <-Hid' in Hid, Hu. clear Hid'.
  pose proof (untouched_delete id x (wt_id v')) as Hu'.
  assert (forall r0, untouched id x (h, u) (feed_done f r0 (set_wt y v' h, u)).1) as Hd.
  { intros r0. unfold feed_done. rewrite Hy. cbn [wtab set_wt]. rewrite lookup_insert_eq.
    repeat case_match; simpl; first [by apply (Hu' [])|by eapply Hu']. }
  destruct r as [[]|e|]; [apply Hd..|]. simpl. by apply (Hu' []).
Qed.

Lemma feed_each_frame got (s : kvs) l st id x :
  kv_inv s -> loop_ok got (Main (currentRev s)) st -> MinInt64 <= Main (u_revs st.2).1 ->
  Forall (fun p => unsyncedBatch st.2 !! p.1 = Some p.2) l -> unsyncedBatch st.2 !! id = Some x -> id ∉ l.*1 ->
  exists st', feed_each l s st = (st', Ok tt) /\ loop_ok got (Main (currentRev s)) st' /\ same_tick st st' /\ untouched id x st st'.
Proof.
  intros Hs. revert st. induction l as [|[idy y] l IH]; intros st H Hmin Hl Hx Hni.
  { by exists st. }
  apply Forall_cons in Hl as [Hy Hl]. apply not_elem_of_cons in Hni as [Hne Hni]. simpl in Hy, Hne.
  destruct (feed_ok got s idy y st Hs H Hmin Hy) as (st1 & E & H1 & Ht1).
  destruct (ho_batch _ _ _ _ _ H _ _ Hy) as [_ (v & Hv & Hidv & _)].
  destruct (ho_batch _ _ _ _ _ H _ _ Hx) as [_ (w & Hw & Hidw & _)].
  assert (untouched id x st st1) as Hu1.
  { change st1 with ((st1, Ok tt).1). rewrite <-E. apply (feed_untouched id x y s st v); [done|congruence|].
    intros ->. congruence. }
  pose proof Ht1 as [Eb Er]. destruct (IH st1) as (st2 & E2 & H2 & [Eb2 Er2] & Hu2); rewrite ?Eb, ?Er; try done.
  exists st2. cbn [feed_each]. unfold mbind, M_bind. rewrite E. split_and!; [done..| |by eapply untouched_trans].
  split; congruence.
Qed.

Lemma feed_each_app (s : kvs) l1 l2 st st1 :
  feed_each l1 s st = (st1, Ok tt) -> feed_each (l1 ++ l2) s st = feed_each l2 s st1.
Proof.
  revert st. induction l1 as [|[id x] l1 IH]; intros st; [by intros [= ->]|]. cbn [app feed_each]. unfold mbind, M_bind.
  destruct (feed x s st) as [st' [[]|e|]]; [apply IH|done..].
Qed.

(** The turns of a tick around that of the watcher [x]. *)
Lemma feed_each_one got (s : kvs) h u id x :
  kv_inv s -> loop_ok got (Main (currentRev s)) (h, u) -> MinInt64 <= Main (u_revs u).1 -> unsyncedBatch u !! id = Some x ->
  exists st1 st2, loop_ok got (Main (currentRev s)) st1 /\ same_tick (h, u) st1 /\ untouched id x (h, u) st1 /\
    forall st1', feed x s st1 = (st1', Ok tt) ->
      feed_each (hub_order (unsyncedBatch u)) s (h, u) = (st2, Ok tt) /\ loop_ok got (Main (currentRev s)) st2 /\
      untouched id x st1' st2.
Proof.
  intros Hs H Hmin Hb.
  assert ((id, x) ∈ hub_order (unsyncedBatch u)) as (l1 & l2 & El)%list_elem_of_split
    by (rewrite hub_order_perm; by apply elem_of_map_to_list).
  assert (Forall (fun p => unsyncedBatch u !! p.1 = Some p.2) (l1 ++ (id, x) :: l2)) as Hall.
  { rewrite <-El. apply Forall_forall. intros [i y] Hin. rewrite hub_order_perm in Hin. by apply elem_of_map_to_list in Hin. }
  pose proof (hub_order_NoDup (unsyncedBatch u)) as Hnd. rewrite El, fmap_app in Hnd. cbn [fmap list_fmap] in Hnd.
  apply NoDup_app in Hnd as (_ & Hni1 & Hnd2). apply NoDup_cons in Hnd2 as [Hni2 _].
  apply Forall_app in Hall as [Hl1 Hl2]. apply Forall_cons in Hl2 as [_ Hl2].
  destruct (feed_each_frame got s l1 (h, u) id x) as (st1 & E1 & H1 & Ht1 & Hu1); try done.
  { intros Hin. apply (Hni1 id Hin). left. }
  pose proof Ht1 as [Eb1 Er1]. simpl in Eb1, Er1.
  destruct (feed_ok got s id x st1 Hs H1) as (st1' & E & H1' & [Eb1' Er1']); [by rewrite Er1|by rewrite Eb1|].
  destruct (feed_each_frame got s l2 st1' id x) as (st2 & E2 & H2 & _ & Hu2); rewrite ?Eb1', ?Er1', ?Eb1, ?Er1; try done.
  exists st1, st2. split_and!; try done. intros st0 E0. rewrite E in E0. injection E0 as <-.
  split; [|done]. rewrite El, (feed_each_app _ _ _ _ st1 E1). cbn [feed_each]. unfold mbind, M_bind. by rewrite E.
Qed.

(** ** Properties *)

(** C7: Whatever way commits, notifications, watcher creation and removal, cancellation, the
    consumers and the steps of the catch-up loop are interleaved: every watcher receives
    only events it asked for, in strictly increasing revision order and above its start
    revision, its channel never exceeds the buffer, and the groups hold open watchers
    under their own ids. No step panics (no channel is closed twice, nothing is sent on a
    closed one) but one: the loop's select, on a watcher whose channel was closed after the
    loop had tested the event, since the loop sends without the lock of the hub. *)
Theorem watch_sys_safe s st :
  kv_inv s -> rtc sys_step (sys_init s) st ->
  (forall x w, wtab (sy_hub st) !! x = Some w ->
     StronglySorted Z.lt (erev <$> sy_got st x ++ wt_c w) /\
     Forall (fun e => matches e w = true /\ wt_startRev w < erev e) (sy_got st x ++ wt_c w) /\
     (length (wt_c w) <= watcherChannelBufferSize)%nat) /\
  (forall sy id x, group sy (sy_hub st) !! id = Some x ->
     exists w, wtab (sy_hub st) !! x = Some w /\ wt_id w = id /\ wt_closed w = false) /\
  (forall st', sys_step st st' -> sy_panic st' <> sy_panic st ->
     exists f w, sy_feeding st = Some f /\ fd_checked f = true /\
       wtab (sy_hub st) !! fd_ref f = Some w /\ wt_closed w = true).
Proof.
  intros Hs Hr. pose proof (sys_reachable_ok s st Hs Hr) as Hok. pose proof Hok as [_ H _ _].
  split; [|split; [apply H|]].
  - intros x w Hw. destruct (ho_wt _ _ _ _ _ H x w Hw) as [[H1 H2 H3 H4 H5] _]. split; [done|]. split; [|done].
    eapply Forall_impl; [exact H2|]. simpl. intros e [Hm Hb]. split; [done|lia].
  - intros st' Hstep Hp. by destruct (sys_step_ok st st' Hok Hstep) as [_ [?|?]].
Qed.

(** C19: A notification of a commit reaches every watcher of the synced group: one that
    takes the events stays synced, one whose channel overflows moves to the unsynced
    group with what it got, a cancelled one is closed and dropped. *)
Theorem watch_commit_delivers s st changes id x w :
  kv_inv s -> rtc sys_step (sys_init s) st ->
  Forall (fun e => ModRev e <= Main (currentRev (sy_store st))) changes ->
  synced (sy_hub st) !! id = Some x -> wtab (sy_hub st) !! x = Some w ->
  exists h', hub_OnCommit changes (sy_hub st) = (h', Ok tt) /\
    match sendAll (event_of <$> changes) w with
    | (w', Ok _) => synced h' !! id = Some x /\ wtab h' !! x = Some w'
    | (w', Err e) => removed id e x w' h'
    | (_, Panicked) => False
    end.
Proof.
  intros Hs Hr Hc Hx Hw. destruct (sys_reachable_ok s st Hs Hr) as [_ H _ _]. by eapply hub_OnCommit_synced.
Qed.

(** A new watcher of one key joins the synced group only when every event of its key
    is at or before its start revision; a watcher of a range joins it only when it starts
    at the current revision or later. Otherwise the catch-up loop feeds it. *)
Theorem watch_new_placement newid parent req (s : kvs) h h' x :
  kv_inv s -> NewWatcher newid parent req s h = (h', Ok x) ->
  let w := watcher_for newid parent req s in
  wtab h' !! x = Some w /\ x = wh_next h /\
  ((synced h' !! wt_id w = Some x /\ synced h !! wt_id w = None /\
    (wt_keyEnd w <> None -> Main (currentRev s) <= wt_startRev w) /\
    (wt_keyEnd w = None -> wt_keyStart w <> [] -> forall e, e ∈ hist (kvIndex s) (wt_keyStart w) ->
       Main (ke_rev e) <= wt_startRev w)) \/
   (unsynced h' !! wt_id w = Some x /\ unsynced h !! wt_id w = None /\ wt_startRev w < Main (currentRev s))).
Proof.
  intros Hs Hrun w. destruct (NewWatcher_run newid parent req s h Hs) as (lr & Hle & Hk & Hend & E).
  fold w in Hk, Hend, E. cbv zeta in E. rewrite E in Hrun. clear E. case_bool_decide as Hg; [done|].
  injection Hrun as <- <-. unfold add_watcher. rewrite wtab_set_group. cbn [wtab].
  rewrite lookup_insert_eq. split_and!; [done..|]. apply eq_None_not_Some in Hg. change (watch_start req s) with (wt_startRev w).
  destruct (Z.leb_spec lr (wt_startRev w)) as [Hsy|Hsy]; simpl in *; [left|right]; rewrite lookup_insert_eq;
    split_and!; try done; [| |lia].
  - intros Hn. rewrite <-(Hend Hn). done.
  - intros Hn Hne e He. specialize (Hk Hn Hne e He). lia.
Qed.

(** C20: A tick of the catch-up loop that nothing interferes with brings an unsynced watcher
    it collects up to date, when the watcher is for a single key, without a filter and not
    cancelled, has not reached the failure limit, stands at or after the compacted revision
    and has room in its channel: it receives, read from the store, the first event of every
    revision of its key after its current one and up to the revision of the store, in
    order, and is in the synced group when the tick ends. *)
Theorem watch_catch_up s st id x w k :
  kv_inv s -> rtc sys_step (sys_init s) st -> sy_feeding st = None ->
  unsyncedBatch (sy_loop st) = ∅ -> deleteBatch (sy_loop st) = ∅ ->
  unsyncedBatch (tick_collect (sy_store st) (sy_hub st) (sy_loop st)) !! id = Some x ->
  wtab (sy_hub st) !! x = Some w -> single_key k w -> wt_ctx w = None ->
  failures id (sy_loop st) < unsynchedFailureLimit -> compactedMainRev (sy_store st) <= wt_currentRev w ->
  let rm := Main (currentRev (sy_store st)) in rm < MaxInt64 ->
  let todo := between (wt_currentRev w) rm (hist (kvIndex (sy_store st)) k) in
  (length todo <= room w)%nat ->
  exists ents w' h' u', Forall2 (read_of (sy_store st)) (pair k <$> todo) ents /\
    ul_tick (sy_store st) (sy_hub st, sy_loop st) = ((h', u'), Ok tt) /\
    synced h' !! id = Some x /\ wtab h' !! x = Some w' /\
    wt_c w' = wt_c w ++ records (wt_currentRev w) (event_of <$> ents) /\
    Forall (fun e => Main (ke_rev e) <= wt_currentRev w') todo.
Proof.
  intros Hs Hr Hn Hbatch Hdel Hb Hw Hk Hctx Hf Hcomp rm Hrm todo Hroom.
  pose proof (sys_reachable_ok s st Hs Hr) as Hok. set (u := tick_collect (sy_store st) (sy_hub st) (sy_loop st)) in *.
  assert (sys_ok (set_loop u st)) as [Hst H Hr0 _] by (eapply sys_step_ok; [exact Hok|by apply sy_collect]).
  change (sy_store (set_loop u st)) with (sy_store st) in *. simpl in Hr0.
  assert (unsynced (sy_hub st) !! id = Some x) as Hu.
  { unfold u, tick_collect in Hb. simpl in Hb. apply fold_batch in Hb as [Hb|Hin]; [by rewrite Hbatch in Hb|].
    by apply (proj1 (Forall_forall _ _) (hub_order_groups false (sy_hub st)) _) in Hin. }
  destruct (ho_wt _ _ _ _ _ H x w Hw) as [Hwok _]. pose proof (group_id _ _ _ _ false id x _ w H Hu Hw) as Hid.
  destruct (ho_grp _ _ _ _ _ H false id x Hu) as (w0 & Hw0 & _ & Hcl). assert (w0 = w) as -> by (simpl in *; congruence).
  assert (u_revs u = (currentRev (sy_store st), compactedMainRev (sy_store st))) as Er0 by done.
  assert (deleteBatch u !! id = None) as Hd0 by (simpl; by rewrite Hdel).
  assert (failures id u < unsynchedFailureLimit) as Hf0 by done.
  assert (ul_tick (sy_store st) (sy_hub st, sy_loop st) =
    (feed_each (hub_order (unsyncedBatch u)) (sy_store st) ≫= fun _ => tick_finish) (sy_hub st, u)) as -> by done.
  clearbody u.
  destruct (feed_each_one (sy_got st) (sy_store st) (sy_hub st) u id x) as (st1 & st2 & H1 & [_ Er1] & Hun1 & Hrest); try done.
  { rewrite Er0. simpl. unfold MinInt64. lia. }
  destruct Hun1 as (Ew1 & Es1 & Eu1 & Ed1 & Ef1 & _). simpl in *. rewrite Er0 in Er1.
  destruct (feed_single (sy_store st) st1 x w k) as (ents & w' & HF & Hrun & Hc & _ & Hall); rewrite ?Er1; try done.
  { by rewrite Ew1. } { apply Hwok. } { by rewrite Hid, Ef1. }
  rewrite Er1 in HF, Hall. simpl in HF, Hall.
  destruct (Hrest _ Hrun) as (Hfeed & H2 & (Ew2 & Es2 & Eu2 & Ed2 & _ & Hp2)). simpl in Ew2, Eu2, Ed2, Hp2.
  destruct (tick_finish_promotes _ _ (Main (u_revs st2.2).1) st2 id x H2) as ([h3 u3] & Hfin & Hs3 & Hw3).
  { by rewrite Eu2, Eu1. } { apply Hp2. rewrite Hid. set_solver. } { by rewrite Ed2, Ed1. } { done. }
  exists ents, w', h3, u3. split; [done|]. unfold mbind, M_bind. rewrite Hfeed. split; [done|].
  split; [done|]. simpl in Hw3. by rewrite Hw3, Ew2, lookup_insert_eq.
Qed.

(** Events committed between the moment the catch-up loop has marked a watcher for
    promotion and the end of the tick are lost: the notification finds the watcher in the
    unsynced group and skips it, the end of the tick moves it to the synced group as it
    is. *)
Theorem watch_promotion_race s st id x changes :
  kv_inv s -> rtc sys_step (sys_init s) st ->
  unsynced (sy_hub st) !! id = Some x -> synced (sy_hub st) !! id = None ->
  id ∈ promoteBatch (sy_loop st) -> deleteBatch (sy_loop st) !! id = None ->
  Forall (fun e => ModRev e <= Main (currentRev (sy_store st))) changes ->
  let st' := on_loop tick_finish (on_hub (hub_OnCommit changes) st) in
  synced (sy_hub st') !! id = Some x /\ wtab (sy_hub st') !! x = wtab (sy_hub st) !! x.
Proof.
  intros Hs Hr Hu Hns Hp Hd Hc st'. pose proof (sys_reachable_ok s st Hs Hr) as Hok. pose proof Hok as [_ H _ _].
  destruct (hub_OnCommit_unsynced _ _ _ _ changes (sy_hub st) id x H Hc Hu Hns) as (h1 & Hrun & Hu1 & _ & Hw1).
  assert (sys_ok (on_hub (hub_OnCommit changes) st)) as [_ H1 _ _].
  { eapply sys_step_ok; [exact Hok|]. by apply sy_notify. }
  unfold st', on_hub in *. rewrite Hrun in H1 |- *. cbn [sy_hub sy_loop sy_store sy_got fst snd] in *.
  unfold on_loop. cbn [sy_hub sy_loop fst snd].
  destruct (tick_finish_promotes _ _ _ _ id x H1 Hu1 Hp Hd eq_refl) as (st2 & -> & Hs2 & Hw2).
  destruct st2 as [h2 u2]. simpl in *. by rewrite Hw2, Hw1.
Qed.

End WatchSys.

(** ** Witnesses *)

Definition req_a : WatchCreateRequest := mkWatchReq 0 (Some k_a) None false 1 false None.
Definition entry_a (rev : Z) : Entry := mkEntry k_a (Some [Byte.x01]) 1 rev rev 0.
Definition wt_a : watcher := mkWt 7 k_a None 0 0 None false None [] false.

(** Two events of one transaction: only the first is delivered. *)
Lemma watch_sendAll_witness :
  exists d w', sendAll (event_of <$> [entry_a 1; entry_a 1]) wt_a =
      (w', if (length d <=? room wt_a)%nat then Ok tt else Err [ErrWatcherOverloaded]) /\
    filter (fun e => erev e = 1) d = [event_of (entry_a 1)].
Proof.
  destruct (watch_sendAll wt_a (event_of <$> [entry_a 1; entry_a 1])) as (d & w' & H1 & H2 & _).
  - reflexivity.
  - reflexivity.
  - vm_compute. lia.
  - repeat constructor; vm_compute; discriminate.
  - exists d, w'. split; [exact H1|]. rewrite H2. vm_compute. reflexivity.
Defined.

(** A watcher made on the empty store sees the first commit. *)
Definition req_now : WatchCreateRequest := mkWatchReq 0 (Some k_a) None false 0 false None.
Abbreviation inmem_sys := (WatchSys (T := list keyIndex) (St := InmemStore (list Item)) (B := inmemBatch)).
Definition sync1 : inmem_sys := on_hub (NewWatcher 7 None req_now kv0) (sys_init kv0).
Definition sync2 : inmem_sys := mkSys (sy_hub sync1) (sy_loop sync1) kv1 (sy_got sync1) None (sy_panic sync1).
Definition sync3 : inmem_sys := on_hub (hub_OnCommit [entry_a 1]) sync2.

Lemma sync2_run : rtc sys_step (sys_init kv0) sync2.
Proof.
  eapply rtc_l; [apply (sy_new _ 7 None req_now)|].
  eapply rtc_l; [apply (sy_commit _ kv1); [apply (proj1 kv1_good)|vm_compute; discriminate]|]. apply rtc_refl.
Qed.
Lemma entry_a_committed n (s : inmem_kvs) :
  (n <=? Main (currentRev s)) = true -> Forall (fun e => ModRev e <= Main (currentRev s)) [entry_a n].
Proof. intros H%Z.leb_le. constructor; [exact H|constructor]. Qed.
Lemma sync3_run : rtc sys_step (sys_init kv0) sync3.
Proof.
  eapply rtc_r; [apply sync2_run|]. apply (sy_notify sync2 [entry_a 1]). apply entry_a_committed. vm_compute. reflexivity.
Qed.

Lemma watch_sys_safe_witness :
  exists w, wtab (sy_hub sync3) !! 0%nat = Some w /\ wt_c w = [event_of (entry_a 1)] /\
    StronglySorted Z.lt (erev <$> sy_got sync3 0%nat ++ wt_c w) /\
    (forall st', sys_step sync3 st' -> sy_panic st' = false).
Proof.
  destruct (watch_sys_safe kv0 sync3 kv0_inv sync3_run) as (H1 & _ & H2).
  eexists. split; [vm_compute; reflexivity|]. split; [vm_compute; reflexivity|]. split; [apply H1; vm_compute; reflexivity|].
  intros st' Hst'. destruct (sy_panic st') eqn:E; [|reflexivity]. exfalso.
  destruct (H2 st' Hst') as (f & w & Hf & _); [rewrite E; vm_compute; discriminate|]. vm_compute in Hf. discriminate.
Defined.

Lemma watch_commit_delivers_witness :
  exists h', hub_OnCommit [entry_a 1] (sy_hub sync2) = (h', Ok tt) /\ synced h' !! 7 = Some 0%nat.
Proof.
  destruct (watch_commit_delivers kv0 sync2 [entry_a 1] 7 0%nat wt_a kv0_inv sync2_run) as (h' & H1 & H2).
  - apply entry_a_committed. vm_compute. reflexivity.
  - vm_compute. reflexivity.
  - vm_compute. reflexivity.
  - exists h'. split; [exact H1|]. vm_compute (sendAll _ _) in H2. apply H2.
Defined.

(** A watcher that starts at revision 1 of a store at revision 2. *)
Definition late1 : inmem_sys := on_hub (NewWatcher 7 None req_a kv2) (sys_init kv2).
Definition late2 : inmem_sys := set_loop (tick_collect (sy_store late1) (sy_hub late1) (sy_loop late1)) late1.
Definition late3 : inmem_sys := on_loop (feed 0%nat (sy_store late2)) late2.
Definition late4 : inmem_sys := mkSys (sy_hub late3) (sy_loop late3) kv3 (sy_got late3) None (sy_panic late3).
Definition late_w : watcher := mkWt 7 k_a None 1 1 None false None [] false.

Lemma watch_new_placement_witness :
  exists h', NewWatcher 7 None req_a kv2 NewWatchHub = (h', Ok 0%nat) /\ wtab h' !! 0%nat = Some late_w.
Proof.
  destruct (NewWatcher 7 None req_a kv2 NewWatchHub) as [h' r] eqn:E. exists h'.
  assert (r = Ok 0%nat) as -> by (apply (f_equal snd) in E; vm_compute in E; symmetry; exact E).
  split; [reflexivity|]. destruct (watch_new_placement 7 None req_a kv2 NewWatchHub h' 0%nat (proj1 kv2_good) E) as (H & _).
  rewrite H. vm_compute. reflexivity.
Defined.

Lemma late1_run : rtc sys_step (sys_init kv2) late1.
Proof. apply rtc_once. apply (sy_new (sys_init kv2) 7 None req_a). Qed.
Lemma late2_run : rtc sys_step (sys_init kv2) late2.
Proof. eapply rtc_r; [apply late1_run|]. apply (sy_collect late1). reflexivity. Qed.

Lemma watch_catch_up_witness :
  exists ents w' h' u', wt_c w' = records 1 (event_of <$> ents) /\
    ul_tick (sy_store late1) (sy_hub late1, sy_loop late1) = ((h', u'), Ok tt) /\
    synced h' !! 7 = Some 0%nat /\ wtab h' !! 0%nat = Some w'.
Proof.
  destruct (watch_catch_up kv2 late1 7 0%nat late_w k_a (proj1 kv2_good) late1_run)
    as (ents & w' & h' & u' & _ & H2 & H3 & H4 & H5 & _).
  - reflexivity.
  - reflexivity.
  - reflexivity.
  - vm_compute. reflexivity.
  - vm_compute. reflexivity.
  - split; [reflexivity|discriminate|reflexivity|reflexivity].
  - reflexivity.
  - vm_compute. reflexivity.
  - vm_compute. discriminate.
  - vm_compute. reflexivity.
  - vm_compute. lia.
  - exists ents, w', h', u'. split; [exact H5|]. split; [exact H2|]. split; [exact H3|exact H4].
Defined.

(** The watcher is dropped between the test of an event and the select that sends it: the
    select may take the closed channel, and panics. *)
Definition race1 : inmem_sys := on_feed (feed_start 0%nat (sy_store late2)) late2.
Definition race_f1 : feeding := default (mkFeed 0 [] 0 false) (sy_feeding race1).
Definition race2 : inmem_sys := on_feed (feed_check race_f1) race1.
Definition race_f2 : feeding := default (mkFeed 0 [] 0 false) (sy_feeding race2).
Definition race3 : inmem_sys := on_hub (DropWatcher 7) race2.
Definition race_w : watcher := default wt_a (wtab (sy_hub race3) !! 0%nat).

Lemma race3_run : rtc sys_step (sys_init kv2) race3.
Proof.
  apply (rtc_r _ race2); [|apply sy_drop]. apply (rtc_r _ race1); [|apply sy_check; vm_compute; reflexivity].
  apply (rtc_r _ late2); [apply late2_run|]. unfold race1. apply (sy_start late2 7 0); [reflexivity|vm_compute; reflexivity].
Qed.

Lemma watch_send_race :
  rtc sys_step (sys_init kv2) race3 /\ racing race3 /\ exists st', sys_step race3 st' /\ sy_panic st' = true.
Proof.
  assert (sy_feeding race3 = Some race_f2 /\ fd_checked race_f2 = true /\
    wtab (sy_hub race3) !! fd_ref race_f2 = Some race_w /\ wt_closed race_w = true) as (H1 & H2 & H3 & H4).
  { vm_compute. repeat split. }
  split; [apply race3_run|]. split; [exists race_f2, race_w; exact (conj H1 (conj H2 (conj H3 H4)))|].
  exists (on_feed (feed_select SelSend race_f2) race3). split; [|vm_compute; reflexivity].
  apply (sy_select race3 race_f2 race_w SelSend H1 H2 H3). unfold select_ready. rewrite H4. reflexivity.
Qed.

Lemma late4_run : rtc sys_step (sys_init kv2) late4.
Proof.
  apply (rtc_r _ late3); [etransitivity; [apply late2_run|]|].
  - apply (feed_run late2 7); [apply (sys_reachable_ok kv2 late2 (proj1 kv2_good) late2_run)|reflexivity|vm_compute; reflexivity].
  - unfold late4. apply sy_commit; [apply (proj1 kv3_good)|vm_compute; discriminate].
Qed.

(** Revision 3 is committed before the tick ends: the watcher is synced and has not got it. *)
Lemma watch_promotion_race_witness :
  let st' := on_loop tick_finish (on_hub (hub_OnCommit [entry_a 3]) late4) in
  synced (sy_hub st') !! 7 = Some 0%nat /\
  exists w, wtab (sy_hub st') !! 0%nat = Some w /\ erev <$> wt_c w = [2] /\
    matches (event_of (entry_a 3)) w = true /\ wt_currentRev w < 3.
Proof.
  intros st'. destruct (watch_promotion_race kv2 late4 7 0%nat [entry_a 3] (proj1 kv2_good) late4_run) as [H1 H2].
  - vm_compute. reflexivity.
  - vm_compute. reflexivity.
  - apply (bool_decide_unpack _). vm_compute. reflexivity.
  - vm_compute. reflexivity.
  - apply entry_a_committed. vm_compute. reflexivity.
  - split; [exact H1|]. unfold st'. rewrite H2. eexists. split; [vm_compute; reflexivity|].
    split; [vm_compute; reflexivity|]. split; vm_compute; reflexivity.
Defined.

(** ** Lost events *)

(** a at revision 1, b at 2, a at 3. *)
Definition kv_ab : inmem_kvs := put_commit k_a Byte.x03 (put_commit k_b Byte.x02 kv1).
Definition req_ab : WatchCreateRequest := mkWatchReq 0 (Some k_a) (Some [Byte.x63]) false 1 false None.
Definition range1 : inmem_sys := on_hub (NewWatcher 7 None req_ab kv_ab) (sys_init kv_ab).
Definition range3 : inmem_sys := on_loop (ul_tick kv_ab) range1.

(** The catch-up loop reads the history of a range key by key, so after revision 3 of a it
    drops revision 2 of b, and then promotes the watcher. *)
Lemma range_catch_up_loses :
  match wtab (sy_hub range3) !! 0%nat with
  | Some w => erev <$> wt_c w = [3] /\ wt_startRev w = 1 /\ synced (sy_hub range3) !! 7 = Some 0%nat
  | None => False
  end /\ (ke_rev <$> hist (kvIndex kv_ab) k_b) = [mkRev 2 0].
Proof. vm_compute. repeat split. Qed.

(** b is put at revision 2 and deleted at 3: a watcher of every key that starts at 1 is
    taken for synced, since only live keys count. *)
Definition kv_del : inmem_kvs := commit_with (DeleteKey k_b) (put_commit k_b Byte.x02 kv1).
Definition req_all : WatchCreateRequest := mkWatchReq 0 None None false 1 false None.

Lemma watch_all_misses :
  synced (NewWatcher 7 None req_all kv_del NewWatchHub).1 !! 7 = Some 0%nat /\
  (ke_rev <$> hist (kvIndex kv_del) k_b) = [mkRev 2 0; mkRev 3 0].
Proof. vm_compute. split; reflexivity. Qed.

(** The conflict check looks at one group only: a second watcher under the id of an unsynced
    one is accepted, and the promotion of the first replaces it. *)
Definition req_id (start : Z) : WatchCreateRequest := mkWatchReq 5 (Some k_a) None false start false None.
Definition dup_hub : WatchHub :=
  (NewWatcher 8 None (req_id 3) kv3 (NewWatcher 7 None (req_id 1) kv3 NewWatchHub).1).1.

Lemma id_conflict_orphans :
  unsynced dup_hub !! 5 = Some 0%nat /\ synced dup_hub !! 5 = Some 1%nat /\
  let h := (unsafePromote 5 dup_hub).1 in
  synced h !! 5 = Some 0%nat /\ unsynced h !! 5 = None /\ wt_closed <$> wtab h !! 1%nat = Some false.
Proof. vm_compute. repeat split. Qed.
