(* ===== verification/Stream.v ===== *)
(** Streams of watch events: [internal/watch] (stream.go, wire.go) and the responses of
    internal/types/api/watch_api.go. A stream registers watchers with the hub and runs one
    goroutine per watcher that forwards its events to the output channel. The calls are
    functions on the pair of the stream and the hub; the goroutine is a step relation, since
    the choice of a Go select among several ready cases is arbitrary. *)

From S2P Require Import Prelude OrdTree KvTypes KeyIndex TreeIndex Storage Inmem Backend Mvcc MvccInv Api Engine Watch WatchInv WatchSys.
From Stdlib Require Import ZArith Lia.
From stdpp Require Import base gmap sets list strings sorting.
Open Scope Z_scope.

(** ** Requests and responses *)

Record watchResponse := mkWatchResp { wp_WatchID : Z; wp_Success : bool; wp_Error : option error }.

Definition WatchCancelRequest_Check (wid : Z) : option error :=
  if wid =? 0 then Some (errMsg "watch_id cannot be zero") else None.

(** ** Events on the wire; [None] is the zero kv.Event of a cancel event *)

Record StreamEvent := mkSE { se_Wid : Z; se_Event : option Event; se_Canceled : bool; se_CancelCause : option error }.

Definition putEvent (wid : Z) (ev : Event) : StreamEvent := mkSE wid (Some ev) false None.
Definition deleteEvent (wid : Z) (ev : Event) : StreamEvent := mkSE wid (Some ev) false None.
Definition cancelEvent (wid : Z) (c : error) : StreamEvent := mkSE wid None true (Some c).

Definition toStreamEvent (wid : Z) (ev : Event) : StreamEvent :=
  match ev_Kind ev with
  | EventPut => putEvent wid ev
  | EventDelete => deleteEvent wid ev
  end.

(** ** The stream *)

Definition streamEventBufferSize : nat := 4.
Definition ErrStreamClosed : cause := ErrMsg "watch stream is closed".

(** [ss_done] tells whether the stream's context is cancelled, [ss_out] is the buffer of the
    output channel. *)
Record stream := mkStream {
  ss_closed : bool; ss_watchers : gmap Z nat; ss_out : list StreamEvent;
  ss_outClosed : bool; ss_inClosed : bool; ss_done : bool }.

Definition NewStream (parent_done : bool) : stream := mkStream false ∅ [] false false parent_done.

Definition set_watchers (m : gmap Z nat) (s : stream) : stream :=
  mkStream (ss_closed s) m (ss_out s) (ss_outClosed s) (ss_inClosed s) (ss_done s).
Definition set_out (o : list StreamEvent) (s : stream) : stream :=
  mkStream (ss_closed s) (ss_watchers s) o (ss_outClosed s) (ss_inClosed s) (ss_done s).

(** A call of the hub from the stream. *)
Definition hub_call {X} (m : M WatchHub X) : M (stream * WatchHub) X := fun st =>
  let '(h, r) := m st.2 in ((st.1, h), r).

Section Streams.
Context {HO : HubOrder} {T St B : Type} {BT : BTree Less T} {BS : ByteStore St B}.
Abbreviation kvs := (KvStore T St B).

Definition stream_Watch (newid : Z) (parent : option error) (req : WatchCreateRequest) (s : kvs)
  : M (stream * WatchHub) watchResponse :=
  get_st ≫= fun st =>
  if ss_closed st.1 then mret (mkWatchResp 0 false (Some [ErrStreamClosed]))
  else match WatchCreateRequest_Check req with
       | Some e => mret (mkWatchResp 0 false (Some e))
       | None =>
           try (hub_call (NewWatcher newid parent req s)) ≫= fun r =>
           match r with
           | inr e => mret (mkWatchResp 0 false (Some e))
           | inl x =>
               modify (fun st => (set_watchers (<[id_of x st.2 := x]> (ss_watchers st.1)) st.1, st.2)) ≫= fun _ =>
               get_st ≫= fun st => mret (mkWatchResp (id_of x st.2) true None)
           end
       end.

Definition stream_Cancel (wid : Z) : M (stream * WatchHub) watchResponse :=
  get_st ≫= fun st =>
  if ss_closed st.1 then mret (mkWatchResp 0 false (Some [ErrStreamClosed]))
  else hub_call (DropWatcher wid) ≫= fun ok =>
       mret (mkWatchResp (if (ok : bool) then wid else 0) ok None).

Fixpoint drop_watchers (xs : list nat) : M WatchHub unit :=
  match xs with
  | [] => mret tt
  | x :: rest => get_st ≫= fun h => unsafeDropWatcher (id_of x h) ≫= fun _ => drop_watchers rest
  end.

Definition stream_Close : M (stream * WatchHub) unit :=
  get_st ≫= fun st =>
  if ss_closed st.1 then mret tt
  else
    modify (fun st => (mkStream true (ss_watchers st.1) (ss_out st.1) (ss_outClosed st.1) (ss_inClosed st.1) true, st.2)) ≫= fun _ =>
    hub_call (drop_watchers (hub_order (ss_watchers st.1)).*2) ≫= fun _ =>
    modify (fun st => (mkStream (ss_closed st.1) (ss_watchers st.1) (ss_out st.1) true true (ss_done st.1), st.2)).

End Streams.

(** ** The goroutine of a watcher *)

(** Where the goroutine is: at the outer select, holding an event at the inner one, in the
    deferred function, about to send the cause, about to drop the watcher, finished. *)
Inductive rw_pc := RwLoop | RwSend (ev : Event) | RwDefer | RwCause (c : error) | RwDrop | RwDone.

(** Sending on a closed channel panics; a case of a select whose channel is closed is
    ready. *)
Inductive rw_step (x : nat) : stream * WatchHub * rw_pc -> res (stream * WatchHub * rw_pc) -> Prop :=
  | rw_watcher_done s h w c : wtab h !! x = Some w -> wt_ctx w = Some c -> rw_step x (s, h, RwLoop) (Ok (s, h, RwDefer))
  | rw_stream_done s h : ss_done s = true -> rw_step x (s, h, RwLoop) (Ok (s, h, RwDefer))
  | rw_drained s h w : wtab h !! x = Some w -> wt_c w = [] -> wt_closed w = true ->
      rw_step x (s, h, RwLoop) (Ok (s, h, RwDefer))
  | rw_recv s h w ev rest : wtab h !! x = Some w -> wt_c w = ev :: rest ->
      rw_step x (s, h, RwLoop) (Ok (s, set_wt x (set_c rest w) h, RwSend ev))
  | rw_send_done s h ev : ss_done s = true -> rw_step x (s, h, RwSend ev) (Ok (s, h, RwDefer))
  | rw_send s h ev : ss_outClosed s = false -> (length (ss_out s) < streamEventBufferSize)%nat ->
      rw_step x (s, h, RwSend ev) (Ok (set_out (ss_out s ++ [toStreamEvent (id_of x h) ev]) s, h, RwLoop))
  | rw_send_closed s h ev : ss_outClosed s = true -> rw_step x (s, h, RwSend ev) Panicked
  | rw_defer_done s h : ss_done s = true -> rw_step x (s, h, RwDefer) (Ok (s, h, RwDone))
  | rw_defer_cause s h w c : ss_done s = false -> wtab h !! x = Some w -> wt_ctx w = Some c -> c <> [Canceled] ->
      rw_step x (s, h, RwDefer) (Ok (s, h, RwCause c))
  | rw_defer_drop s h w : ss_done s = false -> wtab h !! x = Some w -> wt_ctx w = None \/ wt_ctx w = Some [Canceled] ->
      rw_step x (s, h, RwDefer) (Ok (s, h, RwDrop))
  | rw_cause_done s h c : ss_done s = true -> rw_step x (s, h, RwCause c) (Ok (s, h, RwDrop))
  | rw_cause_send s h c : ss_outClosed s = false -> (length (ss_out s) < streamEventBufferSize)%nat ->
      rw_step x (s, h, RwCause c) (Ok (set_out (ss_out s ++ [cancelEvent (id_of x h) c]) s, h, RwDrop))
  | rw_cause_closed s h c : ss_outClosed s = true -> rw_step x (s, h, RwCause c) Panicked
  | rw_drop s h h' b : DropWatcher (id_of x h) h = (h', Ok b) -> rw_step x (s, h, RwDrop) (Ok (s, h', RwDone)).

(** ** Closing a stream *)

Section Close.
Context (got : nat -> list Event) (cur : Z) (b : gmap Z nat) (rm : Z).
Abbreviation ok := (hub_ok got cur b rm).

(** The watcher a drop by id finds: the synced group is looked up first. *)
Definition holder (id : Z) (h : WatchHub) : option nat :=
  match synced h !! id with Some x => Some x | None => unsynced h !! id end.
(** What a group has under an id that was dropped: an id that is in both groups loses its
    synced watcher only. *)
Definition left_at (sy : bool) (id : Z) (h : WatchHub) : option nat :=
  if sy then None else match synced h !! id with Some _ => unsynced h !! id | None => None end.
Definition closed_by (e : error) (w : watcher) : watcher := set_closed (wt_cancel e w).

Lemma closed_by_idem e w : closed_by e (closed_by e w) = closed_by e w.
Proof. unfold closed_by, set_closed, wt_cancel. simpl. by destruct (wt_ctx w). Qed.

Lemma drop_group_run sy id x h :
  ok h -> group sy h !! id = Some x -> exists h', unsafeDropFromGroup sy id [Canceled] h = (h', Ok tt) /\ ok h' /\
    group sy h' = delete id (group sy h) /\ group (negb sy) h' = group (negb sy) h /\
    (forall y, wt_id <$> wtab h' !! y = wt_id <$> wtab h !! y) /\
    (forall y w, wtab h !! y = Some w -> wtab h' !! y = Some (if bool_decide (y = x) then closed_by [Canceled] w else w)).
Proof.
  intros H Hx. destruct (unsafeDropFromGroup_run _ _ _ _ sy id [Canceled] h H) as (h' & E & H' & Hg & Hg' & Ht).
  rewrite Hx in Ht. exists h'. split_and!; try done.
  - intros y. rewrite Ht, lookup_alter. case_decide; [subst y|done]. by destruct (wtab h !! x).
  - intros y w Hw. rewrite Ht, lookup_alter. repeat case_decide; case_bool_decide; subst; by rewrite ?Hw.
Qed.

Lemma unsafeDropWatcher_run id h :
  ok h -> exists h', unsafeDropWatcher id h = (h', Ok tt) /\ ok h' /\
    (forall sy, group sy h' !! id = left_at sy id h) /\
    (forall sy id', id' <> id -> group sy h' !! id' = group sy h !! id') /\
    (forall y, wt_id <$> wtab h' !! y = wt_id <$> wtab h !! y) /\
    (forall y w, wtab h !! y = Some w ->
       wtab h' !! y = Some (if bool_decide (holder id h = Some y) then closed_by [Canceled] w else w)).
Proof.
  intros H. unfold unsafeDropWatcher, holder, left_at, mbind, M_bind, get_st.
  case_bool_decide as Hs; [|case_bool_decide as Hn].
  - destruct Hs as [x Hx]. destruct (drop_group_run true id x h H Hx) as (h' & -> & H' & Hg & Hg' & Hid & Hw). simpl in Hg, Hg'.
    exists h'. rewrite Hx. split_and!; try done.
    + intros []; simpl; [by rewrite Hg, lookup_delete_eq|by rewrite Hg'].
    + intros [] id' Hne; simpl; [by rewrite Hg, lookup_delete_ne|by rewrite Hg'].
    + intros y w Hy. rewrite (Hw y w Hy). by rewrite (bool_decide_ext (y = x) (Some x = Some y)) by (split; congruence).
  - destruct Hn as [x Hx]. apply eq_None_not_Some in Hs.
    destruct (drop_group_run false id x h H Hx) as (h' & -> & H' & Hg & Hg' & Hid & Hw). simpl in Hg, Hg'.
    exists h'. rewrite Hs, Hx. split_and!; try done.
    + intros []; simpl; [by rewrite Hg', Hs|by rewrite Hg, lookup_delete_eq].
    + intros [] id' Hne; simpl; [by rewrite Hg'|by rewrite Hg, lookup_delete_ne].
    + intros y w Hy. rewrite (Hw y w Hy). by rewrite (bool_decide_ext (y = x) (Some x = Some y)) by (split; congruence).
  - apply eq_None_not_Some in Hs, Hn. exists h. rewrite Hs, Hn. split_and!; try done. by intros [].
Qed.

Lemma drop_watchers_run xs h :
  ok h -> NoDup ((fun x => id_of x h) <$> xs) ->
  exists h', drop_watchers xs h = (h', Ok tt) /\ ok h' /\
    (forall id sy, group sy h' !! id =
       if bool_decide (id ∈ (fun x => id_of x h) <$> xs) then left_at sy id h else group sy h !! id) /\
    (forall y w, wtab h !! y = Some w ->
       wtab h' !! y = Some (if bool_decide (y ∈ omap (fun x => holder (id_of x h) h) xs) then closed_by [Canceled] w else w)).
Proof.
  revert h. induction xs as [|x xs IH]; intros h H Hnd; [by exists h|].
  cbn [fmap list_fmap] in Hnd. apply NoDup_cons in Hnd as [Hni Hnd].
  cbn [drop_watchers]. unfold mbind at 1, M_bind at 1, get_st.
  destruct (unsafeDropWatcher_run (id_of x h) h H) as (h1 & E1 & H1 & Hg1 & Hf1 & Hid & Hw1).
  assert (forall y, id_of y h1 = id_of y h) as Hids.
  { intros y. unfold id_of. specialize (Hid y). destruct (wtab h1 !! y), (wtab h !! y); simpl in *; congruence. }
  rewrite <-(list_fmap_ext (fun x => id_of x h1) (fun x => id_of x h) xs) in Hnd, Hni by (intros; apply Hids).
  unfold mbind, M_bind. rewrite E1. destruct (IH h1 H1 Hnd) as (h' & E & H' & Hg' & Hw'). exists h'.
  split_and!; try done.
  - intros id sy. rewrite Hg'. cbn [fmap list_fmap]. rewrite (list_fmap_ext (fun x => id_of x h1) (fun x => id_of x h) xs) in Hni |- * by (intros; apply Hids).
    unfold left_at. destruct (decide (id = id_of x h)) as [->|Hne].
    + rewrite (bool_decide_eq_false_2 _ Hni), (bool_decide_eq_true_2 (_ ∈ _ :: _)) by left. apply Hg1.
    + rewrite (bool_decide_ext (id ∈ _ :: _) (id ∈ (fun x => id_of x h) <$> xs)) by (rewrite elem_of_cons; tauto).
      pose proof (Hf1 true id Hne) as Et. pose proof (Hf1 false id Hne) as Ef. simpl in Et, Ef. rewrite Et, Ef. by case_bool_decide; [|apply Hf1].
  - intros y w Hy. rewrite (Hw' y _ (Hw1 y w Hy)).
    assert (omap (fun x => holder (id_of x h1) h1) xs = omap (fun x => holder (id_of x h) h) xs) as ->.
    { apply omap_ext_in. intros z Hz. rewrite Hids. unfold holder.
      assert (id_of z h <> id_of x h) as Hne.
      { intros Hz'. apply Hni. rewrite <-Hz', <-Hids. by apply (list_elem_of_fmap_2 (fun x => id_of x h1)). }
      pose proof (Hf1 true _ Hne) as Et. pose proof (Hf1 false _ Hne) as Ef. simpl in Et, Ef. by rewrite Et, Ef. }
    f_equal. set (l := omap (fun x => holder (id_of x h) h) xs).
    assert (y ∈ omap (fun x => holder (id_of x h) h) (x :: xs) <-> holder (id_of x h) h = Some y \/ y ∈ l) as Hl.
    { cbn [omap list_omap]. fold l. destruct (holder (id_of x h) h) as [z|]; rewrite ?elem_of_cons; naive_solver. }
    rewrite (bool_decide_ext _ _ Hl). repeat case_bool_decide; rewrite ?closed_by_idem; tauto.
Qed.
End Close.

(** The watchers a stream has registered exist, under their ids. *)
Definition stream_owns (s : stream) (h : WatchHub) : Prop :=
  forall id x, ss_watchers s !! id = Some x -> exists w, wtab h !! x = Some w /\ wt_id w = id.

Section Properties.
Context {HO : HubOrder}.

Lemma owned_ids s h id :
  stream_owns s h -> id ∈ (fun x => id_of x h) <$> (hub_order (ss_watchers s)).*2 <-> is_Some (ss_watchers s !! id).
Proof.
  intros Ho. rewrite list_elem_of_fmap. setoid_rewrite list_elem_of_fmap. split.
  - intros (x & -> & [id' x'] & -> & Hin). rewrite hub_order_perm in Hin. apply elem_of_map_to_list in Hin.
    destruct (Ho _ _ Hin) as (w & Hw & <-). unfold id_of. simpl. rewrite Hw. simpl. eauto.
  - intros [x Hx]. destruct (Ho _ _ Hx) as (w & Hw & Hid). exists x. split; [unfold id_of; by rewrite Hw|].
    exists (id, x). split; [done|]. rewrite hub_order_perm. by apply elem_of_map_to_list.
Qed.

Lemma owned_ids_NoDup s h :
  stream_owns s h -> NoDup ((fun x => id_of x h) <$> (hub_order (ss_watchers s)).*2).
Proof.
  intros Ho. rewrite <-list_fmap_compose. rewrite (Forall_fmap_ext_1 _ fst); [apply hub_order_NoDup|].
  apply Forall_forall. intros [id x] Hin. rewrite hub_order_perm in Hin. apply elem_of_map_to_list in Hin.
  destruct (Ho _ _ Hin) as (w & Hw & Hid). unfold compose, id_of. simpl. by rewrite Hw.
Qed.

(** Close in terms of the ids the stream has registered. *)
Lemma stream_Close_run got cur b rm s h :
  hub_ok got cur b rm h -> stream_owns s h -> ss_closed s = false ->
  exists h', stream_Close (s, h) = ((mkStream true (ss_watchers s) (ss_out s) true true true, h'), Ok tt) /\
    (forall id sy, group sy h' !! id =
       if bool_decide (is_Some (ss_watchers s !! id)) then left_at sy id h else group sy h !! id) /\
    (forall y w, wtab h !! y = Some w ->
       ((exists id, is_Some (ss_watchers s !! id) /\ holder id h = Some y) /\ wtab h' !! y = Some (closed_by [Canceled] w)) \/
       (~ (exists id, is_Some (ss_watchers s !! id) /\ holder id h = Some y) /\ wtab h' !! y = Some w)).
Proof.
  intros H Ho Hc.
  destruct (drop_watchers_run _ _ _ _ _ h H (owned_ids_NoDup s h Ho)) as (h' & E & _ & Hg & Hw).
  exists h'. split_and!.
  - unfold stream_Close, mbind, M_bind, get_st, modify, hub_call. cbn [fst snd]. rewrite Hc. cbn [fst snd]. by rewrite E.
  - intros id sy. rewrite Hg. by rewrite (bool_decide_ext _ _ (owned_ids s h id Ho)).
  - intros y w Hy. rewrite (Hw y w Hy).
    assert (y ∈ omap (fun x => holder (id_of x h) h) (hub_order (ss_watchers s)).*2 <->
      exists id, is_Some (ss_watchers s !! id) /\ holder id h = Some y) as Hl.
    { rewrite list_elem_of_omap. split.
      - intros (x & Hx & Hh). exists (id_of x h). split; [|done]. apply (owned_ids s h _ Ho).
        by apply (list_elem_of_fmap_2 (fun x => id_of x h)).
      - intros (id & Hid & Hh). apply (owned_ids s h id Ho) in Hid. apply list_elem_of_fmap in Hid as (x & -> & Hx). by exists x. }
    case_bool_decide; [left|right]; by rewrite <-Hl.
Qed.

(** C31: Closing a stream drops, for every id the stream has registered, the watcher the hub
    has under that id at that time, the synced one first: it is closed and out of its
    group (an id that is in both groups keeps its unsynced entry). No other id and no other
    watcher is touched, and a second Close does nothing. The drop is by id: what it closes
    is the stream's own watcher unless that was cancelled or dropped before and its id
    used again. *)
Theorem stream_close_releases got cur b rm s h :
  hub_ok got cur b rm h -> ss_closed s = false -> stream_owns s h ->
  exists s' h', stream_Close (s, h) = ((s', h'), Ok tt) /\ ss_closed s' = true /\ ss_done s' = true /\
    (forall id, is_Some (ss_watchers s !! id) ->
       synced h' !! id = None /\ (synced h !! id = None -> unsynced h' !! id = None) /\
       forall y, holder id h = Some y -> exists w', wtab h' !! y = Some w' /\ wt_closed w' = true) /\
    (forall id sy, ss_watchers s !! id = None -> group sy h' !! id = group sy h !! id) /\
    (forall y w, wtab h !! y = Some w -> (forall id, is_Some (ss_watchers s !! id) -> holder id h <> Some y) ->
       wtab h' !! y = Some w) /\
    stream_Close (s', h') = ((s', h'), Ok tt).
Proof.
  intros H Hc Ho. destruct (stream_Close_run got cur b rm s h H Ho Hc) as (h' & Hrun & Hg & Hw).
  eexists _, h'. split; [exact Hrun|]. split_and!; try done.
  - intros id Hid. pose proof (Hg id true) as Gt. pose proof (Hg id false) as Gf. rewrite bool_decide_eq_true_2 in Gt, Gf by done.
    split; [done|]. split; [intros E; simpl in Gf; by rewrite E in Gf|]. intros y Hy.
    assert (exists w, wtab h !! y = Some w) as (w & Hyw).
    { unfold holder in Hy. destruct (synced h !! id) eqn:Es; [injection Hy as ->;
        destruct (ho_grp _ _ _ _ _ H true id y Es) as (w & ? & _)|
        destruct (ho_grp _ _ _ _ _ H false id y Hy) as (w & ? & _)]; by exists w. }
    destruct (Hw y w Hyw) as [[_ E]|[Hn _]]; [by eexists|]. destruct Hn. by exists id.
  - intros id sy Hid. rewrite Hg, bool_decide_eq_false_2; [done|]. rewrite Hid. by intros [? ?].
  - intros y w Hy Hno. destruct (Hw y w Hy) as [[(id & Hid & Hh) _]|[_ E]]; [by destruct (Hno id Hid)|done].
Qed.

(** Closing a stream can crash the process: while a watcher still has an event in its
    channel, its goroutine may take the event after Close has closed the output channel,
    and the send on the closed channel panics. *)
Theorem stream_close_race got cur b rm s h s' h' x w ev rest :
  hub_ok got cur b rm h -> stream_owns s h -> ss_closed s = false ->
  stream_Close (s, h) = ((s', h'), Ok tt) -> wtab h !! x = Some w -> wt_c w = ev :: rest ->
  exists st, rw_step x (s', h', RwLoop) (Ok st) /\ rw_step x st Panicked.
Proof.
  intros H Ho Hc Hrun Hw Hev. destruct (stream_Close_run got cur b rm s h H Ho Hc) as (h2 & Hrun' & _ & Hk).
  rewrite Hrun in Hrun'. injection Hrun' as -> ->.
  assert (exists w', wtab h2 !! x = Some w' /\ wt_c w' = ev :: rest) as (w' & Hw' & Hc').
  { destruct (Hk x w Hw) as [[_ E]|[_ E]]; by eexists. }
  eexists. split; [by eapply rw_recv|]. by apply rw_send_closed.
Qed.

(** A stream cancels the watchers of other streams too: only the id counts. *)
Lemma stream_cancel_foreign got cur b rm s h id x :
  hub_ok got cur b rm h -> ss_closed s = false -> ss_watchers s !! id = None -> holder id h = Some x ->
  exists h' w', stream_Cancel id (s, h) = ((s, h'), Ok (mkWatchResp id true None)) /\
    wtab h' !! x = Some w' /\ wt_closed w' = true.
Proof.
  intros H Hc _ Hh. unfold stream_Cancel, hub_call, DropWatcher, mbind, M_bind, get_st. cbn [fst snd]. rewrite Hc.
  assert (forall sy, group sy h !! id = Some x -> exists h' w', unsafeDropFromGroup sy id [Canceled] h = (h', Ok tt) /\
    wtab h' !! x = Some w' /\ wt_closed w' = true) as Hd.
  { intros sy Hg. destruct (drop_group_run _ _ _ _ sy id x h H Hg) as (h' & E & _ & _ & _ & _ & Hw).
    destruct (ho_grp _ _ _ _ _ H sy id x Hg) as (w & Hxw & _). specialize (Hw x w Hxw).
    rewrite bool_decide_eq_true_2 in Hw by done. by exists h', (closed_by [Canceled] w). }
  unfold holder in Hh. destruct (synced h !! id) as [y|] eqn:Es.
  - injection Hh as ->. destruct (Hd true Es) as (h' & w' & E & Hw'). exists h', w'. split; [|done].
    rewrite bool_decide_eq_true_2 by eauto. cbn [fst snd]. by rewrite E.
  - destruct (Hd false Hh) as (h' & w' & E & Hw'). exists h', w'. split; [|done].
    cbn [fst snd]. rewrite Es, Hh, bool_decide_eq_false_2, bool_decide_eq_true_2 by (eauto || by intros [? ?]). by rewrite E.
Qed.
End Properties.

(** ** Witnesses *)

(** A stream with one watcher of key a that has received revision 1. *)
Definition stream1 : stream := set_watchers {[7 := 0%nat]} (NewStream false).
Definition hub1 : WatchHub := sy_hub sync3.

Lemma hub1_ok :
  hub_ok (sy_got sync3) (Main (currentRev (sy_store sync3))) (unsyncedBatch (sy_loop sync3))
    (Main (u_revs (sy_loop sync3)).1) hub1.
Proof. apply (so_loop sync3 (sys_reachable_ok kv0 sync3 kv0_inv sync3_run)). Qed.
Lemma stream1_owns : stream_owns stream1 hub1.
Proof.
  intros id x Hx. change (({[7 := 0%nat]} : gmap Z nat) !! id = Some x) in Hx. apply lookup_singleton_Some in Hx as [<- <-]. eexists. split; vm_compute; reflexivity.
Qed.

Lemma stream_close_releases_witness :
  exists s' h' w', stream_Close (stream1, hub1) = ((s', h'), Ok tt) /\ synced h' !! 7 = None /\
    wtab h' !! 0%nat = Some w' /\ wt_closed w' = true.
Proof.
  destruct (stream_close_releases _ _ _ _ stream1 hub1 hub1_ok eq_refl stream1_owns)
    as (s' & h' & H1 & _ & _ & H2 & _).
  destruct (H2 7) as (H3 & _ & H4); [exists 0%nat; vm_compute; reflexivity|].
  destruct (H4 0%nat) as (w' & H5); [vm_compute; reflexivity|].
  exists s', h', w'. split; [exact H1|]. split; [exact H3|exact H5].
Defined.

Lemma stream_close_race_witness :
  exists s' h' st, stream_Close (stream1, hub1) = ((s', h'), Ok tt) /\
    rw_step 0%nat (s', h', RwLoop) (Ok st) /\ rw_step 0%nat st Panicked.
Proof.
  destruct (stream_Close (stream1, hub1)) as [[s' h'] r] eqn:E.
  assert (r = Ok tt) as -> by (apply (f_equal snd) in E; vm_compute in E; symmetry; exact E).
  destruct (wtab hub1 !! 0%nat) as [w|] eqn:Ew; [|vm_compute in Ew; discriminate Ew].
  destruct (wt_c w) as [|ev rest] eqn:Ec; [vm_compute in Ew; injection Ew as <-; discriminate Ec|].
  destruct (stream_close_race _ _ _ _ stream1 hub1 s' h' 0%nat w ev rest hub1_ok stream1_owns eq_refl E Ew Ec) as (st & H1 & H2).
  exists s', h', st. split; [reflexivity|]. split; [exact H1|exact H2].
Defined.
