(* ===== verification/Services.v ===== *)
(** The services behind the HTTP API and the status codes of their handlers:
    internal/service (kv_service.go, lease_service.go, ot_service.go, util.go),
    internal/util/propose.go and the handlers of internal/transport/http/server.go. What
    Raft does with a proposed command is a parameter, as are leadership checks and the
    random ids; a request body is what the JSON decoder made of it. *)

From S2P Require Import Prelude OrdTree KvTypes KeyIndex TreeIndex Storage Inmem Backend Mvcc MvccInv Api Engine.
From Stdlib Require Import ZArith Lia.
From stdpp Require Import base gmap sets list strings sorting.
Open Scope Z_scope.

(** An error formatted with %v or %s: what it wrapped is lost. *)
Definition fmt_v {W X} (msg : string) (m : M W X) : M W X := fun w =>
  match m w with (w', Err _) => (w', Err (errMsg msg)) | r => r end.

Definition ErrManualCompaction : cause := ErrMsg "failed to compact store manually".

(** ** internal/util/propose.go *)

Section Propose.
Context {W : Type}.

(** [encode] is command.Encode, [raft_apply] the future of raft.Apply once awaited: its
    response, [None] when it is not a command.Result. *)
Definition NewProposeFunc (encode : Command -> res bytes) (raft_apply : bytes -> M W (option Result))
    (cmd : Command) : M W Result := fun w =>
  match encode cmd with
  | Err e => (w, Err (ErrPropose :: e))
  | Panicked => (w, Panicked)
  | Ok bs =>
      match raft_apply bs w with
      | (w', Err e) => (w', Err (ErrPropose :: e))
      | (w', Panicked) => (w', Panicked)
      | (w', Ok None) => (w', Err [ErrPropose])
      | (w', Ok (Some r)) => (w', Ok r)
      end
  end.
End Propose.

(** A command with one payload. *)
Definition put_cmd (r : PutRequest) : Command :=
  mkCommand KindPut (Some r) None None None None None None None None None None None.
Definition delete_cmd (r : DeleteRequest) : Command :=
  mkCommand KindDelete None (Some r) None None None None None None None None None None.
Definition txn_cmd (r : TxnRequest) : Command :=
  mkCommand KindTxn None None (Some r) None None None None None None None None None.
Definition grant_cmd (r : LeaseGrantRequest) : Command :=
  mkCommand KindLeaseGrant None None None (Some r) None None None None None None None None.
Definition revoke_cmd (r : LeaseRevokeRequest) : Command :=
  mkCommand KindLeaseRevoke None None None None (Some r) None None None None None None None.
Definition keepalive_cmd (r : LeaseKeepAliveRequest) : Command :=
  mkCommand KindLeaseKeepAlive None None None None None (Some r) None None None None None None.
Definition lookup_cmd (r : LeaseLookupRequest) : Command :=
  mkCommand KindLeaseLookup None None None None None None (Some r) None None None None None.
Definition compact_cmd (r : CompactionRequest) : Command :=
  mkCommand KindCompaction None None None None None None None None None (Some r) None None.
Definition writeall_cmd (r : OTWriteAllRequest) : Command :=
  mkCommand KindOTWriteAll None None None None None None None None None None (Some r) None.

Section Services.
Context {W T St B : Type} {BT : BTree Less T} {BS : ByteStore St B}.
Abbreviation kvs := (KvStore T St B).
Variable propose : Command -> M W Result.
Variable verifyLeader : M W unit.
(** Waiting for the compaction goroutine: it has finished, or the context ends first. *)
Variable wait_done : M W unit.
Variable store : W -> kvs.
Variable nodeID : string.
Variable opts : Options.

Definition makeHeader (s : kvs) : ResponseHeader :=
  let '(currRev, compactedRev, raftIndex, raftTerm) := Meta s in
  mkHeader (Main currRev) compactedRev raftTerm raftIndex nodeID.

Definition check (e : option error) : M W unit := match e with Some e => fail e | None => mret tt end.

(** The field of the result a service answers with. [keep]: errors are wrapped with %w. *)
Definition proposed {X} (keep : bool) (msg : string) (cmd : Command) (field : Result -> option X)
  : M W (Result * X) :=
  let wrap {Y} (m : M W Y) := if keep then m else fmt_v msg m in
  wrap (propose cmd) ≫= fun result =>
  wrap (check (r_Error result)) ≫= fun _ =>
  match field result with
  | None => wrap (fail [ErrNilApplyResult])
  | Some x => mret (result, x)
  end.

(** *** kv_service.go *)

Definition kv_Range (req : RangeRequest) : M W (ResponseHeader * RangeResponseNoHeader) :=
  check (RangeRequest_Check req) ≫= fun _ =>
  (if rr_Serializable req then mret tt else fmt_v "range failed: failed to verify leader" verifyLeader) ≫= fun _ =>
  let end_ := if rr_Prefix req then PrefixEnd (rr_Key req) else rr_End req in
  get_st ≫= fun w =>
  fmt_v "range failed" (lift (reader_Range (rr_Key req) end_ (rr_Revision req) (rr_Limit req) (store w))) ≫= fun r =>
  let '(entries, count, _) := r in
  mret (makeHeader (store w), mkRangeRes (if rr_CountOnly req then [] else entries) count).

Definition kv_Put (req : PutRequest) : M W (ResponseHeader * PutResponseNoHeader) :=
  check (PutRequest_Check req) ≫= fun _ =>
  check (CheckKey opts (pr_Key req)) ≫= fun _ =>
  check (CheckValue opts (default [] (pr_Value req))) ≫= fun _ =>
  proposed false "put failed" (put_cmd req) r_Put ≫= fun p => mret (r_Header p.1, p.2).

Definition kv_Delete (req : DeleteRequest) : M W (ResponseHeader * DeleteResponseNoHeader) :=
  check (DeleteRequest_Check req) ≫= fun _ =>
  proposed false "delete failed" (delete_cmd req) r_Delete ≫= fun p => mret (r_Header p.1, p.2).

Definition kv_Txn (req : TxnRequest) : M W (ResponseHeader * TxnResultNoHeader) :=
  check (TxnRequest_Check req) ≫= fun _ =>
  proposed false "txn failed" (txn_cmd req) r_Txn ≫= fun p => mret (r_Header p.1, p.2).

Definition manual {X} (m : M W X) : M W X := fun w =>
  match m w with (w', Err _) => (w', Err [ErrManualCompaction]) | r => r end.

Definition TriggerCompaction (req : CompactionRequest) : M W (ResponseHeader * bool) :=
  manual (propose (compact_cmd req)) ≫= fun result =>
  manual (check (r_Error result)) ≫= fun _ =>
  match r_Compaction result with
  | None => fail [ErrManualCompaction]
  | Some c =>
      manual (check (cres_Error c)) ≫= fun _ =>
      manual wait_done ≫= fun _ =>
      get_st ≫= fun w => mret (makeHeader (store w), true)
  end.

(** *** lease_service.go; [newid] is util.NextNonNullID *)

Definition with_header {X} (m : M W (Result * X)) : M W (ResponseHeader * X) :=
  m ≫= fun p => get_st ≫= fun w => mret (makeHeader (store w), p.2).

Definition lease_Grant (newid : Z) (req : LeaseGrantRequest) : M W (ResponseHeader * LeaseGrantResult) :=
  let req := if lg_LeaseID req =? 0 then mkGrant (lg_TTL req) newid else req in
  with_header (proposed true "grant failed" (grant_cmd req) r_LeaseGrant).
Definition lease_Revoke (req : LeaseRevokeRequest) : M W (ResponseHeader * LeaseRevokeResult) :=
  with_header (proposed true "revoke failed" (revoke_cmd req) r_LeaseRevoke).
Definition lease_KeepAlive (req : LeaseKeepAliveRequest) : M W (ResponseHeader * LeaseKeepAliveResult) :=
  with_header (proposed true "keep alive failed" (keepalive_cmd req) r_LeaseKeepAlive).
Definition lease_Lookup (req : LeaseLookupRequest) : M W (ResponseHeader * LeaseLookupResult) :=
  with_header (proposed true "lookup failed" (lookup_cmd req) r_LeaseLookup).

(** *** ot_service.go; [checkBlob], [ot_init] and [ot_transfer] are the OT manager's *)

Definition ot_WriteAll (checkBlob : value -> option error) (req : OTWriteAllRequest) : M W (ResponseHeader * unit) :=
  check (checkBlob (Blob req)) ≫= fun _ =>
  proposed false "write all failed" (writeall_cmd req) r_OtWriteAll ≫= fun p => mret (r_Header p.1, p.2).
Definition otsvc_Init {X} (ot_init : W -> res X) : M W (ResponseHeader * X) :=
  get_st ≫= fun w => lift (ot_init w) ≫= fun x => mret (makeHeader (store w), x).
Definition otsvc_Transfer {X} (serializable : bool) (ot_transfer : W -> res X) : M W (ResponseHeader * X) :=
  (if serializable then mret tt else fmt_v "transfer failed: failed to verify leader" verifyLeader) ≫= fun _ =>
  get_st ≫= fun w => lift (ot_transfer w) ≫= fun x => mret (makeHeader (store w), x).

(** ** Handlers *)

Definition StatusOK : Z := 200.
Definition StatusBadRequest : Z := 400.
Definition StatusNotFound : Z := 404.
Definition StatusServiceUnavailable : Z := 503.

Definition kv_status (e : error) : Z :=
  if errors_Is e ErrPropose then StatusServiceUnavailable else StatusBadRequest.
Definition lease_status (e : error) : Z :=
  if errors_Is e ErrPropose then StatusServiceUnavailable
  else if errors_Is e ErrLeaseNotFound then StatusNotFound else StatusBadRequest.

(** A handler: decode the body, call the service, answer. The reply is the status and the
    response, if any. *)
Definition handle {Req Res} (status_of : error -> Z) (svc : Req -> M W Res) (body : option Req)
  : M W (Z * option Res) :=
  match body with
  | None => mret (StatusBadRequest, None)
  | Some req =>
      try (svc req) ≫= fun r =>
      match r with
      | inl response => mret (StatusOK, Some response)
      | inr e => mret (status_of e, None)
      end
  end.

Definition handleKvRange := handle kv_status kv_Range.
Definition handleKvPut := handle kv_status kv_Put.
Definition handleKvDelete := handle kv_status kv_Delete.
Definition handleKvTxn := handle kv_status kv_Txn.
Definition handleCompactionTrigger := handle kv_status TriggerCompaction.
Definition handleLeaseGrant (newid : Z) := handle kv_status (lease_Grant newid).
Definition handleLeaseRevoke := handle lease_status lease_Revoke.
Definition handleLeaseKeepAlive := handle lease_status lease_KeepAlive.
Definition handleLeaseLookup := handle lease_status lease_Lookup.
Definition handleOTInit {X} (ot_init : W -> res X) := handle kv_status (fun _ : unit => otsvc_Init ot_init).
Definition handleOTTransfer {Req X} (serializable : Req -> bool) (ot_transfer : Req -> W -> res X) :=
  handle kv_status (fun req => otsvc_Transfer (serializable req) (ot_transfer req)).
Definition handleOTWriteAll (checkBlob : value -> option error) := handle kv_status (ot_WriteAll checkBlob).

(** ** Properties *)

Lemma check_None w : check None w = (w, Ok tt).
Proof. done. Qed.

Lemma proposed_failed {X} keep msg cmd (field : Result -> option X) w w' e :
  propose cmd w = (w', Err e) -> proposed keep msg cmd field w = (w', Err (if keep then e else errMsg msg)).
Proof.
  intros E. unfold proposed, mbind, M_bind. destruct keep; [by rewrite E|]. unfold fmt_v at 1. by rewrite E.
Qed.

Lemma handle_failed {Req Res} status_of (svc : Req -> M W Res) req w w' e :
  svc req w = (w', Err e) -> handle status_of svc (Some req) w = (w', Ok (status_of e, None)).
Proof. intros E. unfold handle, try, mbind, M_bind. by rewrite E. Qed.

(** What Raft refused is refused as ErrPropose. *)
Definition refuses (cmd : Command) (w w' : W) : Prop :=
  exists e, propose cmd w = (w', Err e) /\ ErrPropose ∈ e.

(** The API answers a write that Raft refuses (no leader, lost leadership, timeout)
    differently for keys and for leases: the key service formats the error and loses its
    identity, so a put, a delete and a transaction are answered 400 Bad Request as if the
    request were malformed; a lease request is answered 503 Service Unavailable. *)
Theorem refused_write_status (p : PutRequest) (d : DeleteRequest) (t : TxnRequest) (l : LeaseRevokeRequest) w wp wd wt wl :
  PutRequest_Check p = None -> CheckKey opts (pr_Key p) = None -> CheckValue opts (default [] (pr_Value p)) = None ->
  DeleteRequest_Check d = None -> TxnRequest_Check t = None ->
  refuses (put_cmd p) w wp -> refuses (delete_cmd d) w wd -> refuses (txn_cmd t) w wt -> refuses (revoke_cmd l) w wl ->
  handleKvPut (Some p) w = (wp, Ok (StatusBadRequest, None)) /\
  handleKvDelete (Some d) w = (wd, Ok (StatusBadRequest, None)) /\
  handleKvTxn (Some t) w = (wt, Ok (StatusBadRequest, None)) /\
  handleLeaseRevoke (Some l) w = (wl, Ok (StatusServiceUnavailable, None)).
Proof.
  intros Hp Hk Hv Hd Ht (ep & Ep & _) (ed & Ed & _) (et & Et & _) (el & El & Hl).
  split_and!.
  - apply (handle_failed kv_status kv_Put p w wp (errMsg "put failed")). unfold kv_Put, mbind, M_bind.
    rewrite Hp, Hk, Hv, !check_None. by rewrite (proposed_failed _ _ _ _ _ _ _ Ep).
  - apply (handle_failed kv_status kv_Delete d w wd (errMsg "delete failed")). unfold kv_Delete, mbind, M_bind.
    rewrite Hd, !check_None. by rewrite (proposed_failed _ _ _ _ _ _ _ Ed).
  - apply (handle_failed kv_status kv_Txn t w wt (errMsg "txn failed")). unfold kv_Txn, mbind, M_bind.
    rewrite Ht, !check_None. by rewrite (proposed_failed _ _ _ _ _ _ _ Et).
  - unfold handleLeaseRevoke. rewrite (handle_failed _ _ _ _ wl el); [|unfold lease_Revoke, with_header, mbind, M_bind;
      by rewrite (proposed_failed _ _ _ _ _ _ _ El)].
    unfold lease_status, errors_Is. by rewrite bool_decide_eq_true_2.
Qed.

(** A serializable range request is answered from the local store without Raft: the
    entries visible at the requested revision in key order, none when only the count was
    asked for, with the number of matches and the store's own revisions in the header; a
    revision from the future or one that was compacted is answered 400. *)
Theorem range_request_served req w :
  kv_inv (store w) -> RangeRequest_Check req = None -> rr_Serializable req = true ->
  let s := store w in let rev := rr_Revision req in
  let r := if rev <=? 0 then Main (currentRev s) else rev in
  let end_ := if rr_Prefix req then PrefixEnd (rr_Key req) else rr_End req in
  if (Main (currentRev s) <? rev) || (r <? compactedMainRev s)
  then handleKvRange (Some req) w = (w, Ok (StatusBadRequest, None))
  else exists out ents, answers (range_query (rr_Key req) end_) r (kvIndex s) out /\
         Forall2 (entry_at (kv_map (be_view (kv_backend s)))) (capped (rr_Limit req) out) ents /\
         handleKvRange (Some req) w = (w, Ok (StatusOK, Some (makeHeader s,
           mkRangeRes (if rr_CountOnly req then [] else ents) (Z.of_nat (length out))))).
Proof.
  intros Hs Hc Hser s rev r end_.
  assert (forall ans, reader_Range (rr_Key req) end_ rev (rr_Limit req) s = ans ->
    kv_Range req w = match ans with
      | Ok (ents, n, _) => (w, Ok (makeHeader s, mkRangeRes (if rr_CountOnly req then [] else ents) n))
      | Err _ => (w, Err (errMsg "range failed")) | Panicked => (w, Panicked) end) as Hrun.
  { intros ans Ha. unfold kv_Range, mbind, M_bind. rewrite Hc, check_None, Hser. cbn [mret M_ret get_st].
    unfold fmt_v, lift. subst ans. unfold rev, end_, s. destruct (reader_Range _ _ _ _ _) as [[[ents n] lr]|e|]; done. }
  unfold reader_Range, Mvcc.Revisions in Hrun.
  destruct (Z.ltb_spec (Main (currentRev s)) rev) as [Hlt|Hge]; cbn [orb].
  { apply (handle_failed kv_status kv_Range req w w (errMsg "range failed")). unfold doRange in Hrun.
    rewrite (proj2 (Z.ltb_lt _ _)) in Hrun by done. by rewrite (Hrun _ eq_refl). }
  destruct (Z.ltb_spec r (compactedMainRev s)) as [Hlt'|Hge'].
  { apply (handle_failed kv_status kv_Range req w w (errMsg "range failed")). unfold doRange in Hrun.
    rewrite (proj2 (Z.ltb_ge _ _)) in Hrun by done. fold r in Hrun. rewrite (proj2 (Z.ltb_lt _ _)) in Hrun by done.
    by rewrite (Hrun _ eq_refl). }
  destruct (doRange_spec (kvIndex s) (kv_backend s) _ (Main (currentRev s)) (compactedMainRev s)
    rev (rr_Key req) end_ (rr_Limit req) (ki_idx s Hs) (ki_be s Hs) (kv_inv_bucket s Hs) (ki_coh s Hs) Hge Hge')
    as (out & ents & Hans & HF & Hd). exists out, ents. split_and!; [done..|].
  unfold handleKvRange, handle, try, mbind, M_bind. by rewrite (Hrun _ Hd).
Qed.

End Services.

(** ** Witnesses *)

(** No leader: every proposal is refused. *)
Definition no_leader (cmd : Command) : M inmem_kvs Result := fail [ErrPropose].
Definition put_a : PutRequest := mkPut k_a (Some [Byte.x01]) 0 false false false.
Definition range_a : RangeRequest := mkRange k_a None 0 true 0 false false.

Lemma refused_write_status_witness :
  handleKvPut no_leader (mkOptions 10 10) (Some put_a) kv0 = (kv0, Ok (400, None)) /\
  handleLeaseRevoke no_leader (fun s => s) "n1" (Some (mkRevoke 5)) kv0 = (kv0, Ok (503, None)).
Proof.
  assert (forall cmd, refuses no_leader cmd kv0 kv0) as Hr.
  { intros cmd. exists [ErrPropose]. split; [reflexivity|]. left. }
  destruct (refused_write_status no_leader (fun s => s) "n1" (mkOptions 10 10) put_a
    (mkDelete k_a None false) (mkTxn [] [] []) (mkRevoke 5) kv0 kv0 kv0 kv0 kv0
    eq_refl eq_refl eq_refl eq_refl eq_refl (Hr _) (Hr _) (Hr _) (Hr _)) as (H1 & _ & _ & H4).
  split; [exact H1|exact H4].
Defined.

Lemma range_request_served_witness :
  exists out ents, answers (range_query k_a None) 0 (kvIndex kv0) out /\
    handleKvRange (fail [ErrPropose]) (fun s => s) "n1" (Some range_a) kv0 =
      (kv0, Ok (200, Some (mkHeader 0 0 0 0 "n1", mkRangeRes ents (Z.of_nat (length out))))).
Proof.
  destruct (range_request_served (fail [ErrPropose]) (fun s => s) "n1" range_a kv0 kv0_inv eq_refl eq_refl)
    as (out & ents & H1 & _ & H2).
  exists out, ents. split; [exact H1|exact H2].
Defined.
