(* ===== verification/Session.v ===== *)
(** A watch session over a websocket: internal/watch/session.go and handleWatch of internal/transport/http/server.go.
    The reader goroutine turns client messages into calls of the stream and queues the
    answers, the writer goroutine sends queued answers and stream events. A client message is
    what the JSON decoder made of it ([None] for a payload it rejects); whether the connection
    takes a message is arbitrary. *)

From S2P Require Import Prelude Strconv Json OrdTree KvTypes KeyIndex TreeIndex Storage Inmem Backend Mvcc MvccInv Api Engine Watch WatchInv WatchSys Stream.
From Stdlib Require Import ZArith Lia Ascii.
From stdpp Require Import base gmap sets list strings sorting.
Open Scope Z_scope.

(** ** Messages *)

Inductive ClientMessage :=
  | ClientWatchCreate (payload : option WatchCreateRequest)
  | ClientWatchCancel (payload : option Z)
  | ClientClose
  | ClientUnknown.

(** [None] is a nil payload. *)
Record ServerMessage := mkServerMessage { sm_Kind : string; sm_Payload : option chars }.
Definition zero_message : ServerMessage := mkServerMessage "" None.

Definition ServerError : string := "ERROR".
Definition ServerCloseSession : string := "SESSION_CLOSE".
Definition ServerWatchCreated : string := "WATCH_CREATED".
Definition ServerWatchCanceled : string := "WATCH_CANCELED".

(** json.Marshal of a message: it fails if the payload is not JSON. *)
Definition marshals (m : ServerMessage) : bool :=
  match sm_Payload m with None => true | Some p => json_valid p end.

Definition errUnkownClientMessageKind : chars := str "client message error:: unknown client message kind".
Definition errInvalidWatchRequestPayload : chars := str "client message error:: invalid request payload".

Definition serverCloseSession : ServerMessage := mkServerMessage ServerCloseSession None.

Definition toServerErrorMessage (c : option chars) (msg : chars) : res ServerMessage :=
  serverErrorPayload_MarshalJSON c msg ≫= fun p => Ok (mkServerMessage ServerError (Some p)).

Section Wire.
(** The text of an error, which the errors of the model do not carry; json.Marshal of an event. *)
Variable err_text : error -> chars.
Variable event_json : StreamEvent -> option chars.

Definition wire_of (r : watchResponse) : wireResponse := mkWire (wp_WatchID r) (wp_Success r) (err_text <$> wp_Error r).

(** WatchCreateResponse has the MarshalJSON of the watchResponse it embeds. *)
Definition WatchCreateResponse_MarshalJSON (header : ResponseHeader) (r : watchResponse) : chars :=
  watchResponse_MarshalJSON (wire_of r).

(** What was printed is read back as a test. When that fails the zero message is returned, which the reader
    sends all the same, since its kind is not that of an error. *)
Definition checked (kind : string) (bs : chars) : ServerMessage :=
  match watchResponse_UnmarshalJSON bs with None => zero_message | Some _ => mkServerMessage kind (Some bs) end.
Definition toServerWatchCreate (header : ResponseHeader) (r : watchResponse) : ServerMessage :=
  checked ServerWatchCreated (WatchCreateResponse_MarshalJSON header r).
Definition toServerWatchCanceled (r : watchResponse) : ServerMessage :=
  checked ServerWatchCanceled (watchResponse_MarshalJSON (wire_of r)).

(** The kind of an event; the zero event of a cancel event has none. *)
Definition event_kind (ev : StreamEvent) : string :=
  match se_Event ev with
  | Some e => match ev_Kind e with EventPut => "PUT" | EventDelete => "DELETE" end
  | None => ""
  end.

(** When the event cannot be printed the writer makes an error message of its own error, which is nil. *)
Definition toServerStreamEvent (ev : StreamEvent) : res ServerMessage :=
  match event_json ev with
  | Some bs => Ok (mkServerMessage (event_kind ev) (Some bs))
  | None => toServerErrorMessage None []
  end.

(** ** The reader: one client message *)

Section Reader.
Context {HO : HubOrder} {T St B : Type} {BT : BTree Less T} {BS : ByteStore St B}.
Abbreviation kvs := (KvStore T St B).

(** [newid] is the id the hub would draw, [parent] the state of the session's context,
    [decode_msg] the text of the decoder's error. *)
Definition reader_turn (newid : Z) (parent : option error) (nodeID : string) (decode_msg : chars) (s : kvs) (m : ClientMessage)
  : M (stream * WatchHub) ServerMessage :=
  match m with
  | ClientWatchCreate None => lift (toServerErrorMessage (Some errInvalidWatchRequestPayload) decode_msg)
  | ClientWatchCreate (Some req) =>
      stream_Watch newid parent req s ≫= fun res =>
      let '(currRev, compactedRev, raftIndex, raftTerm) := Meta s in
      mret (toServerWatchCreate (mkHeader (Main currRev) compactedRev raftTerm raftIndex nodeID) res)
  | ClientWatchCancel None => lift (toServerErrorMessage (Some errInvalidWatchRequestPayload) decode_msg)
  | ClientWatchCancel (Some wid) => stream_Cancel wid ≫= fun res => mret (toServerWatchCanceled res)
  | ClientClose => mret serverCloseSession
  | ClientUnknown => lift (toServerErrorMessage (Some errUnkownClientMessageKind) (str "unknown kind"))
  end.
End Reader.
End Wire.

(** ** The two goroutines *)

Definition outBufferSize : nat := streamEventBufferSize / 2.

(** Why a goroutine returns; it always does with an error. *)
Inductive exit := ExitCanceled | ExitRead | ExitWrite | ExitCloseSignal.

Inductive rd_pc := RdRead | RdSend (m : ServerMessage) | RdReturned.
Inductive wr_pc := WrSelect | WrWrite (m : ServerMessage) | WrReturned.

(** [se_done]: the context of the errgroup is cancelled, as it is when one of the goroutines returns an error
    or the connection's context ends. [se_err]: the first error a goroutine returned. *)
Record session := mkSession { se_out : list ServerMessage; se_rd : rd_pc; se_wr : wr_pc; se_done : bool; se_err : option exit }.

Definition NewSession (parent_done : bool) : session := mkSession [] RdRead WrSelect parent_done None.

Definition first_exit (e : option exit) (x : exit) : option exit := match e with None => Some x | Some _ => e end.

(** [msg] is whatever the reader answers, [ev] the message of an event of the stream. *)
Inductive session_step : session -> session -> Prop :=
  | ses_context o r w d e : session_step (mkSession o r w d e) (mkSession o r w true e)
  | ses_read o w d e msg : d = false -> session_step (mkSession o RdRead w d e) (mkSession o (RdSend msg) w d e)
  | ses_read_failed o w d e : session_step (mkSession o RdRead w d e) (mkSession o RdReturned w true (first_exit e ExitRead))
  | ses_enqueue o w d e msg : (length o < outBufferSize)%nat ->
      session_step (mkSession o (RdSend msg) w d e) (mkSession (o ++ [msg]) RdRead w d e)
  | ses_select_done o r e : session_step (mkSession o r WrSelect true e) (mkSession o r WrReturned true (first_exit e ExitCanceled))
  | ses_select_out msg o r d e : session_step (mkSession (msg :: o) r WrSelect d e) (mkSession o r (WrWrite msg) d e)
  | ses_select_event o r d e ev : session_step (mkSession o r WrSelect d e) (mkSession o r (WrWrite ev) d e)
  | ses_write o r d e msg : marshals msg = true -> sm_Kind msg <> ServerCloseSession ->
      session_step (mkSession o r (WrWrite msg) d e) (mkSession o r WrSelect d e)
  | ses_write_close o r d e msg : marshals msg = true -> sm_Kind msg = ServerCloseSession ->
      session_step (mkSession o r (WrWrite msg) d e) (mkSession o r WrReturned true (first_exit e ExitCloseSignal))
  | ses_write_failed o r d e msg : session_step (mkSession o r (WrWrite msg) d e) (mkSession o r WrReturned true (first_exit e ExitWrite)).

(** Run returns when both goroutines have. *)
Definition run_returned (s : session) : Prop := se_rd s = RdReturned /\ se_wr s = WrReturned.

(** ** server.go: the handler of a watch connection *)

Definition StatusNormalClosure : Z := 1000.
Definition StatusAbnormalClosure : Z := 1006.
Definition StatusPolicyViolation : Z := 1008.
Definition WatchSubprotocol : string := "ws_watch_protocol".

(** What the handler does with the request and the connection, in order. *)
Inductive watch_action := WriteErr (status : Z) | ConnClose (code : Z) | SessionClose | CloseNow.

(** [accept]: the handshake failed; [run]: the result of Session.Run; [close_err]: closing the connection failed. *)
Definition handleWatch (accept : option error) (subprotocol : string) (run : option exit) (close_err : option error) : list watch_action :=
  match accept with
  | Some _ => [WriteErr 400]
  | None =>
      (if negb (bool_decide (subprotocol = WatchSubprotocol)) then [ConnClose StatusPolicyViolation]
       else (match run with
             | Some _ => [ConnClose StatusAbnormalClosure]
             | None => ConnClose StatusNormalClosure :: match close_err with Some _ => [WriteErr 500] | None => [] end
             end) ++ [SessionClose]) ++ [CloseNow]
  end.

(** ** Properties *)

(** The queue never exceeds its buffer; a goroutine that has returned has cancelled the context and left an error. *)
Record session_ok (s : session) : Prop := {
  so_queue : (length (se_out s) <= outBufferSize)%nat;
  so_done : se_wr s = WrReturned -> se_done s = true;
  so_wr : se_wr s = WrReturned -> is_Some (se_err s);
  so_rd : se_rd s = RdReturned -> is_Some (se_err s) }.

Lemma first_exit_some e x : is_Some (first_exit e x).
Proof. by destruct e; eexists. Qed.

Lemma session_step_ok s s' : session_ok s -> session_step s s' -> session_ok s'.
Proof.
  intros [H1 H2 H3 H4] H. pose proof first_exit_some. destruct H; split; cbn in *; try done; try (by intros); try naive_solver.
  - rewrite length_app. cbn. lia.
  - lia.
Qed.

Lemma session_reach_ok d s : rtc session_step (NewSession d) s -> session_ok s.
Proof.
  enough (forall a, session_ok a -> rtc session_step a s -> session_ok s) as H.
  { apply H. split; cbn; try done. lia. }
  intros a Ha Hr. induction Hr as [|a b c Hab _ IH]; [done|]. by eapply IH, session_step_ok.
Qed.

(** However a session ends, also when the client asked for it, Run returns an error, so the handler closes the
    connection as abnormal: the normal closure is never sent. *)
Theorem session_never_clean (d : bool) (s : session) (close_err : option error) :
  rtc session_step (NewSession d) s -> run_returned s ->
  handleWatch None WatchSubprotocol (se_err s) close_err = [ConnClose StatusAbnormalClosure; SessionClose; CloseNow].
Proof.
  intros Hr [Hrd Hwr]. destruct (session_reach_ok d s Hr) as [_ _ _ H4]. destruct (H4 Hrd) as [x ->]. done.
Qed.

Lemma writing_step m s s' :
  marshals m = false -> se_wr s = WrWrite m \/ se_wr s = WrReturned -> session_step s s' -> se_wr s' = WrWrite m \/ se_wr s' = WrReturned.
Proof. intros Hm Hw H. destruct H; cbn in *; try done; try (right; done); destruct Hw as [[= <-]|]; try done; try congruence. Qed.

(** C38: A client message that the session answers with an error ends the session: the error payload of an unknown
    message kind or an undecodable request is not JSON, so the answer cannot be sent; once the
    writer has taken it up, it never looks at another message or event, and all it can do is return
    and cancel the session. *)
Theorem error_answer_ends_session {HO : HubOrder} {T St B : Type} {BT : BTree Less T} {BS : ByteStore St B}
    (err_text : error -> chars) (newid : Z) (parent : option error) (nodeID : string) (decode_msg : chars)
    (kv : KvStore T St B) (m : ClientMessage) (st : stream * WatchHub) :
  m = ClientUnknown \/ (m = ClientWatchCreate None \/ m = ClientWatchCancel None) /\ decode_msg <> [] ->
  exists msg, reader_turn err_text newid parent nodeID decode_msg kv m st = (st, Ok msg) /\
    forall s s', se_wr s = WrWrite msg -> rtc session_step s s' ->
      se_wr s' = WrWrite msg \/ se_wr s' = WrReturned.
Proof.
  intros Hm.
  assert (exists c text, text <> [] /\ reader_turn err_text newid parent nodeID decode_msg kv m st = (st, toServerErrorMessage (Some c) text))
    as (c & text & Ht & Hturn).
  { destruct Hm as [->|[[->| ->] Hd]]; [by eexists _, (str "unknown kind")|by eexists _, decode_msg..]. }
  unfold toServerErrorMessage in Hturn. destruct (error_payload_lost c text) as (p & Hp & Hbad & _). rewrite Hp in Hturn.
  eexists. split; [exact Hturn|]. intros s s' Hw Hr. assert (marshals (mkServerMessage ServerError (Some p)) = false) as Hmar by (by apply Hbad).
  assert (se_wr s = WrWrite (mkServerMessage ServerError (Some p)) \/ se_wr s = WrReturned) as Hor by (by left). clear Hw.
  induction Hr as [|a b c' Hab _ IH]; [done|]. apply IH. by eapply writing_step.
Qed.

(** A watch response whose error text is plain is sent, and the client reads the id, the success and the error
    from it; the header it was stamped with is not among what is sent. *)
Lemma watch_answer_sent (err_text : error -> chars) (h h' : ResponseHeader) (r : watchResponse) :
  in_i64 (wp_WatchID r) -> (forall e, wp_Error r = Some e -> err_text e <> [] /\ forallb plain (err_text e) = true) ->
  exists bs, toServerWatchCreate err_text h r = mkServerMessage ServerWatchCreated (Some bs) /\ json_valid bs = true /\
    watchResponse_UnmarshalJSON bs = Some (wire_of err_text r) /\ toServerWatchCreate err_text h' r = toServerWatchCreate err_text h r.
Proof.
  intros Hid He. exists (watchResponse_MarshalJSON (wire_of err_text r)).
  assert (forall e, wr_Error (wire_of err_text r) = Some e -> e <> [] /\ forallb plain e = true) as He'.
  { cbn. intros e' Ee. destruct (wp_Error r) as [e|] eqn:E; [|done]. injection Ee as <-. by apply He. }
  assert (watchResponse_UnmarshalJSON (watchResponse_MarshalJSON (wire_of err_text r)) = Some (wire_of err_text r)) as Hrt
    by (by apply response_read_back).
  split_and!; [|unfold json_valid; by rewrite printed_parse by (intros; by apply He')|done|done].
  unfold toServerWatchCreate, WatchCreateResponse_MarshalJSON, checked. by rewrite Hrt.
Qed.

(** An event that cannot be printed would bring the process down: the error message made of it has a nil cause. *)
Lemma event_failure_panics (event_json : StreamEvent -> option chars) (ev : StreamEvent) :
  event_json ev = None -> toServerStreamEvent event_json ev = Panicked.
Proof. intros E. unfold toServerStreamEvent. by rewrite E. Qed.

(** A session can hang for good: from every state in which the writer has returned and
    the queue of answers is full while the reader has one more answer, no step but the
    cancellation of the already cancelled context is possible, so the reader never
    returns and Run does not either. *)
Theorem session_stuck o m e s' :
  length o = outBufferSize ->
  rtc session_step (mkSession o (RdSend m) WrReturned true e) s' -> ~ run_returned s'.
Proof.
  intros Ho Hr. enough (s' = mkSession o (RdSend m) WrReturned true e) as -> by (by intros [[=] _]).
  remember (mkSession o (RdSend m) WrReturned true e) as s eqn:E. induction Hr as [|a b c Hab _ IH]; [done|].
  assert (b = a) as -> by (subst a; inversion Hab; subst; try done; lia). by apply IH.
Qed.

(** Such a state is reached when a write fails with two answers queued and a third on the
    way. *)
Lemma session_stuck_reachable (m1 m2 m3 m4 : ServerMessage) :
  rtc session_step (NewSession false) (mkSession [m2; m3] (RdSend m4) WrReturned true (Some ExitWrite)).
Proof.
  eapply rtc_l; [by apply (ses_read _ _ _ _ m1)|].
  eapply rtc_l; [apply ses_enqueue; vm_compute; lia|]. cbn [app].
  eapply rtc_l; [apply ses_select_out|].
  eapply rtc_l; [by apply (ses_read _ _ _ _ m2)|].
  eapply rtc_l; [apply ses_enqueue; vm_compute; lia|]. cbn [app].
  eapply rtc_l; [by apply (ses_read _ _ _ _ m3)|].
  eapply rtc_l; [apply ses_enqueue; vm_compute; lia|]. cbn [app].
  eapply rtc_l; [by apply (ses_read _ _ _ _ m4)|].
  eapply rtc_l; [apply ses_write_failed|]. apply rtc_refl.
Qed.

Lemma session_stuck_witness :
  rtc session_step (NewSession false)
    (mkSession [serverCloseSession; serverCloseSession] (RdSend serverCloseSession) WrReturned true (Some ExitWrite)) /\
  ~ run_returned (mkSession [serverCloseSession; serverCloseSession] (RdSend serverCloseSession) WrReturned true (Some ExitWrite)).
Proof.
  split; [apply (session_stuck_reachable serverCloseSession)|].
  apply (session_stuck [serverCloseSession; serverCloseSession] serverCloseSession (Some ExitWrite)); [reflexivity|apply rtc_refl].
Defined.

Lemma error_answer_ends_session_witness :
  exists msg, reader_turn (fun _ => str "x") 1 None "n1" [] kv0 ClientUnknown (stream1, hub1) = ((stream1, hub1), Ok msg) /\
    forall s', rtc session_step (mkSession [] RdRead (WrWrite msg) false None) s' -> se_wr s' = WrWrite msg \/ se_wr s' = WrReturned.
Proof.
  destruct (error_answer_ends_session (fun _ => str "x") 1 None "n1" [] kv0 ClientUnknown (stream1, hub1)) as (msg & H1 & H2); [by left|].
  exists msg. split; [exact H1|]. intros s'. by apply H2.
Defined.
