(* ===== verification/KvApi.v ===== *)
(** The key-value API end to end: the HTTP handlers of internal/transport/http/server.go over
    internal/service/kv_service.go, util.NewProposeFunc and the state machine of internal/fsm, on a node
    whose proposals Raft commits. Histories of requests are compared with an abstract map of entries. *)

From S2P Require Import Prelude OrdTree KvTypes KeyIndex TreeIndex Storage Inmem Backend Mvcc MvccInv Compaction Api Engine Heap Lease LeaseInv Ot Loops Fsm Replicas Services.
From Stdlib Require Import ZArith Lia.
From stdpp Require Import base gmap sets list strings sorting.
Open Scope Z_scope.

(** ** Requests and replies *)

(** Reads are serializable range requests at the current revision. *)
Inductive api_req :=
  | APut (r : PutRequest)
  | ADelete (r : DeleteRequest)
  | ATxn (r : TxnRequest)
  | ARange (k : bytes) (end_ : option bytes).

Definition range_of (k : bytes) (end_ : option bytes) : RangeRequest := mkRange k end_ 0 true 0 false false.
Definition cmd_of (req : api_req) : option Command :=
  match req with
  | APut r => Some (Services.put_cmd r)
  | ADelete r => Some (delete_cmd r)
  | ATxn r => Some (Services.txn_cmd r)
  | ARange _ _ => None
  end.

(** Status, revision of the header, entries and their number. *)
Record reply := mkReply { rp_status : Z; rp_rev : option Z; rp_entries : list Entry; rp_count : Z }.

(** ** What the abstract map allows as an answer *)

Definition reads (m : live) (k : bytes) (end_ : option bytes) (ents : list Entry) : Prop :=
  StronglySorted (fun a b => bytes_ltb (Key a) (Key b) = true) ents /\
  forall ent, ent ∈ ents <-> range_query k end_ (Key ent) = true /\ m !! Key ent = Some ent.

Definition api_spec (compacted : Z) (req : api_req) (st st' : live * Z) (rep : reply) : Prop :=
  match cmd_of req, req with
  | Some cmd, _ =>
      let '(st1, out) := abs_apply compacted cmd st in
      st' = st1 /\ rep = match out with
        | Some rev => mkReply StatusOK (Some rev) [] 0
        | None => mkReply StatusBadRequest None [] 0
        end
  | None, ARange k end_ =>
      st' = st /\ exists ents, reads st.1 k end_ ents /\ rep = mkReply StatusOK (Some st.2) ents (Z.of_nat (length ents))
  | None, _ => False
  end.

Fixpoint api_history (compacted : Z) (reqs : list api_req) (st st' : live * Z) (reps : list reply) : Prop :=
  match reqs, reps with
  | [], [] => st' = st
  | req :: reqs, rep :: reps => exists st1, api_spec compacted req st st1 rep /\ api_history compacted reqs st1 st' reps
  | _, _ => False
  end.

Section Reads.
Context {T St B : Type} {BT : BTree Less T} {BS : ByteStore St B}.
Abbreviation kvs := (KvStore T St B).

Lemma kv_upto_now (s : kvs) k : kv_inv s -> Forall (upto (Main (currentRev s))) (hist (kvIndex s) k).
Proof.
  intros Hs. apply Forall_forall. intros e He. destruct (ki_bound s Hs k e He) as [[_ Hsub] [Hlt|[_ Hlt]]]; unfold upto; simpl in *; lia.
Qed.

Lemma reader_reads (s : kvs) (m : live) (k : bytes) (end_ : option bytes) :
  kv_inv s -> kv_live s m ->
  exists ents lastRev, reader_Range k end_ 0 0 s = Ok (ents, Z.of_nat (length ents), lastRev) /\ reads m k end_ ents.
Proof.
  intros Hs Hl. unfold reader_Range, Mvcc.Revisions. pose proof (ki_cur s Hs). pose proof (ki_comp s Hs).
  destruct (doRange_spec (kvIndex s) (kv_backend s) _ (Main (currentRev s)) (compactedMainRev s)
    0 k end_ 0 (ki_idx s Hs) (ki_be s Hs) (kv_inv_bucket s Hs) (ki_coh s Hs)) as (out & ents & [Hsort Hel] & HF & ->); [done|done|].
  cbn [Z.leb Z.compare] in Hel. unfold capped in HF. cbn [Z.leb Z.compare] in HF.
  assert (forall p ent, entry_at (kv_map (be_view (kv_backend s))) p ent -> Key ent = p.1) as Hkey.
  { intros p ent (e0 & _ & Ho & ->). exact (eo_key _ _ _ Ho). }
  eexists ents, _. split; [by rewrite (Forall2_length _ _ _ HF)|]. split.
  - clear Hel. induction HF as [|p ent out ents Hp HF IH]; [constructor|]. inversion Hsort as [|? ? Hs' Hall]; subst.
    constructor; [by apply IH|]. clear IH Hs' Hsort. induction HF as [|q ent' out ents Hq HF IH]; [constructor|].
    inversion Hall; subst. constructor; [by rewrite (Hkey _ _ Hp), (Hkey _ _ Hq)|by apply IH].
  - intros ent. split.
    + intros Hin. apply list_elem_of_lookup in Hin as [i Hi]. destruct (Forall2_lookup_r _ _ _ _ _ HF Hi) as ([y e] & Hy & Hat).
      pose proof (Hkey _ _ Hat) as Ey. cbn [fst] in Ey. apply list_elem_of_lookup_2, Hel in Hy as [Hsel Hlk]. rewrite Ey. split; [done|].
      pose proof (live_lookup _ _ m y _ Hl (kv_upto_now s y Hs)) as Hm. destruct (m !! y) as [ent'|].
      * destruct Hm as (e' & Hlk' & Hat'). rewrite Hlk in Hlk'. injection Hlk' as <-.
        destruct Hat as (e1 & L1 & O1 & ->), Hat' as (e2 & L2 & O2 & ->). f_equal.
        apply entry_bytes_stored; [apply O2|apply O1|congruence].
      * by rewrite Hlk in Hm.
    + intros [Hsel Hm]. pose proof (live_lookup _ _ m (Key ent) _ Hl (kv_upto_now s (Key ent) Hs)) as Hlk. rewrite Hm in Hlk.
      destruct Hlk as (e & Hlk & Hat). assert ((Key ent, e) ∈ out) as Hin by (by apply Hel).
      apply list_elem_of_lookup in Hin as [i Hi]. destruct (Forall2_lookup_l _ _ _ _ _ HF Hi) as (ent' & Hi' & Hat').
      apply list_elem_of_lookup. exists i. rewrite Hi'. f_equal.
      destruct Hat as (e1 & L1 & O1 & E1), Hat' as (e2 & L2 & O2 & ->). rewrite E1.
      apply entry_bytes_stored; [apply O2|apply O1|congruence].
Qed.
End Reads.

Section KvApi.
Context {T St B O W Snap : Type} {BT : BTree Less T} {BS : ByteStore St B} {MO : MapOrder}.
Context {CO : CommitObserver O} {WO : WriteObserver (KvStore T St B) W} {SS : SnapshotStore St Snap}.
Abbreviation kvs := (KvStore T St B).
Abbreviation fsm := (Fsm T St B O W).

(** command.Encode, command.Decode; the world of the node, with its state machine; the future of raft.Apply. *)
Variable encode : Command -> res bytes.
Variable decode : bytes -> res Command.
Context {X : Type}.
Variable fsm_of : X -> fsm.
Variable raft_apply : bytes -> M X (option Result).
Variable verifyLeader : M X unit.
Variable nodeID : string.
Variable opts : Options.

(** What the service relies on: a proposal that Raft accepts is applied here once, as an entry after
    those applied so far, and its future yields what Apply returned. *)
Definition raft_commits : Prop := forall bs x, exists log now now2,
  log_Data log = bs /\ applyIndex (f_store (fsm_of x)) < log_Index log /\
  forall f' res, Apply decode now now2 log (fsm_of x) = (f', Ok res) ->
    exists x', raft_apply bs x = (x', Ok (Some res)) /\ fsm_of x' = f'.

Definition propose : Command -> M X Result := NewProposeFunc encode raft_apply.
Definition store_of (x : X) : kvs := f_store (fsm_of x).

(** ** Serving a request *)

Definition rev_of {Y} (p : Z * option (ResponseHeader * Y)) : reply :=
  mkReply p.1 ((fun q => h_Revision q.1) <$> p.2) [] 0.

Definition serve_one (req : api_req) : M X reply :=
  match req with
  | APut r => handleKvPut propose opts (Some r) ≫= fun p => mret (rev_of p)
  | ADelete r => handleKvDelete propose (Some r) ≫= fun p => mret (rev_of p)
  | ATxn r => handleKvTxn propose (Some r) ≫= fun p => mret (rev_of p)
  | ARange k end_ =>
      handleKvRange verifyLeader store_of nodeID (Some (range_of k end_)) ≫= fun p =>
      mret match p.2 with
           | Some (h, r) => mkReply p.1 (Some (h_Revision h)) (rres_Entries r) (rres_Count r)
           | None => mkReply p.1 None [] 0
           end
  end.

Fixpoint serve_all (reqs : list api_req) : M X (list reply) :=
  match reqs with
  | [] => mret []
  | req :: rest => serve_one req ≫= fun r => serve_all rest ≫= fun rs => mret (r :: rs)
  end.

(** Requests that pass the checks of the service, whose command survives encoding. *)
Definition req_ok (req : api_req) : Prop :=
  match req with
  | APut r => PutRequest_Check r = None /\ CheckKey opts (pr_Key r) = None /\ CheckValue opts (default [] (pr_Value r)) = None
  | ADelete r => DeleteRequest_Check r = None
  | ATxn r => TxnRequest_Check r = None
  | ARange k _ => k <> []
  end /\
  forall cmd, cmd_of req = Some cmd -> cmd_ok cmd /\ exists bs, encode cmd = Ok bs /\ decode bs = Ok cmd.

Definition req_fits (req : api_req) (x : X) : Prop :=
  forall cmd, cmd_of req = Some cmd -> fits1 cmd (f_store (fsm_of x)).
Fixpoint all_fit (reqs : list api_req) (x : X) : Prop :=
  match reqs with [] => True | req :: rest => req_fits req x /\ all_fit rest (serve_one req x).1 end.

(** ** Writes *)

(** The field of the result that belongs to a command. *)
Definition answered (cmd : Command) (r : Result) : Prop :=
  r_Error r = None ->
  (Kind cmd = KindPut -> is_Some (r_Put r)) /\ (Kind cmd = KindDelete -> is_Some (r_Delete r)) /\
  (Kind cmd = KindTxn -> is_Some (r_Txn r)).

Lemma ApplyWrite_answered cmd (e : Engine T St B LeaseManager O) res : (ApplyWrite cmd e).2 = Ok res -> answered cmd res.
Proof.
  assert (returns (answered cmd) (apply_cmd (T := T) (St := St) (B := B) (A := LeaseManager) cmd)) as Hc.
  { unfold apply_cmd.
    destruct (decide (Kind cmd = KindPut)) as [E|N1]; [|destruct (decide (Kind cmd = KindDelete)) as [E|N2];
      [|destruct (decide (Kind cmd = KindTxn)) as [E|N3]]];
      rewrite ?(bool_decide_eq_false_2 (Kind cmd = KindPut)), ?(bool_decide_eq_false_2 (Kind cmd = KindDelete)),
        ?(bool_decide_eq_false_2 (Kind cmd = KindTxn)) by congruence;
      [rewrite bool_decide_eq_true_2 by done; unfold deref; case_match; [|apply returns_panic]; apply returns_bind; intros r;
       apply returns_ret; intros _; rewrite E; split_and!; intros Hk; first [discriminate Hk|eexists; reflexivity]..|].
    apply returns_bind. intros ?. apply returns_panic. }
  unfold ApplyWrite. destruct (NewWriter (e_store e)) as [w|er|]; [|done..].
  specialize (Hc (w, e_attacher e)). destruct (apply_cmd cmd (w, e_attacher e)) as [[w1 a1] [r|er|]]; [| |done].
  - specialize (Hc r eq_refl). destruct (End_ w1) as [w2 [[]|er|]]; [|done..]. intros [= <-]. exact Hc.
  - destruct (Abort w1) as [w2 [[]|?|]]; done.
Qed.

Lemma Apply_answered now now2 log cmd (f f' : fsm) res :
  applyIndex (f_store f) < log_Index log -> decode (log_Data log) = Ok cmd -> cmd_ok cmd ->
  Apply decode now now2 log f = (f', Ok res) -> answered cmd res.
Proof.
  intros Hi Hd Hok Hrun. destruct (kv_cmd_checked cmd Hok) as [HK Hc].
  assert (returns (answered cmd) (applyKv cmd : M fsm Result)) as Hret.
  { unfold applyKv. rewrite bool_decide_eq_true_2 by done. apply returns_or_error; [|intros e; by intros [=]].
    intros f0 x. unfold on_engine.
    pose proof (ApplyWrite_answered cmd (mkEngine (f_store f0) (f_lm f0) (f_commit_obs f0)) x) as Hp.
    destruct (ApplyWrite cmd _) as [e' r]. intros Hr. by apply Hp. }
  unfold Apply in Hrun. rewrite (M_bind_Ok _ _ f f f) in Hrun by done.
  cbn [RaftMeta fst] in Hrun. rewrite (proj2 (Z.leb_gt _ _) Hi), Hd, Hc in Hrun.
  set (f1 := set_f_store (UpdateInmemRaftMeta (log_Index log) (log_Term log) (f_store f)) f) in *.
  rewrite (M_bind_Ok _ _ f f1 tt) in Hrun by done. unfold dispatch in Hrun. rewrite bool_decide_eq_true_2 in Hrun by done.
  specialize (Hret f1). unfold mbind, M_bind at 1 in Hrun. destruct (applyKv cmd f1) as [f2 [r|e|]]; [|done..].
  specialize (Hret r eq_refl). cbv zeta in Hrun. destruct (r_Error (set_raft _ _ _ r)).
  - by injection Hrun as <- <-.
  - unfold M_bind in Hrun. destruct (on_f_store PersistRaftMeta f2) as [f3 [[]|e|]]; [|done..]. by injection Hrun as <- <-.
Qed.

Lemma proposed_run {Y} (P : Command -> M X Result) msg cmd (field : Result -> option Y) x x' res :
  P cmd x = (x', Ok res) ->
  proposed P false msg cmd field x =
    (x', match r_Error res, field res with None, Some y => Ok (res, y) | _, _ => Err (errMsg msg) end).
Proof.
  intros Hp. unfold proposed, fmt_v, mbind, M_bind. rewrite Hp. destruct (r_Error res); [done|]. cbn.
  by destruct (field res).
Qed.

(** A write handler after a proposal that was applied. *)
Lemma handle_write {Req Y} (P : Command -> M X Result) (svc : Req -> M X (ResponseHeader * Y)) req msg cmd field x x' res :
  (svc req x = (proposed P false msg cmd field ≫= fun p => mret (r_Header p.1, p.2)) x) ->
  P cmd x = (x', Ok res) -> (r_Error res = None -> is_Some (field res)) ->
  exists p, handle kv_status svc (Some req) x = (x', Ok p) /\
    rev_of p = match outcome res with Some rev => mkReply StatusOK (Some rev) [] 0 | None => mkReply StatusBadRequest None [] 0 end.
Proof.
  intros Hsvc Hp Hf. unfold handle, mbind, M_bind, try. rewrite Hsvc. unfold mbind, M_bind.
  rewrite (proposed_run P msg cmd field x x' res Hp). unfold outcome. destruct (r_Error res) as [e|].
  - eexists. split; [reflexivity|]. done.
  - destruct (Hf eq_refl) as [y ->]. eexists. split; [reflexivity|]. done.
Qed.

Lemma write_step (req : api_req) (cmd : Command) (x : X) (st : live * Z) :
  raft_commits -> @commits_succeed St B _ -> at_state (fsm_of x) st -> req_ok req -> req_fits req x -> cmd_of req = Some cmd ->
  exists x' rep st', serve_one req x = (x', Ok rep) /\ at_state (fsm_of x') st' /\
    compactedMainRev (store_of x') = compactedMainRev (store_of x) /\ api_spec (compactedMainRev (store_of x)) req st st' rep.
Proof.
  intros Hraft Hc Hst [Hchk Hcmd] Hfit Hreq. destruct (Hcmd cmd Hreq) as (Hok & bs & Henc & Hdec).
  destruct (Hraft bs x) as (log & now & now2 & Hdata & Hi & Happ). rewrite <-Hdata in Hdec.
  destruct (Apply_refines decode (fun _ => (now, now2)) log cmd (fsm_of x) st Hc Hst Hi Hdec Hok (Hfit cmd Hreq))
    as (f' & res & Hrun & _ & Hco & Habs). cbn [fst snd] in Hrun.
  destruct (Happ f' res Hrun) as (x' & Hrx & Hfx). subst f'.
  assert (propose cmd x = (x', Ok res)) as Hp by (unfold propose, NewProposeFunc; by rewrite Henc, Hrx).
  destruct (abs_apply (compactedMainRev (f_store (fsm_of x))) cmd st) as [st' out] eqn:Eabs. destruct Habs as [Hst' Hout].
  assert (answered cmd res) as Hans by (by eapply Apply_answered).
  assert (forall rep, rep = match outcome res with Some rev => mkReply StatusOK (Some rev) [] 0 | None => mkReply StatusBadRequest None [] 0 end ->
    serve_one req x = (x', Ok rep) -> exists x' rep st', serve_one req x = (x', Ok rep) /\ at_state (fsm_of x') st' /\
    compactedMainRev (store_of x') = compactedMainRev (store_of x) /\ api_spec (compactedMainRev (store_of x)) req st st' rep) as Hfin.
  { intros rep Hrep Hs. exists x', rep, st'. split_and!; [done|done|done|]. unfold api_spec, store_of. rewrite Hreq, Eabs.
    split; [done|]. by rewrite Hrep, Hout. }
  destruct req as [r|r|r|k end_]; [| | |done]; injection Hreq as <-; cbn [serve_one]; unfold handleKvPut, handleKvDelete, handleKvTxn.
  - destruct Hchk as (C1 & C2 & C3).
    destruct (handle_write propose (kv_Put propose opts) r "put failed" (Services.put_cmd r) r_Put x x' res) as (p & Hh & Hrep); [|done|intros E; by apply Hans|].
    { unfold kv_Put, mbind, M_bind at 1. rewrite C1, C2, C3. done. }
    eapply Hfin; [exact Hrep|]. unfold serve_one. by rewrite (M_bind_Ok _ _ _ _ _ Hh).
  - destruct (handle_write propose (kv_Delete propose) r "delete failed" (delete_cmd r) r_Delete x x' res) as (p & Hh & Hrep); [|done|intros E; by apply Hans|].
    { unfold kv_Delete, mbind, M_bind at 1. rewrite Hchk. done. }
    eapply Hfin; [exact Hrep|]. unfold serve_one. by rewrite (M_bind_Ok _ _ _ _ _ Hh).
  - destruct (handle_write propose (kv_Txn propose) r "txn failed" (Services.txn_cmd r) r_Txn x x' res) as (p & Hh & Hrep); [|done|intros E; by apply Hans|].
    { unfold kv_Txn, mbind, M_bind at 1. rewrite Hchk. done. }
    eapply Hfin; [exact Hrep|]. unfold serve_one. by rewrite (M_bind_Ok _ _ _ _ _ Hh).
Qed.

(** ** Reads *)

Lemma read_step (k : bytes) (end_ : option bytes) (x : X) (st : live * Z) :
  at_state (fsm_of x) st -> k <> [] ->
  exists rep, serve_one (ARange k end_) x = (x, Ok rep) /\ api_spec (compactedMainRev (store_of x)) (ARange k end_) st st rep.
Proof.
  intros [Hs Hl Hrev] Hk. destruct (reader_reads (store_of x) st.1 k end_ Hs Hl) as (ents & lastRev & Hr & Hreads).
  exists (mkReply StatusOK (Some st.2) ents (Z.of_nat (length ents))). split; [|split; [done|by exists ents]].
  assert (RangeRequest_Check (range_of k end_) = None) as Hc by (by destruct k).
  cbn [serve_one]. unfold handleKvRange, handle, kv_Range, mbind, M_bind, try. rewrite Hc, check_None.
  cbn [mret M_ret get_st fmt_v lift range_of rr_Serializable rr_Prefix rr_End rr_Key rr_Revision rr_Limit rr_CountOnly].
  unfold fmt_v, lift. rewrite Hr. cbn. unfold makeHeader, Meta, store_of. cbn. by rewrite Hrev.
Qed.

(** ** Histories *)

(** C2: A history of requests through the HTTP handlers of a node whose proposals Raft commits is a
    history of the abstract map: every request is answered; a put, a delete or a transaction
    takes the map and its revision to the next state, with 200 and the new revision, or leaves
    both alone with 400; a range is answered 200 with exactly the entries of the map under the
    queried keys, in key order, at the revision of the last write. *)
Theorem api_history_refines (reqs : list api_req) (x : X) (st : live * Z) :
  raft_commits -> @commits_succeed St B _ -> at_state (fsm_of x) st -> Forall req_ok reqs -> all_fit reqs x ->
  exists x' reps st', serve_all reqs x = (x', Ok reps) /\ at_state (fsm_of x') st' /\
    api_history (compactedMainRev (store_of x)) reqs st st' reps.
Proof.
  intros Hraft Hc Hst Hok. revert x st Hst.
  induction Hok as [|req reqs Hreq Hok IH]; intros x st Hst Hfit; [by exists x, [], st|]. destruct Hfit as [Hf1 Hfit].
  assert (exists x1 rep st1, serve_one req x = (x1, Ok rep) /\ at_state (fsm_of x1) st1 /\
    compactedMainRev (store_of x1) = compactedMainRev (store_of x) /\ api_spec (compactedMainRev (store_of x)) req st st1 rep)
    as (x1 & rep & st1 & Hs1 & Hst1 & Hco & Hsp).
  { destruct (cmd_of req) as [cmd|] eqn:Ecmd; [by eapply write_step|]. destruct req as [| | |k end_]; [done..|].
    destruct (read_step k end_ x st Hst (proj1 Hreq)) as (rep & H1 & H2). by exists x, rep, st. }
  rewrite Hs1 in Hfit. destruct (IH x1 st1 Hst1 Hfit) as (x' & reps & st' & Hs & Hst' & Hh).
  exists x', (rep :: reps), st'. split_and!; [|done|].
  - cbn [serve_all]. rewrite (M_bind_Ok _ _ _ _ _ Hs1). by rewrite (M_bind_Ok _ _ _ _ _ Hs).
  - exists st1. split; [done|by rewrite <-Hco].
Qed.
End KvApi.

(** ** A concrete history *)

(** A node of one: a proposal is committed and applied at once, under the next index. *)
Definition solo_apply (bs : bytes) : M inmem_fsm (option Result) := fun f =>
  match Apply put_decode 0 0 (mkLog (applyIndex (f_store f) + 1) 1 bs) f with
  | (f', Ok res) => (f', Ok (Some res))
  | (f', Err e) => (f', Err e)
  | (f', Panicked) => (f', Panicked)
  end.
Definition put_encode (cmd : Command) : res bytes := Ok [].
Definition requests0 : list api_req := [ARange k_a None; APut (Engine.put_a 0); ARange k_a None; APut (Engine.put_a 0)].

Lemma solo_commits : raft_commits put_decode (fun f : inmem_fsm => f) solo_apply.
Proof.
  intros bs f. exists (mkLog (applyIndex (f_store f) + 1) 1 bs), 0, 0. split_and!; [done|cbn; lia|].
  intros f' res Hrun. exists f'. split; [|done]. unfold solo_apply. by rewrite Hrun.
Qed.

Lemma api_history_refines_witness :
  exists f' reps st',
    serve_all put_encode (fun f : inmem_fsm => f) solo_apply (fail [ErrPropose]) "n1" (mkOptions 10 10) requests0 fsm0 = (f', Ok reps) /\
    at_state f' st' /\ api_history 0 requests0 (∅, 0) st' reps.
Proof.
  apply (api_history_refines put_encode put_decode (fun f : inmem_fsm => f) solo_apply (fail [ErrPropose]) "n1"
    (mkOptions 10 10) requests0 fsm0 (∅, 0)).
  - exact solo_commits.
  - exact inmem_commits_succeed.
  - apply fsm0_at.
  - repeat apply Forall_cons_2; [..|apply Forall_nil_2]; (split; [first [discriminate|by split_and!]|]); intros cmd [= <-];
      (split; [apply put_a_ok|exists []; split; reflexivity]).
  - unfold requests0. repeat (split; [intros cmd Hcmd; first [discriminate|injection Hcmd as <-; vm_compute; by split]|]). exact I.
Defined.

(** The put is read back at its revision; the second one overwrites it. *)
Example requests0_replies :
  (serve_all put_encode (fun f : inmem_fsm => f) solo_apply (fail [ErrPropose]) "n1" (mkOptions 10 10) requests0 fsm0).2 =
  Ok [mkReply 200 (Some 0) [] 0; mkReply 200 (Some 1) [] 0;
      mkReply 200 (Some 1) [mkEntry k_a (Some [Byte.x01]) 1 1 1 0] 1; mkReply 200 (Some 2) [] 0].
Proof. vm_compute. reflexivity. Qed.
