(* ===== verification/Util.v ===== *)
(** The concurrent and clock helpers of internal/util: atomic.go, whose subtraction loop runs in any
    number of goroutines, time.go's settable clock and future.go's WaitApply. *)

From S2P Require Import Prelude KvTypes Api Lease Services.
From Stdlib Require Import ZArith Lia.
From stdpp Require Import base gmap sets list strings.
Open Scope Z_scope.

(** ** atomic.go *)

(** A goroutine in AtomicSubNoUnderflow: about to load, about to compare and swap with the value it
    loaded, returned. *)
Inductive sub_pc := SubLoop (n : Z) | SubSwap (n old : Z) | SubReturned (new : Z).

Definition sub_new (old n : Z) : Z := if old <? n then 0 else u64 (old - n).

(** The counter and the goroutines that share it. *)
Inductive AtomicSub_step : Z * list sub_pc -> Z * list sub_pc -> Prop :=
  | sub_zero u ts i : ts !! i = Some (SubLoop 0) -> AtomicSub_step (u, ts) (u, <[i := SubReturned u]> ts)
  | sub_load u ts i n : ts !! i = Some (SubLoop n) -> n <> 0 ->
      AtomicSub_step (u, ts) (u, <[i := SubSwap n u]> ts)
  | sub_swapped u ts i n : ts !! i = Some (SubSwap n u) ->
      AtomicSub_step (u, ts) (sub_new u n, <[i := SubReturned (sub_new u n)]> ts)
  | sub_retry u ts i n old : ts !! i = Some (SubSwap n old) -> u <> old ->
      AtomicSub_step (u, ts) (u, <[i := SubLoop n]> ts).

Definition AtomicSubNoUnderflow (u : Z) (ns : list Z) : Z * list sub_pc := (u, SubLoop <$> ns).

Definition owed (t : sub_pc) : Z := match t with SubLoop n | SubSwap n _ => n | SubReturned _ => 0 end.
Fixpoint owed_all (ts : list sub_pc) : Z := match ts with [] => 0 | t :: ts => owed t + owed_all ts end.
Definition returned (t : sub_pc) : bool := match t with SubReturned _ => true | _ => false end.

Lemma owed_all_insert ts i t t' : ts !! i = Some t -> owed_all (<[i := t']> ts) = owed_all ts - owed t + owed t'.
Proof.
  revert i. induction ts as [|a ts IH]; intros [|i] H; simplify_eq/=; [lia|]. rewrite (IH i H). lia.
Qed.

Definition u64_all (st : Z * list sub_pc) : Prop := 0 <= st.1 < 2 ^ 64 /\ Forall (fun t => 0 <= owed t < 2 ^ 64) st.2.

Lemma owed_all_nonneg ts : Forall (fun t => 0 <= owed t < 2 ^ 64) ts -> 0 <= owed_all ts.
Proof. induction 1; cbn; lia. Qed.

Lemma owed_all_ge ts i t : Forall (fun t => 0 <= owed t < 2 ^ 64) ts -> ts !! i = Some t -> owed t <= owed_all ts.
Proof.
  intros H. revert i. induction H as [|a ts Ha H IH]; intros [|i] Hi; simplify_eq/=.
  - pose proof (owed_all_nonneg ts H). lia.
  - specialize (IH i Hi). lia.
Qed.

Lemma sub_new_max u n : 0 <= u < 2 ^ 64 -> 0 <= n -> sub_new u n = Z.max 0 (u - n).
Proof. intros Hu Hn. unfold sub_new. destruct (Z.ltb_spec u n); [lia|]. rewrite u64_id by lia. lia. Qed.

(** What is left of the counter when everything owed is taken is the same after every step. *)
Lemma sub_step_inv st st' :
  AtomicSub_step st st' -> u64_all st ->
  u64_all st' /\ Z.max 0 (st'.1 - owed_all st'.2) = Z.max 0 (st.1 - owed_all st.2).
Proof.
  intros H [Hu Hall]. destruct H as [u ts i Hi|u ts i n Hi Hn|u ts i n Hi|u ts i n old Hi Hne]; cbn [fst snd] in *;
    rewrite (owed_all_insert _ _ _ _ Hi); pose proof (Forall_lookup_1 _ _ _ _ Hall Hi) as Hb; cbn [owed] in *.
  - split; [split; [done|]; apply Forall_insert; cbn; [done|lia]|f_equal; lia].
  - split; [split; [done|]; apply Forall_insert; cbn; [done|lia]|f_equal; lia].
  - rewrite (sub_new_max u n) by lia. pose proof (owed_all_ge ts i _ Hall Hi) as Hge. cbn [owed] in Hge.
    split; [split; [cbn; lia|]; apply Forall_insert; cbn; [done|lia]|lia].
  - split; [split; [done|]; apply Forall_insert; cbn; [done|lia]|f_equal; lia].
Qed.

Lemma sub_steps_inv st st' :
  rtc AtomicSub_step st st' -> u64_all st ->
  u64_all st' /\ Z.max 0 (st'.1 - owed_all st'.2) = Z.max 0 (st.1 - owed_all st.2).
Proof.
  induction 1 as [|a b c Hab _ IH]; [done|]. intros Ha. destruct (sub_step_inv a b Hab Ha) as [Hb Eb].
  destruct (IH Hb) as [Hc Ec]. by rewrite Ec, Eb.
Qed.

Lemma owed_all_returned ts : forallb returned ts = true -> owed_all ts = 0.
Proof. induction ts as [|[] ts IH]; cbn; [done..|]. intros H. rewrite (IH H). lia. Qed.

Lemma owed_all_start ns : owed_all (SubLoop <$> ns) = foldr Z.add 0 ns.
Proof. induction ns as [|n ns IH]; cbn; [done|]. by rewrite IH. Qed.

(** The goroutines never lose a subtraction and never wrap: whatever the interleaving of their
    loads and swaps, when all have returned the counter holds what taking the amounts one after
    the other leaves, 0 if they exceed it. *)
Theorem atomic_sub_total (u : Z) (ns : list Z) (st : Z * list sub_pc) :
  0 <= u < 2 ^ 64 -> Forall (fun n => 0 <= n < 2 ^ 64) ns ->
  rtc AtomicSub_step (AtomicSubNoUnderflow u ns) st -> forallb returned st.2 = true ->
  st.1 = Z.max 0 (u - foldr Z.add 0 ns).
Proof.
  intros Hu Hns Hr Hret. destruct (sub_steps_inv _ _ Hr) as [[H1 _] H2].
  - split; [done|]. by apply Forall_fmap.
  - rewrite (owed_all_returned _ Hret) in H2. cbn in H2. rewrite owed_all_start in H2. lia.
Qed.

(** *** Retries end *)

Fixpoint busy (ts : list sub_pc) : nat := match ts with [] => 0 | t :: ts => (if returned t then 0 else 1) + busy ts end.
Definition weight (u : Z) (t : sub_pc) : nat :=
  match t with SubLoop _ => 2 | SubSwap _ old => if u =? old then 1 else 3 | SubReturned _ => 0 end.
Fixpoint weights (u : Z) (ts : list sub_pc) : nat := match ts with [] => 0 | t :: ts => weight u t + weights u ts end.
Definition sub_measure (st : Z * list sub_pc) : nat := busy st.2 * (3 * length st.2 + 1) + weights st.1 st.2.

Lemma weights_insert u ts i t t' : ts !! i = Some t -> (weights u (<[i := t']> ts) + weight u t = weights u ts + weight u t')%nat.
Proof.
  revert i. induction ts as [|a ts IH]; intros [|i] H; simplify_eq/=; [lia|]. specialize (IH i H). lia.
Qed.

Lemma weights_bound u ts : (weights u ts <= 3 * length ts)%nat.
Proof. induction ts as [|t ts IH]; cbn; [lia|]. assert (weight u t <= 3)%nat by (destruct t; cbn; try case_match; lia). lia. Qed.

Lemma busy_insert ts i t t' : ts !! i = Some t ->
  (busy (<[i := t']> ts) + (if returned t then 0 else 1) = busy ts + (if returned t' then 0 else 1))%nat.
Proof.
  revert i. induction ts as [|a ts IH]; intros [|i] H; simplify_eq/=; [lia|]. specialize (IH i H). lia.
Qed.

Lemma sub_step_measure st st' : AtomicSub_step st st' -> (sub_measure st' < sub_measure st)%nat.
Proof.
  intros H. destruct H as [u ts i Hi|u ts i n Hi Hn|u ts i n Hi|u ts i n old Hi Hne]; unfold sub_measure; cbn [fst snd];
    rewrite length_insert.
  - pose proof (busy_insert ts i _ (SubReturned u) Hi). pose proof (weights_insert u ts i _ (SubReturned u) Hi). cbn in *. nia.
  - pose proof (busy_insert ts i _ (SubSwap n u) Hi). pose proof (weights_insert u ts i _ (SubSwap n u) Hi) as Hw.
    cbn in *. rewrite Z.eqb_refl in Hw. nia.
  - pose proof (busy_insert ts i _ (SubReturned (sub_new u n)) Hi).
    pose proof (weights_bound (sub_new u n) (<[i := SubReturned (sub_new u n)]> ts)) as Hw. rewrite length_insert in Hw. cbn in *. nia.
  - pose proof (busy_insert ts i _ (SubLoop n) Hi). pose proof (weights_insert u ts i _ (SubLoop n) Hi) as Hw.
    cbn in *. rewrite (proj2 (Z.eqb_neq _ _) Hne) in Hw. nia.
Qed.

(** A failed swap means that another goroutine has returned, so the retries end: there is no
    infinite run, and a goroutine that has not returned can always move. *)
Theorem atomic_sub_lock_free (st : Z * list sub_pc) :
  Acc (fun a b => AtomicSub_step b a) st /\
  (forallb returned st.2 = false -> exists st', AtomicSub_step st st').
Proof.
  split.
  - remember (sub_measure st) as n eqn:E. revert st E. induction (lt_wf n) as [n _ IH]. intros st ->.
    constructor. intros st' H%sub_step_measure. by eapply IH.
  - destruct st as [u ts]. cbn. intros H.
    assert (exists i t, ts !! i = Some t /\ returned t = false) as (i & t & Hi & Ht).
    { induction ts as [|t ts IH]; [done|]. cbn in H. destruct (returned t) eqn:E; [|by exists 0%nat, t].
      destruct (IH H) as (i & t' & ? & ?). by exists (S i), t'. }
    destruct t as [n|n old|]; [| |done].
    + destruct (decide (n = 0)) as [->|Hn]; eexists; [by eapply sub_zero|by eapply sub_load].
    + destruct (decide (u = old)) as [->|Hne]; eexists; [by eapply sub_swapped|by eapply sub_retry].
Qed.

(** ** time.go: the settable clock *)

(** Times in nanoseconds; a duration is an int64, the product with time.Second wraps around. *)
Record FakeClock := mkFakeClock { fc_now : Z }.
Definition NewFakeClock (start : Z) : FakeClock := mkFakeClock start.
Definition AdvanceSeconds (deltaS : Z) (fc : FakeClock) : FakeClock := mkFakeClock (fc_now fc + duration deltaS).
Definition Override (t : Z) (fc : FakeClock) : FakeClock := mkFakeClock t.
Definition Now (fc : FakeClock) : Z := fc_now fc.
Definition Until (t : Z) (fc : FakeClock) : Z := sub_time t (fc_now fc).

(** A lease granted on this clock has its time to live left until the clock is advanced by it. *)
Lemma fake_clock_lease (start id ttl d : Z) :
  0 <= ttl <= maxTTL -> 0 <= d <= maxTTL ->
  let fc := AdvanceSeconds d (NewFakeClock start) in
  RemainingSec (Now fc) (newLease id ttl start) = ttl - d /\ Until (expiry (newLease id ttl start)) fc = (ttl - d) * Second.
Proof.
  intros Ht Hd. cbv zeta. unfold RemainingSec, Until, AdvanceSeconds, NewFakeClock, newLease, Now, duration. cbn [fc_now expiry].
  unfold maxTTL in *. rewrite !i64_id by (unfold in_i64, Second, MinInt64, MaxInt64; lia).
  assert (sub_time (start + Second * ttl) (start + Second * d) = (ttl - d) * Second) as ->
    by (unfold sub_time, Second, MinInt64, MaxInt64; lia).
  split; [|done]. unfold seconds. by rewrite Z.quot_mul.
Qed.

(** ** future.go *)

(** A nil context or future panics; [ctx] is the error of a context that ends before the future. The
    future yields the response of the state machine. *)
Definition WaitApply {R A} (ctx : option (option error)) (fut : option (M R A)) : M R A := fun r =>
  match ctx, fut with
  | None, _ | _, None => (r, Panicked)
  | Some c, Some fut =>
      match fut r, c with
      | (r', Panicked), _ => (r', Panicked)
      | (r', _), Some e => (r', Err e)
      | (r', Err e), None => (r', Err e)
      | (r', Ok a), None => (r', Ok a)
      end
  end.

(** A proposal whose caller stops waiting fails with ErrPropose, yet what Raft did with the command stays
    done: the caller of a write cannot tell from the error whether it was applied. *)
Lemma abandoned_proposal_applied {R} (encode : Command -> res bytes) (fut : bytes -> M R (option Result)) (cmd : Command)
    (bs : bytes) (e : error) (r r' : R) (res : option Result) :
  encode cmd = Ok bs -> fut bs r = (r', Ok res) ->
  NewProposeFunc encode (fun bs => WaitApply (Some (Some e)) (Some (fut bs))) cmd r = (r', Err (ErrPropose :: e)).
Proof. intros He Hf. unfold NewProposeFunc, WaitApply. by rewrite He, Hf. Qed.

(** ** A run of two goroutines, one of which has to retry *)

Definition sub_run : Z * list sub_pc := (0, [SubReturned 0; SubReturned 2]).

Lemma sub_run_reached : rtc AtomicSub_step (AtomicSubNoUnderflow 5 [7; 3]) sub_run.
Proof.
  eapply rtc_l; [by apply (sub_load _ _ 0 7)|]. eapply rtc_l; [by apply (sub_load _ _ 1 3)|].
  eapply rtc_l; [by apply (sub_swapped _ _ 1 3)|]. eapply rtc_l; [by apply (sub_retry _ _ 0 7 5)|].
  eapply rtc_l; [by apply (sub_load _ _ 0 7)|]. eapply rtc_l; [by apply (sub_swapped _ _ 0 7)|]. apply rtc_refl.
Qed.

Lemma atomic_sub_total_witness : sub_run.1 = Z.max 0 (5 - (7 + (3 + 0))).
Proof.
  apply (atomic_sub_total 5 [7; 3] sub_run); [lia|repeat constructor; lia|exact sub_run_reached|reflexivity].
Defined.
