(* ===== verification/LeaseLock.v ===== *)
(** The lock of the lease manager: which operation of internal/lease/lease_manager.go takes rwlock how, and the
    gauge function of NewManager, which takes it and, in its deferred call, takes it again. *)

From S2P Require Import Prelude.
From Stdlib Require Import ZArith Lia.
From stdpp Require Import base list relations.

(** ** sync.RWMutex *)

Inductive lock_call := Lock | Unlock | RLock | RUnlock.
Record RWMutex := mkRW { rw_writer : bool; rw_readers : nat }.

(** [None]: the call blocks. RLock may also block behind a waiting writer; that it need not only
    adds runs. *)
Definition lock_do (c : lock_call) (m : RWMutex) : option RWMutex :=
  match c with
  | Lock => if rw_writer m || negb (rw_readers m =? 0)%nat then None else Some (mkRW true 0)
  | Unlock => if rw_writer m then Some (mkRW false (rw_readers m)) else None
  | RLock => if rw_writer m then None else Some (mkRW false (S (rw_readers m)))
  | RUnlock => match rw_readers m with O => None | S n => Some (mkRW (rw_writer m) n) end
  end.

(** ** The operations *)

Inductive lm_op :=
  | LGrant (id ttl : Z) | LRevoke | LKeepAlive (id : Z) | LAttachKey | LDetachKey | LLookup | LCheckpoint | LApplyCheckpoint
  | LDrainExpiredLeases | LApplyExpired | LRestore | LActiveLeases.

(** The checks of Grant and KeepAlive that return before the lock is taken. *)
Definition refused (op : lm_op) : bool :=
  match op with
  | LGrant id ttl => ((id =? 0) || (ttl <=? 0))%Z
  | LKeepAlive id => (id =? 0)%Z
  | _ => false
  end.

(** The call any other operation starts with, and the one it defers. *)
Definition enters (op : lm_op) : lock_call :=
  match op with LLookup | LCheckpoint => RLock | _ => Lock end.
Definition leaves (op : lm_op) : lock_call :=
  match op with LLookup | LCheckpoint => RUnlock | LActiveLeases => Lock | _ => Unlock end.

Inductive phase := Before | Inside | After.
#[export] Instance phase_eq_dec : EqDecision phase.
Proof. solve_decision. Defined.

Record lock_sys := mkLocks { lk_mutex : RWMutex; lk_pool : list (lm_op * phase) }.
Definition NewLocks : lock_sys := mkLocks (mkRW false 0) [].

Inductive lock_step : lock_sys -> lock_sys -> Prop :=
  | lk_spawn m ps op : lock_step (mkLocks m ps) (mkLocks m (ps ++ [(op, Before)]))
  | lk_refuse m ps i op : ps !! i = Some (op, Before) -> refused op = true ->
      lock_step (mkLocks m ps) (mkLocks m (<[i := (op, After)]> ps))
  | lk_enter m m' ps i op : ps !! i = Some (op, Before) -> refused op = false -> lock_do (enters op) m = Some m' ->
      lock_step (mkLocks m ps) (mkLocks m' (<[i := (op, Inside)]> ps))
  | lk_leave m m' ps i op : ps !! i = Some (op, Inside) -> lock_do (leaves op) m = Some m' ->
      lock_step (mkLocks m ps) (mkLocks m' (<[i := (op, After)]> ps)).

(** ** Who is inside *)

Definition holds (reading : bool) (g : lm_op * phase) : bool :=
  match g with
  | (op, Inside) => match enters op with RLock => reading | _ => negb reading end
  | _ => false
  end.
Fixpoint holders (reading : bool) (ps : list (lm_op * phase)) : nat :=
  match ps with [] => 0 | g :: ps => (if holds reading g then 1 else 0) + holders reading ps end.

Lemma holders_app b ps qs : holders b (ps ++ qs) = holders b ps + holders b qs.
Proof. induction ps as [|g ps IH]; cbn; [done|]. rewrite IH. lia. Qed.

Lemma holders_insert b ps i g g' : ps !! i = Some g ->
  holders b (<[i := g']> ps) + (if holds b g then 1 else 0) = holders b ps + (if holds b g' then 1 else 0).
Proof.
  revert i. induction ps as [|a ps IH]; intros [|i] H; simplify_eq/=; [lia|]. specialize (IH i H). lia.
Qed.

Lemma holders_lookup b ps i g : ps !! i = Some g -> holds b g = true -> 1 <= holders b ps.
Proof.
  revert i. induction ps as [|a ps IH]; intros [|i] H Hh; simplify_eq/=; [rewrite Hh; lia|]. specialize (IH i H Hh). lia.
Qed.

Lemma holders_lookup2 b ps i j g g' :
  ps !! i = Some g -> ps !! j = Some g' -> i <> j -> holds b g = true -> holds b g' = true -> 2 <= holders b ps.
Proof.
  revert i j. induction ps as [|a ps IH]; intros [|i] [|j] H H' Hne Hh Hh'; simplify_eq/=.
  - rewrite Hh. pose proof (holders_lookup b ps j g' H' Hh'). lia.
  - rewrite Hh'. pose proof (holders_lookup b ps i g H Hh). lia.
  - assert (i <> j) by congruence. pose proof (IH i j H H' ltac:(done) Hh Hh'). lia.
Qed.

(** The mutex counts the goroutines inside. *)
Record lock_inv (s : lock_sys) : Prop := {
  li_writer : holders false (lk_pool s) = if rw_writer (lk_mutex s) then 1 else 0;
  li_readers : holders true (lk_pool s) = rw_readers (lk_mutex s);
  li_excl : rw_writer (lk_mutex s) = true -> rw_readers (lk_mutex s) = 0 }.

Lemma enters_spec op : enters op = Lock /\ (leaves op = Unlock \/ op = LActiveLeases) \/ enters op = RLock /\ leaves op = RUnlock.
Proof. destruct op; cbn; tauto. Qed.

Lemma lock_step_inv s s' : lock_inv s -> lock_step s s' -> lock_inv s'.
Proof.
  intros [Hw Hr Hx] H. destruct H as [m ps op|m ps i op Hi Hre|m m' ps i op Hi Hre Hd|m m' ps i op Hi Hd]; cbn [lk_mutex lk_pool] in *.
  - split; cbn [lk_mutex lk_pool]; [by rewrite holders_app; cbn; lia..|done].
  - pose proof (holders_insert false _ _ _ (op, After) Hi) as H1. pose proof (holders_insert true _ _ _ (op, After) Hi) as H2.
    cbn [holds] in H1, H2. split; cbn [lk_mutex lk_pool]; [lia..|done].
  - pose proof (holders_insert false _ _ _ (op, Inside) Hi) as H1. pose proof (holders_insert true _ _ _ (op, Inside) Hi) as H2.
    cbn [holds] in H1, H2. destruct m as [w r]. cbn [rw_writer rw_readers] in *.
    destruct (enters_spec op) as [[E _]|[E _]]; rewrite E in *; cbn in Hd, H1, H2.
    + destruct w; [done|]. destruct (Nat.eqb_spec r 0) as [->|]; [|done]. injection Hd as <-. split; cbn in *; lia.
    + destruct w; [done|]. injection Hd as <-. split; cbn in *; [lia..|done].
  - pose proof (holders_insert false _ _ _ (op, After) Hi) as H1. pose proof (holders_insert true _ _ _ (op, After) Hi) as H2.
    cbn [holds] in H1, H2. destruct m as [w r]. cbn [rw_writer rw_readers] in *.
    destruct (enters_spec op) as [[E [E'| ->]]|[E E']]; rewrite E in H1, H2.
    + rewrite E' in Hd. cbn in Hd, H1, H2. destruct w; [|done]. injection Hd as <-. split; cbn in *; [lia..|done].
    + cbn in Hd, H1, H2. destruct w; [done|]. lia.
    + rewrite E' in Hd. cbn in Hd, H1, H2. destruct r; [done|]. injection Hd as <-. split; cbn in *; [lia..|]. intros ->. specialize (Hx eq_refl). lia.
Qed.

Lemma lock_reach_inv s : rtc lock_step NewLocks s -> lock_inv s.
Proof.
  enough (forall a, lock_inv a -> rtc lock_step a s -> lock_inv s) as H by (apply H; by split).
  intros a Ha Hr. induction Hr as [|a b c Hab _ IH]; [done|]. apply IH. by eapply lock_step_inv.
Qed.

(** Two operations are inside at the same time only if both are readers. *)
Theorem lease_lock_exclusive (s : lock_sys) (i j : nat) (op op' : lm_op) :
  rtc lock_step NewLocks s -> lk_pool s !! i = Some (op, Inside) -> lk_pool s !! j = Some (op', Inside) -> i <> j ->
  enters op = RLock /\ enters op' = RLock.
Proof.
  intros Hr Hi Hj Hne. destruct (lock_reach_inv s Hr) as [Hw Hrd Hx].
  destruct (enters_spec op) as [[E _]|[E _]], (enters_spec op') as [[E' _]|[E' _]]; [..|done]; exfalso.
  - pose proof (holders_lookup2 false _ _ _ _ _ Hi Hj Hne ltac:(cbn; by rewrite E) ltac:(cbn; by rewrite E')).
    destruct (rw_writer (lk_mutex s)); lia.
  - pose proof (holders_lookup false _ _ _ Hi ltac:(cbn; by rewrite E)). pose proof (holders_lookup true _ _ _ Hj ltac:(cbn; by rewrite E')).
    destruct (rw_writer (lk_mutex s)); [specialize (Hx eq_refl)|]; lia.
  - pose proof (holders_lookup false _ _ _ Hj ltac:(cbn; by rewrite E')). pose proof (holders_lookup true _ _ _ Hi ltac:(cbn; by rewrite E)).
    destruct (rw_writer (lk_mutex s)); [specialize (Hx eq_refl)|]; lia.
Qed.

(** ** Progress without the gauge, none with it *)

Definition moves (s s' : lock_sys) : Prop := lock_step s s' /\ length (lk_pool s') = length (lk_pool s).

Lemma holders_pos b ps : holders b ps <> 0 -> exists i op, ps !! i = Some (op, Inside) /\ holds b (op, Inside) = true.
Proof.
  induction ps as [|g ps IH]; [done|]. cbn [holders]. destruct (holds b g) eqn:E.
  - destruct g as [op []]; [done| |done]. intros _. by exists 0, op.
  - intros H. destruct IH as (i & op & ? & ?); [done|]. by exists (S i), op.
Qed.

Lemma leave_moves m ps i op :
  lock_inv (mkLocks m ps) -> op <> LActiveLeases -> ps !! i = Some (op, Inside) -> exists s', moves (mkLocks m ps) s'.
Proof.
  intros [Hw Hr _] Hop Hi. cbn [lk_mutex lk_pool] in *. destruct m as [w r]. cbn [rw_writer rw_readers] in *.
  assert (exists m', lock_do (leaves op) (mkRW w r) = Some m') as [m' Hm].
  { destruct (enters_spec op) as [[E [E'|?]]|[E E']]; [| done |]; rewrite E'; cbn.
    - pose proof (holders_lookup false _ _ _ Hi ltac:(cbn; by rewrite E)). destruct w; [eauto|lia].
    - pose proof (holders_lookup true _ _ _ Hi ltac:(cbn; by rewrite E)). destruct r; [lia|eauto]. }
  eexists. split; [by eapply lk_leave|]. cbn. by rewrite length_insert.
Qed.

(** Without the gauge function the lock is live: while an operation has not finished, one of them
    can move. *)
Theorem lease_lock_live (s : lock_sys) :
  rtc lock_step NewLocks s -> Forall (fun g => g.1 <> LActiveLeases) (lk_pool s) ->
  Exists (fun g => g.2 <> After) (lk_pool s) -> exists s', moves s s'.
Proof.
  intros Hr Hno Hex. pose proof (lock_reach_inv s Hr) as Hinv. destruct s as [m ps]. cbn [lk_pool] in *.
  assert (forall b, holders b ps <> 0 -> exists s', moves (mkLocks m ps) s') as Hin.
  { intros b Hb. destruct (holders_pos b ps Hb) as (i & op & Hi & _). apply (leave_moves m ps i op Hinv); [|done].
    exact (Forall_lookup_1 _ _ _ _ Hno Hi). }
  destruct (decide (holders false ps = 0)) as [Hf|]; [|by apply (Hin false)].
  destruct (decide (holders true ps = 0)) as [Ht|]; [|by apply (Hin true)].
  apply Exists_exists in Hex as ([op ph] & (i & Hi)%list_elem_of_lookup & Hph). destruct ph; cbn in Hph; [| |done].
  - destruct (refused op) eqn:Hre; [eexists; split; [by eapply lk_refuse|]; cbn; by rewrite length_insert|].
    destruct Hinv as [Hw Hrd _]. cbn in Hw, Hrd. destruct m as [w r]. cbn [rw_writer rw_readers] in *.
    assert (w = false) as -> by (destruct w; [lia|done]). assert (r = 0) as -> by lia.
    assert (exists m', lock_do (enters op) (mkRW false 0) = Some m') as [m' Hm] by (destruct op; by eexists).
    eexists. split; [by eapply lk_enter|]. cbn. by rewrite length_insert.
  - apply (leave_moves m ps i op Hinv); [|done]. exact (Forall_lookup_1 _ _ _ _ Hno Hi).
Qed.

(** While the gauge function holds the lock, only refused calls and new calls make a step. *)
Lemma scraped_step s s' i :
  lock_inv s -> lk_pool s !! i = Some (LActiveLeases, Inside) -> lock_step s s' ->
  (exists op, s' = mkLocks (lk_mutex s) (lk_pool s ++ [(op, Before)])) \/
  (exists j op, lk_pool s !! j = Some (op, Before) /\ refused op = true /\ s' = mkLocks (lk_mutex s) (<[j := (op, After)]> (lk_pool s))).
Proof.
  intros [Hw Hr Hx] Hi H.
  pose proof (holders_lookup false _ _ _ Hi eq_refl) as H1.
  destruct H as [m ps op|m ps j op Hj Hre|m m' ps j op Hj Hre Hd|m m' ps j op Hj Hd]; cbn [lk_mutex lk_pool] in *;
    [left; by exists op|right; by exists j, op| |]; exfalso;
    destruct m as [[] r]; cbn [rw_writer rw_readers] in *; [|lia| |lia]; specialize (Hx eq_refl); subst r.
  - destruct (enters_spec op) as [[E _]|[E _]]; by rewrite E in Hd.
  - destruct (decide (i = j)) as [<-|Hne]; [rewrite Hi in Hj; by injection Hj as <-|].
    destruct (enters_spec op) as [[E _]|[E _]].
    + pose proof (holders_lookup2 false _ _ _ _ _ Hi Hj Hne eq_refl ltac:(cbn; by rewrite E)). lia.
    + pose proof (holders_lookup true _ _ _ Hj ltac:(cbn; by rewrite E)). lia.
Qed.

(** What became of the calls of [ps] in [ps']: nothing moved but refused calls, and new calls wait. *)
Definition stuck (ps ps' : list (lm_op * phase)) : Prop :=
  (forall j op ph, ps !! j = Some (op, ph) -> exists ph', ps' !! j = Some (op, ph')) /\
  (forall j op ph, ps' !! j = Some (op, ph) -> refused op = false -> ps !! j = Some (op, ph) \/ ps !! j = None /\ ph = Before).

Lemma stuck_trans ps qs rs : stuck ps qs -> stuck qs rs -> stuck ps rs.
Proof.
  intros [A1 A2] [B1 B2]. split.
  - intros j op ph H. destruct (A1 j op ph H) as [ph' H']. by eapply B1.
  - intros j op ph H Hre. destruct (B2 j op ph H Hre) as [H'|[H' ->]]; [by apply A2|]. right. split; [|done].
    destruct (ps !! j) as [[op' ph']|] eqn:E; [|done]. destruct (A1 j op' ph' E) as [ph2 E2]. congruence.
Qed.
Lemma stuck_step s s' i :
  lock_inv s -> lk_pool s !! i = Some (LActiveLeases, Inside) -> lock_step s s' ->
  stuck (lk_pool s) (lk_pool s') /\ lk_pool s' !! i = Some (LActiveLeases, Inside).
Proof.
  intros Hinv Hi Hs. destruct (scraped_step s s' i Hinv Hi Hs) as [[op ->]|(j & op & Hj & Hre & ->)]; cbn [lk_pool].
  - split; [|by apply lookup_app_l_Some]. split.
    + intros j op' ph H. exists ph. by apply lookup_app_l_Some.
    + intros j op' ph H _. apply lookup_snoc_Some in H as [[_ H]|[-> [= <- <-]]]; [by left|right; split; [|done]].
      by apply lookup_ge_None_2.
  - assert (i <> j) as Hne by (intros ->; rewrite Hi in Hj; by injection Hj as <-). split; [|by rewrite list_lookup_insert_ne].
    split.
    + intros j' op' ph H. destruct (decide (j' = j)) as [->|]; [|exists ph; by rewrite list_lookup_insert_ne].
      rewrite Hj in H. injection H as <- <-. exists After. apply list_lookup_insert_eq. by eapply lookup_lt_Some.
    + intros j' op' ph H Hre'. destruct (decide (j' = j)) as [->|]; [|rewrite list_lookup_insert_ne in H by done; by left].
      rewrite list_lookup_insert_eq in H by (by eapply lookup_lt_Some). injection H as <- <-. congruence.
Qed.

(** C14: One read of the active-leases gauge stops the lease manager for good: once its function is past its first
    Lock, every call stays where it is, those inside, those waiting and the gauge function itself, whose deferred call
    locks the mutex again instead of unlocking it, and every call that comes later waits before the lock. The
    only calls that still return are those refused before the lock: a grant with id 0 or without a positive time to
    live, and a keep-alive with id 0. *)
Theorem scrape_blocks_leases (s s' : lock_sys) (i : nat) :
  rtc lock_step NewLocks s -> lk_pool s !! i = Some (LActiveLeases, Inside) -> rtc lock_step s s' ->
  (forall j op ph, lk_pool s !! j = Some (op, ph) -> exists ph', lk_pool s' !! j = Some (op, ph')) /\
  (forall j op ph, lk_pool s' !! j = Some (op, ph) -> refused op = false ->
     lk_pool s !! j = Some (op, ph) \/ lk_pool s !! j = None /\ ph = Before).
Proof.
  intros Hr Hi Hs. pose proof (lock_reach_inv s Hr) as Hinv. clear Hr. change (stuck (lk_pool s) (lk_pool s')).
  induction Hs as [a|a b c Hab _ IH]; [by split; eauto|]. destruct (stuck_step a b i Hinv Hi Hab) as [Hab' Hi'].
  eapply stuck_trans; [exact Hab'|]. apply IH; [done|by eapply lock_step_inv].
Qed.

(** ** A run: a grant finishes, the gauge is read, a keep-alive arrives and waits for ever, one with id 0 returns *)

Definition scraped : lock_sys := mkLocks (mkRW true 0) [(LGrant 1 5, After); (LActiveLeases, Inside)].
Definition scraped' : lock_sys :=
  mkLocks (mkRW true 0) [(LGrant 1 5, After); (LActiveLeases, Inside); (LKeepAlive 1, Before); (LKeepAlive 0, After)].

Lemma scraped_reached : rtc lock_step NewLocks scraped.
Proof.
  eapply rtc_l; [apply (lk_spawn _ _ (LGrant 1 5))|]. eapply rtc_l; [by apply (lk_enter _ (mkRW true 0) _ 0 (LGrant 1 5))|].
  eapply rtc_l; [by apply (lk_leave _ (mkRW false 0) _ 0 (LGrant 1 5))|]. eapply rtc_l; [apply (lk_spawn _ _ LActiveLeases)|].
  eapply rtc_l; [by apply (lk_enter _ (mkRW true 0) _ 1 LActiveLeases)|]. apply rtc_refl.
Qed.
Lemma scraped_goes_on : rtc lock_step scraped scraped'.
Proof.
  eapply rtc_l; [apply (lk_spawn _ _ (LKeepAlive 1))|]. eapply rtc_l; [apply (lk_spawn _ _ (LKeepAlive 0))|].
  eapply rtc_l; [by apply (lk_refuse _ _ 3 (LKeepAlive 0))|]. apply rtc_refl.
Qed.

Lemma scrape_blocks_leases_witness :
  lk_pool scraped' !! 2 = Some (LKeepAlive 1, Before) /\ (lk_pool scraped !! 2 = Some (LKeepAlive 1, Before) \/ lk_pool scraped !! 2 = None /\ Before = Before).
Proof.
  split; [reflexivity|].
  apply (proj2 (scrape_blocks_leases scraped scraped' 1 scraped_reached eq_refl scraped_goes_on) 2 (LKeepAlive 1) Before); reflexivity.
Defined.
