(* ===== verification/Metrics.v ===== *)
(** The metrics of internal/metrics: the families a node registers with Prometheus, the gauges computed from the
    store, the watch hub and Raft, and the collector of the Raft statistics. The Prometheus client is an
    interface ([Prometheus]) with its documented behaviour as laws. *)

From S2P Require Import Prelude Strconv OrdTree KvTypes KeyIndex TreeIndex Storage Inmem Backend Mvcc Lease Peer RaftSvc Watch.
From Stdlib Require Import ZArith Lia QArith Ascii.
From stdpp Require Import base gmap sets list strings pretty sorting.
Open Scope Z_scope.

(** ** The metric families *)

(** Without buckets a histogram has the default ones. *)
Inductive metric_kind := Counter | Gauge | GaugeFunc | Histogram (buckets : list Q).
Record metric := mkMetric { m_kind : metric_kind; Namespace : string; Subsystem : string; m_Name : string; Help : string }.

Local Open Scope Q_scope.
Definition NewBackendMetrics : list metric := [
  mkMetric GaugeFunc "kave" "backend" "size_bytes"
    "Current size of the storage in bytes.";
  mkMetric (Histogram [0.001; 0.005; 0.01; 0.05; 0.1; 0.5; 1]) "kave" "backend" "commit_duration_seconds"
    "Latency of commit operations.";
  mkMetric (Histogram [1; 5; 10; 25; 50; 100; 500; 1000]) "kave" "backend" "batch_size"
    "Number of operations in a batch."].

Definition NewKVMetrics : list metric := [
  mkMetric GaugeFunc "kave" "kv" "key_count"
    "Current number of keys in the store.";
  mkMetric Gauge "kave" "kv" "watcher_count"
    "Current number of watchers in the store.";
  mkMetric GaugeFunc "kave" "kv" "current_revision"
    "Current main revision of the store.";
  mkMetric GaugeFunc "kave" "kv" "compacted_revision"
    "Revision up to which the store has been compacted.";
  mkMetric Counter "kave" "kv" "read_errors_total"
    "Total errors during Read operations.";
  mkMetric Counter "kave" "kv" "put_errors_total"
    "Total errors during PUT operations.";
  mkMetric Counter "kave" "kv" "delete_errors_total"
    "Total errors during DEL operations.";
  mkMetric Counter "kave" "kv" "compaction_errors_total"
    "Total errors during compaction.";
  mkMetric Counter "kave" "kv" "puts_total"
    "Total Put operations.";
  mkMetric Counter "kave" "kv" "deletes_total"
    "Total Delete operations.";
  mkMetric Counter "kave" "kv" "reads_total"
    "Total Read operations.";
  mkMetric Counter "kave" "kv" "commited_writes_total"
    "Total commited writes operations (put | del | txn).";
  mkMetric Counter "kave" "kv" "compactions_total"
    "Total compaction operations.";
  mkMetric (Histogram [0.0001; 0.0005; 0.001; 0.005; 0.01; 0.05; 0.1]) "kave" "kv" "read_duration_seconds"
    "Latency of Read operations.";
  mkMetric (Histogram [0.0001; 0.0005; 0.001; 0.005; 0.01; 0.05; 0.1]) "kave" "kv" "txn_duration_seconds"
    "Lifetime of transactions from start to commit.";
  mkMetric (Histogram [0.001; 0.005; 0.01; 0.05; 0.1; 0.5; 1]) "kave" "kv" "compaction_duration_seconds"
    "Latency of compaction operations."].

Definition NewLeaseMetrics : list metric := [
  mkMetric Counter "kave" "lease" "leases_granted_total"
    "Total number of leases granted.";
  mkMetric Counter "kave" "lease" "leases_revoked_total"
    "Total number of leases revoked.";
  mkMetric Counter "kave" "lease" "leases_expired_total"
    "Total number of leases expired.";
  mkMetric Counter "kave" "lease" "keep_alive_total"
    "Total number of keep-alive requests.";
  mkMetric Counter "kave" "lease" "keep_alive_errors_total"
    "Total number of keep-alive errors.";
  mkMetric Counter "kave" "lease" "checkpoints_total"
    "Total number of checkpoints created.";
  mkMetric GaugeFunc "kave" "lease" "active_leases"
    "Number of leases currently active.";
  mkMetric Gauge "kave" "lease" "leased_keys"
    "Number of keys currently leased.";
  mkMetric (Histogram [0.0005; 0.001; 0.002; 0.005; 0.010; 0.025; 0.05; 0.1; 0.25; 0.5; 1; 2; 5]) "kave" "lease" "grant_latency_seconds"
    "Latency of granting leases.";
  mkMetric (Histogram [0.0005; 0.001; 0.002; 0.005; 0.010; 0.025; 0.05; 0.1; 0.25; 0.5; 1; 2; 5]) "kave" "lease" "revoke_latency_seconds"
    "Latency of revoking leases.";
  mkMetric (Histogram [0.0005; 0.001; 0.002; 0.005; 0.010; 0.025; 0.05; 0.1; 0.25; 0.5; 1; 2; 5]) "kave" "lease" "keep_alive_latency_seconds"
    "Latency of keep-alive operations.";
  mkMetric (Histogram [0.0005; 0.001; 0.002; 0.005; 0.010; 0.025; 0.05; 0.1; 0.25; 0.5; 1; 2; 5]) "kave" "lease" "apply_expired_latency_seconds"
    "Latency of ApplyExpired operations.";
  mkMetric (Histogram [0.005; 0.010; 0.025; 0.05; 0.1; 0.25; 0.5; 1; 2; 5]) "kave" "lease" "restore_latency_seconds"
    "Latency of Restoring the LeaseManager.";
  mkMetric (Histogram [0; 0.5; 1; 5; 10; 30; 60]) "kave" "lease" "lease_ttl_at_expiry_seconds"
    "TTL of leases at the moment they expired.";
  mkMetric (Histogram [1; 5; 10; 25; 50; 100; 250; 500; 1000]) "kave" "lease" "keys_per_revoke"
    "Number of keys removed by each revoke operation.";
  mkMetric (Histogram [1; 5; 10; 25; 50; 100; 250; 500; 1000]) "kave" "lease" "keys_per_expiry"
    "Number of keys removed by ApplyExpired operation."].

Definition NewOTMetrics : list metric := [
  mkMetric Counter "kave" "ot" "write_all_count"
    "Total number of WriteAll calls.";
  mkMetric Counter "kave" "ot" "init_count"
    "Total number of Init calls.";
  mkMetric Counter "kave" "ot" "transfer_count"
    "Total number of Transfer calls.";
  mkMetric Counter "kave" "ot" "write_all_errors_total"
    "Total number of errors in WriteAll calls.";
  mkMetric Counter "kave" "ot" "init_errors_total"
    "Total number of errors in Init calls.";
  mkMetric Counter "kave" "ot" "transfer_errors_total"
    "Total number of errors in Transfer calls.";
  mkMetric (Histogram []) "kave" "ot" "write_all_duration_sec"
    "Duration of WriteAll calls in seconds.";
  mkMetric (Histogram []) "kave" "ot" "init_duration_sec"
    "Duration of Init calls in seconds.";
  mkMetric (Histogram []) "kave" "ot" "transfer_duration_sec"
    "Duration of Transfer calls in seconds."].

Definition NewWatchmetrics : list metric := [
  mkMetric GaugeFunc "kave" "watch" "synced_watches_total"
    "Current amount of synced watches.";
  mkMetric GaugeFunc "kave" "watch" "unsynced_watches_total"
    "Current amount of unsynced watches.";
  mkMetric (Histogram []) "kave" "watch" "on_commit_duration_sec"
    "Latency of sending every change to every watcher after fsm.Apply."].

Definition raft_families : list metric := [
  mkMetric Counter "kave" "raft" "elections_total"
    "Total number of leader elections initiated.";
  mkMetric Counter "kave" "raft" "leader_changes_total"
    "Total number of leader changes.";
  mkMetric Counter "kave" "raft" "apply_total"
    "Total number of Apply calls from Raft to the state machine.";
  mkMetric GaugeFunc "kave" "raft" "is_leader"
    "Whether this node is currently the leader (1 for leader, 0 for follower).";
  mkMetric GaugeFunc "kave" "raft" "apply_index"
    "Index of the last log entry applied to the state machine.";
  mkMetric GaugeFunc "kave" "raft" "commit_index"
    "Index of the last log entry commited to the cluster.";
  mkMetric GaugeFunc "kave" "raft" "lag"
    "Lag between commit index and applied index.";
  mkMetric (Histogram []) "kave" "raft" "election_duration_seconds"
    "Time taken to elect a leader.";
  mkMetric (Histogram []) "kave" "raft" "apply_duration_seconds"
    "Time taken to apply a command to the state machine."].
Local Close Scope Q_scope.

(** *** The descriptors of the statistics collector *)

Definition Describe : list string := [
  "kave_raft_state"; "kave_raft_term"; "kave_raft_last_log_index"; "kave_raft_last_log_term"; "kave_raft_commit_index_lib";
  "kave_raft_applied_index_lib"; "kave_raft_fsm_pending"; "kave_raft_last_snapshot_index_lib"; "kave_raft_last_snapshot_term_lib"].

(** ** Registration *)

(** A histogram is built from its buckets; a collector is registered under the names of its descriptors.
    Either may panic. *)
Class Prometheus (R : Type) := {
  BuildFQName : string -> string -> string -> string;
  NewHistogram : list Q -> res unit;
  MustRegister : list string -> M R unit;
  registered : R -> gset string }.

Fixpoint increasing (bs : list Q) : bool :=
  match bs with a :: ((b :: _) as rest) => Qle_bool a b && negb (Qle_bool b a) && increasing rest | _ => true end.

(** Letters, digits, underscores and colons, not starting with a digit. *)
Definition letter (c : ascii) : bool :=
  let n := N_of_ascii c in
  ((65 <=? n) && (n <=? 90) || (97 <=? n) && (n <=? 122) || (n =? 95) || (n =? 58))%N.
Definition valid_name (s : string) : bool :=
  match s with
  | EmptyString => false
  | String c s => letter c && forallb (fun c => letter c || digit c) (String.list_ascii_of_string s)
  end.

Class PrometheusLaws (R : Type) {P : Prometheus R} := {
  fq_joined ns ss name : ns <> "" -> ss <> "" -> name <> "" -> BuildFQName ns ss name = (ns +:+ "_" +:+ ss +:+ "_" +:+ name)%string;
  histogram_built bs : increasing bs = true -> NewHistogram bs = Ok tt;
  register_fresh names (r : R) :
    NoDup names -> Forall (fun n => valid_name n = true /\ n ∉ registered r) names ->
    exists r', MustRegister names r = (r', Ok tt) /\ registered r' = registered r ∪ list_to_set names }.

Section Register.
Context {R : Type} {P : Prometheus R}.

(** promauto's factory: build the metric, register it. *)
Definition factory_new (m : metric) : M R unit :=
  (match m_kind m with Histogram bs => lift (NewHistogram bs) | _ => mret tt end) ≫= fun _ =>
  MustRegister [BuildFQName (Namespace m) (Subsystem m) (m_Name m)].
Fixpoint factory_all (ms : list metric) : M R unit :=
  match ms with [] => mret tt | m :: ms => factory_new m ≫= fun _ => factory_all ms end.

Definition NewRaftMetrics : M R unit := MustRegister Describe ≫= fun _ => factory_all raft_families.

(** What a node registers: the backend, the store, the leases, the oblivious transfer and the
    watches of its storage, then Raft. *)
Definition storage_families : list metric :=
  NewBackendMetrics ++ NewKVMetrics ++ NewLeaseMetrics ++ NewOTMetrics ++ NewWatchmetrics.
Definition register_node : M R unit := factory_all storage_families ≫= fun _ => NewRaftMetrics.
End Register.

Definition fq_name (m : metric) : string := (Namespace m +:+ "_" +:+ Subsystem m +:+ "_" +:+ m_Name m)%string.
Definition node_names : list string := (fq_name <$> storage_families) ++ Describe ++ (fq_name <$> raft_families).

Definition metric_ok (m : metric) : bool :=
  negb (bool_decide (Namespace m = "")) && negb (bool_decide (Subsystem m = "")) && negb (bool_decide (m_Name m = "")) &&
  valid_name (fq_name m) && match m_kind m with Histogram bs => increasing bs | _ => true end.

Lemma families_ok : forallb metric_ok (storage_families ++ raft_families) = true.
Proof. vm_compute. reflexivity. Qed.
Lemma node_names_distinct : NoDup node_names.
Proof. apply (bool_decide_unpack (NoDup node_names)). vm_compute. exact I. Qed.
Lemma node_names_kave : forallb (fun n => String.prefix "kave_" n && valid_name n) node_names = true.
Proof. vm_compute. reflexivity. Qed.

Section Registered.
Context {R : Type} {P : Prometheus R} {L : PrometheusLaws R}.

Lemma factory_new_fresh m (r : R) :
  metric_ok m = true -> fq_name m ∉ registered r ->
  exists r', factory_new m r = (r', Ok tt) /\ registered r' = registered r ∪ {[fq_name m]}.
Proof using L.
  unfold metric_ok. rewrite !andb_true_iff, !negb_true_iff, !bool_decide_eq_false. intros [[[[H1 H2] H3] H4] H5] Hf.
  unfold factory_new. rewrite fq_joined by done. fold (fq_name m).
  destruct (register_fresh [fq_name m] r) as (r' & Hr & Hreg);
    [apply NoDup_singleton|apply Forall_singleton; done|].
  exists r'. split; [|by rewrite Hreg; cbn; rewrite union_empty_r_L].
  rewrite (M_bind_Ok _ _ r r tt); [done|]. destruct (m_kind m); [done..|]. unfold lift. by rewrite histogram_built.
Qed.

Lemma factory_all_fresh ms (r : R) :
  Forall (fun m => metric_ok m = true) ms -> NoDup (fq_name <$> ms) -> Forall (fun m => fq_name m ∉ registered r) ms ->
  exists r', factory_all ms r = (r', Ok tt) /\ registered r' = registered r ∪ list_to_set (fq_name <$> ms).
Proof using L.
  intros Hok. revert r. induction Hok as [|m ms Hm Hok IH]; intros r Hnd Hf.
  { exists r. split; [done|]. set_solver. }
  apply NoDup_cons in Hnd as [Hnin Hnd]. apply Forall_cons in Hf as [Hf1 Hf].
  destruct (factory_new_fresh m r Hm Hf1) as (r1 & H1 & E1). destruct (IH r1 Hnd) as (r' & H2 & E2).
  { apply Forall_forall. intros m' Hm'. rewrite E1. pose proof (proj1 (Forall_forall _ _) Hf m' Hm') as Hr. cbn in Hr.
    rewrite not_elem_of_union, not_elem_of_singleton. split; [done|]. intros E. apply Hnin, list_elem_of_fmap. by exists m'. }
  exists r'. split; [cbn; by rewrite (M_bind_Ok _ _ _ _ _ H1)|]. rewrite E2, E1. cbn. set_solver.
Qed.

Lemma register_split st ds rf (r : R) :
  let names := (fq_name <$> st) ++ ds ++ (fq_name <$> rf) in
  NoDup names -> Forall (fun m => metric_ok m = true) (st ++ rf) ->
  (forall n, n ∈ names -> valid_name n = true /\ n ∉ registered r) ->
  exists r', (factory_all st ≫= fun _ => MustRegister ds ≫= fun _ => factory_all rf) r = (r', Ok tt) /\
    registered r' = registered r ∪ list_to_set names.
Proof using L.
  cbv zeta. intros Hnd Hok Hfresh. apply NoDup_app in Hnd as (N1 & N12 & Hnd). apply NoDup_app in Hnd as (N2 & N23 & N3).
  apply Forall_app in Hok as [Ok1 Ok2].
  destruct (factory_all_fresh st r) as (r1 & H1 & E1); [done..| |].
  { apply Forall_forall. intros m Hm. apply Hfresh. rewrite elem_of_app. left. by apply list_elem_of_fmap_2. }
  destruct (register_fresh ds r1 N2) as (r2 & H2 & E2).
  { apply Forall_forall. intros n Hn. destruct (Hfresh n) as [Hv Hf]; [set_solver|]. split; [done|].
    rewrite E1, not_elem_of_union, elem_of_list_to_set. split; [done|]. intros Hn'. apply (N12 n Hn'). set_solver. }
  destruct (factory_all_fresh rf r2) as (r3 & H3 & E3); [done..| |].
  { apply Forall_forall. intros m Hm. assert (fq_name m ∈ fq_name <$> rf) as Hm' by (by apply list_elem_of_fmap_2).
    destruct (Hfresh (fq_name m)) as [_ Hf]; [set_solver|].
    rewrite E2, E1, !not_elem_of_union, !elem_of_list_to_set. split_and!; [done| |].
    - intros Hs. apply (N12 _ Hs). set_solver.
    - intros Hs. by apply (N23 _ Hs). }
  exists r3. split; [rewrite (M_bind_Ok _ _ _ _ _ H1); by rewrite (M_bind_Ok _ _ _ _ _ H2)|].
  rewrite E3, E2, E1, !list_to_set_app_L. set_solver.
Qed.

(** C40: A node can register its metrics: on a registry without names under the kave prefix no call panics,
    neither for a name taken twice, nor for an invalid name, nor for buckets out of order, and
    afterwards the registry has, besides what it had, exactly the names of the families and of
    the collector's descriptors. *)
Theorem metrics_registered (r : R) :
  (forall n, n ∈ registered r -> String.prefix "kave_" n = false) ->
  exists r', register_node r = (r', Ok tt) /\ registered r' = registered r ∪ list_to_set node_names.
Proof using L.
  intros Hr. apply (register_split storage_families Describe raft_families).
  - exact node_names_distinct.
  - apply Forall_forall. intros m Hm. apply (proj1 (forallb_forall _ _) families_ok), list_elem_of_In, Hm.
  - intros n Hn%list_elem_of_In. pose proof (proj1 (forallb_forall _ _) node_names_kave n Hn) as Hk.
    apply andb_true_iff in Hk as [Hp Hv]. split; [done|]. intros Hin. by rewrite (Hr n Hin) in Hp.
Qed.
End Registered.

(** ** A registry that follows the documentation *)

#[local] Instance set_registry : Prometheus (gset string) := {
  BuildFQName ns ss name := (ns +:+ "_" +:+ ss +:+ "_" +:+ name)%string;
  NewHistogram bs := if increasing bs then Ok tt else Panicked;
  MustRegister names r :=
    if forallb valid_name names && bool_decide (NoDup names) && bool_decide (Forall (fun n => n ∉ r) names)
    then (r ∪ list_to_set names, Ok tt) else (r, Panicked);
  registered r := r }.

#[local] Instance set_registry_laws : PrometheusLaws (gset string).
Proof.
  split.
  - done.
  - cbn. by intros bs ->.
  - intros names r Hnd Hf. exists (r ∪ list_to_set names). split; [|done]. cbn.
    assert (forallb valid_name names = true) as ->.
    { apply forallb_forall. intros n Hn%list_elem_of_In. apply (proj1 (Forall_forall _ _) Hf n Hn). }
    rewrite !bool_decide_eq_true_2; [done| |done]. eapply Forall_impl; [exact Hf|]. by intros n [_ ?].
Qed.

Definition go_registry : gset string := {["go_goroutines"]}.

Lemma metrics_registered_witness :
  exists r', register_node go_registry = (r', Ok tt) /\ registered r' = registered go_registry ∪ list_to_set node_names.
Proof.
  apply (metrics_registered go_registry). intros n Hn. change (n ∈ go_registry) in Hn. unfold go_registry in Hn.
  by apply elem_of_singleton in Hn as ->.
Defined.

(** ** Values *)

(** Go's conversion of an integer to a float64: the nearest integer of 53 significant bits, ties
    to even. *)
Definition float64 (z : Z) : Z :=
  let a := Z.abs z in
  let e := Z.log2 a - 52 in
  if e <=? 0 then z
  else let q := a / 2 ^ e in
       let r := a mod 2 ^ e in
       let half := 2 ^ (e - 1) in
       let up := (half <? r) || ((half =? r) && Z.odd q) in
       Z.sgn z * ((if up then q + 1 else q) * 2 ^ e).

Lemma float64_exact z : Z.abs z <= 2 ^ 53 -> float64 z = z.
Proof.
  intros Hz. unfold float64. destruct (Z.leb_spec (Z.log2 (Z.abs z) - 52) 0) as [|Hlog]; [done|].
  assert (2 ^ 53 <= Z.abs z) as Hge.
  { assert (0 < Z.abs z) as Hpos. { destruct (Z.eq_dec z 0) as [->|]; [by vm_compute in Hlog|lia]. }
    apply Z.log2_le_pow2; lia. }
  assert (Z.abs z = 2 ^ 53) as E by lia. destruct (Z.abs_or_opp_abs z) as [Hs|Hs]; rewrite Hs, E; vm_compute; reflexivity.
Qed.

(** *** Gauges of the store and of the hub *)

Section Gauges.
Context {T St B : Type} {BT : BTree Less T} {BS : ByteStore St B} {Snap : Type} {SS : SnapshotStore St Snap}.
Definition currentRevFn (s : KvStore T St B) : Z := float64 (Main (Revisions s).1).
Definition compactedRevFn (s : KvStore T St B) : Z := float64 (Revisions s).2.
Definition keyCountFn (s : KvStore T St B) : Z := float64 (KeyCount s).
Definition sizeBytesFn (b : backend St B) : Z := float64 (backend_SizeBytes b).
End Gauges.
Definition synced_watches (h : WatchHub) : Z := float64 (Z.of_nat (SyncedWatchesLen h)).
Definition unsynced_watches (h : WatchHub) : Z := float64 (Z.of_nat (UnsyncedWatchesLen h)).

(** *** Gauges of Raft *)

Section RaftGauges.
Context {R : Type} {RL : RaftLib R}.
Definition gauge_IsLeader (r : R) : Z := if bool_decide (raft_State r = Leader_) then 1 else 0.
Definition gauge_ApplyIndex (r : R) : Z := float64 (AppliedIndex r).
Definition gauge_CommitIndex (r : R) : Z := float64 (CommitIndex r).
(** The commit index is read first, the applied index later. *)
Definition gauge_Lag (r1 r2 : R) : Z := float64 (u64 (CommitIndex r1 - AppliedIndex r2)).

Lemma float64_large z : 2 ^ 63 <= z < 2 ^ 64 -> 2 ^ 63 <= float64 z.
Proof.
  intros Hz. unfold float64. rewrite Z.abs_eq by lia.
  assert (Z.log2 z = 63) as -> by (apply Z.log2_unique; lia). cbn [Z.sub Z.leb Z.compare Z.opp Z.add Z.pos_sub].
  assert (Z.sgn z = 1) as -> by lia. set (q := z / 2 ^ 11).
  assert (2 ^ 52 <= q) by (unfold q; apply Z.div_le_lower_bound; lia).
  change (63 - 52 <=? 0) with false. cbv iota zeta. case_match; lia.
Qed.

(** The lag gauge is the distance of the indices while the applied one has not passed the commit index
    that was read before it; when it has, the subtraction wraps and the gauge jumps above 2^63. *)
Theorem lag_gauge (r1 r2 : R) :
  0 <= CommitIndex r1 < 2 ^ 53 -> 0 <= AppliedIndex r2 < 2 ^ 53 ->
  (AppliedIndex r2 <= CommitIndex r1 -> gauge_Lag r1 r2 = CommitIndex r1 - AppliedIndex r2) /\
  (CommitIndex r1 < AppliedIndex r2 -> 2 ^ 63 <= gauge_Lag r1 r2).
Proof.
  intros Hc Ha. unfold gauge_Lag. split; intros H.
  - rewrite u64_id by lia. apply float64_exact. lia.
  - rewrite u64_neg by lia. apply float64_large. lia.
Qed.
End RaftGauges.

(** ** The statistics collector *)

Definition parseUint (s : string) : Z := match ParseUint (str s) with Some u => float64 u | None => -1 end.

Definition stat (stats : gmap string string) (key : string) : string := default "" (stats !! key).

Definition state_value (s : string) : Z :=
  if String.eqb s "Follower" then 0 else if String.eqb s "Candidate" then 1
  else if String.eqb s "Leader" then 2 else if String.eqb s "Shutdown" then 3 else -1.

(** [stats] is what r.Stats() returned. *)
Definition Collect (stats : gmap string string) : list (string * Z) := [
  ("kave_raft_state", state_value (stat stats "state"));
  ("kave_raft_term", parseUint (stat stats "term"));
  ("kave_raft_last_log_index", parseUint (stat stats "last_log_index"));
  ("kave_raft_last_log_term", parseUint (stat stats "last_log_term"));
  ("kave_raft_commit_index_lib", parseUint (stat stats "commit_index"));
  ("kave_raft_applied_index_lib", parseUint (stat stats "applied_index"));
  ("kave_raft_fsm_pending", parseUint (stat stats "fsm_pending"));
  ("kave_raft_last_snapshot_index_lib", parseUint (stat stats "last_snapshot_index"));
  ("kave_raft_last_snapshot_term_lib", parseUint (stat stats "last_snapshot_term"))].

(** What Raft reports: its state and the decimal numbers of its counters. *)
Record raft_stats := mkRaftStats {
  rt_state : RaftState; rt_term : N; rt_last_log_index : N; rt_last_log_term : N; rt_commit_index : N; rt_applied_index : N;
  rt_fsm_pending : N; rt_last_snapshot_index : N; rt_last_snapshot_term : N }.
Definition state_name (s : RaftState) : string :=
  match s with Follower => "Follower" | Candidate => "Candidate" | Leader_ => "Leader" | Shutdown_ => "Shutdown" end.
Definition reports (m : gmap string string) (s : raft_stats) : Prop :=
  m !! "state" = Some (state_name (rt_state s)) /\
  Forall (fun kn => m !! kn.1 = Some (pretty kn.2) /\ Z.of_N kn.2 <= 2 ^ 53)
    [("term", rt_term s); ("last_log_index", rt_last_log_index s); ("last_log_term", rt_last_log_term s);
     ("commit_index", rt_commit_index s); ("applied_index", rt_applied_index s); ("fsm_pending", rt_fsm_pending s);
     ("last_snapshot_index", rt_last_snapshot_index s); ("last_snapshot_term", rt_last_snapshot_term s)].

Definition state_code (s : RaftState) : Z := match s with Follower => 0 | Candidate => 1 | Leader_ => 2 | Shutdown_ => 3 end.

(** The collector keeps its contract: it emits exactly one value for each descriptor it describes, in
    that order, and the values are the state and the counters that Raft reported. *)
Theorem collect_described (stats : gmap string string) (s : raft_stats) :
  reports stats s ->
  (Collect stats).*1 = Describe /\
  (Collect stats).*2 = state_code (rt_state s) :: (Z.of_N <$> [rt_term s; rt_last_log_index s; rt_last_log_term s; rt_commit_index s;
    rt_applied_index s; rt_fsm_pending s; rt_last_snapshot_index s; rt_last_snapshot_term s]).
Proof.
  intros [Hst Hall]. split; [done|].
  assert (forall key n, stats !! key = Some (pretty n) /\ Z.of_N n <= 2 ^ 53 -> parseUint (stat stats key) = Z.of_N n) as Hp.
  { intros key n [E Hn]. unfold parseUint, stat. rewrite E. cbn [default from_option id]. rewrite ParseUint_pretty by lia. apply float64_exact. lia. }
  repeat (apply Forall_cons in Hall as [? Hall]). cbn [fst snd] in *.
  unfold Collect. cbn [fmap list_fmap snd]. f_equal; [unfold stat; rewrite Hst; by destruct (rt_state s)|].
  repeat (erewrite Hp by eassumption). done.
Qed.

Definition stats1 : gmap string string := list_to_map [("state", "Leader"); ("term", "3"); ("last_log_index", "12"); ("last_log_term", "3");
  ("commit_index", "12"); ("applied_index", "11"); ("fsm_pending", "0"); ("last_snapshot_index", "0"); ("last_snapshot_term", "0")].

Lemma collect_described_witness :
  (Collect stats1).*1 = Describe /\ (Collect stats1).*2 = [2; 3; 12; 3; 12; 11; 0; 0; 0].
Proof.
  apply (collect_described stats1 (mkRaftStats Leader_ 3 12 3 12 11 0 0 0)). split; [reflexivity|].
  repeat (apply Forall_cons; split; [split; [vm_compute; reflexivity|cbn; lia]|]). apply Forall_nil_2.
Defined.

(** ** The gauge of leased keys *)

(** The lease manager with its LeasedKeys gauge, which AttachKey and DetachKey step without looking at whether
    they changed anything. *)
Definition metered_AttachKey (id : Z) (k : bytes) (st : LeaseManager * Z) : LeaseManager * Z := (lm_AttachKey id k st.1, st.2 + 1).
Definition metered_DetachKey (id : Z) (k : bytes) (st : LeaseManager * Z) : LeaseManager * Z :=
  match leaseMap st.1 !! id with None => st | Some _ => (lm_DetachKey id k st.1, st.2 - 1) end.

Definition leased_keys (lm : LeaseManager) : Z := map_fold (fun _ l n => Z.of_nat (size (keySet l)) + n) 0 (leaseMap lm).
Definition drift (st : LeaseManager * Z) : Z := st.2 - leased_keys st.1.

Lemma leased_keys_insert (m : gmap Z Lease) id l l' : m !! id = Some l ->
  map_fold (fun _ l n => Z.of_nat (size (keySet l)) + n) 0 (<[id := l']> m) =
  map_fold (fun _ l n => Z.of_nat (size (keySet l)) + n) 0 m - Z.of_nat (size (keySet l)) + Z.of_nat (size (keySet l')).
Proof.
  intros Hl. rewrite <-insert_delete_eq, map_fold_insert_L by (intros; lia || apply lookup_delete_eq).
  rewrite <-(insert_delete_id m id l Hl) at 2. rewrite map_fold_insert_L by (intros; lia || apply lookup_delete_eq). lia.
Qed.

Lemma alter_lookup (f : Lease -> Lease) (m : gmap Z Lease) id :
  alter f id m = match m !! id with Some l => <[id := f l]> m | None => m end.
Proof.
  apply map_eq. intros j. rewrite lookup_alter. destruct (decide (id = j)) as [<-|Hne].
  - destruct (m !! id) eqn:E; [by rewrite lookup_insert_eq|by rewrite E].
  - destruct (m !! id); [by rewrite lookup_insert_ne|done].
Qed.

(** The gauge is as far from the number of leased keys after an attachment as before if the key is new to a
    lease that exists, and one further up otherwise; a detachment of a key that was not attached
    takes it one down. *)
Theorem leased_keys_drift (id : Z) (k : bytes) (st : LeaseManager * Z) :
  drift (metered_AttachKey id k st) =
    drift st + (match leaseMap st.1 !! id with Some l => if bool_decide (k ∈ keySet l) then 1 else 0 | None => 1 end) /\
  drift (metered_DetachKey id k st) =
    drift st - (match leaseMap st.1 !! id with Some l => if bool_decide (k ∈ keySet l) then 0 else 1 | None => 0 end).
Proof.
  destruct st as [lm g]. unfold drift, metered_AttachKey, metered_DetachKey, lm_AttachKey, lm_DetachKey, unsafeAttachKey, leased_keys.
  cbn [fst snd leaseMap set_leaseMap]. destruct (leaseMap lm !! id) as [l|] eqn:Hl; cbn [fst snd leaseMap set_leaseMap];
    rewrite !alter_lookup, !Hl; [|lia].
  rewrite !(leased_keys_insert _ id l) by done. cbn [keySet lease_AttachKey lease_DetachKey set_keys fst snd]. split; case_bool_decide as Hin.
  - assert ({[k]} ∪ keySet l = keySet l) as -> by set_solver. lia.
  - rewrite size_union by set_solver. rewrite size_singleton. lia.
  - rewrite size_difference by set_solver. rewrite size_singleton.
    assert (1 <= size (keySet l))%nat by (rewrite <-(size_singleton (C := gset bytes) k); apply subseteq_size; set_solver). lia.
  - assert (keySet l ∖ {[k]} = keySet l) as -> by set_solver. lia.
Qed.
