(* ===== verification/Client.v ===== *)
(** The command line client, cmd/client/main.go, against the routes of the server: the flags, the request they make, and
    what becomes of the reply. *)

From S2P Require Import Prelude Strconv Json KvTypes Api Peer RaftSvc Http HttpInv.
From Stdlib Require Import ZArith Lia.
From stdpp Require Import base gmap sets list strings pretty.
Open Scope Z_scope.

(** ** Flags and requests *)

Record ClientFlags := mkClientFlags {
  cf_nodeID : string; cf_operation : string; cf_key : string; cf_value : string; cf_rev : Z; cf_end : string; cf_prefix : bool;
  cf_prevEntries : bool; cf_leaseID : Z; cf_prevEntry : bool; cf_ignoreValue : bool; cf_renewLease : bool }.

Inductive client_payload := PayGet (r : RangeRequest) | PayPut (r : PutRequest) | PayDel (r : DeleteRequest).

Definition client_port (nodeID : string) : option string :=
  if String.eqb nodeID "node1" then Some ":8001" else if String.eqb nodeID "node2" then Some ":8002"
  else if String.eqb nodeID "node3" then Some ":8003" else None.

Abbreviation octets := String.list_byte_of_string.

(** The method, the host, the path and the body; [None]: a message and exit status 1. *)
Definition client_request (f : ClientFlags) : option (Method * string * string * client_payload) :=
  if String.eqb (cf_nodeID f) "" then None
  else if String.eqb (cf_operation f) "" then None
  else if String.eqb (cf_key f) "" then None
  else if String.eqb (cf_value f) "" && String.eqb (cf_operation f) "put" then None
  else
    port ← client_port (cf_nodeID f);
    let host := ("http://" +:+ "localhost" +:+ port)%string in
    if String.eqb (cf_operation f) "get" then
      Some (GET, host, "/v1/kv/get", PayGet (mkRange (octets (cf_key f)) (Some (octets (cf_end f))) 0 false (cf_rev f) false (cf_prefix f)))
    else if String.eqb (cf_operation f) "put" then
      Some (POST, host, "/v1/kv/put", PayPut (mkPut (octets (cf_key f)) (Some (octets (cf_value f))) (cf_leaseID f)
        (cf_prevEntry f) (cf_ignoreValue f) (cf_renewLease f)))
    else if String.eqb (cf_operation f) "del" then
      Some (DELETE, host, "/v1/kv/del", PayDel (mkDelete (octets (cf_key f)) None (cf_prevEntries f)))
    else None.

(** ** Replies *)

(** Which parts of a command.Result the reply has; what is inside the results is not looked at. *)
Record client_result := mkClientResult { cr_Range : bool; cr_Put : bool; cr_Delete : bool }.

(** A header: numbers of the right range and a node id. *)
Definition header_member (m : chars * json) : bool :=
  let name := fold_name (unquote 0 m.1) in
  let num (p : Z -> bool) := match m.2 with JNumber lit => match ParseInt lit with Some z => p z | None => false end | JNull => true | _ => false end in
  if bool_decide (name = str "revision") || bool_decide (name = str "compacted_revision") then num (fun _ => true)
  else if bool_decide (name = str "raft_term") || bool_decide (name = str "raft_index") then
    match m.2 with JNumber lit => match ParseUint lit with Some _ => true | None => false end | JNull => true | _ => false end
  else if bool_decide (name = str "node_id") then match m.2 with JString _ | JNull => true | _ => false end
  else true.
Definition header_ok (v : json) : bool := match v with JNull => true | JObject ms => forallb header_member ms | _ => false end.

(** A result is an object or null. *)
Definition result_present (v : json) : option bool := match v with JNull => Some false | JObject _ => Some true | _ => None end.

(** Result.Error is an interface: nothing but null can be decoded into it. *)
Definition set_result_member (r : client_result) (m : chars * json) : option client_result :=
  let name := fold_name (unquote 0 m.1) in
  if bool_decide (name = str "header") then if header_ok m.2 then Some r else None
  else if bool_decide (name = str "error") then match m.2 with JNull => Some r | _ => None end
  else if bool_decide (name = str "range") then b ← result_present m.2; Some (mkClientResult b (cr_Put r) (cr_Delete r))
  else if bool_decide (name = str "put") then b ← result_present m.2; Some (mkClientResult (cr_Range r) b (cr_Delete r))
  else if bool_decide (name = str "delete") then b ← result_present m.2; Some (mkClientResult (cr_Range r) (cr_Put r) b)
  else Some r.
Fixpoint set_result_members (r : client_result) (ms : list (chars * json)) : option client_result :=
  match ms with [] => Some r | m :: ms => set_result_member r m ≫= fun r => set_result_members r ms end.

(** json.Decoder.Decode: the first value of the body. *)
Definition first_value (body : chars) : option json := v ← scan_value (2 * length body + 2) 0 body; Some v.1.
Definition decode_result (v : option json) : option client_result :=
  match v with
  | Some JNull => Some (mkClientResult false false false)
  | Some (JObject ms) => set_result_members (mkClientResult false false false) ms
  | _ => None
  end.

Inductive client_end := Printed | Exit1 | Crashed.

(** The put branch follows the Put pointer of the result without looking whether it is nil. *)
Definition client_finish (operation : string) (v : option json) : client_end :=
  match decode_result v with
  | None => Exit1
  | Some r => if String.eqb operation "put" && negb (cr_Put r) then Crashed else Printed
  end.

(** ** What the server sends *)

Definition print_header (h : ResponseHeader) : json :=
  JObject [(str "revision", JNumber (str (pretty (h_Revision h)))); (str "compacted_revision", JNumber (str (pretty (h_CompactedRev h))));
           (str "raft_term", JNumber (str (pretty (Z.to_N (h_RaftTerm h))))); (str "raft_index", JNumber (str (pretty (Z.to_N (h_RaftIndex h)))));
           (str "node_id", JString (str (h_NodeID h)))].

(** api.PutResponse: the header and, beside it, the fields of the embedded response. *)
Definition print_put (h : ResponseHeader) (prev : option json) : json :=
  JObject ((str "header", print_header h) :: match prev with Some e => [(str "prev_entry", e)] | None => [] end).
(** The body of writeError. *)
Definition print_error (raw : chars) : json := JObject [(str "error", JString raw)].

Definition header_fits (h : ResponseHeader) : Prop :=
  in_i64 (h_Revision h) /\ in_i64 (h_CompactedRev h) /\ 0 <= h_RaftTerm h < 2 ^ 64 /\ 0 <= h_RaftIndex h < 2 ^ 64.

Lemma header_printed h : header_fits h -> header_ok (print_header h) = true.
Proof.
  intros (H1 & H2 & H3 & H4). unfold header_ok, print_header. cbn [forallb].
  change (header_member (str "revision", JNumber ?lit)) with (match ParseInt lit with Some z => true | None => false end).
  change (header_member (str "compacted_revision", JNumber ?lit)) with (match ParseInt lit with Some z => true | None => false end).
  change (header_member (str "raft_term", JNumber ?lit)) with (match ParseUint lit with Some _ => true | None => false end).
  change (header_member (str "raft_index", JNumber ?lit)) with (match ParseUint lit with Some _ => true | None => false end).
  rewrite !ParseInt_pretty by done. rewrite !ParseUint_pretty by (rewrite Z2N.id; lia). done.
Qed.

Section Server.
Context {A L J : Type} {RS : RaftService A} {Lim : Limiter L} {Js : Http.Json}.
Variable service : Service -> string -> Request -> A -> A * option (Z * (J + string * error)).
Variable ping : string -> A -> option error.
Variable roundtrip : string -> Request -> World A L -> World A L * (Response J + error).

(** C39: The command line client cannot do its work. A get and a del are sent to paths that the server does not route, it
    answers 404 and the client exits with status 1. A put is sent to the right route; an error
    answer ends with status 1 as well, and for every success the client crashes: it decodes the
    reply as a command.Result, in which the reply has no put. *)
Theorem client_always_fails (f : ClientFlags) (m : Method) (host path : string) (p : client_payload) (n : string) (r : Request) :
  client_request f = Some (m, host, path, p) -> rq_Method r = m -> rq_Path r = path ->
  (cf_operation f <> "put" /\ mux service ping roundtrip n r = http_Error "404 page not found" 404 /\
     client_finish (cf_operation f) (first_value (str "404 page not found")) = Exit1) \/
  (cf_operation f = "put" /\ path = RouteKvPut /\ m = POST /\
     (forall raw, client_finish "put" (Some (print_error raw)) = Exit1) /\
     (forall h prev, header_fits h -> client_finish "put" (Some (print_put h prev)) = Crashed)).
Proof.
  unfold client_request. repeat (case_match; [done|]). destruct (client_port (cf_nodeID f)) as [port|]; [|done]. cbn [mbind option_bind].
  destruct (String.eqb_spec (cf_operation f) "get") as [E|]; [|destruct (String.eqb_spec (cf_operation f) "put") as [E|];
    [|destruct (String.eqb_spec (cf_operation f) "del") as [E|]; [|done]]]; intros [= <- <- <- <-] Hm Hp; rewrite E.
  - left. split; [done|]. split; [|reflexivity]. unfold mux. rewrite Hm, Hp. reflexivity.
  - right. split_and!; [done..| |]; [intros raw; reflexivity|]. intros h prev Hh. unfold client_finish, decode_result, print_put.
    cbn [set_result_members]. change (set_result_member ?r (str "header", ?v)) with (if header_ok v then Some r else None).
    rewrite header_printed by done. cbn [mbind option_bind]. by destruct prev.
  - left. split; [done|]. split; [|reflexivity]. unfold mux. rewrite Hm, Hp. reflexivity.
Qed.
End Server.

(** ** A del of the documented kind *)

#[local] Existing Instance toy_limiter.
#[local] Existing Instance toy_json.
Definition no_network (addr : string) (r : Request) (w : World (gmap string (raftSvc (list Server))) nat)
  : World (gmap string (raftSvc (list Server))) nat * (Response unit + error) := (w, inr [ErrNet]).
Definition del_flags : ClientFlags := mkClientFlags "node2" "del" "a" "" 0 "" false true 0 false false false.
Definition del_request : Request := mkRequest DELETE "/v1/kv/del" "" None None None.

Lemma client_always_fails_witness :
  mux toy_service toy_ping no_network "n2" del_request = http_Error "404 page not found" 404 /\
  client_finish "del" (first_value (str "404 page not found")) = Exit1.
Proof.
  destruct (client_always_fails toy_service toy_ping no_network del_flags DELETE "http://localhost:8002" "/v1/kv/del"
    (PayDel (mkDelete (octets "a") None true)) "n2" del_request eq_refl eq_refl eq_refl) as [(_ & H1 & H2)|(H & _)].
  - split; [exact H1|exact H2].
  - discriminate H.
Defined.
