(* ===== verification/WatchLoop.v ===== *)
(** Starting and stopping the catch-up loop of the watchers: Run, Stop and run of internal/watch/unsynced_loop.go. The
    ticks themselves are in [Watch]. *)

From S2P Require Import Prelude.
From Stdlib Require Import Lia.
From stdpp Require Import base gmap sets list relations.

(** A goroutine in run: waiting in the select with the context it has read, in a tick, returned. *)
Inductive loop_pc := AtSelect (ctx : nat) | InTick | LoopReturned.

(** Contexts are numbered; [ul_ctx] and with it [ul_cancel] are those of the last Run. *)
Record loop_ctl := mkLoopCtl { ul_running : bool; ul_ctx : option nat; ul_cancelled : gset nat; ul_next : nat; ul_runs : list loop_pc }.

Definition NewLoopCtl : loop_ctl := mkLoopCtl false None ∅ 0 [].

(** Run in a new goroutine: it takes the running flag or returns at once. *)
Definition ul_Run (s : loop_ctl) : loop_ctl :=
  if ul_running s then s
  else mkLoopCtl true (Some (ul_next s)) (ul_cancelled s) (S (ul_next s)) (ul_runs s ++ [AtSelect (ul_next s)]).
Definition ul_Stop (s : loop_ctl) : loop_ctl :=
  mkLoopCtl false (ul_ctx s) (match ul_ctx s with Some c => {[c]} ∪ ul_cancelled s | None => ul_cancelled s end) (ul_next s) (ul_runs s).
Definition set_run (i : nat) (pc : loop_pc) (s : loop_ctl) : loop_ctl :=
  mkLoopCtl (ul_running s) (ul_ctx s) (ul_cancelled s) (ul_next s) (<[i := pc]> (ul_runs s)).

Inductive loop_call := CallRun | CallStop | CallNone.

(** After a tick the loop reads the field ctx again. *)
Inductive loop_step : loop_call -> loop_ctl -> loop_ctl -> Prop :=
  | lp_run s : loop_step CallRun s (ul_Run s)
  | lp_stop s : loop_step CallStop s (ul_Stop s)
  | lp_done s i c : ul_runs s !! i = Some (AtSelect c) -> c ∈ ul_cancelled s -> loop_step CallNone s (set_run i LoopReturned s)
  | lp_tick s i c : ul_runs s !! i = Some (AtSelect c) -> loop_step CallNone s (set_run i InTick s)
  | lp_again s i c : ul_runs s !! i = Some InTick -> ul_ctx s = Some c -> loop_step CallNone s (set_run i (AtSelect c) s).

Definition any_call (s s' : loop_ctl) : Prop := exists l, loop_step l s s'.
Definition unstopped (s s' : loop_ctl) : Prop := exists l, loop_step l s s' /\ l <> CallStop.

Definition live (pc : loop_pc) : bool := match pc with LoopReturned => false | _ => true end.
Fixpoint live_loops (ps : list loop_pc) : nat := match ps with [] => 0 | p :: ps => (if live p then 1 else 0) + live_loops ps end.

Lemma live_app ps qs : live_loops (ps ++ qs) = live_loops ps + live_loops qs.
Proof. induction ps as [|p ps IH]; cbn; [done|]. rewrite IH. lia. Qed.

Lemma live_insert ps i p p' : ps !! i = Some p ->
  live_loops (<[i := p']> ps) + (if live p then 1 else 0) = live_loops ps + (if live p' then 1 else 0).
Proof. revert i. induction ps as [|a ps IH]; intros [|i] H; simplify_eq/=; [lia|]. specialize (IH i H). lia. Qed.

(** Until it is stopped there is at most one loop, however often Run is called. *)
Lemma one_loop s : rtc unstopped NewLoopCtl s -> live_loops (ul_runs s) <= if ul_running s then 1 else 0.
Proof.
  enough (forall a, live_loops (ul_runs a) <= (if ul_running a then 1 else 0) -> rtc unstopped a s ->
    live_loops (ul_runs s) <= if ul_running s then 1 else 0) as H by (apply H; cbn; lia).
  intros a Ha Hr. induction Hr as [|a b c (l & Hab & Hl) _ IH]; [done|]. apply IH. clear IH.
  destruct Hab as [s0|s0|s0 i c0 Hi Hc|s0 i c0 Hi|s0 i c0 Hi Hc]; [|done|..]; cbn.
  - unfold ul_Run. destruct (ul_running s0) eqn:E; [by rewrite E|]. cbn. rewrite live_app. cbn. lia.
  - pose proof (live_insert _ _ _ LoopReturned Hi). cbn in *. lia.
  - pose proof (live_insert _ _ _ InTick Hi). cbn in *. lia.
  - pose proof (live_insert _ _ _ (AtSelect c0) Hi). cbn in *. lia.
Qed.

(** A loop that is stopped during a tick and started again before the tick ends goes on: it reads the context of the new
    run, so two loops share the batches that Run's flag was to protect. *)
Lemma restart_doubles_loop :
  exists s, rtc any_call NewLoopCtl s /\ ul_runs s = [AtSelect 1; AtSelect 1] /\ 1 ∉ ul_cancelled s.
Proof.
  exists (set_run 0 (AtSelect 1) (ul_Run (ul_Stop (set_run 0 InTick (ul_Run NewLoopCtl))))). split; [|split; [done|cbn; set_solver]].
  eapply rtc_l; [eexists; apply lp_run|]. eapply rtc_l; [eexists; by apply (lp_tick _ 0 0)|].
  eapply rtc_l; [eexists; apply lp_stop|]. eapply rtc_l; [eexists; apply lp_run|].
  eapply rtc_l; [eexists; by apply (lp_again _ 0 1)|]. apply rtc_refl.
Qed.
