(* ===== verification/Stats.v ===== *)
(** The statistics of a node: Stats of internal/service/raft_service.go and handleStats of
    internal/transport/http/server.go, with the strings and structs that json.Marshal prints for them. *)

From S2P Require Import Prelude Strconv Json OrdTree KvTypes KeyIndex TreeIndex Storage Inmem Backend Mvcc Peer RaftSvc.
From Stdlib Require Import ZArith Lia Ascii.
From stdpp Require Import base gmap sets list strings pretty sorting.
Open Scope Z_scope.

(** ** json.Marshal of strings *)

Definition hex_digit (n : Z) : ascii := of_code (if n <? 10 then 48 + n else 87 + n).
Definition u00 (c : ascii) : chars := [backslash; "u"; "0"; "0"; hex_digit (code c / 16); hex_digit (code c mod 16)]%char.

(** A character below 128: quotes, backslashes, control characters and those with a meaning in HTML are escaped. *)
Definition escape (c : ascii) : chars :=
  if Ascii.eqb c dquote || Ascii.eqb c backslash then [backslash; c]
  else if Json.between 8 8 c then [backslash; "b"%char] else if Json.between 12 12 c then [backslash; "f"%char]
  else if Json.between 10 10 c then [backslash; "n"%char] else if Json.between 13 13 c then [backslash; "r"%char]
  else if Json.between 9 9 c then [backslash; "t"%char]
  else if (code c <? 32) || existsb (Ascii.eqb c) ["<"; ">"; "&"]%char then u00 c
  else [c].

(** Bytes that are not UTF-8 and the two line separators are escaped as well. [skip] bytes have been dealt with. *)
Fixpoint quote_body (skip : nat) (s : chars) : chars :=
  match s, skip with
  | [], _ => []
  | _ :: s1, S skip => quote_body skip s1
  | c :: s1, O =>
      if code c <? 128 then escape c ++ quote_body 0 s1
      else match rune (c :: s1) with
           | Some bs =>
               (if bool_decide (bs = utf8 8232) then backslash :: str "u2028"
                else if bool_decide (bs = utf8 8233) then backslash :: str "u2029" else bs) ++ quote_body (pred (length bs)) s1
           | None => (backslash :: str "ufffd") ++ quote_body 0 s1
           end
  end.
Definition json_string (s : chars) : chars := q (quote_body 0 s).

Definition escape_ok (c : ascii) : bool :=
  match escape c with
  | [a] => Ascii.eqb a c && negb (Ascii.eqb c dquote) && negb (Ascii.eqb c backslash) && negb (code c <? 32)
  | [b; e] =>
      Ascii.eqb b backslash && negb (Ascii.eqb e "u") &&
      existsb (Ascii.eqb e) [dquote; backslash; "/"; "b"; "f"; "n"; "r"; "t"]%char && Ascii.eqb (escaped e) c
  | [b; u; h1; h2; h3; h4] =>
      Ascii.eqb b backslash && Ascii.eqb u "u" && (hex h1 && hex h2 && hex h3 && hex h4) && (hex4 h1 h2 h3 h4 =? code c)
  | _ => false
  end.
Lemma escape_checked c : code c < 128 -> escape_ok c = true.
Proof.
  intros Hc. destruct c as [[] [] [] [] [] [] [] []]; first [exfalso; vm_compute in Hc; discriminate Hc|vm_compute; reflexivity].
Qed.

Lemma of_code_code c : of_code (code c) = c.
Proof. unfold of_code, code. by rewrite N2Z.id, ascii_N_embedding. Qed.

Lemma escape_scanned c r : code c < 128 ->
  scan_string (escape c ++ r) = '(raw, r') ← scan_string r; Some (escape c ++ raw, r').
Proof.
  intros Hc%escape_checked. unfold escape_ok in Hc. destruct (escape c) as [|a [|e [|h1 [|h2 [|h3 [|h4 [|? ?]]]]]]]; try done; cbn [app].
  - rewrite !andb_true_iff, !negb_true_iff in Hc. destruct Hc as [[[->%Ascii.eqb_eq H1] H2] H3].
    cbn [scan_string]. by rewrite H1, H2, H3.
  - rewrite !andb_true_iff, !negb_true_iff in Hc. destruct Hc as [[[->%Ascii.eqb_eq H1] H2] _].
    cbn [scan_string]. change (Ascii.eqb backslash dquote) with false. rewrite Ascii.eqb_refl, H1, H2. done.
  - rewrite !andb_true_iff in Hc. destruct Hc as [[[->%Ascii.eqb_eq ->%Ascii.eqb_eq] [[[H1 H2] H3] H4]] _].
    cbn [scan_string]. change (Ascii.eqb backslash dquote) with false. by rewrite !Ascii.eqb_refl, H1, H2, H3, H4.
Qed.

Lemma escape_unquoted c t : code c < 128 -> unquote 0 (escape c ++ t) = c :: unquote 0 t.
Proof.
  intros Hlt. assert (0 <= code c) as Hge by apply N2Z.is_nonneg. pose proof (escape_checked c Hlt) as Hc. unfold escape_ok in Hc.
  destruct (escape c) as [|a [|e [|h1 [|h2 [|h3 [|h4 [|? ?]]]]]]]; try done; cbn [app].
  - rewrite !andb_true_iff, !negb_true_iff in Hc. destruct Hc as [[[->%Ascii.eqb_eq H1] H2] H3].
    cbn [unquote]. by rewrite H2, (proj2 (Z.ltb_lt _ _) Hlt).
  - rewrite !andb_true_iff, !negb_true_iff in Hc. destruct Hc as [[[->%Ascii.eqb_eq H1] _] Hesc%Ascii.eqb_eq].
    cbn [unquote]. by rewrite Ascii.eqb_refl, H1, Hesc.
  - rewrite !andb_true_iff in Hc. destruct Hc as [[[->%Ascii.eqb_eq ->%Ascii.eqb_eq] _] Hhex%Z.eqb_eq].
    cbn [unquote]. rewrite !Ascii.eqb_refl, Hhex. rewrite (proj2 (Z.leb_gt 55296 _)) by lia. cbn [andb].
    unfold utf8. rewrite (proj2 (Z.ltb_lt _ _) Hlt), of_code_code. done.
Qed.

Definition ascii_text (s : chars) : Prop := Forall (fun c => code c < 128) s.

(** ASCII text is read back. *)
Lemma json_string_scanned s r : ascii_text s -> scan_string (quote_body 0 s ++ dquote :: r) = Some (quote_body 0 s, r).
Proof.
  induction 1 as [|c s Hc Hs IH]; [done|]. cbn [quote_body]. rewrite (proj2 (Z.ltb_lt _ _) Hc), <-app_assoc, escape_scanned, IH by done. done.
Qed.
Lemma json_string_unquoted s : ascii_text s -> unquote 0 (quote_body 0 s) = s.
Proof.
  induction 1 as [|c s Hc Hs IH]; [done|]. cbn [quote_body]. by rewrite (proj2 (Z.ltb_lt _ _) Hc), escape_unquoted, IH by done.
Qed.

(** ** The configuration as JSON *)

Record configPeer := mkConfigPeer { cp_Suffrage : string; cp_ID : string; cp_Address : string }.

Definition print_peer (p : configPeer) : chars :=
  str "{" ++ q (str "suffrage") ++ str ":" ++ json_string (str (cp_Suffrage p)) ++ str "," ++
  q (str "id") ++ str ":" ++ json_string (str (cp_ID p)) ++ str "," ++
  q (str "address") ++ str ":" ++ json_string (str (cp_Address p)) ++ str "}".
Fixpoint print_elements (ps : list configPeer) : chars :=
  match ps with [] => [] | [p] => print_peer p | p :: ps => print_peer p ++ str "," ++ print_elements ps end.
(** A nil slice is null. *)
Definition print_peers (ps : list configPeer) : chars :=
  match ps with [] => str "null" | _ => str "[" ++ print_elements ps ++ str "]" end.

(** The peer as the scanner sees it. *)
Definition peer_json (p : configPeer) : json :=
  JObject [(str "suffrage", JString (quote_body 0 (str (cp_Suffrage p)))); (str "id", JString (quote_body 0 (str (cp_ID p))));
           (str "address", JString (quote_body 0 (str (cp_Address p))))].
Definition peer_ascii (p : configPeer) : Prop :=
  ascii_text (str (cp_Suffrage p)) /\ ascii_text (str (cp_ID p)) /\ ascii_text (str (cp_Address p)).

Lemma scan_value_string fuel d s r : ascii_text s -> scan_value (S fuel) d (json_string s ++ r) = Some (JString (quote_body 0 s), r).
Proof.
  intros Hs. unfold json_string, q. rewrite <-app_comm_cons, <-app_assoc. cbn [app].
  change (scan_value (S fuel) d (dquote :: ?s)) with ('(raw, r) ← scan_string s; Some (JString raw, r)). by rewrite json_string_scanned.
Qed.

Lemma scan_peer fuel d p r : (maxNestingDepth <=? d)%nat = false -> peer_ascii p ->
  scan_value (S (S (S (S (S fuel))))) d (print_peer p ++ r) = Some (peer_json p, r).
Proof.
  intros Hd (H1 & H2 & H3). unfold print_peer. rewrite <-!app_assoc. apply scan_object; [done|].
  eapply eq_trans; [eapply (scan_member (S (S (S fuel))) (S d) (str "suffrage")) with (c5 := ","%char); [done|by apply scan_value_string|done]|].
  change (Ascii.eqb "," "}") with false. rewrite Ascii.eqb_refl. cbv iota.
  erewrite (scan_member (S (S fuel)) (S d) (str "id")) with (c5 := ","%char); [|done|by apply scan_value_string|done].
  change (Ascii.eqb "," "}") with false. rewrite Ascii.eqb_refl. cbv iota.
  erewrite (scan_member (S fuel) (S d) (str "address")) with (c5 := "}"%char); [|done|by apply scan_value_string|done].
  rewrite Ascii.eqb_refl. done.
Qed.

Lemma scan_peers fuel d ps p r : (maxNestingDepth <=? d)%nat = false -> Forall peer_ascii (p :: ps) ->
  scan_elements (length ps + S (S (S (S (S (S fuel)))))) d (print_elements (p :: ps) ++ "]"%char :: r) = Some (peer_json <$> (p :: ps), r).
Proof.
  intros Hd. revert p. induction ps as [|p2 ps IH]; intros p Hall; apply Forall_cons in Hall as [Hp Hall].
  - cbn [length Nat.add print_elements scan_elements]. rewrite scan_peer by done. done.
  - change (print_elements (p :: p2 :: ps)) with (print_peer p ++ str "," ++ print_elements (p2 :: ps)). rewrite <-!app_assoc.
    cbn [length Nat.add scan_elements].
    assert (exists f, (length ps + S (S (S (S (S (S fuel)))))) = S (S (S (S (S f)))))%nat as [f Ef] by (exists (S (length ps + fuel)); lia).
    rewrite Ef at 1. rewrite scan_peer by done. cbn [mbind option_bind]. change (skip_ws (str "," ++ ?s)) with (","%char :: s). cbv iota.
    change (Ascii.eqb "," "]") with false. rewrite Ascii.eqb_refl, (IH p2 Hall). done.
Qed.

Lemma print_peer_length p : (5 <= length (print_peer p))%nat.
Proof. unfold print_peer, json_string, q. rewrite !length_app. cbn. lia. Qed.
Lemma print_elements_length ps : (length ps <= length (print_elements ps))%nat.
Proof.
  induction ps as [|p [|p2 ps] IH]; [done|cbn; pose proof (print_peer_length p); lia|].
  change (print_elements (p :: p2 :: ps)) with (print_peer p ++ str "," ++ print_elements (p2 :: ps)). rewrite !length_app. cbn in *. lia.
Qed.

(** The printed configuration is JSON: the array of the peers, or null without any. *)
Lemma print_peers_parsed ps : Forall peer_ascii ps ->
  json_parse (print_peers ps) = Some (match ps with [] => JNull | _ => JArray (peer_json <$> ps) end).
Proof.
  intros Hall. destruct ps as [|p ps]; [done|]. unfold json_parse, print_peers.
  set (body := print_elements (p :: ps) ++ str "]").
  assert (exists f, (2 * length (str "[" ++ body) + 2 = S (length ps + S (S (S (S (S (S f)))))))%nat) as [f ->].
  { assert (length ps + 6 <= length body + 2)%nat.
    { unfold body. rewrite length_app. cbn [length str String.list_ascii_of_string]. destruct ps as [|p2 ps].
      - cbn. pose proof (print_peer_length p). lia.
      - change (print_elements (p :: p2 :: ps)) with (print_peer p ++ str "," ++ print_elements (p2 :: ps)). rewrite !length_app.
        pose proof (print_peer_length p). pose proof (print_elements_length (p2 :: ps)). cbn in *. lia. }
    rewrite length_app. cbn [length str String.list_ascii_of_string]. exists (2 * (1 + length body) + 2 - (length ps + 7))%nat. lia. }
  assert (scan_value (S (length ps + S (S (S (S (S (S f))))))) 0 (str "[" ++ body) = Some (JArray (peer_json <$> (p :: ps)), [])) as ->; [|done].
  pose proof (scan_peers f 1 ps p [] eq_refl Hall) as Hs. change (print_elements (p :: ps) ++ ["]"%char]) with body in Hs.
  assert (exists s, body = "{"%char :: s) as [s Eb].
  { unfold body. destruct ps as [|p2 ps]; [by eexists|].
    change (print_elements (p :: p2 :: ps)) with (print_peer p ++ str "," ++ print_elements (p2 :: ps)). by eexists. }
  rewrite Eb in *. cbn [str String.list_ascii_of_string app scan_value]. change (skip_ws ("["%char :: ?t)) with ("["%char :: t). cbv iota.
  change (Ascii.eqb "[" "{") with false. rewrite Ascii.eqb_refl. cbv iota. change (maxNestingDepth <=? 0)%nat with false. cbv iota.
  change (skip_ws ("{"%char :: s)) with ("{"%char :: s). cbv iota. change (Ascii.eqb "{" "]") with false. cbv iota.
  by rewrite Hs.
Qed.

(** ** raft_service.go *)

Section Stats.
Context {R : Type} {RL : RaftLib R} {T St B : Type} {BT : BTree Less T} {BS : ByteStore St B}.
(** r.Stats() and the suffrage of a server of the configuration. *)
Variable raft_Stats : R -> gmap string string.
Variable srv_Suffrage : Server -> string.

Definition config_peer (s : Server) : configPeer := mkConfigPeer (srv_Suffrage s) (srv_ID s) (srv_Address s).

(** The numbers of the map are in decimal; [ctx] is the error of a context that ends before the configuration is there. *)
Definition Stats (ctx : option error) (store : KvStore T St B) : M (raftSvc R) (gmap string chars) :=
  get_st ≫= fun rs =>
  let s := str <$> raft_Stats (rs_r rs) in
  let '(addr, id) := LeaderWithID (rs_r rs) in
  let s := <["leader_id" := str id]> (<["leader_addr" := str addr]> s) in
  let '(rev, compactedRev) := Revisions store in
  let s := <["key_count" := str (pretty (KeyCount store))]> (<["compacted_revision" := str (pretty compactedRev)]>
             (<["revision" := str (pretty (Main rev))]> s)) in
  try (RaftConfiguration ctx) ≫= fun conf =>
  match conf with
  | inr _ => mret (<["readable_configuration" := str "[]"]> s)
  | inl servers => mret (<["readable_configuration" := print_peers (config_peer <$> servers)]> s)
  end.

(** The status and the map that is sent. *)
Definition handleStats (ctx : option error) (store : KvStore T St B) : M (raftSvc R) (Z * gmap string chars) :=
  Stats ctx store ≫= fun stats => mret (200, stats).

(** The members of a peer in the printed configuration, unquoted. *)
Definition read_peer (v : json) : option configPeer :=
  match v with
  | JObject [(k1, JString a); (k2, JString b); (k3, JString c)] =>
      if bool_decide (k1 = str "suffrage") && bool_decide (k2 = str "id") && bool_decide (k3 = str "address")
      then Some (mkConfigPeer (String.string_of_list_ascii (unquote 0 a)) (String.string_of_list_ascii (unquote 0 b))
                              (String.string_of_list_ascii (unquote 0 c)))
      else None
  | _ => None
  end.

Lemma read_peer_json p : peer_ascii p -> read_peer (peer_json p) = Some p.
Proof.
  intros (H1 & H2 & H3). unfold read_peer, peer_json. rewrite !bool_decide_eq_true_2 by done. cbn [andb].
  rewrite !json_string_unquoted by done. unfold str. rewrite !String.string_of_list_ascii_of_string. by destruct p.
Qed.

(** The statistics can be read back: the numbers of the store from their decimals, and the servers of the
    configuration, in order, from the JSON array, for names in ASCII. Without any server the entry is
    null, and without a configuration it is the empty array. *)
Theorem stats_readable (ctx : option error) (store : KvStore T St B) (s s' : raftSvc R) (servers : list Server) :
  RaftConfiguration ctx s = (s', Ok servers) -> Forall (fun sv => peer_ascii (config_peer sv)) servers ->
  in_i64 (Main (currentRev store)) -> in_i64 (compactedMainRev store) -> in_i64 (keyCount store) ->
  exists m, handleStats ctx store s = (s', Ok (200, m)) /\
    (m !! "revision" ≫= ParseInt) = Some (Main (currentRev store)) /\
    (m !! "compacted_revision" ≫= ParseInt) = Some (compactedMainRev store) /\
    (m !! "key_count" ≫= ParseInt) = Some (keyCount store) /\
    m !! "leader_id" = Some (str (LeaderWithID (rs_r s)).2) /\
    (m !! "readable_configuration" ≫= json_parse) = Some (match servers with [] => JNull | _ => JArray (peer_json <$> (config_peer <$> servers)) end) /\
    mapM read_peer (peer_json <$> (config_peer <$> servers)) = Some (config_peer <$> servers).
Proof.
  intros Hconf Hall H1 H2 H3. unfold handleStats, Stats, mbind, M_bind, get_st. cbn [fst snd].
  destruct (LeaderWithID (rs_r s)) as [addr id] eqn:El. unfold Revisions. unfold try. rewrite Hconf. cbn [mret M_ret].
  eexists. split; [reflexivity|]. unfold KeyCount.
  rewrite !lookup_insert_eq, !(lookup_insert_ne _ "readable_configuration") by done.
  rewrite !lookup_insert_eq, !(lookup_insert_ne _ "key_count") by done.
  rewrite !lookup_insert_eq, !(lookup_insert_ne _ "compacted_revision") by done.
  rewrite !lookup_insert_eq, !(lookup_insert_ne _ "revision") by done. rewrite !lookup_insert_eq.
  cbn [mbind option_bind]. rewrite !ParseInt_pretty by done. split_and!; [done..| |].
  - rewrite print_peers_parsed by (by apply Forall_fmap). by destruct servers.
  - apply mapM_Some. apply Forall2_fmap_l. clear Hconf. induction Hall as [|sv svs Hsv Hall IH]; [constructor|].
    constructor; [by apply read_peer_json|done].
Qed.
End Stats.
