(* ===== verification/Mtls.v ===== *)
(** The transport of Raft: the stream layer of internal/mtls/stream_layer.go, with Go's net.SplitHostPort. The
    TLS and socket calls are the class [TlsLib]; [E] is the state of files and sockets. *)

From S2P Require Import Prelude Strconv Peer Config.
From Stdlib Require Import ZArith Lia Ascii.
From stdpp Require Import base sets list strings.
Open Scope Z_scope.

(** ** net.SplitHostPort *)

Fixpoint IndexByte (c : ascii) (s : chars) : option nat :=
  match s with
  | [] => None
  | x :: s' => if bool_decide (x = c) then Some O else S <$> IndexByte c s'
  end.
Fixpoint LastIndexByte (c : ascii) (s : chars) : option nat :=
  match s with
  | [] => None
  | x :: s' => match LastIndexByte c s' with
               | Some i => Some (S i)
               | None => if bool_decide (x = c) then Some O else None
               end
  end.

Definition missingPort : error := errMsg "missing port in address".
Definition tooManyColons : error := errMsg "too many colons in address".

(** The host and the positions before which no bracket can stand, for the last colon at [i]. *)
Definition host_part (i : nat) (s : chars) : res (chars * nat * nat) :=
  if bool_decide (head s = Some "["%char) then
    match IndexByte "]"%char s with
    | None => Err (errMsg "missing ']' in address")
    | Some e =>
        if bool_decide (S e = length s) then Err missingPort
        else if bool_decide (S e = i) then Ok (drop 1 (take e s), 1%nat, S e)
        else if bool_decide (s !! S e = Some ":"%char) then Err tooManyColons else Err missingPort
    end
  else if bool_decide (IndexByte ":"%char (take i s) <> None) then Err tooManyColons
  else Ok (take i s, O, O).

Definition SplitHostPort (s : chars) : res (chars * chars) :=
  match LastIndexByte ":"%char s with
  | None => Err missingPort
  | Some i =>
      host_part i s ≫= fun '(host, j, k) =>
      if bool_decide (IndexByte "["%char (drop j s) <> None) then Err (errMsg "unexpected '[' in address")
      else if bool_decide (IndexByte "]"%char (drop k s) <> None) then Err (errMsg "unexpected ']' in address")
      else Ok (host, drop (S i) s)
  end.

(** ** crypto/tls *)

Inductive ClientAuthType :=
  NoClientCert | RequestClientCert | RequireAnyClientCert | VerifyClientCertIfGiven | RequireAndVerifyClientCert.
Definition VersionTLS13 : Z := 772.

Record tlsConfig (Cert Pool : Type) := mkTls {
  Certificates : list Cert; RootCAs : option Pool; ClientCAs : option Pool; ClientAuth : ClientAuthType;
  MinVersion : Z; ServerName : string }.
Arguments mkTls {Cert Pool} _ _ _ _ _ _.
Arguments Certificates {Cert Pool} _.
Arguments RootCAs {Cert Pool} _.
Arguments ClientCAs {Cert Pool} _.
Arguments ClientAuth {Cert Pool} _.
Arguments MinVersion {Cert Pool} _.
Arguments ServerName {Cert Pool} _.

(** [AppendCertsFromPEM] is into an empty pool and gives [None] when it reports false; a listener that
    cannot be bound leaves the sockets as they were. *)
Class TlsLib (E Cert Pool Ln Conn : Type) := {
  LoadX509KeyPair : string -> string -> E -> res Cert;
  ReadFile : string -> E -> res bytes;
  AppendCertsFromPEM : bytes -> option Pool;
  Listen : string -> M E Ln;
  ln_Accept : Ln -> tlsConfig Cert Pool -> M E Conn;
  ln_Close : Ln -> M E unit;
  ln_Addr : Ln -> string;
  DialWithDialer : Z -> string -> tlsConfig Cert Pool -> M E Conn;
  Listen_fails (a : string) (e : E) (er : error) : (Listen a e).2 = Err er -> (Listen a e).1 = e }.

(** ** stream_layer.go *)

Section StreamLayer.
Context {E Cert Pool Ln Conn : Type} {TL : TlsLib E Cert Pool Ln Conn}.
Abbreviation cfg := (tlsConfig Cert Pool).

(** The TLS listener is the socket with the configuration it was made with. *)
Record StreamLayer := mkLayer { sl_ln : Ln * cfg; sl_addr : string; sl_tlsCfg : cfg }.

Definition load_pool (caFile : string) (e : E) : res Pool :=
  match ReadFile caFile e with
  | Ok caPEM => match AppendCertsFromPEM caPEM with
                | Some caPool => Ok caPool
                | None => Err (errMsg "failed to parse internal raft CA cert")
                end
  | Err er => Err (ErrMsg "failed to read internal raft CA cert" :: er)
  | Panicked => Panicked
  end.
Definition load_cert (certFile keyFile : string) (e : E) : res Cert :=
  match LoadX509KeyPair certFile keyFile e with
  | Err er => Err (ErrMsg "failed to load raft TLS cert/key" :: er)
  | r => r
  end.

Definition NewStreamLayer (listenAddr advertiseAddr certFile keyFile caFile : string) : M E StreamLayer := fun e =>
  match load_cert certFile keyFile e ≫= fun cert => load_pool caFile e ≫= fun pool => Ok (cert, pool) with
  | Ok (cert, pool) =>
      let tlsCfg := mkTls [cert] (Some pool) (Some pool) RequireAndVerifyClientCert VersionTLS13 "" in
      match Listen listenAddr e with
      | (e', Ok ln) => (e', Ok (mkLayer (ln, tlsCfg) advertiseAddr tlsCfg))
      | (e', Err er) => (e', Err (ErrMsg "failed to bind raft listener" :: er))
      | (e', Panicked) => (e', Panicked)
      end
  | Err er => (e, Err er)
  | Panicked => (e, Panicked)
  end.

Definition sl_Accept (l : StreamLayer) : M E Conn := ln_Accept (sl_ln l).1 (sl_ln l).2.
Definition sl_Close (l : StreamLayer) : M E unit := ln_Close (sl_ln l).1.
Definition sl_Addr (l : StreamLayer) : string := ln_Addr (sl_ln l).1.

Definition set_ServerName (host : string) (c : cfg) : cfg :=
  mkTls (Certificates c) (RootCAs c) (ClientCAs c) (ClientAuth c) (MinVersion c) host.
Definition sl_Dial (address : string) (timeout : Z) (l : StreamLayer) : M E Conn :=
  match SplitHostPort (str address) with
  | Err er => fail (ErrMsg "failed to parse peer address" :: er)
  | Panicked => lift Panicked
  | Ok (host, _) =>
      DialWithDialer timeout address (set_ServerName (String.string_of_list_ascii host) (sl_tlsCfg l))
  end.

(** ** Splitting an address *)

Lemma IndexByte_None (c : ascii) (s : chars) : IndexByte c s = None <-> c ∉ s.
Proof.
  induction s as [|x s IH]; [split; [by intros _ ?%not_elem_of_nil|done]|].
  simpl. case_bool_decide as E1; rewrite not_elem_of_cons.
  - split; [done|]. intros [H _]. by subst.
  - rewrite fmap_None, IH. naive_solver.
Qed.
Lemma LastIndexByte_None (c : ascii) (s : chars) : c ∉ s -> LastIndexByte c s = None.
Proof.
  induction s as [|x s IH]; intros H; [done|]. apply not_elem_of_cons in H as [H1 H2].
  simpl. rewrite IH by done. by rewrite bool_decide_eq_false_2 by done.
Qed.
Lemma LastIndexByte_app (c : ascii) (h p : chars) : c ∉ p -> LastIndexByte c (h ++ c :: p) = Some (length h).
Proof.
  intros Hp. induction h as [|x h IH]; simpl.
  - rewrite LastIndexByte_None by done. by rewrite bool_decide_eq_true_2.
  - by rewrite IH.
Qed.

(** A character that has no meaning in an address. *)
Definition plain (c : ascii) : Prop := c ∉ [":"; "["; "]"]%char.
Lemma plain_lacks (c : ascii) (s : chars) : c ∈ [":"; "["; "]"]%char -> Forall plain s -> c ∉ s.
Proof. intros Hc HF Hin. rewrite Forall_forall in HF. by destruct (HF c Hin). Qed.

Lemma SplitHostPort_join (h p : chars) : Forall plain h -> Forall plain p -> SplitHostPort (h ++ ":"%char :: p) = Ok (h, p).
Proof.
  intros Hh Hp. unfold SplitHostPort. rewrite LastIndexByte_app by (apply plain_lacks; [set_solver|done]).
  assert (host_part (length h) (h ++ ":"%char :: p) = Ok (h, O, O)) as ->.
  { unfold host_part. rewrite bool_decide_eq_false_2, take_app_length.
    - rewrite bool_decide_eq_false_2; [done|]. intros H. apply H, IndexByte_None, plain_lacks; [set_solver|done].
    - destruct h as [|x h]; [done|]. simpl. intros [= ->]. apply Forall_cons in Hh as [Hh _]. apply Hh. set_solver. }
  simpl. assert (forall c, c ∈ ["["; "]"]%char -> IndexByte c (h ++ ":"%char :: p) = None) as Hn.
  { intros c Hc. apply IndexByte_None. rewrite not_elem_of_app, not_elem_of_cons.
    split_and!; [|set_solver|]; apply plain_lacks; by try set_solver. }
  rewrite !bool_decide_eq_false_2 by (rewrite Hn; [tauto|set_solver]). by rewrite <-Nat.add_1_r, drop_app_add.
Qed.

(** ** What a connection checks *)

(** The name under which a peer is dialled. *)
Definition raft_host (p : Peer) : string := if bool_decide (Hostname p = "") then NodeID p else Hostname p.

Lemma GetRaftAddress_host (p : Peer) : str (GetRaftAddress p) = str (raft_host p) ++ ":"%char :: str (RaftPort p).
Proof. unfold GetRaftAddress, raft_host. by case_bool_decide; rewrite !str_app. Qed.

(** Both ends of every connection between nodes are verified. The listener of a stream layer that was built
    accepts only clients whose certificate the configured authority signed, at TLS 1.3 or later; dialling the Raft
    address of a peer verifies the other side against the same authority under that peer's own host name, with the
    node's one certificate, and leaves the shared configuration as it is; and building fails, without leaving a
    socket behind, when one of the files cannot be loaded or the address cannot be bound. *)
Theorem raft_links_verified (la aa cert key ca : string) (e e' : E) (r : res StreamLayer) (p : Peer) (timeout : Z) :
  NewStreamLayer la aa cert key ca e = (e', r) -> Forall plain (str (raft_host p)) -> Forall plain (str (RaftPort p)) ->
  match r with
  | Ok l =>
      exists c pool, LoadX509KeyPair cert key e = Ok c /\
        sl_tlsCfg l = mkTls [c] (Some pool) (Some pool) RequireAndVerifyClientCert VersionTLS13 "" /\
        sl_Accept l = ln_Accept (sl_ln l).1 (sl_tlsCfg l) /\
        sl_Dial (GetRaftAddress p) timeout l =
          DialWithDialer timeout (GetRaftAddress p)
            (mkTls [c] (Some pool) (Some pool) RequireAndVerifyClientCert VersionTLS13 (raft_host p))
  | Err _ => e' = e
  | Panicked => True
  end.
Proof.
  intros H Hh Hp. unfold NewStreamLayer, load_cert, load_pool in H.
  destruct (LoadX509KeyPair cert key e) as [c|er|]; simpl in H; [|by injection H as <- <-..].
  destruct (ReadFile ca e) as [pem|er|]; simpl in H; [|by injection H as <- <-..].
  destruct (AppendCertsFromPEM pem) as [pool|]; simpl in H; [|by injection H as <- <-].
  destruct (Listen la e) as [e1 [ln|er|]] eqn:EL; injection H as <- <-; [| |done].
  - exists c, pool. split_and!; [done..|]. unfold sl_Dial. rewrite GetRaftAddress_host, SplitHostPort_join by done.
    cbn [sl_tlsCfg]. unfold set_ServerName, str. by rewrite String.string_of_list_ascii_of_string.
  - pose proof (Listen_fails la e er) as HL. rewrite EL in HL. by apply HL.
Qed.

(** The address a layer reports is its listener's: the advertised address is stored and never read. *)
Lemma addr_not_advertised (la a1 a2 cert key ca : string) (e : E) (l1 : StreamLayer) :
  (NewStreamLayer la a1 cert key ca e).2 = Ok l1 ->
  exists l2, (NewStreamLayer la a2 cert key ca e).2 = Ok l2 /\ sl_addr l2 = a2 /\ sl_Addr l2 = sl_Addr l1.
Proof.
  unfold NewStreamLayer. destruct (_ ≫= _) as [[c pool]|er|]; [|done..].
  destruct (Listen la e) as [e1 [ln|er|]]; [|done..]. intros [= <-]. by eexists.
Qed.
End StreamLayer.

(** ** Witness *)

Definition addr1 : chars := str "kave-0.kave-headless:7000".
Example split_host_port :
  SplitHostPort addr1 = Ok (str "kave-0.kave-headless", str "7000") /\ SplitHostPort (str "[::1]:80") = Ok (str "::1", str "80") /\
  SplitHostPort (str "::1:80") = Err tooManyColons /\ SplitHostPort (str "[::1]") = Err missingPort /\
  SplitHostPort (str "host") = Err missingPort /\ SplitHostPort (str "[::1]:80:") = Err tooManyColons /\
  SplitHostPort (str "a[b:80") = Err (errMsg "unexpected '[' in address").
Proof. vm_compute. done. Qed.

(** Sockets as the list of bound addresses, every file readable. *)
#[export] Instance plain_tls : TlsLib (list string) (string * string) bytes string (string * string).
Proof.
  refine {| LoadX509KeyPair := fun c k _ => Ok (c, k); ReadFile := fun _ _ => Ok []; AppendCertsFromPEM := Some;
    Listen := fun a e => if bool_decide (a ∈ e) then (e, Err (errMsg "address already in use")) else (a :: e, Ok a);
    ln_Accept := fun a c e => (e, Ok (a, ServerName c)); ln_Close := fun a e => (filter (fun x => x <> a) e, Ok tt);
    ln_Addr := id; DialWithDialer := fun _ a c e => (e, Ok (a, ServerName c)) |}.
  intros a e er. by case_bool_decide.
Defined.
Definition peer7 : Peer := mkPeer "kave-7" "kave-7.kave-headless" "7000" "8080".
Lemma raft_links_verified_witness :
  exists l : StreamLayer, NewStreamLayer "0.0.0.0:7000" "kave-0:7000" "c" "k" "ca" [] = (["0.0.0.0:7000"], Ok l) /\
    sl_Dial (GetRaftAddress peer7) 5 l ["0.0.0.0:7000"] = (["0.0.0.0:7000"], Ok ("kave-7.kave-headless:7000", "kave-7.kave-headless")).
Proof.
  destruct (NewStreamLayer (TL := plain_tls) "0.0.0.0:7000" "kave-0:7000" "c" "k" "ca" []) as [e r] eqn:E.
  pose proof (raft_links_verified _ _ _ _ _ _ _ _ peer7 5 E ltac:(by apply (bool_decide_unpack _)) ltac:(by apply (bool_decide_unpack _))) as H.
  destruct r as [l|er|]; [|vm_compute in E; discriminate..]. exists l. destruct H as (c & pool & _ & _ & _ & H).
  split; [by vm_compute in E; injection E as <- <-|]. rewrite H. reflexivity.
Defined.
