(* ===== verification/NodeInit.v ===== *)
(** Building a node and the server command: New, initRaft, initBackgroundRoutines, initServices of internal/node/node.go,
    NewRaftDependencies of internal/config/raft_deps.go, the server constructor of
    internal/transport/http/server.go, and cmd/kave/main.go, over the stores and the start of Raft ([RaftOpen]).
    A path that filepath.Join builds is kept as its two parts. *)

From S2P Require Import Prelude Strconv OrdTree KvTypes KeyIndex TreeIndex Storage Inmem Backend Mvcc MvccInv Recovery Api Engine Heap Lease Ot Loops Fsm Snapshots Peer RaftSvc Node Http Config Watch Mtls.
From Stdlib Require Import ZArith Lia Ascii.
From stdpp Require Import base gmap sets list strings sorting pretty.
Open Scope Z_scope.

(** slog.Level.String *)
Definition level_str (base : string) (val : Z) : string :=
  if val =? 0 then base else base +:+ (if 0 <? val then "+" else "") +:+ pretty val.
Definition slog_String (l : Z) : string :=
  if l <? SlogInfo then level_str "DEBUG" (l - SlogDebug)
  else if l <? SlogWarn then level_str "INFO" (l - SlogInfo)
  else if l <? SlogError then level_str "WARN" (l - SlogWarn)
  else level_str "ERROR" (l - SlogError).

Definition set_LogLevel (lvl : string) (c : RaftConfig) : RaftConfig :=
  mkRaftCfg (LocalID c) (HeartbeatTimeout c) (ElectionTimeout c) (CommitTimeout c) (MaxAppendEntries c) (ShutdownOnRemove c)
    (TrailingLogs c) (SnapshotInterval c) (SnapshotThreshold c) (LeaderLeaseTimeout c) lvl.

(** The constructors of hashicorp/raft and raft-boltdb. [NewRaft] runs the state machine it is handed (it may
    install a snapshot) and so gives it back. *)
Class RaftOpen (E Layer Logs Snaps Trans FSM R : Type) := {
  NewInmemStore : Logs;
  NewInmemSnapshotStore : Snaps;
  NewInmemTransport : string -> Trans;
  NewBoltStore : string * string -> M E Logs;
  NewFileSnapshotStore : string -> Z -> M E Snaps;
  NewNetworkTransport : Layer -> Z -> Z -> Trans;
  NewRaft : RaftConfig -> FSM -> Logs -> Logs -> Snaps -> Trans -> M E (FSM * R) }.

(** fmt.Errorf with %v or %w around the error of a call. *)
Definition errorf_v {St A} (msg : string) (m : M St A) : M St A := fun s =>
  match m s with (s', Err _) => (s', Err (errMsg msg)) | r => r end.
Definition errorf_w {St A} (msg : string) (m : M St A) : M St A := fun s =>
  match m s with (s', Err e) => (s', Err (ErrMsg msg :: e)) | r => r end.

Section NodeInit.
Context {T St B : Type} {BT : BTree Less T} {BS : ByteStore St B} {MO : MapOrder} {HO : HubOrder}.
Context {E Cert Pool Ln Conn Logs Snaps Trans R L : Type} {TL : TlsLib E Cert Pool Ln Conn}.
Abbreviation fsm := (Fsm T St B WatchHub CompactionScheduler).
Abbreviation layer := (@StreamLayer Cert Pool Ln).
Context {RO : RaftOpen E layer Logs Snaps Trans fsm R}.
(** testing.Testing() *)
Variable testing : bool.
(** The store of the configured kind: the NewStore of the durable or of the in-memory store. *)
Variable NewStore : StorageOptions -> res St.

(** ** config/raft_deps.go *)

Record RaftDependencies := mkDeps { LogStore : Logs; StableStore : Logs; SnapStore : Snaps; Transport : Trans }.

Definition NewRaftDependencies (cfg : Config) : M E RaftDependencies :=
  let dir := so_Dir (StorageOpts (cfg_Json cfg)) in
  let tls := MtlsOpts (cfg_Json cfg) in
  let listenAddr := GetRaftListenAddress (cfg_Me cfg) in
  let advertiseAddr := GetRaftAddress (cfg_Me cfg) in
  if testing then mret (mkDeps NewInmemStore NewInmemStore NewInmemSnapshotStore (NewInmemTransport advertiseAddr))
  else
    errorf_v "failed to create logstore" (NewBoltStore (dir, "logstore.db")) ≫= fun logs =>
    errorf_w "couldn't create raft stable store" (NewBoltStore (dir, "stablestore.db")) ≫= fun stable =>
    errorf_w "couldn't create raft snapshot store" (NewFileSnapshotStore dir 10) ≫= fun snapshot =>
    errorf_v "failed to create stream layer"
      (NewStreamLayer listenAddr advertiseAddr (CertFile tls) (KeyFile tls) (CaFile tls)) ≫= fun streamLayer =>
    mret (mkDeps logs stable snapshot (NewNetworkTransport streamLayer 3 (10 * Second))).

(** ** node.go *)

(** What New fills in besides the fields of [Node.Node]. *)
Record BuiltNode := mkBuilt {
  bn_node : Node; bn_fsm : fsm; bn_deps : RaftDependencies; bn_loop : UnsyncedLoop; bn_discovery : DiscoveryService;
  bn_raftSvc : raftSvc R; bn_kvOpts : Options; bn_http : HttpServer L }.

(** backend.New *)
Definition backend_New (opts : StorageOptions) : res (backend St B) :=
  match NewStore opts with Ok s => Ok (Backend.New s) | _ => Panicked end.

(** The engine reports its commits to the hub. *)
Definition set_observers (commit : list WatchHub) (writes : list CompactionScheduler) (f : fsm) : fsm :=
  mkFsm (f_me f) (f_store f) (f_lm f) (f_om f) commit writes (f_background f).

(** initStorage on the backend of the configuration; [now] is the clock the leases are restored by. *)
Definition node_initStorage (now : Z) (cfg : Config) : M E fsm :=
  lift (backend_New (StorageOpts (cfg_Json cfg))) ≫= fun b =>
  lift (initStorage (NodeID (cfg_Me cfg)) now b (OtOpts (cfg_Json cfg))) ≫= fun '(f, _) =>
  mret (set_observers [NewWatchHub] [] f).

Definition initRaft (cfg : Config) (f : fsm) : M E (fsm * R * RaftDependencies * RaftEventWatcher) :=
  match cfg_RaftCfg cfg with
  | None => lift Panicked
  | Some rc =>
      let rc := set_LogLevel (slog_String (ToSlogLevel (lo_Level (LoggerOptions (cfg_Json cfg))))) rc in
      NewRaftDependencies cfg ≫= fun deps =>
      NewRaft rc f (LogStore deps) (StableStore deps) (SnapStore deps) (Transport deps) ≫= fun '(f, r) =>
      mret (f, r, deps, NewRaftEventWatcher (NodeID (cfg_Me cfg)))
  end.

Definition APPLY_LAG_THRESHOLD : Z := 20.
Definition initServices (cfg : Config) (r : R) : M E (DiscoveryService * raftSvc R) :=
  lift (NewDiscoveryService (cfg_Me cfg) (cfg_PodNamespace cfg) (PeerDiscoveryOptions (cfg_Json cfg))) ≫= fun d =>
  mret (d, NewRaftService r APPLY_LAG_THRESHOLD).

(** http/server.go: NewHTTPServer, for the routes of [Http.routes]. *)
Definition NewHTTPServer (p : Peer) (read write : ratelimiterConfig) (token : string) : HttpServer L :=
  mkServer_ p (newRateLimiter read) (newRateLimiter write) token 0.

Definition node_New (now : Z) (cfg : Config) : M E BuiltNode :=
  errorf_v "failed to setup storage" (node_initStorage now cfg) ≫= fun f =>
  errorf_v "failed to setup raft" (initRaft cfg f) ≫= fun '(f, r, deps, watcher) =>
  let opts := CompactionOpts (cfg_Json cfg) in
  let n := set_watcher watcher (NewNode (cfg_Me cfg) (cfg_Bootstrap cfg) (CheckpointIntervalMinutes (cfg_Json cfg)) opts) in
  errorf_v "failed to setup services" (initServices cfg r) ≫= fun '(d, svc) =>
  let f := set_observers (f_commit_obs f) (f_writeObservers f ++ [n_compaction n]) f in
  mret (mkBuilt (registerObservers n) f deps NewUnsyncedLoop d svc (KvOptions (cfg_Json cfg))
    (NewHTTPServer (cfg_Me cfg) (RatelimiterOpts (cfg_Json cfg)).1 (RatelimiterOpts (cfg_Json cfg)).2 (cfg_AdminAuthToken cfg))).

(** ** cmd/kave/main.go *)

(** How the process ends: a panic that nothing recovers gives status 2. *)
Inductive exit_status := Exit (code : Z).

(** Every outcome of main, for a configuration as LoadConfig returns it. [lead] and the reached states are those
    of Run ([Node.run_step]). *)
Inductive kave_main {EG : ErrGroup} (loaded : res Config) (now : Z) (e : E) : exit_status -> Prop :=
  | main_config : ~ is_Ok loaded -> kave_main loaded now e (Exit 2)
  | main_panic cfg : loaded = Ok cfg -> (node_New now cfg e).2 = Panicked -> kave_main loaded now e (Exit 2)
  | main_new_fails cfg er : loaded = Ok cfg -> (node_New now cfg e).2 = Err er -> kave_main loaded now e (Exit 1)
  | main_no_peers cfg bn found er lead :
      loaded = Ok cfg -> (node_New now cfg e).2 = Ok bn ->
      (run_start found lead (bn_node bn) (bn_raftSvc bn)).2 = Err er -> kave_main loaded now e (Exit 1)
  | main_runs cfg bn found lead st0 st r :
      loaded = Ok cfg -> (node_New now cfg e).2 = Ok bn ->
      (run_start found lead (bn_node bn) (bn_raftSvc bn)).2 = Ok st0 -> rtc any_step st0 st -> rn_main st = Done r ->
      kave_main loaded now e (Exit match r with Some _ => 1 | None => 0 end).

(** ** What New gives *)

(** initStorage does not refuse options that have been checked: its restorations only log. *)
Lemma initStorage_Ok (me : string) (now : Z) (b : backend St B) (o : OTOptions) :
  OTOptions_Check o = None -> exists f r, initStorage (O := WatchHub) (W := CompactionScheduler) me now b o = Ok (f, r).
Proof. intros H. unfold initStorage, NewOTManager. rewrite H. eexists _, _. f_equal. apply surjective_pairing. Qed.

Lemma LoadConfig_checked parsed fl file cfg : LoadConfig parsed fl file = Ok cfg ->
  ConfigJson_check (cfg_Json cfg) = None /\ is_Some (cfg_RaftCfg cfg).
Proof.
  unfold LoadConfig, mbind, res_bind. intros H. repeat (case_match; try done). simplify_eq. cbn [cfg_Json cfg_RaftCfg].
  split; [|done].
  match goal with H : check_res (ToConfig ?cj) = Ok _ |- _ => unfold check_res, ToConfig in H; destruct (ConfigJson_check cj) eqn:Hc; [done|] end.
  by simplify_eq.
Qed.
Lemma checked_parts cj : ConfigJson_check cj = None ->
  OTOptions_Check (OtOpts cj) = None /\ DiscoveryOptions_Check (PeerDiscoveryOptions cj) = None.
Proof. unfold ConfigJson_check, first_check. intros H. cbn in H. by repeat case_match. Qed.

(** The peer options with which the discovery service can be built. *)
Definition discoverable (o : DiscoveryOptions) : Prop :=
  match do_Mode o with
  | DiscoveryModeStatic => exists peers, do_Peers o = Some (peer_list peers) /\ Forall listable peers /\ (length peers = 3 \/ length peers = 5)%nat
  | DiscoveryModeDynamic => do_ExpectedCount o = 3 \/ do_ExpectedCount o = 5
  | OtherMode _ => False
  end.

Lemma parseRawPeers_total (s : option string) : parseRawPeers s <> Panicked.
Proof.
  assert (forall l acc, parse_peers l acc <> Panicked) as Hp.
  { intros l. induction l as [|x l IH]; intros acc; [done|]. cbn [parse_peers]. unfold parse_peer. by repeat case_match. }
  unfold parseRawPeers. destruct s as [s|]; [|done]. destruct (blank s); [done|]. specialize (Hp (Split ","%char s) []). by repeat case_match.
Qed.

Lemma NewDiscoveryService_spec (me : Peer) (ns : string) (o : DiscoveryOptions) :
  match NewDiscoveryService me ns o with
  | Ok _ => discoverable o
  | Err _ => ~ discoverable o
  | Panicked => False
  end.
Proof.
  unfold NewDiscoveryService, discoverable, newStaticDiscovery, newDynamicDiscovery.
  destruct (do_Mode o); [|unfold cluster_size_ok; destruct (Z.eqb_spec (do_ExpectedCount o) 3), (Z.eqb_spec (do_ExpectedCount o) 5); simpl; tauto|tauto].
  pose proof (parseRawPeers_total (do_Peers o)) as Ht. destruct (parseRawPeers (do_Peers o)) as [ps|e|] eqn:Ep; [| |done].
  - destruct (do_Peers o) as [s|]; [|done]. apply parseRawPeers_iff in Ep as (-> & ? & ?). by exists ps.
  - intros (ps & Hs & H). rewrite Hs in Ep. rewrite (proj2 (parseRawPeers_iff _ ps)) in Ep by tauto. done.
Qed.

Lemma node_initStorage_Ok (now : Z) (cfg : Config) (e : E) :
  OTOptions_Check (OtOpts (cfg_Json cfg)) = None -> is_Ok (NewStore (StorageOpts (cfg_Json cfg))) ->
  exists f, node_initStorage now cfg e = (e, Ok f) /\ f_commit_obs f = [NewWatchHub] /\ f_writeObservers f = [].
Proof.
  intros Ho [s Hs]. unfold node_initStorage, backend_New. rewrite Hs.
  destruct (initStorage_Ok (NodeID (cfg_Me cfg)) now (Backend.New s) _ Ho) as (f & r & Hf).
  exists (set_observers [NewWatchHub] [] f). unfold mbind, M_bind, lift. by rewrite Hf.
Qed.

(** A node as New leaves it: built for this configuration and not started. *)
Record new_node (cfg : Config) (bn : BuiltNode) : Prop := {
  nn_fresh : fresh_node (bn_node bn);
  nn_me : n_Me (bn_node bn) = cfg_Me cfg /\ n_Bootstrap (bn_node bn) = cfg_Bootstrap cfg;
  nn_observers : leadershipObservers (n_watcher (bn_node bn)) = [RefCheckpoint; RefExpiry; RefCompaction] /\ n_observing (bn_node bn) = true;
  nn_writes : last (f_writeObservers (bn_fsm bn)) = Some (n_compaction (bn_node bn));
  nn_peers : peerMap (bn_raftSvc bn) = None;
  nn_http : me (bn_http bn) = cfg_Me cfg /\ adminAuthToken (bn_http bn) = cfg_AdminAuthToken cfg /\ killed (bn_http bn) = O;
  nn_discovery : discoverable (PeerDiscoveryOptions (cfg_Json cfg)) }.

Lemma initRaft_watcher (cfg : Config) (f f' : fsm) (e e' : E) (r : R) (deps : RaftDependencies) (w : RaftEventWatcher) :
  initRaft cfg f e = (e', Ok (f', r, deps, w)) -> w = NewRaftEventWatcher (NodeID (cfg_Me cfg)).
Proof.
  unfold initRaft. destruct (cfg_RaftCfg cfg) as [rc|]; [|done]. unfold mbind, M_bind.
  destruct (NewRaftDependencies cfg e) as [e1 [d|er|]]; [|done..]. destruct (NewRaft _ f _ _ _ _ e1) as [e2 [[f2 r2]|er|]]; [|done..].
  by intros [= _ _ _ _ <-].
Qed.

(** The branches of New once the storage is there. *)
Lemma node_New_cases (now : Z) (cfg : Config) (e e1 : E) (f : fsm) :
  node_initStorage now cfg e = (e1, Ok f) ->
  match node_New now cfg e with
  | (e', Ok bn) => new_node cfg bn /\ exists f' r deps w, initRaft cfg f e1 = (e', Ok (f', r, deps, w))
  | (e', Err er) =>
      er = errMsg "failed to setup raft" /\ (exists er', initRaft cfg f e1 = (e', Err er')) \/
      er = errMsg "failed to setup services" /\ ~ discoverable (PeerDiscoveryOptions (cfg_Json cfg)) /\
        exists f' r deps w, initRaft cfg f e1 = (e', Ok (f', r, deps, w))
  | (e', Panicked) => initRaft cfg f e1 = (e', Panicked)
  end.
Proof.
  intros Hs. unfold node_New, errorf_v, mbind, M_bind. rewrite Hs.
  destruct (initRaft cfg f e1) as [e2 [[[[f1 r] deps] w]|er|]] eqn:Hr; [|by left; eauto|done].
  unfold initServices, lift, mbind, M_bind.
  pose proof (NewDiscoveryService_spec (cfg_Me cfg) (cfg_PodNamespace cfg) (PeerDiscoveryOptions (cfg_Json cfg))) as Hd.
  destruct (NewDiscoveryService _ _ _) as [d|er|]; [|by right; eauto 10|done]. split; [|by eauto 10].
  apply initRaft_watcher in Hr as ->. split; try done. cbn. apply last_snoc.
Qed.

(** What becomes of a loaded configuration. When LoadConfig accepts the configuration and its store opens, New
    either gives a node that has been built for it and not started, with all three background loops told of
    leadership and the compaction scheduler told of writes; or it fails because Raft's own stores, transport or
    start failed; or, with Raft already running, it fails because the peer options cannot be used, and it does so exactly for the
    options that name neither three nor five well-formed peers, which loading does not check. *)
Theorem loaded_config_built (now : Z) (parsed : option error) (fl : Flags) (file : res ConfigJson) (cfg : Config) (e : E) :
  LoadConfig parsed fl file = Ok cfg -> is_Ok (NewStore (StorageOpts (cfg_Json cfg))) ->
  exists f, node_initStorage now cfg e = (e, Ok f) /\ f_commit_obs f = [NewWatchHub] /\
    match initRaft cfg f e with
    | (e', Ok _) =>
        (discoverable (PeerDiscoveryOptions (cfg_Json cfg)) /\ exists bn, node_New now cfg e = (e', Ok bn) /\ new_node cfg bn) \/
        (~ discoverable (PeerDiscoveryOptions (cfg_Json cfg)) /\ node_New now cfg e = (e', Err (errMsg "failed to setup services")))
    | (e', Err _) => node_New now cfg e = (e', Err (errMsg "failed to setup raft"))
    | (e', Panicked) => node_New now cfg e = (e', Panicked)
    end.
Proof using Type.
  intros [Hc _]%LoadConfig_checked Hs. apply checked_parts in Hc as [Ho _].
  destruct (node_initStorage_Ok now cfg e Ho Hs) as (f & Hf & Hhub & _). exists f. split_and!; [done..|].
  pose proof (node_New_cases now cfg e e f Hf) as Hn. destruct (node_New now cfg e) as [e1 [bn|er|]].
  - destruct Hn as [Hn (f' & r & deps & w & ->)]. left. split; [apply Hn|by eauto].
  - destruct Hn as [[-> [er' ->]]|(-> & Hd & f' & r & deps & w & ->)]; [done|by right].
  - by rewrite Hn.
Qed.

(** The server process never reports success: whatever the configuration, the environment and the way it is
    stopped, also by a signal followed by an orderly shutdown, it ends with a status other than 0. *)
Theorem kave_never_clean {EG : ErrGroup} (loaded : res Config) (now : Z) (e : E) (c : Z) :
  kave_main loaded now e (Exit c) -> c <> 0.
Proof using Type.
  intros H. remember (Exit c) as x eqn:Ex. destruct H as [|cfg|cfg|cfg|cfg bn found lead st0 st r _ Hb Hrun Hst Hr]; simplify_eq; try done.
  assert (fresh_node (bn_node bn)) as Hf.
  { destruct (node_initStorage now cfg e) as [e1 [f|er|]] eqn:Hs.
    1: pose proof (node_New_cases now cfg e e1 f Hs) as Hn. destruct (node_New now cfg e) as [e2 r2]. cbn in Hb. subst r2. apply Hn.
    all: unfold node_New, errorf_v, mbind, M_bind in Hb; by rewrite Hs in Hb. }
  assert (st0 = run_init lead (bn_node bn)) as ->.
  { unfold run_start, lift, mbind, M_bind in Hrun. destruct found as [ps|er|]; [|done..].
    destruct (RegisterPeers ps _) as [s' [u|er|]]; [|done..]. by injection Hrun as <-. }
  by destruct (run_never_clean lead _ _ _ Hf Hst Hr) as [er ->].
Qed.
End NodeInit.

(** ** Witness *)

(** A library that opens everything, with a Raft that starts on its state machine. *)
#[export] Instance plain_raft {Layer FSM} : RaftOpen (list string) Layer unit unit string FSM RaftConfig := {
  NewInmemStore := tt; NewInmemSnapshotStore := tt; NewInmemTransport := id;
  NewBoltStore := fun '(d, n) e => ((d +:+ "/" +:+ n) :: e, Ok tt); NewFileSnapshotStore := fun d _ e => (d :: e, Ok tt);
  NewNetworkTransport := fun _ _ _ => "tls"; NewRaft := fun c f _ _ _ _ e => (e, Ok (f, c)) }.

Definition cj_of (o : DiscoveryOptions) : ConfigJson :=
  mkConfigJson (mkLogOpts "text" "warn") (mkOptions 128 1024) o (mkSO "data" StorageKindInMemory [])
    CompactionDefaultOptions (mkOTOpts 32 64 60) 5 (NewRateLimiterConfig 10 10, NewRateLimiterConfig 10 10) (mkMtls "c" "k" "ca").
Definition new_inmem : Config -> M (list string) (BuiltNode (T := list keyIndex) (St := InmemStore (list Item)) (B := inmemBatch)) :=
  node_New (TL := plain_tls) (Logs := unit) (Snaps := unit) (Trans := string) (R := RaftConfig) (L := unit) false Inmem.NewStore 0.
Definition loaded (o : DiscoveryOptions) : res Config := LoadConfig None flags1 (Ok (cj_of o)).

Example built_files :
  match loaded (mkDiscovery DiscoveryModeDynamic None 3) with
  | Ok cfg => (new_inmem cfg []).1
  | _ => []
  end = ["0.0.0.0:7000"; "data"; "data/stablestore.db"; "data/logstore.db"].
Proof. vm_compute. reflexivity. Qed.

Definition four : DiscoveryOptions := mkDiscovery DiscoveryModeDynamic None 4.
Lemma loaded_config_built_witness :
  exists cfg, loaded four = Ok cfg /\ (new_inmem cfg []).2 = Err (errMsg "failed to setup services") /\
    (new_inmem cfg []).1 = ["0.0.0.0:7000"; "data"; "data/stablestore.db"; "data/logstore.db"].
Proof.
  destruct (loaded four) as [cfg|er|] eqn:El; [|vm_compute in El; discriminate..]. exists cfg. split; [reflexivity|].
  assert (cfg = match loaded four with Ok c => c | _ => cfg end) as Ec by by rewrite El.
  destruct (loaded_config_built (TL := plain_tls) (L := unit) false Inmem.NewStore 0 _ _ _ cfg [] El) as (f & _ & _ & H);
    [rewrite Ec; vm_compute; by eexists|].
  assert (exists x, initRaft (TL := plain_tls) (RO := plain_raft) false cfg f [] = (["0.0.0.0:7000"; "data"; "data/stablestore.db"; "data/logstore.db"], Ok x)) as [x Hx]
    by (rewrite Ec; eexists; vm_compute; reflexivity).
  rewrite Hx in H. destruct H as [[Hd _]|[_ H]]; [rewrite Ec in Hd; by destruct Hd|].
  unfold new_inmem. rewrite H. split; reflexivity.
Defined.
(** The process that loads it ends with status 1. *)
Lemma kave_never_clean_witness :
  kave_main (TL := plain_tls) (Logs := unit) (Snaps := unit) (Trans := string) (R := RaftConfig) (L := unit) (T := list keyIndex)
    false Inmem.NewStore (loaded four) 0 [] (Exit 1) /\ (1 <> 0).
Proof.
  assert (kave_main (TL := plain_tls) (Logs := unit) (Snaps := unit) (Trans := string) (R := RaftConfig) (L := unit) (T := list keyIndex)
    false Inmem.NewStore (loaded four) 0 [] (Exit 1)) as H.
  { destruct loaded_config_built_witness as (cfg & Hl & Hn & _). exact (main_new_fails _ _ _ _ _ cfg _ Hl Hn). }
  split; [exact H|exact (kave_never_clean _ _ _ _ _ _ H)].
Defined.
